(** * The inventory folder view: LLFolderViewItem, LLFolderViewFolder, LLFolderView

    A shallow embedding of the filtering, arrangement, selection and
    navigation code of [indra/newview/llfolderviewitem.cpp] and
    [indra/newview/llfolderview.cpp].

    Representation.
    - The widget tree is a value of type [LLFolderViewFolder]: a folder owns
      the list [mFolders] of its sub-folders and the list [mItems] of its
      leaf items, in their display order.
    - A pointer to a node is the node's position in the tree ([NodeRef]): the
      [mFolders] indices leading from the root to a folder, followed for a
      leaf by its index in [mItems].  [mParentFolder] of a node is the
      position with the last step removed; the root has none.
    - Code that only walks down ([filter], [arrange]) is a structural
      recursion on the tree; what such code does to its ancestors
      ([requestArrange]) is handed back to the caller as a flag, and the
      caller applies it to itself.  Code that follows [mParentFolder]
      (selection counters, navigation) works on the whole tree and positions.
    - S32 values are integers [Z]; signed overflow (undefined in C++) is not
      modelled.  F32 values belong to an abstract carrier with the operations
      the code uses ([Float32]); exact rationals give one instance.
    - Drawing state (labels' styles, status text, string match offset, the
      current-selection highlight, rectangles) is left out. *)

From Stdlib Require Import ZArith List Bool Lia QArith Qround Qabs Lqa.
From stdpp Require Import gmap list strings.

Local Open Scope Z_scope.

(** ** Single precision values

    [mCurHeight] and [mTargetHeight] are F32.  The code converts S32 to F32,
    adds, takes [llmax], interpolates with [lerp], rounds with [llround] and
    tests [llabs(a - b) > 1.f]. *)
Class Float32 := {
  F32 : Type;
  F32_of_S32 : Z -> F32;
  F32_add : F32 -> F32 -> F32;
  F32_max : F32 -> F32 -> F32;
  lerp : F32 -> F32 -> F32 -> F32;
  llround : F32 -> Z;
  absdiff_gt_one : F32 -> F32 -> bool;
}.

(** Exact rational arithmetic as one implementation of the interface. *)
Definition Q_lerp (a b u : Q) : Q := (a + (b - a) * u)%Q.
Definition Q_llround (a : Q) : Z := Qfloor (a + (1 # 2))%Q.
Definition Q_absdiff_gt_one (a b : Q) : bool :=
  negb (Qle_bool (Qabs (a - b)%Q) (1 # 1)).
Definition Q_max (a b : Q) : Q := if Qle_bool a b then b else a.

Definition QFloat32 : Float32 := {|
  F32 := Q;
  F32_of_S32 := inject_Z;
  F32_add := Qplus;
  F32_max := Q_max;
  lerp := Q_lerp;
  llround := Q_llround;
  absdiff_gt_one := Q_absdiff_gt_one;
|}.

(** ** Identifiers and listeners *)

(** LLUUID: a 128 bit identifier; the null id is zero. *)
Definition LLUUID := N.
Definition isNull (id : LLUUID) : bool := (id =? 0)%N.

(** What the code asks of a node's LLFolderViewEventListener. *)
Record LLFolderViewEventListener := {
  getUUID : LLUUID;
  getName : string;
  isItemRemovable : bool;
}.

(** ** Nodes *)

Record LLFolderViewItem := mkItem {
  mLabel : string;
  mListener : option LLFolderViewEventListener;
  mIsSelected : bool;
  mVisible : bool;                (* LLView::getVisible *)
  mPassedFilter : bool;
  mLastFilterGeneration : Z;
  mHasVisibleChildren : bool;
  mIndentation : Z;
  mLabelWidth : Z;
  mItemHeight : Z;                (* getItemHeight(): icon and font metrics *)
}.

Definition setVisible (v : bool) (it : LLFolderViewItem) : LLFolderViewItem :=
  {| mLabel := mLabel it; mListener := mListener it; mIsSelected := mIsSelected it;
     mVisible := v; mPassedFilter := mPassedFilter it;
     mLastFilterGeneration := mLastFilterGeneration it;
     mHasVisibleChildren := mHasVisibleChildren it; mIndentation := mIndentation it;
     mLabelWidth := mLabelWidth it; mItemHeight := mItemHeight it |}.

Definition set_mIsSelected (v : bool) (it : LLFolderViewItem) : LLFolderViewItem :=
  {| mLabel := mLabel it; mListener := mListener it; mIsSelected := v;
     mVisible := mVisible it; mPassedFilter := mPassedFilter it;
     mLastFilterGeneration := mLastFilterGeneration it;
     mHasVisibleChildren := mHasVisibleChildren it; mIndentation := mIndentation it;
     mLabelWidth := mLabelWidth it; mItemHeight := mItemHeight it |}.

Definition set_mLastFilterGeneration (g : Z) (it : LLFolderViewItem) : LLFolderViewItem :=
  {| mLabel := mLabel it; mListener := mListener it; mIsSelected := mIsSelected it;
     mVisible := mVisible it; mPassedFilter := mPassedFilter it;
     mLastFilterGeneration := g;
     mHasVisibleChildren := mHasVisibleChildren it; mIndentation := mIndentation it;
     mLabelWidth := mLabelWidth it; mItemHeight := mItemHeight it |}.

Definition set_mPassedFilter (v : bool) (it : LLFolderViewItem) : LLFolderViewItem :=
  {| mLabel := mLabel it; mListener := mListener it; mIsSelected := mIsSelected it;
     mVisible := mVisible it; mPassedFilter := v;
     mLastFilterGeneration := mLastFilterGeneration it;
     mHasVisibleChildren := mHasVisibleChildren it; mIndentation := mIndentation it;
     mLabelWidth := mLabelWidth it; mItemHeight := mItemHeight it |}.

Definition set_mHasVisibleChildren (v : bool) (it : LLFolderViewItem) : LLFolderViewItem :=
  {| mLabel := mLabel it; mListener := mListener it; mIsSelected := mIsSelected it;
     mVisible := mVisible it; mPassedFilter := mPassedFilter it;
     mLastFilterGeneration := mLastFilterGeneration it;
     mHasVisibleChildren := v; mIndentation := mIndentation it;
     mLabelWidth := mLabelWidth it; mItemHeight := mItemHeight it |}.

Definition set_mIndentation (v : Z) (it : LLFolderViewItem) : LLFolderViewItem :=
  {| mLabel := mLabel it; mListener := mListener it; mIsSelected := mIsSelected it;
     mVisible := mVisible it; mPassedFilter := mPassedFilter it;
     mLastFilterGeneration := mLastFilterGeneration it;
     mHasVisibleChildren := mHasVisibleChildren it; mIndentation := v;
     mLabelWidth := mLabelWidth it; mItemHeight := mItemHeight it |}.

(** void LLFolderViewItem::setFiltered(BOOL filtered, S32 filter_generation) *)
Definition Item_setFiltered (filtered : bool) (filter_generation : Z)
    (it : LLFolderViewItem) : LLFolderViewItem :=
  set_mLastFilterGeneration filter_generation (set_mPassedFilter filtered it).

(** BOOL LLFolderViewItem::getFiltered(S32 filter_generation) *)
Definition getFiltered (it : LLFolderViewItem) (filter_generation : Z) : bool :=
  mPassedFilter it && (filter_generation <=? mLastFilterGeneration it).

(** ** Positions in the tree *)

Inductive NodeRef : Type :=
  | RFolder (p : list nat)
  | RItem (p : list nat) (j : nat).

#[export] Instance NodeRef_eq_dec : EqDecision NodeRef.
Proof. solve_decision. Defined.

Definition root_ref : NodeRef := RFolder [].

(** The position reached from folder [here] by the relative position [r]. *)
Definition ref_under (here : list nat) (r : NodeRef) : NodeRef :=
  match r with
  | RFolder p => RFolder (here ++ p)
  | RItem p j => RItem (here ++ p) j
  end.

(** ** The filter

    LLInventoryFilter is declared outside these two files.  The folder view
    reads its three generations, its show-folder state and whether it is the
    default filter, and it reads and decrements its per-frame count
    ([getFilterCount], [decrementFilterCount]).  [checked] is instrumentation:
    the positions on which [check] was called, latest first. *)
Inductive EFolderShow := SHOW_ALL_FOLDERS | SHOW_NON_EMPTY_FOLDERS | SHOW_NO_FOLDERS.

#[export] Instance EFolderShow_eq_dec : EqDecision EFolderShow.
Proof. solve_decision. Defined.

Record LLInventoryFilter := mkFilter {
  getCurrentGeneration : Z;
  getMinRequiredGeneration : Z;
  getMustPassGeneration : Z;
  getFilterCount : Z;
  isNotDefault : bool;
  getShowFolderState : EFolderShow;
  checked : list NodeRef;
}.

Definition setFilterCount (c : Z) (flt : LLInventoryFilter) : LLInventoryFilter :=
  {| getCurrentGeneration := getCurrentGeneration flt;
     getMinRequiredGeneration := getMinRequiredGeneration flt;
     getMustPassGeneration := getMustPassGeneration flt;
     getFilterCount := c;
     isNotDefault := isNotDefault flt;
     getShowFolderState := getShowFolderState flt;
     checked := checked flt |}.

Definition decrementFilterCount (flt : LLInventoryFilter) : LLInventoryFilter :=
  setFilterCount (getFilterCount flt - 1) flt.

Definition record_check (r : NodeRef) (flt : LLInventoryFilter) : LLInventoryFilter :=
  {| getCurrentGeneration := getCurrentGeneration flt;
     getMinRequiredGeneration := getMinRequiredGeneration flt;
     getMustPassGeneration := getMustPassGeneration flt;
     getFilterCount := getFilterCount flt;
     isNotDefault := isNotDefault flt;
     getShowFolderState := getShowFolderState flt;
     checked := r :: checked flt |}.

(** llclamp(a, minval, maxval) *)
Definition llclamp (a minval maxval : Z) : Z :=
  if a <? minval then minval else if maxval <? a then maxval else a.

Section WithFloat32.
Context {fl : Float32}.

(** The members LLFolderViewFolder adds to LLFolderViewItem. *)
Record FolderMembers := mkMembers {
  mNumDescendantsSelected : Z;
  mIsOpen : bool;
  mCurHeight : F32;
  mTargetHeight : F32;
  mLastArrangeGeneration : Z;
  mLastCalculatedWidth : Z;
  mCompletedFilterGeneration : Z;
  mMostFilteredDescendantGeneration : Z;
}.

#[local] Unset Elimination Schemes.
Inductive LLFolderViewFolder : Type :=
  Folder (self : LLFolderViewItem) (members : FolderMembers)
         (mFolders : list LLFolderViewFolder) (mItems : list LLFolderViewItem).
#[local] Set Elimination Schemes.

Definition self (f : LLFolderViewFolder) : LLFolderViewItem :=
  match f with Folder b _ _ _ => b end.
Definition members (f : LLFolderViewFolder) : FolderMembers :=
  match f with Folder _ d _ _ => d end.
Definition mFolders (f : LLFolderViewFolder) : list LLFolderViewFolder :=
  match f with Folder _ _ fs _ => fs end.
Definition mItems (f : LLFolderViewFolder) : list LLFolderViewItem :=
  match f with Folder _ _ _ its => its end.

Definition set_mNumDescendantsSelected (v : Z) (d : FolderMembers) : FolderMembers :=
  {| mNumDescendantsSelected := v; mIsOpen := mIsOpen d; mCurHeight := mCurHeight d;
     mTargetHeight := mTargetHeight d; mLastArrangeGeneration := mLastArrangeGeneration d;
     mLastCalculatedWidth := mLastCalculatedWidth d;
     mCompletedFilterGeneration := mCompletedFilterGeneration d;
     mMostFilteredDescendantGeneration := mMostFilteredDescendantGeneration d |}.

Definition set_mIsOpen (v : bool) (d : FolderMembers) : FolderMembers :=
  {| mNumDescendantsSelected := mNumDescendantsSelected d; mIsOpen := v;
     mCurHeight := mCurHeight d;
     mTargetHeight := mTargetHeight d; mLastArrangeGeneration := mLastArrangeGeneration d;
     mLastCalculatedWidth := mLastCalculatedWidth d;
     mCompletedFilterGeneration := mCompletedFilterGeneration d;
     mMostFilteredDescendantGeneration := mMostFilteredDescendantGeneration d |}.

Definition set_mCurHeight (v : F32) (d : FolderMembers) : FolderMembers :=
  {| mNumDescendantsSelected := mNumDescendantsSelected d; mIsOpen := mIsOpen d;
     mCurHeight := v;
     mTargetHeight := mTargetHeight d; mLastArrangeGeneration := mLastArrangeGeneration d;
     mLastCalculatedWidth := mLastCalculatedWidth d;
     mCompletedFilterGeneration := mCompletedFilterGeneration d;
     mMostFilteredDescendantGeneration := mMostFilteredDescendantGeneration d |}.

Definition set_mTargetHeight (v : F32) (d : FolderMembers) : FolderMembers :=
  {| mNumDescendantsSelected := mNumDescendantsSelected d; mIsOpen := mIsOpen d;
     mCurHeight := mCurHeight d;
     mTargetHeight := v; mLastArrangeGeneration := mLastArrangeGeneration d;
     mLastCalculatedWidth := mLastCalculatedWidth d;
     mCompletedFilterGeneration := mCompletedFilterGeneration d;
     mMostFilteredDescendantGeneration := mMostFilteredDescendantGeneration d |}.

Definition set_mLastArrangeGeneration (v : Z) (d : FolderMembers) : FolderMembers :=
  {| mNumDescendantsSelected := mNumDescendantsSelected d; mIsOpen := mIsOpen d;
     mCurHeight := mCurHeight d;
     mTargetHeight := mTargetHeight d; mLastArrangeGeneration := v;
     mLastCalculatedWidth := mLastCalculatedWidth d;
     mCompletedFilterGeneration := mCompletedFilterGeneration d;
     mMostFilteredDescendantGeneration := mMostFilteredDescendantGeneration d |}.

Definition set_mLastCalculatedWidth (v : Z) (d : FolderMembers) : FolderMembers :=
  {| mNumDescendantsSelected := mNumDescendantsSelected d; mIsOpen := mIsOpen d;
     mCurHeight := mCurHeight d;
     mTargetHeight := mTargetHeight d; mLastArrangeGeneration := mLastArrangeGeneration d;
     mLastCalculatedWidth := v;
     mCompletedFilterGeneration := mCompletedFilterGeneration d;
     mMostFilteredDescendantGeneration := mMostFilteredDescendantGeneration d |}.

Definition set_mCompletedFilterGeneration (v : Z) (d : FolderMembers) : FolderMembers :=
  {| mNumDescendantsSelected := mNumDescendantsSelected d; mIsOpen := mIsOpen d;
     mCurHeight := mCurHeight d;
     mTargetHeight := mTargetHeight d; mLastArrangeGeneration := mLastArrangeGeneration d;
     mLastCalculatedWidth := mLastCalculatedWidth d;
     mCompletedFilterGeneration := v;
     mMostFilteredDescendantGeneration := mMostFilteredDescendantGeneration d |}.

Definition set_mMostFilteredDescendantGeneration (v : Z) (d : FolderMembers) : FolderMembers :=
  {| mNumDescendantsSelected := mNumDescendantsSelected d; mIsOpen := mIsOpen d;
     mCurHeight := mCurHeight d;
     mTargetHeight := mTargetHeight d; mLastArrangeGeneration := mLastArrangeGeneration d;
     mLastCalculatedWidth := mLastCalculatedWidth d;
     mCompletedFilterGeneration := mCompletedFilterGeneration d;
     mMostFilteredDescendantGeneration := v |}.

Definition set_self (b : LLFolderViewItem) (f : LLFolderViewFolder) :=
  Folder b (members f) (mFolders f) (mItems f).
Definition set_members (d : FolderMembers) (f : LLFolderViewFolder) :=
  Folder (self f) d (mFolders f) (mItems f).
Definition set_mFolders (fs : list LLFolderViewFolder) (f : LLFolderViewFolder) :=
  Folder (self f) (members f) fs (mItems f).
Definition set_mItems (its : list LLFolderViewItem) (f : LLFolderViewFolder) :=
  Folder (self f) (members f) (mFolders f) its.

(** Accessors of LLFolderViewFolder (declared in the class). *)
Definition isOpen (f : LLFolderViewFolder) : bool := mIsOpen (members f).
Definition getCompletedFilterGeneration (f : LLFolderViewFolder) : Z :=
  mCompletedFilterGeneration (members f).
Definition getLastFilterGeneration (it : LLFolderViewItem) : Z := mLastFilterGeneration it.
(** hasFilteredDescendants(S32 filter_generation) *)
Definition hasFilteredDescendants (f : LLFolderViewFolder) (filter_generation : Z) : bool :=
  filter_generation <=? mMostFilteredDescendantGeneration (members f).
(** numSelected(): the selected descendants, plus one when the folder itself
    is selected. *)
Definition numSelected (f : LLFolderViewFolder) : Z :=
  mNumDescendantsSelected (members f) + (if mIsSelected (self f) then 1 else 0).

(** ** Reading the tree at a position *)

Fixpoint get_folder (f : LLFolderViewFolder) (p : list nat) : option LLFolderViewFolder :=
  match p with
  | [] => Some f
  | i :: p' => match mFolders f !! i with
               | Some c => get_folder c p'
               | None => None
               end
  end.

Definition get_item (f : LLFolderViewFolder) (p : list nat) (j : nat)
    : option LLFolderViewItem :=
  match get_folder f p with
  | Some g => mItems g !! j
  | None => None
  end.

(** The LLFolderViewItem part of the node at a position. *)
Definition node_at (f : LLFolderViewFolder) (r : NodeRef) : option LLFolderViewItem :=
  match r with
  | RFolder p => self <$> get_folder f p
  | RItem p j => get_item f p j
  end.

(** ** Filtering *)

Section Filtering.

(** [filter.check(this)]: the filter's verdict on the node at a position. *)
Variable check : NodeRef -> LLFolderViewItem -> bool.
(** [getRoot()->needsAutoSelect()] *)
Variable needsAutoSelect : bool.

(** The first statement of LLFolderViewItem::filter:
    [BOOL filtered = mListener && filter.check(this);] *)
Definition run_check (r : NodeRef) (it : LLFolderViewItem) (flt : LLInventoryFilter)
    : bool * LLInventoryFilter :=
  match mListener it with
  | Some _ => (check r it, record_check r flt)
  | None => (false, flt)
  end.

(** void LLFolderViewItem::filter(LLInventoryFilter& filter), on a leaf.
    The third component tells whether [mParentFolder->requestArrange()] was
    called. *)
Definition Item_filter (r : NodeRef) (has_parent : bool) (it : LLFolderViewItem)
    (flt : LLInventoryFilter) : LLFolderViewItem * LLInventoryFilter * bool :=
  let '(filtered, flt1) := run_check r it flt in
  let request := negb (eqb (mVisible it) filtered) && has_parent in
  (Item_setFiltered filtered (getCurrentGeneration flt1) it,
   decrementFilterCount flt1, request).

(** void LLFolderViewFolder::setFiltered(BOOL filtered, S32 filter_generation),
    on the members of a folder *)
Definition Folder_setFiltered (filtered : bool) (filter_generation : Z)
    (b : LLFolderViewItem) (d : FolderMembers) : LLFolderViewItem * FolderMembers :=
  (Item_setFiltered filtered filter_generation b,
   if filtered && negb (mPassedFilter b) then set_mCurHeight (F32_of_S32 0) d else d).

(** LLFolderViewItem::filter called on a folder: [setFiltered] is the
    folder's. *)
Definition Folder_filter_as_item (r : NodeRef) (has_parent : bool)
    (b : LLFolderViewItem) (d : FolderMembers) (flt : LLInventoryFilter)
    : LLFolderViewItem * FolderMembers * LLInventoryFilter * bool :=
  let '(filtered, flt1) := run_check r b flt in
  let request := negb (eqb (mVisible b) filtered) && has_parent in
  let '(b1, d1) := Folder_setFiltered filtered (getCurrentGeneration flt1) b d in
  (b1, d1, decrementFilterCount flt1, request).

(** requestArrange() as far as the folder itself goes; the call on
    [mParentFolder] is the caller's. *)
Definition requestArrange_here (d : FolderMembers) : FolderMembers :=
  set_mLastArrangeGeneration (-1) d.

(** setOpenArrangeRecursively(openitem) with the default [recurse] argument
    of the declaration, RECURSE_NO: neither children nor parents are
    opened.  The flag tells whether requestArrange() ran, which then also runs
    on the parent. *)
Definition setOpenArrangeRecursively (openitem : bool) (f : LLFolderViewFolder)
    : LLFolderViewFolder * bool :=
  let was_open := mIsOpen (members f) in
  let d := set_mIsOpen openitem (members f) in
  if eqb was_open openitem then (set_members d f, false)
  else (set_members (requestArrange_here d) f, true).

(** setCompletedFilterGeneration(generation, FALSE) *)
Definition setCompletedFilterGeneration (generation : Z) (d : FolderMembers) : FolderMembers :=
  set_mCompletedFilterGeneration generation
    (set_mMostFilteredDescendantGeneration
       (Z.min (mMostFilteredDescendantGeneration d) generation) d).

(** The body shared by the two places of the folder loop that "track latest
    generation to pass any child items": called when the child passed or has
    passing descendants. *)
Definition track_passing_folder (filter_generation : Z) (folder : LLFolderViewFolder)
    (d : FolderMembers) (req : bool) : LLFolderViewFolder * FolderMembers * bool :=
  let d1 := set_mMostFilteredDescendantGeneration filter_generation d in
  if needsAutoSelect then
    let '(folder1, rq) := setOpenArrangeRecursively true folder in
    (folder1, if rq then requestArrange_here d1 else d1, req || rq)
  else (folder, d1, req).

(** The loop over [mFolders] of LLFolderViewFolder::filter.  [rec] is
    [folder->filter(filter)]; [i] is the index of the head of the list in
    [mFolders]; [d] holds the members of the folder being filtered; [req]
    records whether requestArrange() was called on it. *)
Definition filter_folders_loop
    (rec : list nat -> LLFolderViewFolder -> LLInventoryFilter ->
           LLFolderViewFolder * LLInventoryFilter * bool)
    (here : list nat)
    : nat -> list LLFolderViewFolder -> FolderMembers -> LLInventoryFilter -> bool ->
      list LLFolderViewFolder * FolderMembers * LLInventoryFilter * bool :=
  fix loop i fs d flt req :=
    match fs with
    | [] => ([], d, flt, req)
    | folder :: rest =>
      let filter_generation := getCurrentGeneration flt in
      if getFilterCount flt <? 0 then (fs, d, flt, req)
      else if filter_generation <=? getCompletedFilterGeneration folder then
        let '(folder1, d1, req1) :=
          if getFiltered (self folder) (getMinRequiredGeneration flt)
             || hasFilteredDescendants folder (getMinRequiredGeneration flt)
          then track_passing_folder filter_generation folder d req
          else (folder, d, req) in
        let '(rest', d2, flt2, req2) := loop (S i) rest d1 flt req1 in
        (folder1 :: rest', d2, flt2, req2)
      else
        let '(folder1, flt1, rq) := rec (here ++ [i]) folder flt in
        let d1 := if rq then requestArrange_here d else d in
        let '(folder2, d2, req2) :=
          if getFiltered (self folder1) (getMinRequiredGeneration flt1)
             || hasFilteredDescendants folder1 filter_generation
          then track_passing_folder filter_generation folder1 d1 (req || rq)
          else (folder1, d1, req || rq) in
        let '(rest', d3, flt3, req3) := loop (S i) rest d2 flt1 req2 in
        (folder2 :: rest', d3, flt3, req3)
    end.

(** The loop over [mItems] of LLFolderViewFolder::filter. *)
Definition filter_items_loop (here : list nat)
    : nat -> list LLFolderViewItem -> FolderMembers -> LLInventoryFilter -> bool ->
      list LLFolderViewItem * FolderMembers * LLInventoryFilter * bool :=
  fix loop j its d flt req :=
    match its with
    | [] => ([], d, flt, req)
    | item :: rest =>
      let filter_generation := getCurrentGeneration flt in
      let must_pass_generation := getMustPassGeneration flt in
      if getFilterCount flt <? 0 then (its, d, flt, req)
      else if filter_generation <=? getLastFilterGeneration item then
        let d1 := if getFiltered item (getMinRequiredGeneration flt)
                  then set_mMostFilteredDescendantGeneration filter_generation d
                  else d in
        let '(rest', d2, flt2, req2) := loop (S j) rest d1 flt req in
        (item :: rest', d2, flt2, req2)
      else if (must_pass_generation <=? getLastFilterGeneration item)
              && negb (getFiltered item must_pass_generation) then
        let '(rest', d2, flt2, req2) := loop (S j) rest d flt req in
        (Item_setFiltered false filter_generation item :: rest', d2, flt2, req2)
      else
        let '(item1, flt1, rq) := Item_filter (RItem here j) true item flt in
        let d1 := if rq then requestArrange_here d else d in
        let d2 := if getFiltered item1 (getMinRequiredGeneration flt1)
                  then set_mMostFilteredDescendantGeneration filter_generation d1
                  else d1 in
        let '(rest', d3, flt3, req3) := loop (S j) rest d2 flt1 (req || rq) in
        (item1 :: rest', d3, flt3, req3)
    end.

(** "filter folder itself": the self test of LLFolderViewFolder::filter. *)
Definition filter_folder_itself (here : list nat) (has_parent : bool)
    (b : LLFolderViewItem) (d : FolderMembers) (flt : LLInventoryFilter)
    : LLFolderViewItem * FolderMembers * LLInventoryFilter * bool :=
  if getLastFilterGeneration b <? getCurrentGeneration flt then
    if (getMustPassGeneration flt <=? getLastFilterGeneration b)
       && negb (mPassedFilter b)
    then (set_mLastFilterGeneration (getCurrentGeneration flt) b, d, flt, false)
    else Folder_filter_as_item (RFolder here) has_parent b d flt
  else (b, d, flt, false).

(** void LLFolderViewFolder::filter( LLInventoryFilter& filter), on the
    folder at position [here].  The result's flag tells whether
    requestArrange() was called on the folder's parent.  The start of a
    background fetch for a passing folder touches the inventory model only and
    is left out. *)
Fixpoint Folder_filter (here : list nat) (has_parent : bool) (f : LLFolderViewFolder)
    (flt : LLInventoryFilter) {struct f}
    : LLFolderViewFolder * LLInventoryFilter * bool :=
  match f with
  | Folder b d fs its =>
    let filter_generation := getCurrentGeneration flt in
    let must_pass_generation := getMustPassGeneration flt in
    if filter_generation <=? mCompletedFilterGeneration d then (f, flt, false)
    else
      let '(b1, d1, flt1, req1) := filter_folder_itself here has_parent b d flt in
      if (must_pass_generation <=? mCompletedFilterGeneration d1)
         && negb (must_pass_generation <=? mMostFilteredDescendantGeneration d1)
      then (Folder b1 d1 fs its, flt1, req1)
      else if getFilterCount flt1 <? 0 then (Folder b1 d1 fs its, flt1, req1)
      else
        let '(fs', d2, flt2, req2) :=
          filter_folders_loop (fun h c fl => Folder_filter h true c fl)
                              here 0%nat fs d1 flt1 false in
        let '(its', d3, flt3, req3) := filter_items_loop here 0%nat its d2 flt2 req2 in
        let d4 := if 0 <? getFilterCount flt3
                  then setCompletedFilterGeneration filter_generation d3
                  else d3 in
        (Folder b1 d4 fs' its', flt3, req1 || (req3 && has_parent))
  end.

(** void LLFolderView::filter( LLInventoryFilter& filter ): the root.
    [FilterItemsPerFrame] is the saved setting of that name. *)
Definition LLFolderView_filter (FilterItemsPerFrame : Z) (root : LLFolderViewFolder)
    (flt : LLInventoryFilter) : LLFolderViewFolder * LLInventoryFilter :=
  let flt0 := setFilterCount (llclamp FilterItemsPerFrame 1 5000) flt in
  if getCompletedFilterGeneration root <? getCurrentGeneration flt0 then
    let root1 := set_self (set_mPassedFilter false (self root)) root in
    let '(root2, flt1, _) := Folder_filter [] false root1 flt0 in
    (root2, flt1)
  else (set_self (set_mPassedFilter true (self root)) root, flt0).

End Filtering.

(** ** Writing the tree at a position *)

Fixpoint alter_folder (g : LLFolderViewFolder -> LLFolderViewFolder) (p : list nat)
    (t : LLFolderViewFolder) : LLFolderViewFolder :=
  match p with
  | [] => g t
  | i :: p' => set_mFolders (alter (alter_folder g p') i (mFolders t)) t
  end.

Definition alter_members (g : FolderMembers -> FolderMembers) (p : list nat)
    (t : LLFolderViewFolder) : LLFolderViewFolder :=
  alter_folder (fun f => set_members (g (members f)) f) p t.

Definition alter_node (g : LLFolderViewItem -> LLFolderViewItem) (r : NodeRef)
    (t : LLFolderViewFolder) : LLFolderViewFolder :=
  match r with
  | RFolder p => alter_folder (fun f => set_self (g (self f)) f) p t
  | RItem p j => alter_folder (fun f => set_mItems (alter g j (mItems f)) f) p t
  end.

(** [g] applied to the members of the folder at [p] and of each of its
    ancestors: a walk along [mParentFolder] up to the root. *)
Fixpoint alter_members_to_root (g : FolderMembers -> FolderMembers) (p : list nat)
    (t : LLFolderViewFolder) : LLFolderViewFolder :=
  let t' := set_members (g (members t)) t in
  match p with
  | [] => t'
  | i :: p' => set_mFolders (alter (alter_members_to_root g p') i (mFolders t')) t'
  end.

(** getParentFolder(): the position of [mParentFolder]; the root has none. *)
Definition getParentFolder (r : NodeRef) : option (list nat) :=
  match r with
  | RFolder [] => None
  | RFolder p => Some (removelast p)
  | RItem p _ => Some p
  end.

(** ** Selection flags and counters *)

Definition isSelected (t : LLFolderViewFolder) (r : NodeRef) : bool :=
  match node_at t r with
  | Some it => mIsSelected it
  | None => false
  end.

(** void LLFolderViewFolder::recursiveIncrementNumDescendantsSelected(S32 increment),
    called on the folder at [p]: the do-while loop adds [increment] to the
    counter of that folder and of every ancestor. *)
Definition recursiveIncrementNumDescendantsSelected (increment : Z) (p : list nat)
    (t : LLFolderViewFolder) : LLFolderViewFolder :=
  alter_members_to_root
    (fun d => set_mNumDescendantsSelected (mNumDescendantsSelected d + increment) d) p t.

(** The body of selectItem and deselectItem: the flag, then the counters of
    the ancestors. *)
Definition set_selected_and_count (selected : bool) (increment : Z) (r : NodeRef)
    (t : LLFolderViewFolder) : LLFolderViewFolder :=
  let t1 := alter_node (set_mIsSelected selected) r t in
  match getParentFolder r with
  | Some parent_folder =>
    recursiveIncrementNumDescendantsSelected increment parent_folder t1
  | None => t1
  end.

(** void LLFolderViewItem::selectItem(void), on the node at [r].
    [llassert(!mIsSelected)] is the caller's duty.  A position that names no
    node stands for a dangling pointer, whose use is undefined in the source;
    the tree is then left as it is. *)
Definition selectItem (r : NodeRef) (t : LLFolderViewFolder) : LLFolderViewFolder :=
  match node_at t r with
  | Some _ => set_selected_and_count true 1 r t
  | None => t
  end.

(** void LLFolderViewItem::deselectItem(void), on the node at [r].
    [llassert(mIsSelected)] is the caller's duty. *)
Definition deselectItem (r : NodeRef) (t : LLFolderViewFolder) : LLFolderViewFolder :=
  match node_at t r with
  | Some _ => set_selected_and_count false (-1) r t
  | None => t
  end.

(** A loop over the sub-folders of a folder, with their indices.  The loops
    of the selection code do not add or remove children, so they run over
    the list as it was on entry while the tree they update is threaded
    through. *)
Definition for_each_folder {S : Type} (body : nat -> LLFolderViewFolder -> S -> S)
    : nat -> list LLFolderViewFolder -> S -> S :=
  fix go i cs s :=
    match cs with
    | [] => s
    | c :: cs' => go (Datatypes.S i) cs' (body i c s)
    end.

(** A loop over the items of a folder, by index. *)
Definition for_each_item {S : Type} (body : nat -> S -> S) (n : nat) (s : S) : S :=
  fold_left (fun s j => body j s) (seq 0 n) s.

Definition numDescendantsSelected_at (t : LLFolderViewFolder) (p : list nat) : Z :=
  match get_folder t p with
  | Some g => mNumDescendantsSelected (members g)
  | None => 0
  end.

(** void LLFolderViewFolder::recursiveDeselect(BOOL deselect_self), on the
    folder at [this]; [shape] is that folder as it was on entry. *)
Fixpoint recursiveDeselect (shape : LLFolderViewFolder) (this : list nat)
    (deselect_self : bool) (t : LLFolderViewFolder) {struct shape} : LLFolderViewFolder :=
  let t1 := if isSelected t (RFolder this) && deselect_self
            then deselectItem (RFolder this) t else t in
  if numDescendantsSelected_at t1 this =? 0 then t1
  else
    let t2 := for_each_item
                (fun j t => if isSelected t (RItem this j)
                            then deselectItem (RItem this j) t else t)
                (length (mItems shape)) t1 in
    for_each_folder (fun i c t => recursiveDeselect c (this ++ [i]) true t)
                    0%nat (mFolders shape) t2.

(** BOOL LLFolderViewItem::changeSelection(LLFolderViewItem* selection, BOOL selected),
    on the leaf at [this] *)
Definition Item_changeSelection (this : NodeRef) (selection : NodeRef) (selected : bool)
    (t : LLFolderViewFolder) : LLFolderViewFolder * bool :=
  if bool_decide (selection = this) && negb (eqb (isSelected t this) selected) then
    ((if isSelected t this then deselectItem this t else selectItem this t), true)
  else (t, false).

(** BOOL LLFolderViewFolder::changeSelection(LLFolderViewItem* selection, BOOL selected),
    on the folder at [this] *)
Fixpoint Folder_changeSelection (shape : LLFolderViewFolder) (this : list nat)
    (selection : NodeRef) (selected : bool) (t : LLFolderViewFolder) {struct shape}
    : LLFolderViewFolder * bool :=
  let '(t1, rv1) :=
    if bool_decide (selection = RFolder this) then
      if negb (eqb (isSelected t (RFolder this)) selected) then
        ((if selected then selectItem (RFolder this) t
          else deselectItem (RFolder this) t), true)
      else (t, false)
    else (t, false) in
  let '(t2, rv2) :=
    for_each_folder
      (fun i c '(t, rv) =>
         let '(t', r) := Folder_changeSelection c (this ++ [i]) selection selected t in
         (t', if r then true else rv))
      0%nat (mFolders shape) (t1, rv1) in
  for_each_item
    (fun j '(t, rv) =>
       let '(t', r) := Item_changeSelection (RItem this j) selection selected t in
       (t', if r then true else rv))
    (length (mItems shape)) (t2, rv2).

(** requestArrange() on the folder at [p], without descendants: the folder
    and all its ancestors need arranging. *)
Definition requestArrange_at (p : list nat) (t : LLFolderViewFolder) : LLFolderViewFolder :=
  alter_members_to_root (set_mLastArrangeGeneration (-1)) p t.

(** setOpenArrangeRecursively(openitem), default RECURSE_NO, on the folder
    at [p] of the tree. *)
Definition setOpenArrangeRecursively_at (p : list nat) (openitem : bool)
    (t : LLFolderViewFolder) : LLFolderViewFolder :=
  match get_folder t p with
  | Some g =>
    let t1 := alter_members (set_mIsOpen openitem) p t in
    if eqb (mIsOpen (members g)) openitem then t1 else requestArrange_at p t1
  | None => t
  end.

(** BOOL LLFolderViewItem::setSelection(selection, openitem, take_keyboard_focus),
    on the leaf at [this]; [selection] may be NULL. *)
Definition Item_setSelection (this : NodeRef) (selection : option NodeRef)
    (t : LLFolderViewFolder) : LLFolderViewFolder * bool :=
  let t1 :=
    if bool_decide (selection = Some this) && negb (isSelected t this)
    then selectItem this t
    else if isSelected t this then deselectItem this t else t in
  (t1, isSelected t1 this).

(** BOOL LLFolderViewFolder::setSelection(selection, openitem, take_keyboard_focus),
    on the folder at [this] *)
Fixpoint Folder_setSelection (shape : LLFolderViewFolder) (this : list nat)
    (selection : option NodeRef) (openitem : bool) (t : LLFolderViewFolder)
    {struct shape} : LLFolderViewFolder * bool :=
  let '(t1, rv1) :=
    if bool_decide (selection = Some (RFolder this)) then
      ((if isSelected t (RFolder this) then t else selectItem (RFolder this) t), true)
    else
      ((if isSelected t (RFolder this) then deselectItem (RFolder this) t else t), false) in
  let '(t2, rv2, child_selected2) :=
    for_each_folder
      (fun i c '(t, rv, child_selected) =>
         let '(t', r) := Folder_setSelection c (this ++ [i]) selection openitem t in
         if r then (t', true, true) else (t', rv, child_selected))
      0%nat (mFolders shape) (t1, rv1, false) in
  let '(t3, rv3, child_selected3) :=
    for_each_item
      (fun j '(t, rv, child_selected) =>
         let '(t', r) := Item_setSelection (RItem this j) selection t in
         if r then (t', true, true) else (t', rv, child_selected))
      (length (mItems shape)) (t2, rv2, child_selected2) in
  ((if openitem && child_selected3 then setOpenArrangeRecursively_at this true t3 else t3),
   rv3).


(** ** Invalidation *)

Definition completedFilterGeneration_at (t : LLFolderViewFolder) (p : list nat) : Z :=
  match get_folder t p with
  | Some g => getCompletedFilterGeneration g
  | None => 0
  end.

(** setCompletedFilterGeneration(generation, TRUE) on the folder whose
    position, read from the folder up to the root, is [rp]: the recursion
    goes on to the parent while the parent's completed generation is
    larger. *)
Fixpoint setCompletedFilterGeneration_up (generation : Z) (rp : list nat)
    (t : LLFolderViewFolder) : LLFolderViewFolder :=
  let t1 := alter_members (setCompletedFilterGeneration generation) (rev rp) t in
  match rp with
  | [] => t1
  | _ :: rp' =>
    if generation <? completedFilterGeneration_at t1 (rev rp')
    then setCompletedFilterGeneration_up generation rp' t1
    else t1
  end.

(** void LLFolderViewItem::dirtyFilter() *)
Definition Item_dirtyFilter (r : NodeRef) (t : LLFolderViewFolder) : LLFolderViewFolder :=
  let t1 := alter_node (set_mLastFilterGeneration (-1)) r t in
  match getParentFolder r with
  | Some parent_folder => setCompletedFilterGeneration_up (-1) (rev parent_folder) t1
  | None => t1
  end.

(** void LLFolderViewFolder::dirtyFilter() *)
Definition Folder_dirtyFilter (p : list nat) (t : LLFolderViewFolder) : LLFolderViewFolder :=
  Item_dirtyFilter (RFolder p) (alter_members (setCompletedFilterGeneration (-1)) p t).

(** requestArrange(TRUE) as far as the folder and its descendants go. *)
Fixpoint requestArrange_descendants (f : LLFolderViewFolder) : LLFolderViewFolder :=
  match f with
  | Folder b d fs its =>
    Folder b (set_mLastArrangeGeneration (-1) d) (map requestArrange_descendants fs) its
  end.

(** ** Taking nodes out of a folder and putting nodes in *)

Inductive Node : Type :=
  | NItem (it : LLFolderViewItem)
  | NFolder (f : LLFolderViewFolder).

(** The index of the folder at [q] among the sub-folders of the folder at
    [this], when it is one of them. *)
Definition child_index (this q : list nat) : option nat :=
  match rev q with
  | i :: rq => if bool_decide (rev rq = this) then Some i else None
  | [] => None
  end.

(** void LLFolderViewFolder::extractItem( LLFolderViewItem* item ), on the
    folder at [this].  The node is looked for among the items, then among
    the folders; the one taken out is handed back.  The id index of the root
    is not part of the tree and is not updated here. *)
Definition extractItem (this : list nat) (item : NodeRef) (t : LLFolderViewFolder)
    : LLFolderViewFolder * option Node :=
  let '(t1, taken) :=
    match item with
    | RItem p j =>
      match (if bool_decide (p = this) then get_item t this j else None) with
      | Some it =>
        let t' := if mIsSelected it
                  then recursiveIncrementNumDescendantsSelected (-1) this t else t in
        (alter_folder (fun f => set_mItems (delete j (mItems f)) f) this t',
         Some (NItem it))
      | None => (t, None)
      end
    | RFolder q =>
      match child_index this q with
      | Some i =>
        match get_folder t q with
        | Some c =>
          let t' := if numSelected c =? 0 then t
                    else recursiveIncrementNumDescendantsSelected (- numSelected c) this t in
          (alter_folder (fun f => set_mFolders (delete i (mFolders f)) f) this t',
           Some (NFolder c))
        | None => (t, None)
        end
      | None => (t, None)
      end
    end in
  (requestArrange_at this (Folder_dirtyFilter this t1), taken).

(** [x] put into [l] before position [k]. *)
Definition insert_at {A : Type} (k : nat) (x : A) (l : list A) : list A :=
  take k l ++ x :: drop k l.

(** BOOL LLFolderViewFolder::addItem(LLFolderViewItem* item), on the folder
    at [this]; [k] is the place std::lower_bound finds under mSortFunction. *)
Definition addItem (this : list nat) (k : nat) (item : LLFolderViewItem)
    (t : LLFolderViewFolder) : LLFolderViewFolder :=
  match get_folder t this with
  | Some g =>
    let k := Nat.min k (length (mItems g)) in
    let t1 := alter_folder (fun f => set_mItems (insert_at k item (mItems f)) f) this t in
    let t2 := if mIsSelected item
              then recursiveIncrementNumDescendantsSelected 1 this t1 else t1 in
    let t3 := alter_node (setVisible false) (RItem this k) t2 in
    requestArrange_at this (Item_dirtyFilter (RItem this k) t3)
  | None => t
  end.

(** BOOL LLFolderViewFolder::addFolder(LLFolderViewFolder* folder), on the
    folder at [this]; [k] is the place std::lower_bound finds. *)
Definition addFolder (this : list nat) (k : nat) (folder : LLFolderViewFolder)
    (t : LLFolderViewFolder) : LLFolderViewFolder :=
  match get_folder t this with
  | Some g =>
    let k := Nat.min k (length (mFolders g)) in
    let t1 := alter_folder (fun f => set_mFolders (insert_at k folder (mFolders f)) f) this t in
    let t2 := if numSelected folder =? 0 then t1
              else recursiveIncrementNumDescendantsSelected (numSelected folder) this t1 in
    let t3 := alter_node (setVisible false) (RFolder (this ++ [k])) t2 in
    let t4 := Folder_dirtyFilter (this ++ [k]) t3 in
    requestArrange_at (this ++ [k])
      (alter_folder requestArrange_descendants (this ++ [k]) t4)
  | None => t
  end.

(** ** The fresh count of selected descendants *)

Definition selected_weight (it : LLFolderViewItem) : Z :=
  if mIsSelected it then 1 else 0.

Fixpoint count_selected_descendants (f : LLFolderViewFolder) : Z :=
  match f with
  | Folder _ _ fs its =>
    fold_right (fun c acc => selected_weight (self c) + count_selected_descendants c + acc)
               0 fs
    + fold_right (fun it acc => selected_weight it + acc) 0 its
  end.

(** Every counter in the tree equals the fresh count. *)
Fixpoint counts_accurate (f : LLFolderViewFolder) : bool :=
  match f with
  | Folder _ d fs _ =>
    (mNumDescendantsSelected d =? count_selected_descendants f)
    && forallb counts_accurate fs
  end.


(** ** Sequences of selection mutations *)

Inductive SelectionMutation : Type :=
  | MSelectItem (r : NodeRef)
  | MDeselectItem (r : NodeRef)
  | MChangeSelection (selection : NodeRef) (selected : bool)
  | MSetSelection (selection : option NodeRef) (openitem : bool)
  | MRecursiveDeselect (this : list nat) (deselect_self : bool)
  | MExtractItem (this : list nat) (item : NodeRef)
  | MAddItem (this : list nat) (k : nat) (item : LLFolderViewItem)
  | MAddFolder (this : list nat) (k : nat) (folder : LLFolderViewFolder).

(** The traversals start at the root, as LLFolderView calls them;
    recursiveDeselect runs on any folder (clearSelection runs it on the root
    with FALSE). *)
Definition apply_mutation (m : SelectionMutation) (t : LLFolderViewFolder)
    : LLFolderViewFolder :=
  match m with
  | MSelectItem r => selectItem r t
  | MDeselectItem r => deselectItem r t
  | MChangeSelection selection selected =>
      (Folder_changeSelection t [] selection selected t).1
  | MSetSelection selection openitem =>
      (Folder_setSelection t [] selection openitem t).1
  | MRecursiveDeselect this deselect_self =>
      match get_folder t this with
      | Some shape => recursiveDeselect shape this deselect_self t
      | None => t
      end
  | MExtractItem this item => (extractItem this item t).1
  | MAddItem this k item => addItem this k item t
  | MAddFolder this k folder => addFolder this k folder t
  end.

(** What the code asks of its caller: the assertions of selectItem and
    deselectItem, and, for a folder that is put in, that its own counters
    are right. *)
Definition mutation_allowed (t : LLFolderViewFolder) (m : SelectionMutation) : Prop :=
  match m with
  | MSelectItem r => isSelected t r = false
  | MDeselectItem r => isSelected t r = true
  | MAddFolder _ _ folder => counts_accurate folder = true
  | _ => True
  end.

Fixpoint mutations_allowed (ms : list SelectionMutation) (t : LLFolderViewFolder) : Prop :=
  match ms with
  | [] => True
  | m :: ms' => mutation_allowed t m /\ mutations_allowed ms' (apply_mutation m t)
  end.

Definition apply_mutations (ms : list SelectionMutation) (t : LLFolderViewFolder)
    : LLFolderViewFolder :=
  fold_left (fun t m => apply_mutation m t) ms t.


(** ** Navigation *)

(** What a walk hands back: NULL, a node, or nothing defined because the
    source would follow a NULL [mParentFolder] (or a pointer to no node).
    [OutOfFuel] is an artefact of the bounded recursion below; the bounds
    supplied by getNextOpenNode and getPreviousOpenNode are never reached on
    the walks proved about. *)
Inductive Walk : Type :=
  | Null
  | At (r : NodeRef)
  | Undefined
  | OutOfFuel.

Definition getVisible_at (t : LLFolderViewFolder) (r : NodeRef) : option bool :=
  mVisible <$> node_at t r.

(** The loop [while (fit != fend && !fit->getVisible()) ++fit;] from position
    [start]: the first visible position at or after [start]. *)
Definition first_visible_from {A : Type} (vis : A -> bool) (start : nat) (l : list A)
    : option nat :=
  match list_find (fun x => vis x = true) (drop start l) with
  | Some (k, _) => Some (start + k)%nat
  | None => None
  end.

(** The same with reverse iterators: the last visible position below
    [bound]. *)
Fixpoint last_visible_before {A : Type} (vis : A -> bool) (bound : nat) (l : list A)
    : option nat :=
  match bound with
  | O => None
  | S b =>
    match l !! b with
    | Some x => if vis x then Some b else last_visible_before vis b l
    | None => last_visible_before vis b l
    end
  end.

(** Where the search for [item] among the children of the folder at [this]
    ends: a folder position, an item position, or nowhere. *)
Inductive Found : Type :=
  | FoundFolder (k : nat)
  | FoundItem (j : nat)
  | NotFound.

Definition find_child (f : LLFolderViewFolder) (this : list nat) (item : NodeRef) : Found :=
  match item with
  | RFolder q =>
    match child_index this q with
    | Some k => if bool_decide (k < length (mFolders f))%nat then FoundFolder k else NotFound
    | None => NotFound
    end
  | RItem p j =>
    if bool_decide (p = this) && bool_decide (j < length (mItems f))%nat
    then FoundItem j else NotFound
  end.

(** The scan of getNextFromChild from the positions [fit] and [iit]: the
    first visible folder at or after [fit], else the first visible item at or
    after [iit]. *)
Definition scan_forward (f : LLFolderViewFolder) (this : list nat) (fit iit : nat)
    : option NodeRef :=
  match first_visible_from (fun c => mVisible (self c)) fit (mFolders f) with
  | Some k => Some (RFolder (this ++ [k]))
  | None =>
    match first_visible_from mVisible iit (mItems f) with
    | Some j => Some (RItem this j)
    | None => None
    end
  end.

(** LLFolderViewItem* LLFolderViewFolder::getNextFromChild( LLFolderViewItem* item,
    BOOL include_children ), on the folder at [this]. *)
Fixpoint getNextFromChild (fuel : nat) (t : LLFolderViewFolder) (this : list nat)
    (item : option NodeRef) (include_children : bool) : Walk :=
  match fuel with
  | O => OutOfFuel
  | S fuel' =>
    match get_folder t this with
    | None => Undefined
    | Some f =>
      (* the positions [fit] and [iit] after the search, or an early return *)
      let located : Walk + option (nat * nat) :=
        match item with
        | None => inr (Some (0, 0)%nat)
        | Some x =>
          match find_child f this x with
          | FoundFolder k =>
            match mFolders f !! k with
            | Some c =>
              if include_children && isOpen c
              then inl (getNextFromChild fuel' t (this ++ [k]) None true)
              else inr (Some (S k, 0%nat))
            | None => inr None
            end
          | FoundItem j => inr (Some (length (mFolders f), S j))
          | NotFound => inr None
          end
        end in
      match located with
      | inl w => w
      | inr None => Null
      | inr (Some (fit, iit)) =>
        match scan_forward f this fit iit with
        | Some r => At r
        | None =>
          match getParentFolder (RFolder this) with
          | Some parent_folder =>
            getNextFromChild fuel' t parent_folder (Some (RFolder this)) false
          | None => Null
          end
        end
      end
    end
  end.

(** The reverse scan of the sub-folders below [bound] in
    getPreviousFromChild; [found] is what is done with the folder the scan
    stops at. *)
Definition rscan_folders {R : Type} (found : nat -> LLFolderViewFolder -> R) (bound : nat)
    : nat -> list LLFolderViewFolder -> option R :=
  fix go i cs :=
    match cs with
    | [] => None
    | c :: rest =>
      match go (S i) rest with
      | Some r => Some r
      | None => if (i <? bound)%nat && mVisible (self c) then Some (found i c) else None
      end
    end.

(** The scan of getPreviousFromChild below the positions [iit] and [fit]:
    the last visible item below [iit], else the last visible folder below
    [fit], on which [found] is run, else the folder itself. *)
Definition scan_backward (found : nat -> LLFolderViewFolder -> Walk) (this : list nat)
    (fs : list LLFolderViewFolder) (its : list LLFolderViewItem) (iit fit : nat) : Walk :=
  match last_visible_before mVisible iit its with
  | Some j => At (RItem this j)
  | None =>
    match rscan_folders found fit 0%nat fs with
    | Some w => w
    | None => At (RFolder this)
    end
  end.

(** LLFolderViewItem* LLFolderViewFolder::getPreviousFromChild( LLFolderViewItem* item,
    BOOL include_children ), on the folder [f] at position [this].  The
    walk only goes down, so it needs the folder alone; [include_children] is
    not read by the source. *)
Fixpoint getPreviousFromChild (f : LLFolderViewFolder) (this : list nat)
    (item : option NodeRef) {struct f} : Walk :=
  match f with
  | Folder _ _ fs its =>
    (* the positions [iit] and [fit] after the search, as bounds *)
    let located : option (nat * nat) :=
      match item with
      | None => Some (length its, length fs)
      | Some x =>
        match find_child f this x with
        | FoundItem j => Some (j, length fs)
        | FoundFolder k => Some (0%nat, k)
        | NotFound => None
        end
      end in
    match located with
    | None => Null
    | Some (iit, fit) =>
      scan_backward
        (fun k c => if isOpen c
                    then getPreviousFromChild c (this ++ [k]) None
                    else At (RFolder (this ++ [k])))
        this fs its iit fit
    end
  end.

(** The loop of getNextOpenNode and getPreviousOpenNode that skips
    invisible nodes; [step] is [itemp->mParentFolder->get...FromChild(itemp, ...)]. *)
Fixpoint skip_invisible (fuel : nat) (t : LLFolderViewFolder) (this : NodeRef)
    (step : NodeRef -> Walk) (itemp : Walk) : Walk :=
  match itemp with
  | At r =>
    match getVisible_at t r with
    | None => Undefined
    | Some true => At r
    | Some false =>
      match fuel with
      | O => OutOfFuel
      | S fuel' =>
        match step r with
        | At r' =>
          if bool_decide (r = r') then At this   (* itemp is not visible *)
          else skip_invisible fuel' t this step (At r')
        | w => w
        end
      end
    end
  | w => w
  end.

Fixpoint count_nodes (f : LLFolderViewFolder) : nat :=
  match f with
  | Folder _ _ fs its => S (fold_right (fun c acc => count_nodes c + acc) 0 fs + length its)%nat
  end.

(** [itemp->mParentFolder->getNextFromChild(itemp, include_children)] *)
Definition next_from_parent (t : LLFolderViewFolder) (include_children : bool)
    (itemp : NodeRef) : Walk :=
  match getParentFolder itemp with
  | Some parent_folder =>
    getNextFromChild (2 * length parent_folder + 3) t parent_folder (Some itemp)
                     include_children
  | None => Undefined
  end.

(** [itemp->mParentFolder->getPreviousFromChild(itemp, include_children)] *)
Definition previous_from_parent (t : LLFolderViewFolder) (itemp : NodeRef) : Walk :=
  match getParentFolder itemp with
  | Some parent_folder =>
    match get_folder t parent_folder with
    | Some f => getPreviousFromChild f parent_folder (Some itemp)
    | None => Undefined
    end
  | None => Undefined
  end.

(** LLFolderViewItem* LLFolderViewItem::getNextOpenNode(BOOL include_children) *)
Definition getNextOpenNode (t : LLFolderViewFolder) (this : NodeRef)
    (include_children : bool) : Walk :=
  match getParentFolder this with
  | None => Null
  | Some _ =>
    skip_invisible (count_nodes t) t this (next_from_parent t include_children)
                   (next_from_parent t include_children this)
  end.

(** LLFolderViewItem* LLFolderViewItem::getPreviousOpenNode(BOOL include_children) *)
Definition getPreviousOpenNode (t : LLFolderViewFolder) (this : NodeRef) : Walk :=
  match getParentFolder this with
  | None => Null
  | Some _ =>
    skip_invisible (count_nodes t) t this (previous_from_parent t)
                   (previous_from_parent t this)
  end.


(** ** The root view *)

(** The values of mSignalSelectCallback. *)
Inductive SelectSignal : Type :=
  | NO_SIGNAL
  | SIGNAL_NO_KEYBOARD_FOCUS
  | SIGNAL_KEYBOARD_FOCUS.

(** A call the view makes on the listeners of its nodes; what a listener
    then does to the inventory happens outside the view. *)
Inductive ListenerCall : Type :=
  | call_removeItem (item : NodeRef)
  | call_removeBatch (items : list NodeRef).

(** LLFolderView is the root folder of the tree, [as_folder], together with
    the state of the view.  The flag mIsCurSelection of the nodes is only
    read when drawing and is left out: the current selection is the back of
    mSelectedItems.  [infos] collects the lines written to llinfos. *)
Record LLFolderView := mkView {
  as_folder : LLFolderViewFolder;
  mSelectedItems : list NodeRef;
  mItemMap : gmap LLUUID NodeRef;
  mFilter : LLInventoryFilter;
  mAllowMultiSelect : bool;
  mEnabled : bool;                 (* LLView::getEnabled *)
  mArrangeGeneration : Z;
  mRenameItem : option NodeRef;
  mNeedsScroll : bool;
  mSignalSelectCallback : SelectSignal;
  infos : list string;
  listener_calls : list ListenerCall;
}.

Definition set_as_folder (t : LLFolderViewFolder) (fv : LLFolderView) : LLFolderView :=
  mkView t (mSelectedItems fv) (mItemMap fv) (mFilter fv) (mAllowMultiSelect fv)
         (mEnabled fv) (mArrangeGeneration fv) (mRenameItem fv) (mNeedsScroll fv)
         (mSignalSelectCallback fv) (infos fv) (listener_calls fv).
Definition set_mSelectedItems (l : list NodeRef) (fv : LLFolderView) : LLFolderView :=
  mkView (as_folder fv) l (mItemMap fv) (mFilter fv) (mAllowMultiSelect fv)
         (mEnabled fv) (mArrangeGeneration fv) (mRenameItem fv) (mNeedsScroll fv)
         (mSignalSelectCallback fv) (infos fv) (listener_calls fv).
Definition set_mItemMap (m : gmap LLUUID NodeRef) (fv : LLFolderView) : LLFolderView :=
  mkView (as_folder fv) (mSelectedItems fv) m (mFilter fv) (mAllowMultiSelect fv)
         (mEnabled fv) (mArrangeGeneration fv) (mRenameItem fv) (mNeedsScroll fv)
         (mSignalSelectCallback fv) (infos fv) (listener_calls fv).
Definition set_mArrangeGeneration (g : Z) (fv : LLFolderView) : LLFolderView :=
  mkView (as_folder fv) (mSelectedItems fv) (mItemMap fv) (mFilter fv)
         (mAllowMultiSelect fv) (mEnabled fv) g (mRenameItem fv) (mNeedsScroll fv)
         (mSignalSelectCallback fv) (infos fv) (listener_calls fv).
Definition set_mRenameItem (r : option NodeRef) (fv : LLFolderView) : LLFolderView :=
  mkView (as_folder fv) (mSelectedItems fv) (mItemMap fv) (mFilter fv)
         (mAllowMultiSelect fv) (mEnabled fv) (mArrangeGeneration fv) r (mNeedsScroll fv)
         (mSignalSelectCallback fv) (infos fv) (listener_calls fv).
Definition set_mNeedsScroll (v : bool) (fv : LLFolderView) : LLFolderView :=
  mkView (as_folder fv) (mSelectedItems fv) (mItemMap fv) (mFilter fv)
         (mAllowMultiSelect fv) (mEnabled fv) (mArrangeGeneration fv) (mRenameItem fv) v
         (mSignalSelectCallback fv) (infos fv) (listener_calls fv).
Definition set_mSignalSelectCallback (s : SelectSignal) (fv : LLFolderView) : LLFolderView :=
  mkView (as_folder fv) (mSelectedItems fv) (mItemMap fv) (mFilter fv)
         (mAllowMultiSelect fv) (mEnabled fv) (mArrangeGeneration fv) (mRenameItem fv)
         (mNeedsScroll fv) s (infos fv) (listener_calls fv).
Definition llinfos (line : string) (fv : LLFolderView) : LLFolderView :=
  mkView (as_folder fv) (mSelectedItems fv) (mItemMap fv) (mFilter fv)
         (mAllowMultiSelect fv) (mEnabled fv) (mArrangeGeneration fv) (mRenameItem fv)
         (mNeedsScroll fv) (mSignalSelectCallback fv) (infos fv ++ [line])
         (listener_calls fv).
Definition call_listener (c : ListenerCall) (fv : LLFolderView) : LLFolderView :=
  mkView (as_folder fv) (mSelectedItems fv) (mItemMap fv) (mFilter fv)
         (mAllowMultiSelect fv) (mEnabled fv) (mArrangeGeneration fv) (mRenameItem fv)
         (mNeedsScroll fv) (mSignalSelectCallback fv) (infos fv)
         (listener_calls fv ++ [c]).

(** ** The id index *)

(** void LLFolderView::addItemID(const LLUUID& id, LLFolderViewItem* itemp) *)
Definition addItemID (id : LLUUID) (itemp : NodeRef) (fv : LLFolderView) : LLFolderView :=
  set_mItemMap (<[id := itemp]> (mItemMap fv)) fv.

(** void LLFolderView::removeItemID(const LLUUID& id) *)
Definition removeItemID (id : LLUUID) (fv : LLFolderView) : LLFolderView :=
  set_mItemMap (delete id (mItemMap fv)) fv.

(** LLFolderViewItem* LLFolderView::getItemByID(const LLUUID& id); [None] is
    NULL and [Some root_ref] is [this]. *)
Definition getItemByID (fv : LLFolderView) (id : LLUUID) : option NodeRef :=
  if isNull id then Some root_ref
  else
    match mItemMap fv !! id with
    | Some itemp => Some itemp
    | None => None
    end.

(** ** The selection list *)

(** void LLFolderView::removeFromSelectionList(LLFolderViewItem* item) *)
Definition removeFromSelectionList (item : NodeRef) (fv : LLFolderView) : LLFolderView :=
  set_mSelectedItems
    (List.filter (fun r => negb (bool_decide (r = item))) (mSelectedItems fv)) fv.

(** void LLFolderView::addToSelectionList(LLFolderViewItem* item) *)
Definition addToSelectionList (item : NodeRef) (fv : LLFolderView) : LLFolderView :=
  let fv1 := if isSelected (as_folder fv) item then removeFromSelectionList item fv
             else fv in
  set_mSelectedItems (mSelectedItems fv1 ++ [item]) fv1.

(** LLFolderViewItem* LLFolderView::getCurSelectedItem( void ) *)
Definition getCurSelectedItem (fv : LLFolderView) : option NodeRef :=
  last (mSelectedItems fv).

(** void LLFolderView::clearSelection() *)
Definition clearSelection (fv : LLFolderView) : LLFolderView :=
  match mSelectedItems fv with
  | [] => fv
  | _ :: _ =>
    set_mSelectedItems []
      (set_as_folder (recursiveDeselect (as_folder fv) [] false (as_folder fv)) fv)
  end.

(** BOOL LLFolderView::setSelection(LLFolderViewItem* selection, BOOL openitem,
    BOOL take_keyboard_focus); the keyboard focus itself belongs to the
    window system and is not part of the view. *)
Definition LLFolderView_setSelection (selection : option NodeRef) (openitem : bool)
    (take_keyboard_focus : bool) (fv : LLFolderView) : LLFolderView * bool :=
  if bool_decide (selection = Some root_ref) then (fv, false)
  else
    let fv1 := clearSelection fv in
    let fv2 := match selection with
               | Some s => addToSelectionList s fv1
               | None => fv1
               end in
    let '(t, rv) := Folder_setSelection (as_folder fv2) [] selection openitem
                                        (as_folder fv2) in
    let t1 := match selection with
              | Some s =>
                if openitem then
                  match getParentFolder s with
                  | Some parent_folder => requestArrange_at parent_folder t
                  | None => t
                  end
                else t
              | None => t
              end in
    (set_mSignalSelectCallback
       (if take_keyboard_focus then SIGNAL_KEYBOARD_FOCUS else SIGNAL_NO_KEYBOARD_FOCUS)
       (set_as_folder t1 fv2), rv).

(** BOOL LLFolderView::changeSelection(LLFolderViewItem* selection, BOOL selected) *)
Definition LLFolderView_changeSelection (selection : option NodeRef) (selected : bool)
    (fv : LLFolderView) : LLFolderView * bool :=
  match selection with
  | None => (fv, false)
  | Some s =>
    if bool_decide (s = root_ref) then (fv, false)   (* can't select root folder *)
    else
      let fv1 := if mAllowMultiSelect fv then fv else clearSelection fv in
      let on_list := bool_decide (s ∈ mSelectedItems fv1) in
      let fv2 := if selected && negb on_list then addToSelectionList s fv1 else fv1 in
      let fv3 := if negb selected && on_list then removeFromSelectionList s fv2 else fv2 in
      let '(t, rv) := Folder_changeSelection (as_folder fv3) [] s selected
                                             (as_folder fv3) in
      (set_mSignalSelectCallback SIGNAL_KEYBOARD_FOCUS (set_as_folder t fv3), rv)
  end.

(** ** Keeping the selection sane *)

Definition LLFolderView_getFiltered (fv : LLFolderView) (it : LLFolderViewItem) : bool :=
  getFiltered it (getMinRequiredGeneration (mFilter fv)).

(** BOOL LLFolderViewItem::potentiallyVisible() *)
Definition Item_potentiallyVisible (fv : LLFolderView) (it : LLFolderViewItem) : bool :=
  (getLastFilterGeneration it <? getMinRequiredGeneration (mFilter fv))
  || LLFolderView_getFiltered fv it.

(** BOOL LLFolderViewFolder::potentiallyVisible() *)
Definition Folder_potentiallyVisible (fv : LLFolderView) (f : LLFolderViewFolder) : bool :=
  Item_potentiallyVisible fv (self f)
  || hasFilteredDescendants f (getMinRequiredGeneration (mFilter fv))
  || (getCompletedFilterGeneration f <? getMinRequiredGeneration (mFilter fv)).

(** potentiallyVisible() through a pointer to a node: the folder's version on
    a folder, the item's on a leaf.  A position that names no node stands
    for a dangling pointer; the answer is then [false]. *)
Definition potentiallyVisible (fv : LLFolderView) (r : NodeRef) : bool :=
  match r with
  | RFolder p =>
    match get_folder (as_folder fv) p with
    | Some f => Folder_potentiallyVisible fv f
    | None => false
    end
  | RItem p j =>
    match get_item (as_folder fv) p j with
    | Some it => Item_potentiallyVisible fv it
    | None => false
    end
  end.

Definition isOpen_at (fv : LLFolderView) (p : list nat) : bool :=
  match get_folder (as_folder fv) p with
  | Some f => isOpen f
  | None => false
  end.

(** The folders met by [for (p = item->getParentFolder(); p; p = p->getParentFolder())],
    from the folder at [p] up to the root. *)
Fixpoint up_from_rev (rp : list nat) : list (list nat) :=
  rev rp :: match rp with
            | [] => []
            | _ :: rp' => up_from_rev rp'
            end.

Definition parent_chain (r : NodeRef) : list (list nat) :=
  match getParentFolder r with
  | Some p => up_from_rev (rev p)
  | None => []
  end.

(** The test of sanitizeSelection on one selected node: it and every
    ancestor potentially visible, every ancestor open; always true for a node
    with a parent when all folders are shown. *)
Definition selection_visible (fv : LLFolderView) (show_all_folders : bool) (item : NodeRef)
    : bool :=
  let visible := potentiallyVisible fv item in
  match getParentFolder item with
  | Some _ =>
    if show_all_folders then true
    else
      fold_left
        (fun visible parent_folder =>
           visible && isOpen_at fv parent_folder
           && potentiallyVisible fv (RFolder parent_folder))
        (parent_chain item) visible
  | None => visible
  end.

(** [parent_folder == item] for some folder above [other_item] *)
Definition is_above (item other_item : NodeRef) : bool :=
  existsb (fun parent_folder => bool_decide (RFolder parent_folder = item))
          (parent_chain other_item).

(** The first loop of sanitizeSelection: the nodes to deselect. *)
Definition items_to_remove (fv : LLFolderView) (show_all_folders : bool) : list NodeRef :=
  flat_map
    (fun item =>
       (if selection_visible fv show_all_folders item then [] else [item])
       ++ List.filter (is_above item) (mSelectedItems fv)
       ++ (if bool_decide (item = root_ref) then [item] else []))
    (mSelectedItems fv).

(** The choice of a new selection among the folders above the original one. *)
Definition fallback_selection (fv : LLFolderView) (original_selected_item : NodeRef)
    : option NodeRef :=
  fold_left
    (fun new_selection parent_folder =>
       if potentiallyVisible fv (RFolder parent_folder) then
         let new_selection1 :=
           match new_selection with
           | None => Some (RFolder parent_folder)
           | Some _ => new_selection
           end in
         if negb (isOpen_at fv parent_folder) then Some (RFolder parent_folder)
         else new_selection1
       else new_selection)
    (parent_chain original_selected_item) None.

(** [getRoot()->getFilter()->getShowFolderState() == LLInventoryFilter::SHOW_ALL_FOLDERS] *)
Definition show_all_folders (fv : LLFolderView) : bool :=
  match getShowFolderState (mFilter fv) with
  | SHOW_ALL_FOLDERS => true
  | _ => false
  end.

(** void LLFolderView::sanitizeSelection(); [root_folder_id] is
    gInventory.getRootFolderID(). *)
Definition sanitizeSelection (root_folder_id : LLUUID) (fv : LLFolderView) : LLFolderView :=
  let original_selected_item := getCurSelectedItem fv in
  let show_all_folders := show_all_folders fv in
  let fv1 :=
    fold_left (fun fv item => (LLFolderView_changeSelection (Some item) false fv).1)
              (items_to_remove fv show_all_folders) fv in
  match mSelectedItems fv1 with
  | [] =>
    let new_selection :=
      match original_selected_item with
      | Some o => fallback_selection fv1 o
      | None => getItemByID fv1 root_folder_id
      end in
    match new_selection with
    | Some n => (LLFolderView_setSelection (Some n) false false fv1).1
    | None => fv1
    end
  | _ :: _ => fv1
  end.


(** ** Removing the selection *)

(** const std::string& LLFolderViewItem::getName( void ) const *)
Definition Item_getName (it : LLFolderViewItem) : string :=
  match mListener it with
  | Some l => getName l
  | None => mLabel it
  end.

(** BOOL LLFolderViewItem::isRemovable() *)
Definition Item_isRemovable (it : LLFolderViewItem) : bool :=
  match mListener it with
  | Some l => isItemRemovable l
  | None => true
  end.

(** BOOL LLFolderViewFolder::isRemovable() *)
Fixpoint Folder_isRemovable (f : LLFolderViewFolder) : bool :=
  match f with
  | Folder b _ fs its =>
    match mListener b with
    | Some l =>
      isItemRemovable l && forallb Item_isRemovable its && forallb Folder_isRemovable fs
    | None => true
    end
  end.

(** isRemovable() through a pointer to a node; [None] when the position
    names no node. *)
Definition isRemovable (t : LLFolderViewFolder) (r : NodeRef) : option bool :=
  match r with
  | RFolder p => Folder_isRemovable <$> get_folder t p
  | RItem p j => Item_isRemovable <$> get_item t p j
  end.

(** The first loop of removeSelectedItems over mSelectedItems: the nodes
    collected in [items], or the node that stops the loop.  [None] when a
    position of the list names no node. *)
Fixpoint collect_removable (t : LLFolderViewFolder) (selected items : list NodeRef)
    : option (list NodeRef + NodeRef) :=
  match selected with
  | [] => Some (inl items)
  | item :: rest =>
    match isRemovable t item with
    | Some true => collect_removable t rest (items ++ [item])
    | Some false => Some (inr item)
    | None => None
    end
  end.

(** What a walk hands to the code that follows it: a pointer that may be
    NULL, or nothing when the walk went wrong. *)
Definition walk_pointer (w : Walk) : option (option NodeRef) :=
  match w with
  | Null => Some None
  | At r => Some (Some r)
  | Undefined | OutOfFuel => None
  end.

(** [while (new_selection && new_selection->isSelected()) new_selection = step] *)
Fixpoint skip_selected (fuel : nat) (t : LLFolderViewFolder) (step : NodeRef -> Walk)
    (new_selection : option NodeRef) : option (option NodeRef) :=
  match new_selection with
  | None => Some None
  | Some r =>
    if isSelected t r then
      match fuel with
      | O => None
      | S fuel' =>
        match walk_pointer (step r) with
        | Some next => skip_selected fuel' t step next
        | None => None
        end
      end
    else Some (Some r)
  end.

(** isOpen() through a pointer to a node: FALSE on a leaf. *)
Definition node_isOpen (t : LLFolderViewFolder) (r : NodeRef) : bool :=
  match r with
  | RFolder p =>
    match get_folder t p with
    | Some f => isOpen f
    | None => false
    end
  | RItem _ _ => false
  end.

(** Modelled from the spec: arrangeAll() bumps the counter arrangeGeneration
    of the root, which invalidates all cached layout. *)
Definition arrangeAll (fv : LLFolderView) : LLFolderView :=
  set_mArrangeGeneration (mArrangeGeneration fv + 1) fv.

(** void LLFolderView::scrollToShowSelection() *)
Definition scrollToShowSelection (fv : LLFolderView) : LLFolderView :=
  match mSelectedItems fv with
  | [] => fv
  | _ :: _ => set_mNeedsScroll true fv
  end.

(** setSelectionFromRoot(new_selection, new_selection->isOpen(), hasFocus()),
    or setSelectionFromRoot(NULL, hasFocus()) when there is none. *)
Definition select_after_removal (hasFocus : bool) (new_selection : option NodeRef)
    (fv : LLFolderView) : LLFolderView :=
  match new_selection with
  | Some n =>
    (LLFolderView_setSelection (Some n) (node_isOpen (as_folder fv) n) hasFocus fv).1
  | None => (LLFolderView_setSelection None hasFocus true fv).1
  end.

Definition has_listener (t : LLFolderViewFolder) (r : NodeRef) : bool :=
  match node_at t r with
  | Some it => match mListener it with Some _ => true | None => false end
  | None => false
  end.

(** The listeners put on the batch: those of the nodes of [items], each
    once.  A listener belongs to one node, so it is named by its node. *)
Definition batch_listeners (t : LLFolderViewFolder) (items : list NodeRef) : list NodeRef :=
  fold_left
    (fun listeners item =>
       if has_listener t item && negb (bool_decide (item ∈ listeners))
       then listeners ++ [item] else listeners)
    items [].

(** void LLFolderView::removeSelectedItems( void ).  [hasFocus] is the
    answer of hasFocus() and [removeItem_result] that of the listener's
    removeItem(); the removal itself is the listener's work and reaches the
    view later, through removeView.  [None] when a pointer the code follows
    names no node or a walk does not end. *)
Definition removeSelectedItems (hasFocus : bool) (removeItem_result : NodeRef -> bool)
    (fv : LLFolderView) : option LLFolderView :=
  if mVisible (self (as_folder fv)) && mEnabled fv then
    (* just in case we're removing the renaming item. *)
    let fv := set_mRenameItem None fv in
    let t := as_folder fv in
    match mSelectedItems fv with
    | [] => Some fv
    | _ :: _ =>
      match collect_removable t (mSelectedItems fv) [] with
      | None => None
      | Some (inr item) =>
        match node_at t item with
        | Some it => Some (llinfos ("Cannot delete " ++ Item_getName it) fv)
        | None => None
        end
      | Some (inl []) => Some (scrollToShowSelection (arrangeAll fv))
      | Some (inl [item_to_delete]) =>
        match walk_pointer (getNextOpenNode t item_to_delete false) with
        | None => None
        | Some next =>
          match (match next with
                 | Some _ => Some next
                 | None => walk_pointer (getPreviousOpenNode t item_to_delete)
                 end) with
          | None => None
          | Some new_selection =>
            let fv1 :=
              match getParentFolder item_to_delete with
              | Some _ =>
                (* parent->removeItem(item_to_delete) *)
                if has_listener t item_to_delete then
                  let fv' := call_listener (call_removeItem item_to_delete) fv in
                  if removeItem_result item_to_delete
                  then select_after_removal hasFocus new_selection fv'
                  else fv'
                else select_after_removal hasFocus new_selection fv
              | None => fv
              end in
            Some (scrollToShowSelection (arrangeAll (arrangeAll fv1)))
          end
        end
      | Some (inl items) =>
        match last items with
        | None => None
        | Some last_item =>
          let fuel := count_nodes t in
          match
            match walk_pointer (getNextOpenNode t last_item false) with
            | None => None
            | Some first =>
              match skip_selected fuel t (fun r => getNextOpenNode t r false) first with
              | None => None
              | Some (Some n) => Some (Some n)
              | Some None =>
                match walk_pointer (getPreviousOpenNode t last_item) with
                | None => None
                | Some first' => skip_selected fuel t (getPreviousOpenNode t) first'
                end
              end
            end
          with
          | None => None
          | Some new_selection =>
            let fv1 := select_after_removal hasFocus new_selection fv in
            let listeners := batch_listeners t items in
            let fv2 := match listeners with
                       | [] => fv1
                       | _ :: _ => call_listener (call_removeBatch listeners) fv1
                       end in
            Some (scrollToShowSelection (arrangeAll fv2))
          end
        end
      end
    end
  else Some fv.


(** ** Deleting from the keyboard *)

(** The loop of canDoDelete over mSelectedItems.  [None] when a position of
    the list names no node or a node has no listener: the source calls
    through the pointer getListener() hands back. *)
Fixpoint listeners_allow_removal (t : LLFolderViewFolder) (selected : list NodeRef)
    : option bool :=
  match selected with
  | [] => Some true
  | item :: rest =>
    match node_at t item with
    | Some it =>
      match mListener it with
      | Some l => if isItemRemovable l then listeners_allow_removal t rest else Some false
      | None => None
      end
    | None => None
    end
  end.

(** BOOL LLFolderView::canDoDelete() const *)
Definition canDoDelete (fv : LLFolderView) : option bool :=
  match mSelectedItems fv with
  | [] => Some false
  | _ :: _ => listeners_allow_removal (as_folder fv) (mSelectedItems fv)
  end.

(** void LLFolderView::doDelete() *)
Definition doDelete (hasFocus : bool) (removeItem_result : NodeRef -> bool)
    (fv : LLFolderView) : option LLFolderView :=
  match mSelectedItems fv with
  | [] => Some fv
  | _ :: _ => removeSelectedItems hasFocus removeItem_result fv
  end.

(** ** Arranging *)

Section Arranging.

(** What arrange() reads from the root and does not change:
    [getRoot()->getArrangeGeneration()], [getRoot()->getDebugFilters()] and
    [getRoot()->getFilter()->getShowFolderState()]. *)
Variable getArrangeGeneration : Z.
Variable getDebugFilters : bool.
Variable show_folder_state : EFolderShow.

(** LLCriticalDamp::getInterpolant of FOLDER_OPEN_TIME_CONSTANT ([true]) or
    of FOLDER_CLOSE_TIME_CONSTANT ([false]); it depends on the time the last
    frame took. *)
Variable getInterpolant : bool -> F32.

Variable LEFT_INDENTATION : Z.

(** The test that hides a child of an animating folder,
    [getRect().getHeight() - child->getRect().mTop + child->getItemHeight()
       > llround(mCurHeight) + MAX_FOLDER_ITEM_OVERLAP]
    for a folder and the like with [mBottom] for an item.  The rectangles
    are LLView's and are not part of the tree; the outcome of the test for
    the child at a position, given [llround(mCurHeight)], is a parameter. *)
Variable beyond_height : NodeRef -> Z -> bool.

(** S32 LLFolderViewItem::arrange( S32* width, S32* height, S32 filter_generation);
    [parent_indentation] is [mParentFolder->getIndentation()] when there is a
    parent.  The result holds [*width] and [*height], which is also the
    value returned. *)
Definition Item_arrange (parent_indentation : option Z) (width : Z)
    (it : LLFolderViewItem) : LLFolderViewItem * Z * Z :=
  let it1 := set_mIndentation
               (match parent_indentation with
                | Some indentation => indentation + LEFT_INDENTATION
                | None => 0
                end) it in
  (it1, Z.max width (mLabelWidth it1 + mIndentation it1), mItemHeight it1).

(** BOOL LLFolderViewFolder::needsArrange() *)
Definition needsArrange (d : FolderMembers) : bool :=
  mLastArrangeGeneration d <? getArrangeGeneration.

(** The argument of [folderp->setVisible(...)] in the loops of arrange(). *)
Definition folder_shown (filter_generation : Z) (folderp : LLFolderViewFolder) : bool :=
  if getDebugFilters then true
  else
    match show_folder_state with
    | SHOW_ALL_FOLDERS => true
    | _ => getFiltered (self folderp) filter_generation
           || hasFilteredDescendants folderp filter_generation
    end.

(** The argument of [itemp->setVisible(...)] in the loop of
    LLFolderViewFolder::arrange. *)
Definition item_shown (filter_generation : Z) (itemp : LLFolderViewItem) : bool :=
  if getDebugFilters then true else getFiltered itemp filter_generation.

(** The loop over [mFolders] of LLFolderViewFolder::arrange.  [rec] is
    [folderp->arrange(&child_width, &child_height, filter_generation)] and
    hands back the folder, [child_width], [child_height], the value returned
    and whether the child called requestArrange().  The loop threads [*width],
    [running_height], [target_height] and that flag.  Origins and shapes of
    the rectangles are not kept.  The recursion is on the sub-folder as it
    stands in [mFolders], so [setVisible(TRUE)] is written on the result of
    the call and not before it; arrange() neither reads nor writes the flag
    of the folder it runs on (Folder_arrange_setVisible below). *)
Definition arrange_folders_loop
    (rec : list nat -> LLFolderViewFolder -> Z ->
           LLFolderViewFolder * Z * Z * Z * bool)
    (here : list nat) (filter_generation : Z)
    : nat -> list LLFolderViewFolder -> Z -> F32 -> F32 -> bool ->
      list LLFolderViewFolder * Z * F32 * F32 * bool :=
  fix loop i fs width running_height target_height req :=
    match fs with
    | [] => ([], width, running_height, target_height, req)
    | folderp :: rest =>
      let visible := folder_shown filter_generation folderp in
      if visible then
        let '(folderp2, child_width, child_height, returned, rq) :=
          rec (here ++ [i]) folderp width in
        let '(rest', width', running', target', req') :=
          loop (S i) rest (Z.max width child_width)
               (F32_add running_height (F32_of_S32 child_height))
               (F32_add target_height (F32_of_S32 returned)) (req || rq) in
        (set_self (setVisible visible (self folderp2)) folderp2 :: rest',
         width', running', target', req')
      else
        let '(rest', width', running', target', req') :=
          loop (S i) rest width running_height target_height req in
        (set_self (setVisible visible (self folderp)) folderp :: rest',
         width', running', target', req')
    end.

(** The loop over [mItems] of LLFolderViewFolder::arrange. *)
Definition arrange_items_loop (parent_indentation : Z) (filter_generation : Z)
    : list LLFolderViewItem -> Z -> F32 -> F32 ->
      list LLFolderViewItem * Z * F32 * F32 :=
  fix loop its width running_height target_height :=
    match its with
    | [] => ([], width, running_height, target_height)
    | itemp :: rest =>
      let itemp1 := setVisible (item_shown filter_generation itemp) itemp in
      if mVisible itemp1 then
        let '(itemp2, child_width, child_height) :=
          Item_arrange (Some parent_indentation) width itemp1 in
        let '(rest', width', running', target') :=
          loop rest (Z.max width child_width)
               (F32_add running_height (F32_of_S32 child_height))
               (F32_add target_height (F32_of_S32 child_height)) in
        (itemp2 :: rest', width', running', target')
      else
        let '(rest', width', running', target') :=
          loop rest width running_height target_height in
        (itemp1 :: rest', width', running', target')
    end.

(** "hide child elements that fall out of current animated height" *)
Definition hide_folders (here : list nat) (rounded_height : Z)
    (fs : list LLFolderViewFolder) : list LLFolderViewFolder :=
  imap (fun i c => if beyond_height (RFolder (here ++ [i])) rounded_height
                   then set_self (setVisible false (self c)) c else c) fs.

Definition hide_items (here : list nat) (rounded_height : Z)
    (its : list LLFolderViewItem) : list LLFolderViewItem :=
  imap (fun j it => if beyond_height (RItem here j) rounded_height
                    then setVisible false it else it) its.

(** S32 LLFolderViewFolder::arrange( S32* width, S32* height, S32 filter_generation),
    on the folder at position [here].  The result holds the folder, [*width],
    [*height], the value returned, and whether requestArrange() ran on the
    folder (it then also ran on every folder above). *)
Fixpoint Folder_arrange (here : list nat) (parent_indentation : option Z)
    (filter_generation : Z) (f : LLFolderViewFolder) (width : Z) {struct f}
    : LLFolderViewFolder * Z * Z * Z * bool :=
  match f with
  | Folder b d fs its =>
    let b1 := set_mHasVisibleChildren (hasFilteredDescendants f filter_generation) b in
    (* height as a single item *)
    let '(b2, width1, height1) := Item_arrange parent_indentation width b1 in
    (* never smaller than a single item *)
    let d1 := set_mCurHeight (F32_max (F32_of_S32 height1) (mCurHeight d)) d in
    let running_height := F32_of_S32 (mItemHeight b2) in
    let target_height := F32_of_S32 (mItemHeight b2) in
    let '(fs1, its1, d2, width2, req) :=
      if needsArrange d1 then
        let d1' := set_mLastArrangeGeneration getArrangeGeneration d1 in
        let '(fs', its', width', target', req') :=
          if mIsOpen d1' then
            let '(fs', width', running', target', req') :=
              arrange_folders_loop
                (fun h c w => Folder_arrange h (Some (mIndentation b2)) filter_generation c w)
                here filter_generation 0%nat fs width1 running_height target_height
                false in
            let '(its', width'', _, target'') :=
              arrange_items_loop (mIndentation b2) filter_generation its width'
                                 running' target' in
            (fs', its', width'', target'', req')
          else (fs, its, width1, target_height, false) in
        (fs', its',
         set_mLastCalculatedWidth width'
           (set_mTargetHeight target'
              (if req' then requestArrange_here d1' else d1')),
         width', req')
      else (fs, its, d1, mLastCalculatedWidth d1, false) in
    (* animate current height towards target height *)
    if absdiff_gt_one (mCurHeight d2) (mTargetHeight d2) then
      let d3 := requestArrange_here
                  (set_mCurHeight
                     (lerp (mCurHeight d2) (mTargetHeight d2)
                           (getInterpolant (mIsOpen d2))) d2) in
      let rounded_height := llround (mCurHeight d3) in
      (Folder b2 d3 (hide_folders here rounded_height fs1)
              (hide_items here rounded_height its1),
       width2, rounded_height, llround (mTargetHeight d3), true)
    else
      let d3 := set_mCurHeight (mTargetHeight d2) d2 in
      (Folder b2 d3 fs1 its1,
       width2, llround (mCurHeight d3), llround (mTargetHeight d3), req)
  end.

(** The loop over [mFolders] of LLFolderView::arrange: heights are S32 here,
    and [child_width] starts from 0.  It threads [mMinWidth], [total_width],
    [running_height], [target_height] and whether a child called
    requestArrange(). *)
Definition root_folders_loop (root_indentation : Z) (filter_generation : Z)
    : nat -> list LLFolderViewFolder -> Z -> Z -> Z -> Z -> bool ->
      list LLFolderViewFolder * Z * Z * Z * Z * bool :=
  fix loop i fs min_width total_width running_height target_height req :=
    match fs with
    | [] => ([], min_width, total_width, running_height, target_height, req)
    | folderp :: rest =>
      let folderp1 :=
        set_self (setVisible (folder_shown filter_generation folderp) (self folderp))
                 folderp in
      if mVisible (self folderp1) then
        let '(folderp2, child_width, child_height, returned, rq) :=
          Folder_arrange [i] (Some root_indentation) filter_generation folderp1 0 in
        let '(rest', min_width', total', running', target', req') :=
          loop (S i) rest (Z.max min_width child_width) (Z.max total_width child_width)
               (running_height + child_height) (target_height + returned) (req || rq) in
        (folderp2 :: rest', min_width', total', running', target', req')
      else
        let '(rest', min_width', total', running', target', req') :=
          loop (S i) rest min_width total_width running_height target_height req in
        (folderp1 :: rest', min_width', total', running', target', req')
    end.

(** The loop over [mItems] of LLFolderView::arrange.  The flag of an item is
    set from the filter alone, also when the debug display of filters is on. *)
Definition root_items_loop (root_indentation : Z) (filter_generation : Z)
    : list LLFolderViewItem -> Z -> Z -> Z -> Z ->
      list LLFolderViewItem * Z * Z * Z * Z :=
  fix loop its min_width total_width running_height target_height :=
    match its with
    | [] => ([], min_width, total_width, running_height, target_height)
    | itemp :: rest =>
      let itemp1 := setVisible (getFiltered itemp filter_generation) itemp in
      if mVisible itemp1 then
        let '(itemp2, child_width, child_height) :=
          Item_arrange (Some root_indentation) 0 itemp1 in
        let '(rest', min_width', total', running', target') :=
          loop rest (Z.max min_width child_width) (Z.max total_width child_width)
               (running_height + child_height) (target_height + child_height) in
        (itemp2 :: rest', min_width', total', running', target')
      else
        let '(rest', min_width', total', running', target') :=
          loop rest min_width total_width running_height target_height in
        (itemp1 :: rest', min_width', total', running', target')
    end.

(** S32 LLFolderView::arrange( S32* unused_width, S32* unused_height,
    S32 filter_generation ) on the root, whose filter is [flt].  [LEFT_PAD]
    is the constant of that name and [debug_line_height] is
    [llceil(sSmallFont->getLineHeight())].  The result holds the root,
    [mMinWidth], [total_width], [running_height] and the value returned; the
    reshaping of the view inside its scroll container is not kept. *)
Definition LLFolderView_arrange (LEFT_PAD debug_line_height : Z)
    (flt : LLInventoryFilter) (root : LLFolderViewFolder)
    : LLFolderViewFolder * Z * Z * Z * Z :=
  match root with
  | Folder b d fs its =>
    let filter_generation := getMinRequiredGeneration flt in
    let b1 := set_mHasVisibleChildren (hasFilteredDescendants root filter_generation) b in
    (* arrange always finishes, so optimistically set the arrange generation *)
    let d1 := set_mLastArrangeGeneration getArrangeGeneration d in
    let running_height := if getDebugFilters then debug_line_height else 0 in
    let '(fs', min_width, total_width, running', target', req) :=
      root_folders_loop (mIndentation b1) filter_generation 0%nat fs 0 LEFT_PAD
                        running_height running_height false in
    let '(its', min_width', total_width', running'', target'') :=
      root_items_loop (mIndentation b1) filter_generation its min_width total_width
                      running' target' in
    let d2 := set_mTargetHeight (F32_of_S32 target'')
                (if req then requestArrange_here d1 else d1) in
    (Folder b1 d2 fs' its', min_width', total_width', running'',
     llround (mTargetHeight d2))
  end.

End Arranging.

(** ** Opening and closing folders *)

(** LLFolderViewFolder::ERecurseType *)
Inductive ERecurseType : Type :=
  | RECURSE_NO
  | RECURSE_UP
  | RECURSE_DOWN
  | RECURSE_UP_DOWN.

(** void LLFolderViewFolder::setOpenArrangeRecursively(BOOL openitem, ERecurseType recurse)
    calls itself on the sub-folders with RECURSE_DOWN only and on the parent
    with RECURSE_UP only.  This is the function at RECURSE_DOWN, on the
    folder at [this]: the flag, the sub-folders, then requestArrange() when
    the flag has changed.  mListener->openItem() is a call out to the
    inventory and leaves the tree as it is. *)
Fixpoint Folder_setOpenArrangeRecursively_down (shape : LLFolderViewFolder) (this : list nat)
    (openitem : bool) (t : LLFolderViewFolder) {struct shape} : LLFolderViewFolder :=
  let was_open := node_isOpen t (RFolder this) in
  let t1 := alter_members (set_mIsOpen openitem) this t in
  let t2 := for_each_folder
              (fun i c t => Folder_setOpenArrangeRecursively_down c (this ++ [i]) openitem t)
              0%nat (mFolders shape) t1 in
  if eqb was_open (node_isOpen t2 (RFolder this)) then t2 else requestArrange_at this t2.

Section Opening.

(** LLFolderView, the root of the tree, has a setOpenArrangeRecursively of
    its own (below).  A call made on the root through a pointer to
    LLFolderViewFolder, as mParentFolder->setOpenArrangeRecursively() and
    setOpen() are, runs it when the function is declared virtual; the
    declaration is in the header files, which are not part of the source at
    hand: [virtual_call] says that it is virtual. *)
Variable virtual_call : bool.

(** The end of LLFolderView::setOpenArrangeRecursively: mIsOpen = TRUE, on
    the root. *)
Definition make_root_open (t : LLFolderViewFolder) : LLFolderViewFolder :=
  set_members (set_mIsOpen true (members t)) t.

(** The function at RECURSE_UP, on the folder whose position, read from the
    folder up to the root, is [rp]: the flag, the parent if there is one,
    then requestArrange() when the flag has changed.  On the root, a virtual
    call is one of LLFolderView::setOpenArrangeRecursively: the same, after
    which the root is made open. *)
Fixpoint Folder_setOpenArrangeRecursively_up (rp : list nat) (openitem : bool)
    (t : LLFolderViewFolder) : LLFolderViewFolder :=
  let was_open := node_isOpen t (RFolder (rev rp)) in
  let t1 := alter_members (set_mIsOpen openitem) (rev rp) t in
  let t2 := match rp with
            | [] => t1
            | _ :: rp' => Folder_setOpenArrangeRecursively_up rp' openitem t1
            end in
  let t3 := if eqb was_open (node_isOpen t2 (RFolder (rev rp))) then t2
            else requestArrange_at (rev rp) t2 in
  match rp with
  | [] => if virtual_call then make_root_open t3 else t3
  | _ :: _ => t3
  end.

(** void LLFolderViewFolder::setOpenArrangeRecursively(BOOL openitem, ERecurseType recurse),
    on the folder at [this] *)
Definition Folder_setOpenArrangeRecursively (shape : LLFolderViewFolder) (this : list nat)
    (openitem : bool) (recurse : ERecurseType) (t : LLFolderViewFolder)
    : LLFolderViewFolder :=
  let was_open := node_isOpen t (RFolder this) in
  let t1 := alter_members (set_mIsOpen openitem) this t in
  let t2 := match recurse with
            | RECURSE_DOWN | RECURSE_UP_DOWN =>
              for_each_folder
                (fun i c t => Folder_setOpenArrangeRecursively_down c (this ++ [i]) openitem t)
                0%nat (mFolders shape) t1
            | _ => t1
            end in
  let t3 := match recurse, rev this with
            | RECURSE_UP, _ :: rp' | RECURSE_UP_DOWN, _ :: rp' =>
              Folder_setOpenArrangeRecursively_up rp' openitem t2
            | _, _ => t2
            end in
  if eqb was_open (node_isOpen t3 (RFolder this)) then t3 else requestArrange_at this t3.

(** void LLFolderViewFolder::setOpen(BOOL openitem), on the folder at [this]:
    setOpenArrangeRecursively(openitem), which on the root, when the call is
    virtual, is the function of LLFolderView. *)
Definition setOpen (this : list nat) (openitem : bool) (t : LLFolderViewFolder)
    : LLFolderViewFolder :=
  match get_folder t this with
  | Some g =>
    let t' := Folder_setOpenArrangeRecursively g this openitem RECURSE_NO t in
    match this with
    | [] => if virtual_call then make_root_open t' else t'
    | _ :: _ => t'
    end
  | None => t
  end.

(** void LLFolderViewFolder::toggleOpen(), on the folder at [this] *)
Definition toggleOpen (this : list nat) (t : LLFolderViewFolder) : LLFolderViewFolder :=
  setOpen this (negb (node_isOpen t (RFolder this))) t.

(** void LLFolderView::setOpenArrangeRecursively(BOOL openitem, ERecurseType recurse):
    the base class, then the root folder is made open. *)
Definition LLFolderView_setOpenArrangeRecursively (openitem : bool) (recurse : ERecurseType)
    (fv : LLFolderView) : LLFolderView :=
  let t := Folder_setOpenArrangeRecursively (as_folder fv) [] openitem recurse (as_folder fv) in
  set_as_folder (make_root_open t) fv.

(** void LLFolderView::closeAllFolders() *)
Definition closeAllFolders (fv : LLFolderView) : LLFolderView :=
  LLFolderView_setOpenArrangeRecursively false RECURSE_DOWN fv.

End Opening.

(** ** Repeated arrangement and the heights it computes *)

(** arrange() called on a folder once for each width of [ws], with nothing
    else touching the tree in between. *)
Definition arrange_calls (getArrangeGeneration : Z) (getDebugFilters : bool)
    (show_folder_state : EFolderShow) (getInterpolant : bool -> F32)
    (LEFT_INDENTATION : Z) (beyond_height : NodeRef -> Z -> bool)
    (here : list nat) (parent_indentation : option Z) (filter_generation : Z)
    (ws : list Z) (f : LLFolderViewFolder) : LLFolderViewFolder :=
  fold_left
    (fun f w =>
       (Folder_arrange getArrangeGeneration getDebugFilters show_folder_state
          getInterpolant LEFT_INDENTATION beyond_height here parent_indentation
          filter_generation f w).1.1.1.1)
    ws f.

(** Whether arrange() finds a folder animating: the test
    [llabs(mCurHeight - mTargetHeight) > 1.f], made on the height [f] came
    with, clamped to that of a single item, and on the target height [f']
    leaves with. *)
Definition animating (f f' : LLFolderViewFolder) : bool :=
  absdiff_gt_one (F32_max (F32_of_S32 (mItemHeight (self f))) (mCurHeight (members f)))
                 (mTargetHeight (members f')).

(** What arrange() reads and writes of a folder to compute heights: the
    height of its own row, the current and the target height, the last
    arrange generation, the open flag, the same of the sub-folders that the
    rule shows, and the row heights of the items that the rule shows. *)
#[local] Unset Elimination Schemes.
Inductive Heights : Type :=
  HeightsOf (item_height : Z) (cur target : F32) (last_arrange : Z) (is_open : bool)
            (shown_folders : list Heights) (shown_items : list Z).
#[local] Set Elimination Schemes.

Definition shown_folders_of (t : Heights) : list Heights :=
  match t with HeightsOf _ _ _ _ _ kids _ => kids end.
Definition target_of (t : Heights) : F32 :=
  match t with HeightsOf _ _ tgt _ _ _ _ => tgt end.
Definition cur_of (t : Heights) : F32 :=
  match t with HeightsOf _ cur _ _ _ _ _ => cur end.

Definition heights_of_shown (below : LLFolderViewFolder -> Heights)
    (shown : LLFolderViewFolder -> bool)
    : list LLFolderViewFolder -> list Heights :=
  fix go cs :=
    match cs with
    | [] => []
    | c :: rest => if shown c then below c :: go rest else go rest
    end.

Fixpoint heights_of (getDebugFilters : bool) (show_folder_state : EFolderShow)
    (filter_generation : Z) (f : LLFolderViewFolder) {struct f} : Heights :=
  match f with
  | Folder b d fs its =>
    HeightsOf (mItemHeight b) (mCurHeight d) (mTargetHeight d)
      (mLastArrangeGeneration d) (mIsOpen d)
      (heights_of_shown
         (fun c => heights_of getDebugFilters show_folder_state filter_generation c)
         (folder_shown getDebugFilters show_folder_state filter_generation) fs)
      (mItemHeight <$> List.filter (item_shown getDebugFilters filter_generation) its)
  end.

(** The loop over the sub-folders of arrange(), on heights: it threads
    [target_height] and whether a sub-folder called requestArrange(). *)
Definition arrange_heights_folders (rec : Heights -> Heights * Z * bool)
    : list Heights -> F32 -> bool -> list Heights * F32 * bool :=
  fix loop kids target_height req :=
    match kids with
    | [] => ([], target_height, req)
    | k :: rest =>
      let '(k', returned, rq) := rec k in
      let '(rest', target', req') :=
        loop rest (F32_add target_height (F32_of_S32 returned)) (req || rq) in
      (k' :: rest', target', req')
    end.

(** The loop over the items, on heights. *)
Definition arrange_heights_items (items : list Z) (target_height : F32) : F32 :=
  fold_left (fun target child_height => F32_add target (F32_of_S32 child_height))
            items target_height.

(** LLFolderViewFolder::arrange on heights: the heights it leaves, the
    value it returns and whether it called requestArrange(). *)
Fixpoint arrange_heights (getArrangeGeneration : Z) (getInterpolant : bool -> F32)
    (t : Heights) {struct t} : Heights * Z * bool :=
  match t with
  | HeightsOf h cur tgt la is_open kids items =>
    let cur1 := F32_max (F32_of_S32 h) cur in
    let '(kids1, tgt1, la1, req) :=
      if la <? getArrangeGeneration then
        if is_open then
          let '(kids', target', req') :=
            arrange_heights_folders
              (fun k => arrange_heights getArrangeGeneration getInterpolant k)
              kids (F32_of_S32 h) false in
          (kids', arrange_heights_items items target',
           if req' then -1 else getArrangeGeneration, req')
        else (kids, F32_of_S32 h, getArrangeGeneration, false)
      else (kids, tgt, la, false) in
    if absdiff_gt_one cur1 tgt1 then
      (HeightsOf h (lerp cur1 tgt1 (getInterpolant is_open)) tgt1 (-1) is_open kids1 items,
       llround tgt1, true)
    else (HeightsOf h tgt1 tgt1 la1 is_open kids1 items, llround tgt1, req)
  end.

(** The heights after [n] calls. *)
Fixpoint arrange_heights_n (getArrangeGeneration : Z) (getInterpolant : bool -> F32)
    (n : nat) (t : Heights) : Heights :=
  match n with
  | O => t
  | S n' =>
    arrange_heights_n getArrangeGeneration getInterpolant n'
      (arrange_heights getArrangeGeneration getInterpolant t).1.1
  end.

(** Heights that a call leaves as they are, without a request. *)
Definition heights_settled (getArrangeGeneration : Z) (getInterpolant : bool -> F32)
    (t : Heights) : Prop :=
  arrange_heights getArrangeGeneration getInterpolant t = (t, llround (target_of t), false).

End WithFloat32.

(** * A sample inventory *)

Module Sample.

#[local] Existing Instance QFloat32.

Definition listener (id : LLUUID) (name : string) (removable : bool)
    : LLFolderViewEventListener :=
  Build_LLFolderViewEventListener id name removable.

Definition item (id : LLUUID) (name : string) (vis sel : bool) : LLFolderViewItem :=
  mkItem name (Some (listener id name true)) sel vis false (-1) false 0 0 20.

Definition closed_members : FolderMembers := mkMembers 0 false 0%Q 0%Q (-1) 0 (-1) (-1).
Definition open_members : FolderMembers := mkMembers 0 true 0%Q 0%Q (-1) 0 (-1) (-1).

(** The root with the open folder Clothing (items Shirt and Pants), the
    closed folder Objects (item Chair) and the item Notecard. *)
Definition inventory : LLFolderViewFolder :=
  Folder (item 0%N "root" true false) open_members
    [Folder (item 1%N "Clothing" true false) open_members []
       [item 2%N "Shirt" true false; item 3%N "Pants" true false];
     Folder (item 4%N "Objects" true false) closed_members []
       [item 5%N "Chair" true false]]
    [item 6%N "Notecard" true false].

Definition Clothing : NodeRef := RFolder [0%nat].
Definition Shirt : NodeRef := RItem [0%nat] 0.
Definition Pants : NodeRef := RItem [0%nat] 1.
Definition Objects : NodeRef := RFolder [1%nat].
Definition Chair : NodeRef := RItem [1%nat] 0.
Definition Notecard : NodeRef := RItem [] 0.


(** A filter that has not run yet: every node is still potentially visible. *)
Definition new_filter : LLInventoryFilter :=
  mkFilter 0 0 0 100 false SHOW_NON_EMPTY_FOLDERS [].

Definition id_index : gmap LLUUID NodeRef :=
  <[1%N := Clothing]> (<[2%N := Shirt]> (<[3%N := Pants]> (<[4%N := Objects]>
    (<[5%N := Chair]> (<[6%N := Notecard]> ∅))))).

(** A visible, enabled view on a tree with a selection list. *)
Definition view_of (t : LLFolderViewFolder) (selected : list NodeRef) : LLFolderView :=
  mkView t selected id_index new_filter true true 0 None false NO_SIGNAL [] [].

Definition view : LLFolderView := view_of inventory [].

(** The Chair in the closed folder Objects is the selection. *)
Definition chair_selected : LLFolderView :=
  view_of (selectItem Chair inventory) [Chair].

(** The root with the closed folder Wardrobe, in it the open folder Outfit,
    in it the item Hat, which is the selection. *)
Definition wardrobe : LLFolderViewFolder :=
  Folder (item 0%N "root" true false) open_members
    [Folder (item 1%N "Wardrobe" true false) closed_members
       [Folder (item 2%N "Outfit" true false) open_members []
          [item 3%N "Hat" true false]]
       []]
    [].

Definition Wardrobe : NodeRef := RFolder [0%nat].
Definition Outfit : NodeRef := RFolder [0%nat; 0%nat].
Definition Hat : NodeRef := RItem [0%nat; 0%nat] 0.

Definition hat_selected : LLFolderView := view_of (selectItem Hat wardrobe) [Hat].

(** The root with the items Notecard, which may be removed, and Landmark,
    which may not; both are selected. *)
Definition Landmark : NodeRef := RItem [] 1.

Definition locked : LLFolderViewFolder :=
  selectItem Landmark (selectItem Notecard
    (Folder (item 0%N "root" true false) open_members []
       [item 6%N "Notecard" true false;
        mkItem "Landmark" (Some (listener 7%N "Landmark" false)) false true false (-1)
               false 0 0 20])).

Definition locked_view : LLFolderView := view_of locked [Notecard; Landmark].

(** The same view, disabled. *)
Definition disabled_view : LLFolderView :=
  mkView locked [Notecard; Landmark] id_index new_filter true false 0 None false
         NO_SIGNAL [] [].


(** The inventory after a filter pass of generation 1 that the Shirt failed,
    and a narrower filter of generation 2 whose must-pass generation is 1. *)
Definition shirt_failed : LLFolderViewFolder :=
  Folder (item 0%N "root" true false) open_members
    [Folder (item 1%N "Clothing" true false) open_members []
       [mkItem "Shirt" (Some (listener 2%N "Shirt" true)) false true false 1 false 0 0 20;
        item 3%N "Pants" true false];
     Folder (item 4%N "Objects" true false) closed_members []
       [item 5%N "Chair" true false]]
    [item 6%N "Notecard" true false].

Definition narrower_filter : LLInventoryFilter :=
  mkFilter 2 2 1 100 true SHOW_NON_EMPTY_FOLDERS [].

(** The inventory after a pass of generation 1 that went through all of
    Clothing and in which nothing of Clothing passed: the folder is complete
    for generation 1, no descendant of it has passed at any generation, and
    the Shirt and the Pants failed at generation 1. *)
Definition clothing_all_failed : LLFolderViewFolder :=
  Folder (item 0%N "root" true false) open_members
    [Folder (item 1%N "Clothing" true false)
       (mkMembers 0 true 0%Q 0%Q (-1) 0 1 (-1)) []
       [mkItem "Shirt" (Some (listener 2%N "Shirt" true)) false true false 1 false 0 0 20;
        mkItem "Pants" (Some (listener 3%N "Pants" true)) false true false 1 false 0 0 20];
     Folder (item 4%N "Objects" true false) closed_members []
       [item 5%N "Chair" true false]]
    [item 6%N "Notecard" true false].

(** The same filter with a budget of two checks. *)
Definition short_filter : LLInventoryFilter := setFilterCount 2 narrower_filter.

(** A check that every node passes. *)
Definition passes_all : NodeRef -> LLFolderViewItem -> bool := fun _ _ => true.


(** Rows 20 high laid out from the top of a folder, below its own row: the
    bottom of item [j] lies [20 * (j + 2)] below the top, and a row is beyond
    the animated height when that exceeds the height by more than 2. *)
Definition rows_of_20 (r : NodeRef) (rounded_height : Z) : bool :=
  match r with
  | RItem _ j => rounded_height + 2 <? 20 * (Z.of_nat j + 2)
  | RFolder _ => false
  end.

(** The interpolant of a frame that moves the height half of the way. *)
Definition half_way (is_open : bool) : Q := 1 # 2.

(** The folder Clothing, just opened: its height is still that of one row. *)
Definition clothing_opened : LLFolderViewFolder :=
  Folder (item 1%N "Clothing" true false) open_members []
    [item 2%N "Shirt" true false; item 3%N "Pants" true false].

(** The folder Clothing at rest at its full height, arranged in generation 0,
    with the Shirt not shown. *)
Definition clothing_at_rest : LLFolderViewFolder :=
  Folder (item 1%N "Clothing" true false)
    (mkMembers 0 true (60 # 1) (60 # 1) 0 0 (-1) (-1)) []
    [item 2%N "Shirt" false false; item 3%N "Pants" true false].

End Sample.


(** * Properties *)

Section Properties.
Context {fl : Float32}.

Ltac break_let :=
  repeat match goal with
  | |- context [let '(_, _) := ?x in _] => destruct x eqn:?
  | H : context [let '(_, _) := ?x in _] |- _ => destruct x eqn:?
  end.

(** ** The vocabulary of the statements *)

(** The verdict "failed at a generation at or above the must-pass
    generation". *)
Definition failed_since (must_pass_generation : Z) (it : LLFolderViewItem) : Prop :=
  mPassedFilter it = false /\ must_pass_generation <= mLastFilterGeneration it.

(** What a filter pass may change of the filter: its count, downwards, and
    the instrumentation. *)
Definition filter_advances (new : list NodeRef) (flt flt' : LLInventoryFilter) : Prop :=
  getCurrentGeneration flt' = getCurrentGeneration flt /\
  getMinRequiredGeneration flt' = getMinRequiredGeneration flt /\
  getMustPassGeneration flt' = getMustPassGeneration flt /\
  getFilterCount flt' <= getFilterCount flt /\
  checked flt' = new ++ checked flt.

(** The position [r] inside the [i]-th sub-folder. *)
Definition ref_in_child (i : nat) (r : NodeRef) : NodeRef :=
  match r with
  | RFolder p => RFolder (i :: p)
  | RItem p j => RItem (i :: p) j
  end.

(** A position at which the filter's check may run: a node the shortcut for
    earlier failures does not cover. *)
Definition check_allowed (must_pass_generation : Z) (here : list nat)
    (f : LLFolderViewFolder) (x : NodeRef) : Prop :=
  exists r it, x = ref_under here r /\ node_at f r = Some it /\
               ~ failed_since must_pass_generation it.

(** Nodes that had failed since the must-pass generation still fail, and
    their generation is the old one or the current one. *)
Definition keeps_failed (must_pass_generation current : Z)
    (f f' : LLFolderViewFolder) : Prop :=
  forall r it, node_at f r = Some it -> failed_since must_pass_generation it ->
    exists it', node_at f' r = Some it' /\ failed_since must_pass_generation it' /\
      (mLastFilterGeneration it' = mLastFilterGeneration it \/
       mLastFilterGeneration it' = current).

(** What the loop over [mItems] does to one item. *)
Definition item_kept (must_pass_generation current : Z)
    (it it' : LLFolderViewItem) : Prop :=
  failed_since must_pass_generation it ->
  failed_since must_pass_generation it' /\
  (mLastFilterGeneration it' = mLastFilterGeneration it \/
   mLastFilterGeneration it' = current).

(** What [folder->filter(filter)] on the folder at [h] guarantees. *)
Definition filter_result_ok (h : list nat) (c : LLFolderViewFolder)
    (flt : LLInventoryFilter) (c' : LLFolderViewFolder) (flt' : LLInventoryFilter)
    : Prop :=
  exists new, filter_advances new flt flt' /\
    (forall x, x ∈ new -> check_allowed (getMustPassGeneration flt) h c x) /\
    keeps_failed (getMustPassGeneration flt) (getCurrentGeneration flt) c c' /\
    (getCompletedFilterGeneration c < getCurrentGeneration flt ->
     getCurrentGeneration flt <= mLastFilterGeneration (self c')) /\
    (getCompletedFilterGeneration c' = getCompletedFilterGeneration c \/
     getCompletedFilterGeneration c' = getCurrentGeneration flt).

(** The pass goes on from the folder [g] to its children: [g] is not yet
    complete for the current generation, and it is not left at "all
    descendants have been filtered later than must pass generation but none
    passed". *)
Definition filter_enters (flt : LLInventoryFilter) (g : LLFolderViewFolder) : bool :=
  (getCompletedFilterGeneration g <? getCurrentGeneration flt)
  && negb ((getMustPassGeneration flt <=? getCompletedFilterGeneration g)
           && negb (hasFilteredDescendants g (getMustPassGeneration flt))).

(** The pass run on [f] goes on from every folder on the way down to the
    folder at [p], that folder included. *)
Fixpoint filter_enters_all (flt : LLInventoryFilter) (f : LLFolderViewFolder)
    (p : list nat) : bool :=
  match p with
  | [] => filter_enters flt f
  | i :: p' =>
    filter_enters flt f &&
    match mFolders f !! i with
    | Some c => filter_enters_all flt c p'
    | None => false
    end
  end.

(** The pass run on [f] goes on from every folder above the folder at [p],
    and that folder is not yet complete for the current generation. *)
Fixpoint filter_comes_to_folder (flt : LLInventoryFilter) (f : LLFolderViewFolder)
    (p : list nat) : bool :=
  match p with
  | [] => getCompletedFilterGeneration f <? getCurrentGeneration flt
  | i :: p' =>
    filter_enters flt f &&
    match mFolders f !! i with
    | Some c => filter_comes_to_folder flt c p'
    | None => false
    end
  end.

(** The pass run on [f] comes to the node at [r] when its count lasts. *)
Definition filter_comes_to (flt : LLInventoryFilter) (f : LLFolderViewFolder)
    (r : NodeRef) : bool :=
  match r with
  | RFolder p => filter_comes_to_folder flt f p
  | RItem p _ => filter_enters_all flt f p
  end.

(** What [folder->filter(filter)] does to the nodes it comes to when the
    count has not gone below zero: they carry the current generation. *)
Definition stamps_reached (c : LLFolderViewFolder) (flt : LLInventoryFilter)
    (c' : LLFolderViewFolder) (flt' : LLInventoryFilter) : Prop :=
  0 <= getFilterCount flt' ->
  forall r it, node_at c r = Some it -> filter_comes_to flt c r = true ->
    exists it', node_at c' r = Some it' /\
                getCurrentGeneration flt <= mLastFilterGeneration it'.

(** A sub-folder the loop has dealt with. *)
Definition folder_visited (current : Z) (c : LLFolderViewFolder) : Prop :=
  current <= getCompletedFilterGeneration c \/
  current <= mLastFilterGeneration (self c).

Definition items_weight (its : list LLFolderViewItem) : Z :=
  fold_right (fun it acc => selected_weight it + acc) 0 its.

(** What a sub-folder adds to the count of its parent. *)
Definition folder_weight (c : LLFolderViewFolder) : Z :=
  selected_weight (self c) + count_selected_descendants c.

Definition folders_weight (fs : list LLFolderViewFolder) : Z :=
  fold_right (fun c acc => folder_weight c + acc) 0 fs.

Definition add_to_count (increment : Z) (d : FolderMembers) : FolderMembers :=
  set_mNumDescendantsSelected (mNumDescendantsSelected d + increment) d.

(** [tmap gi gd] rewrites every node of a tree: a way to say which part of
    the tree an operation leaves alone. *)
Fixpoint tmap (gi : LLFolderViewItem -> LLFolderViewItem)
    (gd : FolderMembers -> FolderMembers) (f : LLFolderViewFolder) : LLFolderViewFolder :=
  match f with
  | Folder b d fs its => Folder (gi b) (gd d) (map (tmap gi gd) fs) (map gi its)
  end.

(** The selection state of a tree, everything else blanked. *)
Definition selection_of_item (it : LLFolderViewItem) : LLFolderViewItem :=
  mkItem "" None (mIsSelected it) false false 0 false 0 0 0.
Definition selection_of_members (d : FolderMembers) : FolderMembers :=
  mkMembers (mNumDescendantsSelected d) false (F32_of_S32 0) (F32_of_S32 0) 0 0 0 0.
Definition selection_of : LLFolderViewFolder -> LLFolderViewFolder :=
  tmap selection_of_item selection_of_members.

(** What the backward scan does with a folder it stops at. *)
Definition descend_last (c : LLFolderViewFolder) (path : list nat) : Walk :=
  if isOpen c then getPreviousFromChild c path None else At (RFolder path).

(** What the backward scan hands back when it stops at the child [x] of the
    folder [f] at [this]. *)
Definition child_walk (f : LLFolderViewFolder) (this : list nat) (x : Found) : Walk :=
  match x with
  | FoundFolder k =>
    match mFolders f !! k with
    | Some c => descend_last c (this ++ [k])
    | None => Undefined
    end
  | FoundItem j => At (RItem this j)
  | NotFound => Undefined
  end.

Definition child_visible (f : LLFolderViewFolder) (x : Found) : Prop :=
  match x with
  | FoundFolder k => exists c, mFolders f !! k = Some c /\ mVisible (self c) = true
  | FoundItem j => exists it, mItems f !! j = Some it /\ mVisible it = true
  | NotFound => False
  end.

(** The positions [fit] and [iit] just after the child [x]. *)
Definition after_child (f : LLFolderViewFolder) (x : Found) : nat * nat :=
  match x with
  | FoundFolder k => (S k, 0%nat)
  | FoundItem j => (length (mFolders f), S j)
  | NotFound => (0%nat, 0%nat)
  end.

(** Every folder on the way from the root (excluded) down to the folder at
    [Q] (included) is open and visible. *)
Definition ancestors_shown (t : LLFolderViewFolder) (Q : list nat) : Prop :=
  forall q, q <> [] -> q `prefix_of` Q ->
    exists g, get_folder t q = Some g /\ isOpen g = true /\ mVisible (self g) = true.

(** A node of the flattened order: visible, inside open and visible
    folders. *)
Definition shown (t : LLFolderViewFolder) (N : NodeRef) : Prop :=
  getVisible_at t N = Some true /\
  exists P, getParentFolder N = Some P /\ ancestors_shown t P.

(** getNextFromChild after the search has stopped at the child [x] without
    going into it. *)
Definition next_after (fuel : nat) (t : LLFolderViewFolder) (Q : list nat)
    (f : LLFolderViewFolder) (x : Found) : Walk :=
  match scan_forward f Q (after_child f x).1 (after_child f x).2 with
  | Some r => At r
  | None =>
    match getParentFolder (RFolder Q) with
    | Some parent_folder => getNextFromChild fuel t parent_folder (Some (RFolder Q)) false
    | None => Null
    end
  end.

(** No visible child of [f] comes after the child [x]. *)
Definition nothing_after (f : LLFolderViewFolder) (x : Found) : Prop :=
  scan_forward f [] (after_child f x).1 (after_child f x).2 = None.

(** No visible child of [f] comes before the child [x]: for an item no
    visible item before it and no visible folder, for a folder no visible
    folder before it. *)
Definition nothing_before (f : LLFolderViewFolder) (x : Found) : Prop :=
  match x with
  | FoundItem j =>
    (forall i y, (i < j)%nat -> mItems f !! i = Some y -> mVisible y = false) /\
    (forall k c, mFolders f !! k = Some c -> mVisible (self c) = false)
  | FoundFolder k =>
    forall i c, (i < k)%nat -> mFolders f !! i = Some c -> mVisible (self c) = false
  | NotFound => False
  end.

(** Nothing visible comes after the child [x] of the folder at [Q], nor
    after that folder in its parent, and so on up to the root. *)
Inductive ends_at (t : LLFolderViewFolder) : list nat -> Found -> Prop :=
  | ends_at_root f x :
      get_folder t [] = Some f -> nothing_after f x -> ends_at t [] x
  | ends_at_step Q k f x :
      get_folder t (Q ++ [k]) = Some f -> nothing_after f x ->
      ends_at t Q (FoundFolder k) -> ends_at t (Q ++ [k]) x.

(** The flattened folders-before-items ordering.  The visible items of
    [its], the first of them being item [j] of the folder at [here]. *)
Fixpoint flattened_items (here : list nat) (j : nat) (its : list LLFolderViewItem)
    : list NodeRef :=
  match its with
  | [] => []
  | it :: rest =>
    (if mVisible it then [RItem here j] else []) ++ flattened_items here (S j) rest
  end.

(** The visible folders of [cs], the first of them being sub-folder [i] of
    the folder at [here], each followed by what [below] lists for it when it
    is open. *)
Definition flattened_folders (below : LLFolderViewFolder -> list nat -> list NodeRef)
    (here : list nat) : nat -> list LLFolderViewFolder -> list NodeRef :=
  fix go i cs :=
    match cs with
    | [] => []
    | c :: rest =>
      (if mVisible (self c)
       then RFolder (here ++ [i]) :: (if isOpen c then below c (here ++ [i]) else [])
       else [])
      ++ go (S i) rest
    end.

(** The nodes displayed below the folder [f] at [here], from top to bottom:
    its visible sub-folders, each with what is displayed below it when it is
    open, then its visible items. *)
Fixpoint flattened_below (f : LLFolderViewFolder) (here : list nat) {struct f}
    : list NodeRef :=
  match f with
  | Folder _ _ fs its =>
    flattened_folders (fun c h => flattened_below c h) here 0%nat fs
    ++ flattened_items here 0%nat its
  end.

(** The nodes displayed by the view, from top to bottom. *)
Definition flattened (t : LLFolderViewFolder) : list NodeRef := flattened_below t [].

(** The position of the child [x] of the folder at [Q]. *)
Definition child_ref (Q : list nat) (x : Found) : NodeRef :=
  match x with
  | FoundFolder k => RFolder (Q ++ [k])
  | FoundItem j => RItem Q j
  | NotFound => RFolder Q
  end.

(** What is displayed below the child [x] of the folder [f] at [Q]. *)
Definition below_child (f : LLFolderViewFolder) (Q : list nat) (x : Found)
    : list NodeRef :=
  match x with
  | FoundFolder k =>
    match mFolders f !! k with
    | Some c => if isOpen c then flattened_below c (Q ++ [k]) else []
    | None => []
    end
  | _ => []
  end.

(** The first visible child the forward walk enters from [N]: none for an
    item, a closed folder, or when children are not included. *)
Definition first_child_of (t : LLFolderViewFolder) (N : NodeRef) (include_children : bool)
    : option NodeRef :=
  match N with
  | RFolder p =>
    match get_folder t p with
    | Some c => if include_children && isOpen c then scan_forward c p 0 0 else None
    | None => None
    end
  | RItem _ _ => None
  end.

(** The tree without its selection flags and counters: what the filter and
    the opening and closing of folders have made of it. *)
Definition deselected_item (it : LLFolderViewItem) : LLFolderViewItem :=
  set_mIsSelected false it.
Definition deselected_members (d : FolderMembers) : FolderMembers :=
  set_mNumDescendantsSelected 0 d.
Definition deselected : LLFolderViewFolder -> LLFolderViewFolder :=
  tmap deselected_item deselected_members.

(** The view apart from the selection: the tree without its selection flags
    and counters, the filter, the id index and the selection mode. *)
Definition same_state (fv fv' : LLFolderView) : Prop :=
  deselected (as_folder fv') = deselected (as_folder fv) /\
  mFilter fv' = mFilter fv /\
  mItemMap fv' = mItemMap fv /\
  mAllowMultiSelect fv' = mAllowMultiSelect fv.

(** The loop of sanitizeSelection that deselects the nodes of [removed]. *)
Definition deselect_all (removed : list NodeRef) (fv : LLFolderView) : LLFolderView :=
  fold_left (fun fv item => (LLFolderView_changeSelection (Some item) false fv).1)
            removed fv.

(** What that loop leaves of a selection list. *)
Definition remaining (multi : bool) (removed selected : list NodeRef) : list NodeRef :=
  if multi
  then List.filter (fun r => negb (bool_decide (r ∈ removed))) selected
  else match removed with
       | [] => selected
       | _ :: _ => []
       end.

(** A node that is potentially visible, below folders that are all open and
    potentially visible. *)
Definition chain_visible (fv : LLFolderView) (r : NodeRef) : Prop :=
  potentiallyVisible fv r = true /\
  forall p, p ∈ parent_chain r ->
    isOpen_at fv p = true /\ potentiallyVisible fv (RFolder p) = true.

(** The potentially visible folders above a node, nearest first. *)
Definition potentially_visible_above (fv : LLFolderView) (o : NodeRef) : list (list nat) :=
  List.filter (fun p => potentiallyVisible fv (RFolder p)) (parent_chain o).

(** The highest closed folder among them, else the nearest of them. *)
Definition highest_closed_else_nearest (fv : LLFolderView) (o : NodeRef) : option NodeRef :=
  match last (List.filter (fun p => negb (isOpen_at fv p))
                          (potentially_visible_above fv o)) with
  | Some c => Some (RFolder c)
  | None => RFolder <$> head (potentially_visible_above fv o)
  end.

(** The shape of the tree alone: which positions name a node. *)
Definition blank_item (it : LLFolderViewItem) : LLFolderViewItem :=
  mkItem "" None false false false 0 false 0 0 0.
Definition blank_members (d : FolderMembers) : FolderMembers :=
  mkMembers 0 false (F32_of_S32 0) (F32_of_S32 0) 0 0 0 0.
Definition skeleton : LLFolderViewFolder -> LLFolderViewFolder :=
  tmap blank_item blank_members.

(** The position [r] names a node of the tree. *)
Definition is_node (t : LLFolderViewFolder) (r : NodeRef) : bool :=
  match node_at t r with Some _ => true | None => false end.

(** The folder part of a position: the folder itself, or the folder an item
    lies in. *)
Definition folder_path (r : NodeRef) : list nat :=
  match r with
  | RFolder p => p
  | RItem p _ => p
  end.

(** The position [r] lies in the sub-tree of the folder at [this], the
    folder itself included. *)
Definition within (this : list nat) (r : NodeRef) : bool :=
  bool_decide (this `prefix_of` folder_path r).


(** The folder at [this] of the tree has the shape of [shape]. *)
Definition shape_at (t : LLFolderViewFolder) (this : list nat) (shape : LLFolderViewFolder)
    : Prop :=
  get_folder (skeleton t) this = Some (skeleton shape).

(** The positions a traversal of the folder at [this] reaches, when the
    folder has [nf] sub-folders and [ni] items. *)
Definition reach (this : list nat) (nf ni : nat) (r : NodeRef) : bool :=
  bool_decide (r = RFolder this)
  || existsb (fun k => within (this ++ [k]) r) (seq 0 nf)
  || existsb (fun j => bool_decide (r = RItem this j)) (seq 0 ni).


Definition is_folder (r : NodeRef) : bool :=
  match r with RFolder _ => true | RItem _ _ => false end.

(** What setSelection makes of the flag [b] of the node at [r], in a tree
    with the nodes of [t0]: selected when it is the selection, but a leaf
    that is the selection and was selected already is deselected. *)
Definition setSelection_flag (t0 : LLFolderViewFolder) (selection : option NodeRef)
    (r : NodeRef) (b : bool) : bool :=
  bool_decide (selection = Some r) && is_node t0 r && (is_folder r || negb b).

(** What changeSelection makes of the flag [b] of the node at [r]. *)
Definition changeSelection_flag (t0 : LLFolderViewFolder) (selection : NodeRef)
    (selected : bool) (r : NodeRef) (b : bool) : bool :=
  if bool_decide (r = selection) then selected && is_node t0 r else b.


(** What recursiveDeselect makes of the flag of a node of the subtree of
    [this]: cleared, the folder itself apart when it is not to be
    deselected. *)
Definition deselect_flag (this : list nat) (deselect_self : bool)
    (r : NodeRef) (b : bool) : bool :=
  if bool_decide (r = RFolder this) && negb deselect_self then b else false.


(** The selection list and the flags of the tree tell the same story: the
    counters are accurate, the list names every selected node once and no
    other, and the root is not selected. *)
Definition selection_consistent (fv : LLFolderView) : Prop :=
  counts_accurate (as_folder fv) = true /\
  NoDup (mSelectedItems fv) /\
  isSelected (as_folder fv) root_ref = false /\
  forall r, r ∈ mSelectedItems fv <-> isSelected (as_folder fv) r = true.

(** The positions of all the nodes of a tree. *)
Fixpoint all_refs (f : LLFolderViewFolder) : list NodeRef :=
  match f with
  | Folder _ _ fs its =>
    RFolder [] :: map (RItem []) (seq 0 (length its)) ++
    (fix below (i : nat) (cs : list LLFolderViewFolder) : list NodeRef :=
       match cs with
       | [] => []
       | c :: cs' => map (ref_under [i]) (all_refs c) ++ below (S i) cs'
       end) 0%nat fs
  end.

(** The positions of the nodes of the folders [cs], the first of which is
    sub-folder [i]. *)
Fixpoint refs_below (i : nat) (cs : list LLFolderViewFolder) : list NodeRef :=
  match cs with
  | [] => []
  | c :: cs' => map (ref_under [i]) (all_refs c) ++ refs_below (S i) cs'
  end.

(** [selection_consistent], computed. *)
Definition selection_consistentb (fv : LLFolderView) : bool :=
  counts_accurate (as_folder fv)
  && bool_decide (NoDup (mSelectedItems fv))
  && negb (isSelected (as_folder fv) root_ref)
  && forallb (isSelected (as_folder fv)) (mSelectedItems fv)
  && forallb (fun r => implb (isSelected (as_folder fv) r)
                             (bool_decide (r ∈ mSelectedItems fv)))
             (all_refs (as_folder fv)).


(** What setOpenArrangeRecursively makes of the open flag of a position it
    reaches: a folder of the tree gets [openitem]. *)
Definition open_flag (t0 : LLFolderViewFolder) (openitem : bool) (r : NodeRef) (b : bool)
    : bool :=
  if is_folder r && is_node t0 r then openitem else b.

(** The folders setOpenArrangeRecursively reaches from the folder at [this]:
    the folder, those below it when it recurses down, those above it when it
    recurses up. *)
Definition recurses_down (recurse : ERecurseType) : bool :=
  match recurse with RECURSE_DOWN | RECURSE_UP_DOWN => true | _ => false end.
Definition recurses_up (recurse : ERecurseType) : bool :=
  match recurse with RECURSE_UP | RECURSE_UP_DOWN => true | _ => false end.
Definition reached_by (recurse : ERecurseType) (this q : list nat) : bool :=
  bool_decide (q = this)
  || recurses_down recurse && bool_decide (this `prefix_of` q)
  || recurses_up recurse && bool_decide (q `prefix_of` this).

(** The walk up from the folder at [this] ends on the root [q] in the
    function of LLFolderView. *)
Definition ends_in_the_view (virtual_call : bool) (recurse : ERecurseType)
    (this q : list nat) : bool :=
  virtual_call && recurses_up recurse && bool_decide (q = [])
  && negb (bool_decide (this = [])).

(** requestArrange() has been called on the folder at [q] and no arrange has
    run on it since. *)
Definition arrange_requested (t : LLFolderViewFolder) (q : list nat) : bool :=
  match get_folder t q with
  | Some g => mLastArrangeGeneration (members g) =? -1
  | None => false
  end.


(** The tree with the open flags and the arrange requests blanked: the rest
    is what opening and closing folders leaves alone. *)
Definition without_open_members (d : FolderMembers) : FolderMembers :=
  set_mLastArrangeGeneration 0 (set_mIsOpen false d).
Definition without_open_state : LLFolderViewFolder -> LLFolderViewFolder :=
  tmap id without_open_members.

(** From [t] to [t'] the shape is kept, no arrange request is lost, and
    every folder whose open flag has changed has an arrange request, as has
    each folder above it. *)
Definition requests_follow (t t' : LLFolderViewFolder) : Prop :=
  skeleton t' = skeleton t /\
  (forall q, arrange_requested t q = true -> arrange_requested t' q = true) /\
  (forall q q', node_isOpen t' (RFolder q) <> node_isOpen t (RFolder q) ->
                q' `prefix_of` q -> arrange_requested t' q' = true).


(** From [flt] to [flt'] the check ran on some more nodes, and the count went
    down by at least one for each of them. *)
Definition paid_checks (flt flt' : LLInventoryFilter) : Prop :=
  exists new, checked flt' = new ++ checked flt /\
    Z.of_nat (length new) <= getFilterCount flt - getFilterCount flt'.

(** A node and the members of a folder with what the filter writes blanked:
    the verdict and its generation; the height that a newly passing folder
    starts from, the arrange request, the two filter generations and, when
    the root asks for auto-selection, the open flag. *)
Definition outside_filter_item (it : LLFolderViewItem) : LLFolderViewItem :=
  set_mLastFilterGeneration 0 (set_mPassedFilter false it).
Definition outside_filter_members (needsAutoSelect : bool) (d : FolderMembers)
    : FolderMembers :=
  set_mCurHeight (F32_of_S32 0)
    (set_mLastArrangeGeneration 0
       (set_mCompletedFilterGeneration 0
          (set_mMostFilteredDescendantGeneration 0
             (if needsAutoSelect then set_mIsOpen false d else d)))).
Definition outside_filter (needsAutoSelect : bool)
    : LLFolderViewFolder -> LLFolderViewFolder :=
  tmap outside_filter_item (outside_filter_members needsAutoSelect).


(** A node and the members of a folder with what arrange() writes blanked:
    the visible flag, mHasVisibleChildren and the indentation; the two
    heights, the last arrange generation and the last calculated width. *)
Definition outside_arrange_item (it : LLFolderViewItem) : LLFolderViewItem :=
  set_mIndentation 0 (set_mHasVisibleChildren false (setVisible false it)).
Definition outside_arrange_members (d : FolderMembers) : FolderMembers :=
  set_mLastCalculatedWidth 0
    (set_mLastArrangeGeneration 0
       (set_mTargetHeight (F32_of_S32 0) (set_mCurHeight (F32_of_S32 0) d))).
Definition outside_arrange : LLFolderViewFolder -> LLFolderViewFolder :=
  tmap outside_arrange_item outside_arrange_members.


(** The nodes a call on the listeners asks to remove. *)
Definition call_nodes (c : ListenerCall) : list NodeRef :=
  match c with
  | call_removeItem item => [item]
  | call_removeBatch items => items
  end.


(** A node and the members of a folder with what taking a node out and
    putting a node in invalidate blanked: the visible flag and the last
    filter generation; the arrange request and the two filter generations. *)
Definition invalidated_item (it : LLFolderViewItem) : LLFolderViewItem :=
  setVisible false (set_mLastFilterGeneration 0 it).
Definition invalidated_members (d : FolderMembers) : FolderMembers :=
  set_mLastArrangeGeneration 0
    (set_mCompletedFilterGeneration 0 (set_mMostFilteredDescendantGeneration 0 d)).
Definition invalidated : LLFolderViewFolder -> LLFolderViewFolder :=
  tmap invalidated_item invalidated_members.


(** *** Repeated arrangement *)

(** Modelled from the spec: "open/close is animated by exponential
    interpolation toward target", "using a fixed per-direction damping time
    constant".  The interpolant of a frame, for an open and for a closed
    folder, is a fraction of the way to the target: more than none of it and
    at most all of it.  With the exact [Q_lerp] the height then comes closer
    to the target by that fraction of the distance. *)
Definition interpolant_ok (getInterpolant : bool -> Q) : Prop :=
  forall is_open, (0 < getInterpolant is_open)%Q /\ (getInterpolant is_open <= 1)%Q.

(** The heights of the rows are not negative, and neither are the target
    heights the folders carry (arrange() computes a target height as a sum
    of row heights). *)
Fixpoint heights_nonneg (f : @LLFolderViewFolder QFloat32) : bool :=
  match f with
  | Folder b d fs its =>
    (0 <=? mItemHeight b) && Qle_bool 0 (@mTargetHeight QFloat32 d)
    && forallb heights_nonneg fs
    && forallb (fun it => 0 <=? mItemHeight it) its
  end.

(** Heights of rows that are not negative, with target heights that are not
    negative. *)
Fixpoint heights_sane (t : @Heights QFloat32) : bool :=
  match t with
  | HeightsOf h _ tgt _ _ kids items =>
    (0 <=? h) && Qle_bool 0 tgt && forallb heights_sane kids && forallb (Z.leb 0) items
  end.

(** Induction on the tree, with the hypothesis for every sub-folder. *)
Lemma Folder_ind' (P : LLFolderViewFolder -> Prop) :
  (forall b d fs its, Forall P fs -> P (Folder b d fs its)) ->
  forall f, P f.
Proof.
  intros step. fix IH 1. intros [b d fs its]. apply step.
  induction fs as [|c fs IHfs]; constructor; [apply IH | exact IHfs].
Qed.

(** ** Filtering *)

Lemma filter_advances_refl flt : filter_advances [] flt flt.
Proof. repeat split; simpl; lia. Qed.

Lemma filter_advances_trans n1 n2 flt1 flt2 flt3 :
  filter_advances n1 flt1 flt2 -> filter_advances n2 flt2 flt3 ->
  filter_advances (n2 ++ n1) flt1 flt3.
Proof.
  intros (?&?&?&?&E1) (?&?&?&?&E2). repeat split; try congruence; try lia.
  rewrite E2, E1. by rewrite app_assoc.
Qed.

Lemma node_at_root b d fs its :
  node_at (Folder b d fs its) (RFolder []) = Some b.
Proof. reflexivity. Qed.

Lemma node_at_child_folder b d fs its i p :
  node_at (Folder b d fs its) (RFolder (i :: p)) =
  match fs !! i with Some c => node_at c (RFolder p) | None => None end.
Proof. simpl. by destruct (fs !! i). Qed.

Lemma node_at_child_item b d fs its i p j :
  node_at (Folder b d fs its) (RItem (i :: p) j) =
  match fs !! i with Some c => node_at c (RItem p j) | None => None end.
Proof. unfold node_at, get_item. simpl. by destruct (fs !! i). Qed.

Lemma node_at_own_item b d fs its j :
  node_at (Folder b d fs its) (RItem [] j) = its !! j.
Proof. reflexivity. Qed.

Lemma node_at_in_child b d fs its i r :
  node_at (Folder b d fs its) (ref_in_child i r) =
  match fs !! i with Some c => node_at c r | None => None end.
Proof.
  destruct r; [apply node_at_child_folder | apply node_at_child_item].
Qed.

Lemma ref_under_in_child here i r :
  ref_under here (ref_in_child i r) = ref_under (here ++ [i]) r.
Proof. destruct r; simpl; by rewrite <- app_assoc. Qed.

Lemma ref_under_inj here r1 r2 : ref_under here r1 = ref_under here r2 -> r1 = r2.
Proof.
  destruct r1, r2; simpl; intros H; inversion H; subst;
    try (f_equal; by eapply app_inv_head).
Qed.

Lemma node_at_set_members d f r : node_at (set_members d f) r = node_at f r.
Proof. destruct f. destruct r as [[|i p]|[|i p] j]; reflexivity. Qed.

Lemma keeps_failed_refl m c f : keeps_failed m c f f.
Proof. intros r it H1 H2. exists it. auto. Qed.

Lemma keeps_failed_trans m c f1 f2 f3 :
  keeps_failed m c f1 f2 -> keeps_failed m c f2 f3 -> keeps_failed m c f1 f3.
Proof.
  intros H12 H23 r it Hr Hf.
  destruct (H12 r it Hr Hf) as (it2 & Hr2 & Hf2 & Hs2).
  destruct (H23 r it2 Hr2 Hf2) as (it3 & Hr3 & Hf3 & Hs3).
  exists it3. repeat split; try apply Hf3; auto.
  destruct Hs2, Hs3; intuition congruence.
Qed.

Lemma keeps_failed_set_members m c d f : keeps_failed m c f (set_members d f).
Proof.
  intros r it H1 H2. exists it. rewrite node_at_set_members. auto.
Qed.

Section FilteringFacts.
Variable check : NodeRef -> LLFolderViewItem -> bool.
Variable needsAutoSelect : bool.

Lemma run_check_spec r it flt v flt1 :
  run_check check r it flt = (v, flt1) ->
  exists new, filter_advances new flt flt1 /\ (new = [] \/ new = [r]) /\
              getFilterCount flt1 = getFilterCount flt.
Proof.
  unfold run_check. destruct (mListener it); intros [= <- <-].
  - exists [r]. repeat split; auto.
    simpl. lia.
  - exists []. split; [apply filter_advances_refl | auto].
Qed.

Lemma Item_filter_spec r hp it flt it' flt' rq :
  Item_filter check r hp it flt = (it', flt', rq) ->
  exists new, filter_advances new flt flt' /\ (new = [] \/ new = [r]) /\
    getFilterCount flt' = getFilterCount flt - 1 /\
    mLastFilterGeneration it' = getCurrentGeneration flt.
Proof.
  unfold Item_filter. destruct (run_check check r it flt) as [v flt1] eqn:E.
  intros [= <- <- <-].
  destruct (run_check_spec _ _ _ _ _ E) as (new & (Hc & Hm & Hp & Hn & Hl) & Hnew & Hcnt).
  exists new. repeat split; simpl; auto; try lia.
Qed.

Lemma filter_items_loop_spec here its : forall j d flt req its' d' flt' req',
  filter_items_loop check here j its d flt req = (its', d', flt', req') ->
  exists new, filter_advances new flt flt' /\
    (forall x, x ∈ new -> exists k it, x = RItem here (j + k) /\ its !! k = Some it /\
                 ~ failed_since (getMustPassGeneration flt) it) /\
    Forall2 (item_kept (getMustPassGeneration flt) (getCurrentGeneration flt)) its its' /\
    (0 <= getFilterCount flt' ->
     Forall (fun it' => getCurrentGeneration flt <= mLastFilterGeneration it') its') /\
    mCompletedFilterGeneration d' = mCompletedFilterGeneration d.
Proof.
  induction its as [|item rest IH]; intros j d flt req its' d' flt' req'; simpl.
  - intros [= <- <- <- <-]. exists []. split; [apply filter_advances_refl|].
    repeat split; auto. intros x Hx. by apply elem_of_nil in Hx.
  - destruct (getFilterCount flt <? 0) eqn:Hcount.
    { intros [= <- <- <- <-]. exists []. split; [apply filter_advances_refl|].
      repeat split; auto.
      - intros x Hx. by apply elem_of_nil in Hx.
      - apply Forall2_same_length_lookup_2; [done|].
        intros k a b Ha Hb. assert (a = b) by congruence. subst. intros Hf. auto.
      - intros Hge. apply Z.ltb_lt in Hcount. lia. }
    unfold getLastFilterGeneration.
    destruct (getCurrentGeneration flt <=? mLastFilterGeneration item) eqn:Hdone.
    { destruct (filter_items_loop check here (S j) rest _ flt req)
        as [[[rest' d2] flt2] req2] eqn:E.
      intros [= <- <- <- <-].
      destruct (IH _ _ _ _ _ _ _ _ E) as (new & Hadv & Hlog & Hkeep & Hst & Hcomp).
      exists new. split; [exact Hadv|]. repeat split.
      - intros x Hx. destruct (Hlog x Hx) as (k & it & -> & Hk & Hnf).
        exists (S k), it. split; [f_equal; lia|]. auto.
      - constructor; [|exact Hkeep]. intros Hf. auto.
      - intros Hge. constructor; [|auto]. apply Z.leb_le in Hdone. exact Hdone.
      - rewrite Hcomp. by destruct (getFiltered item _). }
    destruct ((getMustPassGeneration flt <=? mLastFilterGeneration item)
              && negb (getFiltered item (getMustPassGeneration flt))) eqn:Hshort.
    { destruct (filter_items_loop check here (S j) rest d flt req)
        as [[[rest' d2] flt2] req2] eqn:E.
      intros [= <- <- <- <-].
      destruct (IH _ _ _ _ _ _ _ _ E) as (new & Hadv & Hlog & Hkeep & Hst & Hcomp).
      exists new. split; [exact Hadv|]. repeat split.
      - intros x Hx. destruct (Hlog x Hx) as (k & it & -> & Hk & Hnf).
        exists (S k), it. split; [f_equal; lia|]. auto.
      - constructor; [|exact Hkeep]. intros [Hp Hg]. unfold failed_since. simpl.
        apply Z.leb_gt in Hdone. split; [split; [reflexivity|lia] | by right].
      - intros Hge. constructor; [|auto]. simpl. lia.
      - exact Hcomp. }
    destruct (Item_filter check (RItem here j) true item flt) as [[item1 flt1] rq] eqn:EI.
    destruct (filter_items_loop check here (S j) rest _ flt1 (req || rq))
      as [[[rest' d3] flt3] req3] eqn:E.
    intros [= <- <- <- <-].
    destruct (Item_filter_spec _ _ _ _ _ _ _ EI) as (n1 & Hadv1 & Hn1 & Hcnt1 & Hgen1).
    destruct (IH _ _ _ _ _ _ _ _ E) as (new & Hadv & Hlog & Hkeep & Hst & Hcomp).
    pose proof Hadv1 as (Hc1 & Hm1 & Hp1 & _ & _).
    assert (Hnot : ~ failed_since (getMustPassGeneration flt) item).
    { intros [Hp Hg]. unfold getFiltered in Hshort. rewrite Hp in Hshort.
      simpl in Hshort. apply andb_false_iff in Hshort as [H|H]; [|discriminate].
      apply Z.leb_gt in H. lia. }
    exists (new ++ n1). split; [eapply filter_advances_trans; eauto|]. repeat split.
    + intros x Hx. apply elem_of_app in Hx as [Hx|Hx].
      * destruct (Hlog x Hx) as (k & it & -> & Hk & Hnf).
        exists (S k), it. split; [f_equal; lia|]. rewrite Hp1 in Hnf. auto.
      * destruct Hn1 as [->| ->]; [by apply elem_of_nil in Hx|].
        apply list_elem_of_singleton in Hx as ->.
        exists 0%nat, item. split; [f_equal; lia|]. auto.
    + constructor.
      * intros Hf. contradiction.
      * rewrite Hp1, Hc1 in Hkeep. exact Hkeep.
    + intros Hge. constructor; [lia|]. rewrite Hc1 in Hst. auto.
    + rewrite Hcomp. destruct rq, (getFiltered item1 _); reflexivity.
Qed.

Lemma set_members_same f : set_members (members f) f = f.
Proof. by destruct f. Qed.

Lemma track_passing_folder_spec g folder d req folder1 d1 req1 :
  track_passing_folder needsAutoSelect g folder d req = (folder1, d1, req1) ->
  (exists dm, folder1 = set_members dm folder /\
     mCompletedFilterGeneration dm = mCompletedFilterGeneration (members folder)) /\
  mCompletedFilterGeneration d1 = mCompletedFilterGeneration d.
Proof.
  unfold track_passing_folder, setOpenArrangeRecursively.
  destruct needsAutoSelect.
  - destruct (eqb (mIsOpen (members folder)) true); intros [= <- <- <-];
      (split; [eexists; split; [reflexivity|reflexivity] | reflexivity]).
  - intros [= <- <- <-]. split; [|reflexivity].
    exists (members folder). by rewrite set_members_same.
Qed.

Lemma filter_folders_loop_spec rec here fs :
  Forall (fun c => forall h flt c' flt' rq,
            rec h c flt = (c', flt', rq) -> filter_result_ok h c flt c' flt') fs ->
  forall i d flt req fs' d' flt' req',
  filter_folders_loop needsAutoSelect rec here i fs d flt req = (fs', d', flt', req') ->
  exists new, filter_advances new flt flt' /\
    (forall x, x ∈ new -> exists k c, fs !! k = Some c /\
        check_allowed (getMustPassGeneration flt) (here ++ [(i + k)%nat]) c x) /\
    Forall2 (keeps_failed (getMustPassGeneration flt) (getCurrentGeneration flt)) fs fs' /\
    (0 <= getFilterCount flt' ->
     Forall (folder_visited (getCurrentGeneration flt)) fs') /\
    mCompletedFilterGeneration d' = mCompletedFilterGeneration d.
Proof.
  induction 1 as [|folder rest Hrec _ IH]; intros i d flt req fs' d' flt' req'; simpl.
  - intros [= <- <- <- <-]. exists []. split; [apply filter_advances_refl|].
    repeat split; auto. intros x Hx. by apply elem_of_nil in Hx.
  - destruct (getFilterCount flt <? 0) eqn:Hcount.
    { intros [= <- <- <- <-]. exists []. split; [apply filter_advances_refl|].
      repeat split; auto.
      - intros x Hx. by apply elem_of_nil in Hx.
      - apply Forall2_same_length_lookup_2; [done|].
        intros k a b Ha Hb. assert (a = b) by congruence. subst.
        apply keeps_failed_refl.
      - intros Hge. apply Z.ltb_lt in Hcount. lia. }
    destruct (getCurrentGeneration flt <=? getCompletedFilterGeneration folder) eqn:Hdone.
    { destruct (if getFiltered (self folder) (getMinRequiredGeneration flt)
                   || hasFilteredDescendants folder (getMinRequiredGeneration flt)
                then track_passing_folder needsAutoSelect (getCurrentGeneration flt) folder d req
                else (folder, d, req)) as [[folder1 d1] req1] eqn:ET.
      destruct (filter_folders_loop needsAutoSelect rec here (S i) rest d1 flt req1)
        as [[[rest' d2] flt2] req2] eqn:E.
      intros [= <- <- <- <-].
      destruct (IH _ _ _ _ _ _ _ _ E) as (new & Hadv & Hlog & Hkeep & Hst & Hcomp).
      assert (Hf1 : (exists dm, folder1 = set_members dm folder /\
                 mCompletedFilterGeneration dm = mCompletedFilterGeneration (members folder))
              /\ mCompletedFilterGeneration d1 = mCompletedFilterGeneration d).
      { destruct (_ || _) in ET.
        - eapply track_passing_folder_spec; eauto.
        - injection ET as <- <- <-. split; [|reflexivity].
          exists (members folder). by rewrite set_members_same. }
      destruct Hf1 as ((dm & -> & Hdm) & Hd1).
      exists new. split; [exact Hadv|]. repeat split.
      - intros x Hx. destruct (Hlog x Hx) as (k & c & Hk & Hal).
        exists (S k), c. split; [exact Hk|].
        replace (i + S k)%nat with (S i + k)%nat by lia. exact Hal.
      - constructor; [apply keeps_failed_set_members | exact Hkeep].
      - intros Hge. constructor; [|auto]. left.
        apply Z.leb_le in Hdone. unfold getCompletedFilterGeneration in *.
        destruct folder; simpl in *. lia.
      - congruence. }
    destruct (rec (here ++ [i]) folder flt) as [[folder1 flt1] rq] eqn:ER.
    destruct (if getFiltered (self folder1) (getMinRequiredGeneration flt1)
                 || hasFilteredDescendants folder1 (getCurrentGeneration flt)
              then track_passing_folder needsAutoSelect (getCurrentGeneration flt) folder1
                     (if rq then requestArrange_here d else d) (req || rq)
              else (folder1, if rq then requestArrange_here d else d, req || rq))
      as [[folder2 d2] req2] eqn:ET.
    destruct (filter_folders_loop needsAutoSelect rec here (S i) rest d2 flt1 req2)
      as [[[rest' d3] flt3] req3] eqn:E.
    intros [= <- <- <- <-].
    destruct (Hrec _ _ _ _ _ ER) as (n1 & Hadv1 & Hlog1 & Hkeep1 & Hself1 & Hcompl1).
    destruct (IH _ _ _ _ _ _ _ _ E) as (new & Hadv & Hlog & Hkeep & Hst & Hcomp).
    pose proof Hadv1 as (Hc1 & Hm1 & Hp1 & _ & _).
    assert (Hf2 : (exists dm, folder2 = set_members dm folder1 /\
               mCompletedFilterGeneration dm = mCompletedFilterGeneration (members folder1))
            /\ mCompletedFilterGeneration d2 = mCompletedFilterGeneration d).
    { destruct (_ || _) in ET.
      - apply track_passing_folder_spec in ET as [H1 H2]. split; [exact H1|].
        rewrite H2. by destruct rq.
      - injection ET as <- <- <-. split; [|by destruct rq].
        exists (members folder1). by rewrite set_members_same. }
    destruct Hf2 as ((dm & -> & Hdm) & Hd2).
    exists (new ++ n1). split; [eapply filter_advances_trans; eauto|]. repeat split.
    + intros x Hx. apply elem_of_app in Hx as [Hx|Hx].
      * destruct (Hlog x Hx) as (k & c & Hk & Hal).
        exists (S k), c. split; [exact Hk|].
        replace (i + S k)%nat with (S i + k)%nat by lia. rewrite Hp1 in Hal. exact Hal.
      * exists 0%nat, folder. split; [reflexivity|].
        replace (i + 0)%nat with i by lia. auto.
    + constructor.
      * eapply keeps_failed_trans; [exact Hkeep1 | apply keeps_failed_set_members].
      * rewrite Hp1, Hc1 in Hkeep. exact Hkeep.
    + intros Hge. constructor; [|rewrite Hc1 in Hst; auto]. right.
      apply Z.leb_gt in Hdone. destruct folder1; simpl in *. auto.
    + congruence.
Qed.

Lemma filter_folder_itself_spec here hp b d flt b1 d1 flt1 req1 :
  filter_folder_itself check here hp b d flt = (b1, d1, flt1, req1) ->
  exists new, filter_advances new flt flt1 /\
    (new = [] \/ new = [RFolder here] /\ ~ failed_since (getMustPassGeneration flt) b) /\
    item_kept (getMustPassGeneration flt) (getCurrentGeneration flt) b b1 /\
    getCurrentGeneration flt <= mLastFilterGeneration b1 /\
    mCompletedFilterGeneration d1 = mCompletedFilterGeneration d /\
    mMostFilteredDescendantGeneration d1 = mMostFilteredDescendantGeneration d.
Proof.
  unfold filter_folder_itself, getLastFilterGeneration.
  destruct (mLastFilterGeneration b <? getCurrentGeneration flt) eqn:Hold.
  - apply Z.ltb_lt in Hold.
    destruct ((getMustPassGeneration flt <=? mLastFilterGeneration b)
              && negb (mPassedFilter b)) eqn:Hshort.
    + intros [= <- <- <- <-]. exists []. split; [apply filter_advances_refl|].
      apply andb_true_iff in Hshort as [Hg Hp]. apply Z.leb_le in Hg.
      apply negb_true_iff in Hp.
      split; [by left|].
      split; [intros Hf; unfold failed_since; simpl; split; [split; [auto|lia]|by right]|].
      simpl. split; [lia|auto].
    + unfold Folder_filter_as_item, Folder_setFiltered.
      destruct (run_check check (RFolder here) b flt) as [v flt0] eqn:E.
      intros [= <- <- <- <-].
      destruct (run_check_spec _ _ _ _ _ E) as (new & (Hc & Hm & Hp & Hn & Hl) & Hnew & Hcnt).
      assert (Hnot : ~ failed_since (getMustPassGeneration flt) b).
      { intros [Hp' Hg]. rewrite Hp' in Hshort. simpl in Hshort.
        apply andb_false_iff in Hshort as [H|H]; [|discriminate].
        apply Z.leb_gt in H. lia. }
      exists new. split; [repeat split; simpl; auto; lia|].
      split; [destruct Hnew as [->| ->]; auto|].
      split; [intros Hf; contradiction|].
      split; [simpl; lia|].
      split; simpl; by destruct (v && _).
  - apply Z.ltb_ge in Hold. intros [= <- <- <- <-]. exists [].
    split; [apply filter_advances_refl|]. split; [by left|].
    split; [intros Hf; auto|]. auto.
Qed.

Lemma Forall2_same {A} (R : A -> A -> Prop) (l : list A) :
  (forall x, R x x) -> Forall2 R l l.
Proof. intros HR. induction l; constructor; auto. Qed.

Lemma keeps_failed_Folder m c b d fs its b1 d1 fs' its' :
  item_kept m c b b1 ->
  Forall2 (keeps_failed m c) fs fs' ->
  Forall2 (item_kept m c) its its' ->
  keeps_failed m c (Folder b d fs its) (Folder b1 d1 fs' its').
Proof.
  intros Hb Hfs Hits r it Hr Hf.
  destruct r as [[|i p]|[|i p] j].
  - simpl in Hr. injection Hr as <-. exists b1. destruct (Hb Hf). auto.
  - rewrite node_at_child_folder in *.
    destruct (fs !! i) as [c0|] eqn:Hi; [|discriminate].
    destruct (Forall2_lookup_l _ _ _ _ _ Hfs Hi) as (c' & Hi' & Hk).
    rewrite Hi'. apply Hk; auto.
  - rewrite node_at_own_item in *.
    destruct (Forall2_lookup_l _ _ _ _ _ Hits Hr) as (it' & Hj' & Hk).
    exists it'. destruct (Hk Hf). auto.
  - rewrite node_at_child_item in *.
    destruct (fs !! i) as [c0|] eqn:Hi; [|discriminate].
    destruct (Forall2_lookup_l _ _ _ _ _ Hfs Hi) as (c' & Hi' & Hk).
    rewrite Hi'. apply Hk; auto.
Qed.

Lemma check_allowed_child m here b d fs its k c x :
  fs !! k = Some c ->
  check_allowed m (here ++ [k]) c x ->
  check_allowed m here (Folder b d fs its) x.
Proof.
  intros Hk (r & it & -> & Hr & Hnf).
  exists (ref_in_child k r), it. rewrite ref_under_in_child, node_at_in_child, Hk.
  auto.
Qed.

Lemma Folder_filter_spec f : forall here hp flt f' flt' rq,
  Folder_filter check needsAutoSelect here hp f flt = (f', flt', rq) ->
  filter_result_ok here f flt f' flt'.
Proof.
  induction f as [b d fs its IH] using Folder_ind'.
  intros here hp flt f' flt' rq. simpl.
  destruct (getCurrentGeneration flt <=? mCompletedFilterGeneration d) eqn:Hdone.
  { intros [= <- <- <-]. exists []. split; [apply filter_advances_refl|].
    apply Z.leb_le in Hdone. unfold getCompletedFilterGeneration. simpl.
    repeat split; auto; try lia.
    - intros x Hx. by apply elem_of_nil in Hx.
    - apply keeps_failed_refl. }
  apply Z.leb_gt in Hdone.
  destruct (filter_folder_itself check here hp b d flt) as [[[b1 d1] flt1] req1] eqn:ES.
  destruct (filter_folder_itself_spec _ _ _ _ _ _ _ _ _ ES)
    as (n0 & Hadv0 & Hn0 & Hkb & Hgen & Hcd & Hmd).
  pose proof Hadv0 as (Hc0 & Hm0 & Hp0 & _ & _).
  assert (Hlog0 : forall x, x ∈ n0 ->
            check_allowed (getMustPassGeneration flt) here (Folder b d fs its) x).
  { intros x Hx. destruct Hn0 as [->|[-> Hnf]]; [by apply elem_of_nil in Hx|].
    apply list_elem_of_singleton in Hx as ->.
    exists (RFolder []), b. simpl. rewrite app_nil_r. auto. }
  assert (Hearly : filter_result_ok here (Folder b d fs its) flt (Folder b1 d1 fs its) flt1).
  { exists n0. split; [exact Hadv0|]. unfold getCompletedFilterGeneration. simpl.
    repeat split; auto.
    apply keeps_failed_Folder; auto.
    - apply Forall2_same. intros; apply keeps_failed_refl.
    - apply Forall2_same. intros x Hf. auto. }
  destruct ((getMustPassGeneration flt <=? mCompletedFilterGeneration d1)
            && negb (getMustPassGeneration flt <=? mMostFilteredDescendantGeneration d1)).
  { intros [= <- <- <-]. exact Hearly. }
  destruct (getFilterCount flt1 <? 0).
  { intros [= <- <- <-]. exact Hearly. }
  destruct (filter_folders_loop needsAutoSelect
              (fun h c fl => Folder_filter check needsAutoSelect h true c fl)
              here 0%nat fs d1 flt1 false) as [[[fs' d2] flt2] req2] eqn:EF.
  destruct (filter_items_loop check here 0%nat its d2 flt2 req2)
    as [[[its' d3] flt3] req3] eqn:EI.
  intros [= <- <- <-].
  assert (Hrec : Forall (fun c => forall h flt c' flt' rq,
            Folder_filter check needsAutoSelect h true c flt = (c', flt', rq) ->
            filter_result_ok h c flt c' flt') fs).
  { eapply Forall_impl; [exact IH|]. intros c Hc h fl0 c' fl' rq0. apply Hc. }
  destruct (filter_folders_loop_spec _ here fs Hrec _ _ _ _ _ _ _ _ EF)
    as (n1 & Hadv1 & Hlog1 & Hkeep1 & Hvis1 & Hcd1).
  pose proof Hadv1 as (Hc1 & Hm1 & Hp1 & _ & _).
  destruct (filter_items_loop_spec _ _ _ _ _ _ _ _ _ _ EI)
    as (n2 & Hadv2 & Hlog2 & Hkeep2 & Hst2 & Hcd2).
  exists (n2 ++ n1 ++ n0). split.
  { eapply filter_advances_trans; [|exact Hadv2].
    eapply filter_advances_trans; eauto. }
  unfold getCompletedFilterGeneration. simpl. repeat split.
  - intros x Hx. apply elem_of_app in Hx as [Hx|Hx]; [|apply elem_of_app in Hx as [Hx|Hx]].
    + destruct (Hlog2 x Hx) as (k & it & -> & Hk & Hnf).
      exists (RItem [] k), it. simpl. rewrite app_nil_r.
      rewrite Hp1, Hp0 in Hnf. auto.
    + destruct (Hlog1 x Hx) as (k & c & Hk & Hal). simpl in Hal.
      rewrite Hp0 in Hal. eapply check_allowed_child; eauto.
    + auto.
  - apply keeps_failed_Folder; auto.
    + rewrite Hp0, Hc0 in Hkeep1. exact Hkeep1.
    + rewrite Hp1, Hp0, Hc1, Hc0 in Hkeep2. exact Hkeep2.
  - auto.
  - destruct (0 <? getFilterCount flt3); simpl; [by right|]. left. congruence.
Qed.

Lemma Folder_filter_pass b d fs its here hp flt f' flt' rq :
  Folder_filter check needsAutoSelect here hp (Folder b d fs its) flt = (f', flt', rq) ->
  mCompletedFilterGeneration d < getCurrentGeneration flt ->
  let early := getMustPassGeneration flt <= mCompletedFilterGeneration d /\
               mMostFilteredDescendantGeneration d < getMustPassGeneration flt in
  (getCompletedFilterGeneration f' = mCompletedFilterGeneration d \/
   getCompletedFilterGeneration f' = getCurrentGeneration flt /\
   0 < getFilterCount flt') /\
  (getFilterCount flt' <= 0 \/ early ->
   getCompletedFilterGeneration f' = mCompletedFilterGeneration d) /\
  (~ early -> 0 <= getFilterCount flt' ->
   Forall (fun it' => getCurrentGeneration flt <= mLastFilterGeneration it') (mItems f') /\
   Forall (folder_visited (getCurrentGeneration flt)) (mFolders f')).
Proof.
  intros H Hlt early. simpl in H.
  destruct (getCurrentGeneration flt <=? mCompletedFilterGeneration d) eqn:Hdone.
  { apply Z.leb_le in Hdone. lia. }
  destruct (filter_folder_itself check here hp b d flt) as [[[b1 d1] flt1] req1] eqn:ES.
  destruct (filter_folder_itself_spec _ _ _ _ _ _ _ _ _ ES)
    as (n0 & Hadv0 & Hn0 & Hkb & Hgen & Hcd & Hmd).
  pose proof Hadv0 as (Hc0 & Hm0 & Hp0 & Hcount0 & _).
  rewrite Hcd, Hmd in H.
  destruct ((getMustPassGeneration flt <=? mCompletedFilterGeneration d)
            && negb (getMustPassGeneration flt <=? mMostFilteredDescendantGeneration d))
    eqn:Hearly.
  { injection H as <- <- <-. unfold getCompletedFilterGeneration. simpl.
    split; [left; congruence|]. split; [intros _; congruence|].
    intros Hne. exfalso. apply Hne.
    apply andb_true_iff in Hearly as [H1 H2]. apply Z.leb_le in H1.
    apply negb_true_iff, Z.leb_gt in H2. split; lia. }
  destruct (getFilterCount flt1 <? 0) eqn:Hcount.
  { injection H as <- <- <-. unfold getCompletedFilterGeneration. simpl.
    split; [left; congruence|]. split; [intros _; congruence|].
    apply Z.ltb_lt in Hcount. intros; lia. }
  destruct (filter_folders_loop needsAutoSelect
              (fun h c fl => Folder_filter check needsAutoSelect h true c fl)
              here 0%nat fs d1 flt1 false) as [[[fs' d2] flt2] req2] eqn:EF.
  destruct (filter_items_loop check here 0%nat its d2 flt2 req2)
    as [[[its' d3] flt3] req3] eqn:EI.
  injection H as <- <- <-.
  assert (Hrec : Forall (fun c => forall h flt c' flt' rq,
            Folder_filter check needsAutoSelect h true c flt = (c', flt', rq) ->
            filter_result_ok h c flt c' flt') fs).
  { apply Forall_forall. intros c _ h fl0 c' fl' rq0. apply Folder_filter_spec. }
  destruct (filter_folders_loop_spec _ here fs Hrec _ _ _ _ _ _ _ _ EF)
    as (n1 & Hadv1 & Hlog1 & Hkeep1 & Hvis1 & Hcd1).
  pose proof Hadv1 as (Hc1 & Hm1 & Hp1 & Hcount1 & _).
  destruct (filter_items_loop_spec _ _ _ _ _ _ _ _ _ _ EI)
    as (n2 & Hadv2 & Hlog2 & Hkeep2 & Hst2 & Hcd2).
  pose proof Hadv2 as (Hc2 & Hm2 & Hp2 & Hcount2 & _).
  assert (Hnearly : ~ early).
  { intros [H1 H2]. apply andb_false_iff in Hearly as [H|H].
    - apply Z.leb_gt in H. lia.
    - apply negb_false_iff, Z.leb_le in H. lia. }
  unfold getCompletedFilterGeneration. simpl.
  destruct (0 <? getFilterCount flt3) eqn:Hpos; simpl.
  - apply Z.ltb_lt in Hpos. split; [right; split; [reflexivity|lia]|].
    split; [intros [?|?]; [lia|contradiction]|]. intros _ _. split.
    + rewrite Hc1, Hc0 in Hst2. apply Hst2. lia.
    + rewrite Hc0 in Hvis1. apply Hvis1. lia.
  - apply Z.ltb_ge in Hpos. split; [left; congruence|]. split; [intros _; congruence|].
    intros _ Hge. split.
    + rewrite Hc1, Hc0 in Hst2. apply Hst2. lia.
    + rewrite Hc0 in Hvis1. apply Hvis1. lia.
Qed.

(** *** The nodes a pass comes to *)

Lemma filter_enters_ext flt1 flt g :
  getCurrentGeneration flt1 = getCurrentGeneration flt ->
  getMustPassGeneration flt1 = getMustPassGeneration flt ->
  filter_enters flt1 g = filter_enters flt g.
Proof. unfold filter_enters. by intros -> ->. Qed.

Lemma filter_comes_to_ext flt1 flt :
  getCurrentGeneration flt1 = getCurrentGeneration flt ->
  getMustPassGeneration flt1 = getMustPassGeneration flt ->
  forall r f, filter_comes_to flt1 f r = filter_comes_to flt f r.
Proof.
  intros Hc Hm [p|p j]; simpl.
  - induction p as [|i p IH]; intros f; simpl; [by rewrite Hc|].
    rewrite (filter_enters_ext flt1 flt) by done.
    destruct (mFolders f !! i); [by rewrite IH|done].
  - induction p as [|i p IH]; intros f; simpl; [by apply filter_enters_ext|].
    rewrite (filter_enters_ext flt1 flt) by done.
    destruct (mFolders f !! i); [by rewrite IH|done].
Qed.

Lemma filter_enters_incomplete flt g :
  filter_enters flt g = true -> getCompletedFilterGeneration g < getCurrentGeneration flt.
Proof. unfold filter_enters. intros [H _]%andb_true_iff. by apply Z.ltb_lt. Qed.

Lemma filter_comes_to_incomplete flt f r :
  filter_comes_to flt f r = true ->
  getCompletedFilterGeneration f < getCurrentGeneration flt.
Proof.
  destruct r as [[|i p]|[|i p] j]; simpl.
  - by intros ?%Z.ltb_lt.
  - intros [H _]%andb_true_iff. by apply filter_enters_incomplete.
  - apply filter_enters_incomplete.
  - intros [H _]%andb_true_iff. by apply filter_enters_incomplete.
Qed.

Lemma filter_comes_to_child flt b d fs its i r :
  filter_comes_to flt (Folder b d fs its) (ref_in_child i r) = true ->
  filter_enters flt (Folder b d fs its) = true /\
  exists c, fs !! i = Some c /\ filter_comes_to flt c r = true.
Proof.
  destruct r as [p|p j]; simpl; intros [H1 H2]%andb_true_iff; (split; [done|]);
    destruct (fs !! i) as [c|]; [eauto|done|eauto|done].
Qed.

Lemma filter_folders_loop_stamps rec here fs :
  Forall (fun c => forall h flt c' flt' rq,
            rec h c flt = (c', flt', rq) ->
            filter_result_ok h c flt c' flt' /\ stamps_reached c flt c' flt') fs ->
  forall i d flt req fs' d' flt' req',
  filter_folders_loop needsAutoSelect rec here i fs d flt req = (fs', d', flt', req') ->
  0 <= getFilterCount flt' ->
  forall k c, fs !! k = Some c ->
    exists c', fs' !! k = Some c' /\
      forall r it, node_at c r = Some it -> filter_comes_to flt c r = true ->
        exists it', node_at c' r = Some it' /\
                    getCurrentGeneration flt <= mLastFilterGeneration it'.
Proof.
  induction 1 as [|folder rest Hrec Hrest IH]; intros i d flt req fs' d' flt' req'; simpl.
  - intros _ _ k c Hk. by rewrite lookup_nil in Hk.
  - destruct (getFilterCount flt <? 0) eqn:Hcount.
    { intros [= <- <- <- <-] Hge. apply Z.ltb_lt in Hcount. lia. }
    destruct (getCurrentGeneration flt <=? getCompletedFilterGeneration folder) eqn:Hdone.
    { destruct (if getFiltered (self folder) (getMinRequiredGeneration flt)
                   || hasFilteredDescendants folder (getMinRequiredGeneration flt)
                then track_passing_folder needsAutoSelect (getCurrentGeneration flt) folder d req
                else (folder, d, req)) as [[folder1 d1] req1] eqn:ET.
      destruct (filter_folders_loop needsAutoSelect rec here (S i) rest d1 flt req1)
        as [[[rest' d2] flt2] req2] eqn:E.
      intros [= <- <- <- <-] Hge [|k] c Hk.
      - injection Hk as <-. exists folder1. split; [done|]. intros r it _ Hr.
        apply filter_comes_to_incomplete in Hr. apply Z.leb_le in Hdone. lia.
      - by apply (IH _ _ _ _ _ _ _ _ E Hge k c). }
    destruct (rec (here ++ [i]) folder flt) as [[folder1 flt1] rq] eqn:ER.
    destruct (if getFiltered (self folder1) (getMinRequiredGeneration flt1)
                 || hasFilteredDescendants folder1 (getCurrentGeneration flt)
              then track_passing_folder needsAutoSelect (getCurrentGeneration flt) folder1
                     (if rq then requestArrange_here d else d) (req || rq)
              else (folder1, if rq then requestArrange_here d else d, req || rq))
      as [[folder2 d2] req2] eqn:ET.
    destruct (filter_folders_loop needsAutoSelect rec here (S i) rest d2 flt1 req2)
      as [[[rest' d3] flt3] req3] eqn:E.
    intros [= <- <- <- <-] Hge.
    destruct (Hrec _ _ _ _ _ ER) as ((n1 & Hadv1 & _) & Hstamp1).
    pose proof Hadv1 as (Hc1 & _ & Hp1 & Hcount1 & _).
    assert (Hoks : Forall (fun c => forall h flt c' flt' rq,
              rec h c flt = (c', flt', rq) -> filter_result_ok h c flt c' flt') rest).
    { eapply Forall_impl; [exact Hrest|]. intros c Hc h fl0 c' fl' rq0 Hr.
      by apply (Hc h fl0 c' fl' rq0). }
    destruct (filter_folders_loop_spec _ here rest Hoks _ _ _ _ _ _ _ _ E)
      as (n2 & (_ & _ & _ & Hcount2 & _) & _).
    assert (Hf2 : exists dm, folder2 = set_members dm folder1).
    { destruct (_ || _) in ET.
      - apply track_passing_folder_spec in ET as [(dm & -> & _) _]. by exists dm.
      - injection ET as <- <- <-. exists (members folder1). by rewrite set_members_same. }
    destruct Hf2 as (dm & ->).
    intros [|k] c Hk.
    + injection Hk as <-. eexists. split; [reflexivity|]. intros r it Hr Hcome.
      rewrite node_at_set_members. apply (Hstamp1 ltac:(lia) r it Hr Hcome).
    + destruct (IH _ _ _ _ _ _ _ _ E Hge k c Hk) as (c' & Hk' & Hc').
      exists c'. split; [exact Hk'|]. intros r it Hr Hcome. rewrite <- Hc1.
      apply (Hc' r it Hr). by rewrite (filter_comes_to_ext flt1 flt).
Qed.

Lemma Folder_filter_stamps f : forall here hp flt f' flt' rq,
  Folder_filter check needsAutoSelect here hp f flt = (f', flt', rq) ->
  stamps_reached f flt f' flt'.
Proof.
  induction f as [b d fs its IH] using Folder_ind'.
  intros here hp flt f' flt' rq. simpl.
  destruct (getCurrentGeneration flt <=? mCompletedFilterGeneration d) eqn:Hdone.
  { intros [= <- <- <-] _ r it _ Hr. apply filter_comes_to_incomplete in Hr.
    apply Z.leb_le in Hdone. unfold getCompletedFilterGeneration in Hr. simpl in Hr. lia. }
  destruct (filter_folder_itself check here hp b d flt) as [[[b1 d1] flt1] req1] eqn:ES.
  destruct (filter_folder_itself_spec _ _ _ _ _ _ _ _ _ ES)
    as (n0 & Hadv0 & _ & _ & Hgen & Hcd & Hmd).
  pose proof Hadv0 as (Hc0 & _ & Hp0 & _ & _).
  rewrite Hcd, Hmd.
  assert (Hself : forall fs' its' r it,
            r = RFolder [] -> node_at (Folder b d fs its) r = Some it ->
            exists it', node_at (Folder b1 d1 fs' its') r = Some it' /\
                        getCurrentGeneration flt <= mLastFilterGeneration it').
  { intros fs' its' r it -> _. exists b1. by split. }
  assert (Hleft : forall r it,
            (getMustPassGeneration flt <=? mCompletedFilterGeneration d)
            && negb (getMustPassGeneration flt <=? mMostFilteredDescendantGeneration d)
            = true ->
            node_at (Folder b d fs its) r = Some it ->
            filter_comes_to flt (Folder b d fs its) r = true ->
            exists it', node_at (Folder b1 d1 fs its) r = Some it' /\
                        getCurrentGeneration flt <= mLastFilterGeneration it').
  { intros r it Hearly Hr Hcome.
    assert (Hno : filter_enters flt (Folder b d fs its) = false).
    { unfold filter_enters, getCompletedFilterGeneration, hasFilteredDescendants.
      simpl. rewrite Hearly. apply andb_false_r. }
    destruct r as [[|i p]|[|i p] j]; simpl in Hcome.
    - by apply (Hself fs its (RFolder []) it).
    - by rewrite Hno in Hcome.
    - by rewrite Hno in Hcome.
    - by rewrite Hno in Hcome. }
  destruct ((getMustPassGeneration flt <=? mCompletedFilterGeneration d)
            && negb (getMustPassGeneration flt <=? mMostFilteredDescendantGeneration d))
    eqn:Hearly.
  { intros [= <- <- <-] _ r it. by apply Hleft. }
  clear Hleft.
  destruct (getFilterCount flt1 <? 0) eqn:Hcount.
  { intros [= <- <- <-] Hge. apply Z.ltb_lt in Hcount. lia. }
  destruct (filter_folders_loop needsAutoSelect
              (fun h c fl => Folder_filter check needsAutoSelect h true c fl)
              here 0%nat fs d1 flt1 false) as [[[fs' d2] flt2] req2] eqn:EF.
  destruct (filter_items_loop check here 0%nat its d2 flt2 req2)
    as [[[its' d3] flt3] req3] eqn:EI.
  intros [= <- <- <-] Hge.
  assert (Hoks : Forall (fun c => forall h flt c' flt' rq,
            Folder_filter check needsAutoSelect h true c flt = (c', flt', rq) ->
            filter_result_ok h c flt c' flt') fs).
  { apply Forall_forall. intros c _ h fl0 c' fl' rq0. apply Folder_filter_spec. }
  assert (Hrec : Forall (fun c => forall h flt c' flt' rq,
            Folder_filter check needsAutoSelect h true c flt = (c', flt', rq) ->
            filter_result_ok h c flt c' flt' /\ stamps_reached c flt c' flt') fs).
  { eapply Forall_impl; [exact IH|]. intros c Hc h fl0 c' fl' rq0 Hr. split.
    - by eapply Folder_filter_spec.
    - by eapply Hc. }
  destruct (filter_folders_loop_spec _ here fs Hoks _ _ _ _ _ _ _ _ EF)
    as (n1 & Hadv1 & _).
  pose proof Hadv1 as (Hc1 & _ & Hp1 & _ & _).
  destruct (filter_items_loop_spec _ _ _ _ _ _ _ _ _ _ EI)
    as (n2 & Hadv2 & _ & Hkeep2 & Hst2 & _).
  pose proof Hadv2 as (_ & _ & _ & Hcount2 & _).
  assert (Hchild : forall i r it,
            node_at (Folder b d fs its) (ref_in_child i r) = Some it ->
            filter_comes_to flt (Folder b d fs its) (ref_in_child i r) = true ->
            exists it', node_at (Folder b1 d3 fs' its') (ref_in_child i r) = Some it' /\
                        getCurrentGeneration flt <= mLastFilterGeneration it').
  { intros i r it Hr Hcome.
    apply filter_comes_to_child in Hcome as (_ & c & Hi & Hcome).
    rewrite node_at_in_child, Hi in Hr.
    destruct (filter_folders_loop_stamps _ here fs Hrec _ _ _ _ _ _ _ _ EF
                ltac:(lia) i c Hi) as (c' & Hi' & Hc').
    destruct (Hc' r it Hr) as (it' & Hr' & Hg').
    { by rewrite (filter_comes_to_ext flt1 flt). }
    exists it'. rewrite node_at_in_child, Hi'. split; [done|]. by rewrite <- Hc0. }
  intros r it Hr Hcome. destruct r as [[|i p]|[|i p] j].
  - exists b1. split; [done|]. exact Hgen.
  - by apply (Hchild i (RFolder p) it).
  - rewrite node_at_own_item in Hr.
    destruct (Forall2_lookup_l _ _ _ _ _ Hkeep2 Hr) as (it' & Hj' & _).
    exists it'. split; [done|].
    rewrite <- Hc0, <- Hc1.
    apply (proj1 (Forall_lookup _ _) (Hst2 Hge) j it' Hj').
  - by apply (Hchild i (RItem p j) it).
Qed.



End FilteringFacts.

(** ** Selection counters *)

Section SelectionFacts.

#[local] Arguments count_selected_descendants : simpl never.
#[local] Arguments counts_accurate : simpl never.

Lemma count_selected_unfold b d fs its :
  count_selected_descendants (Folder b d fs its) = folders_weight fs + items_weight its.
Proof. reflexivity. Qed.

Lemma counts_accurate_unfold b d fs its :
  counts_accurate (Folder b d fs its) = true <->
  mNumDescendantsSelected d = folders_weight fs + items_weight its /\
  Forall (fun c => counts_accurate c = true) fs.
Proof.
  change (counts_accurate (Folder b d fs its)) with
    ((mNumDescendantsSelected d =? count_selected_descendants (Folder b d fs its))
     && forallb counts_accurate fs).
  rewrite count_selected_unfold, andb_true_iff, Z.eqb_eq, forallb_forall, Forall_forall.
  split; intros [H1 H2]; split; auto; intros x Hx; apply H2;
    by apply list_elem_of_In.
Qed.

Lemma items_weight_app l1 l2 :
  items_weight (l1 ++ l2) = items_weight l1 + items_weight l2.
Proof. induction l1; simpl; [reflexivity|]. unfold items_weight in *. simpl. lia. Qed.

Lemma folders_weight_app l1 l2 :
  folders_weight (l1 ++ l2) = folders_weight l1 + folders_weight l2.
Proof. induction l1; simpl; [reflexivity|]. unfold folders_weight in *. simpl. lia. Qed.

Lemma items_weight_alter g its : forall j it,
  its !! j = Some it ->
  items_weight (alter g j its) = items_weight its - selected_weight it + selected_weight (g it).
Proof.
  induction its as [|a its IH]; intros [|j] it H; simplify_eq/=.
  - unfold items_weight. simpl. lia.
  - unfold items_weight in *. simpl. rewrite (IH _ _ H). lia.
Qed.

Lemma folders_weight_alter g fs : forall i c,
  fs !! i = Some c ->
  folders_weight (alter g i fs) = folders_weight fs - folder_weight c + folder_weight (g c).
Proof.
  induction fs as [|a fs IH]; intros [|i] c H; simplify_eq/=.
  - unfold folders_weight. simpl. lia.
  - unfold folders_weight in *. simpl. rewrite (IH _ _ H). lia.
Qed.

Lemma items_weight_delete its : forall j it,
  its !! j = Some it ->
  items_weight (delete j its) = items_weight its - selected_weight it.
Proof.
  induction its as [|a its IH]; intros [|j] it H; simplify_eq/=.
  - unfold items_weight. simpl. lia.
  - unfold items_weight in *. simpl. rewrite (IH _ _ H). lia.
Qed.

Lemma folders_weight_delete fs : forall i c,
  fs !! i = Some c ->
  folders_weight (delete i fs) = folders_weight fs - folder_weight c.
Proof.
  induction fs as [|a fs IH]; intros [|i] c H; simplify_eq/=.
  - unfold folders_weight. simpl. lia.
  - unfold folders_weight in *. simpl. rewrite (IH _ _ H). lia.
Qed.

Lemma items_weight_insert_at k x its :
  items_weight (insert_at k x its) = items_weight its + selected_weight x.
Proof.
  unfold insert_at. rewrite items_weight_app.
  rewrite <- (take_drop k its) at 3. rewrite items_weight_app.
  unfold items_weight at 2. simpl. fold (items_weight (drop k its)). lia.
Qed.

Lemma folders_weight_insert_at k x fs :
  folders_weight (insert_at k x fs) = folders_weight fs + folder_weight x.
Proof.
  unfold insert_at. rewrite folders_weight_app.
  rewrite <- (take_drop k fs) at 3. rewrite folders_weight_app.
  unfold folders_weight at 2. simpl. fold (folders_weight (drop k fs)). lia.
Qed.

Lemma recursiveIncrement_here increment t :
  recursiveIncrementNumDescendantsSelected increment [] t =
  set_members (add_to_count increment (members t)) t.
Proof. reflexivity. Qed.

Lemma recursiveIncrement_step increment i p b d fs its :
  recursiveIncrementNumDescendantsSelected increment (i :: p) (Folder b d fs its) =
  Folder b (add_to_count increment d)
         (alter (recursiveIncrementNumDescendantsSelected increment p) i fs) its.
Proof. reflexivity. Qed.

Lemma alter_folder_step g i p b d fs its :
  alter_folder g (i :: p) (Folder b d fs its) =
  Folder b d (alter (alter_folder g p) i fs) its.
Proof. reflexivity. Qed.

Lemma get_folder_step b d fs its i p :
  get_folder (Folder b d fs its) (i :: p) =
  match fs !! i with Some c => get_folder c p | None => None end.
Proof. reflexivity. Qed.

(** A change [g] inside the folder at [p] that moves its fresh count by
    [increment], followed by the walk that adds [increment] to the counters
    from that folder up to the root, keeps all counters accurate. *)
Lemma counted_change increment g : forall p t f,
  get_folder t p = Some f ->
  self (g f) = self f ->
  count_selected_descendants (g f) = count_selected_descendants f + increment ->
  mNumDescendantsSelected (members (g f)) = mNumDescendantsSelected (members f) ->
  (Forall (fun c => counts_accurate c = true) (mFolders f) ->
   Forall (fun c => counts_accurate c = true) (mFolders (g f))) ->
  let t' := recursiveIncrementNumDescendantsSelected increment p (alter_folder g p t) in
  self t' = self t /\
  count_selected_descendants t' = count_selected_descendants t + increment /\
  (counts_accurate t = true -> counts_accurate t' = true).
Proof.
  induction p as [|i p IH]; intros t f Hf Hself Hcount Hnum Hsub.
  - simpl in Hf. injection Hf as ->. cbv zeta.
    change (alter_folder g [] f) with (g f). rewrite recursiveIncrement_here.
    destruct f as [b d fs its]. destruct (g (Folder b d fs its)) as [b' d' fs' its'] eqn:Eg.
    unfold set_members, add_to_count. simpl in *. subst b'. split; [reflexivity|].
    rewrite !count_selected_unfold in *. split; [exact Hcount|].
    rewrite !counts_accurate_unfold. intros [Hn Hall]. simpl. split; [lia | auto].
  - destruct t as [b d fs its]. rewrite get_folder_step in Hf.
    destruct (fs !! i) as [c|] eqn:Hi; [|discriminate]. cbv zeta.
    rewrite alter_folder_step, recursiveIncrement_step, list_alter_alter_eq.
    destruct (IH c f Hf Hself Hcount Hnum Hsub) as (Hs & Hc & Ha).
    simpl. split; [reflexivity|].
    rewrite !count_selected_unfold.
    assert (Hw : folders_weight
              (alter (recursiveIncrementNumDescendantsSelected increment p
                      ∘ alter_folder g p) i fs) = folders_weight fs + increment).
    { rewrite (folders_weight_alter _ _ _ _ Hi). unfold folder_weight, compose.
      rewrite Hs, Hc. lia. }
    rewrite Hw. split; [lia|].
    rewrite !counts_accurate_unfold. intros [Hn Hall]. unfold add_to_count. simpl.
    split; [lia|].
    apply Forall_alter; [exact Hall|]. intros x Hx Hax.
    assert (x = c) by congruence. subst. unfold compose. auto.
Qed.

Lemma map_alter_same {A B} (T : A -> B) (h : A -> A) (l : list A) i :
  (forall x, T (h x) = T x) -> map T (alter h i l) = map T l.
Proof.
  intros H. revert i. induction l as [|a l IH]; intros [|i]; simpl; auto.
  - by rewrite H.
  - f_equal. apply IH.
Qed.

Lemma tmap_alter_folder gi gd g : forall p t,
  (forall f, tmap gi gd (g f) = tmap gi gd f) ->
  tmap gi gd (alter_folder g p t) = tmap gi gd t.
Proof.
  induction p as [|i p IH]; intros t H; [apply H|].
  destruct t as [b d fs its]. rewrite alter_folder_step. simpl.
  f_equal. apply map_alter_same. intros c. by apply IH.
Qed.

Lemma tmap_alter_members gi gd h p t :
  (forall d, gd (h d) = gd d) ->
  tmap gi gd (alter_members h p t) = tmap gi gd t.
Proof.
  intros H. apply tmap_alter_folder. intros [b d fs its]. simpl. by rewrite H.
Qed.

Lemma tmap_alter_members_to_root gi gd h : forall p t,
  (forall d, gd (h d) = gd d) ->
  tmap gi gd (alter_members_to_root h p t) = tmap gi gd t.
Proof.
  induction p as [|i p IH]; intros [b d fs its] H; simpl.
  - by rewrite H.
  - rewrite H. f_equal. apply map_alter_same. intros c. by apply IH.
Qed.

Lemma tmap_alter_node gi gd h r t :
  (forall it, gi (h it) = gi it) ->
  tmap gi gd (alter_node h r t) = tmap gi gd t.
Proof.
  intros H. destruct r as [p|p j]; apply tmap_alter_folder; intros [b d fs its]; simpl.
  - by rewrite H.
  - f_equal. by apply map_alter_same.
Qed.

Lemma tmap_setCompletedFilterGeneration_up gi gd g : forall rp t,
  (forall d, gd (setCompletedFilterGeneration g d) = gd d) ->
  tmap gi gd (setCompletedFilterGeneration_up g rp t) = tmap gi gd t.
Proof.
  induction rp as [|i rp IH]; intros t H.
  - by apply (tmap_alter_members gi gd _ (rev [])).
  - change (setCompletedFilterGeneration_up g (i :: rp) t) with
      (let t1 := alter_members (setCompletedFilterGeneration g) (rev (i :: rp)) t in
       if g <? completedFilterGeneration_at t1 (rev rp)
       then setCompletedFilterGeneration_up g rp t1 else t1).
    cbv zeta. destruct (g <? _); [rewrite IH by done|]; by apply tmap_alter_members.
Qed.

Lemma tmap_Item_dirtyFilter gi gd r t :
  (forall it, gi (set_mLastFilterGeneration (-1) it) = gi it) ->
  (forall d, gd (setCompletedFilterGeneration (-1) d) = gd d) ->
  tmap gi gd (Item_dirtyFilter r t) = tmap gi gd t.
Proof.
  intros H1 H2. unfold Item_dirtyFilter.
  destruct (getParentFolder r);
    [rewrite tmap_setCompletedFilterGeneration_up by done|]; by apply tmap_alter_node.
Qed.

Lemma tmap_Folder_dirtyFilter gi gd p t :
  (forall it, gi (set_mLastFilterGeneration (-1) it) = gi it) ->
  (forall d, gd (setCompletedFilterGeneration (-1) d) = gd d) ->
  tmap gi gd (Folder_dirtyFilter p t) = tmap gi gd t.
Proof.
  intros H1 H2. unfold Folder_dirtyFilter.
  rewrite tmap_Item_dirtyFilter by done. by apply tmap_alter_members.
Qed.

Lemma tmap_requestArrange_at gi gd p t :
  (forall d, gd (set_mLastArrangeGeneration (-1) d) = gd d) ->
  tmap gi gd (requestArrange_at p t) = tmap gi gd t.
Proof. intros H. by apply tmap_alter_members_to_root. Qed.

Lemma tmap_requestArrange_descendants gi gd f :
  (forall d, gd (set_mLastArrangeGeneration (-1) d) = gd d) ->
  tmap gi gd (requestArrange_descendants f) = tmap gi gd f.
Proof.
  intros H. induction f as [b d fs its IH] using Folder_ind'. simpl.
  rewrite H. f_equal. rewrite map_map. apply map_ext_Forall. exact IH.
Qed.

Lemma tmap_setOpenArrangeRecursively_at gi gd p v t :
  (forall d, gd (set_mLastArrangeGeneration (-1) d) = gd d) ->
  (forall d, gd (set_mIsOpen v d) = gd d) ->
  tmap gi gd (setOpenArrangeRecursively_at p v t) = tmap gi gd t.
Proof.
  intros H1 H2. unfold setOpenArrangeRecursively_at.
  destruct (get_folder t p); [|reflexivity].
  destruct (eqb _ _); [|rewrite tmap_requestArrange_at by done];
    by apply tmap_alter_members.
Qed.

Lemma selection_of_counts f :
  count_selected_descendants (selection_of f) = count_selected_descendants f /\
  counts_accurate (selection_of f) = counts_accurate f.
Proof.
  induction f as [b d fs its IH] using Folder_ind'.
  unfold selection_of. simpl.
  assert (Hfw : folders_weight (map selection_of fs) = folders_weight fs).
  { induction IH as [|c fs [Hc _] _ IHfs]; [reflexivity|].
    unfold folders_weight in *. simpl. unfold folder_weight in *.
    rewrite Hc, IHfs. by destruct c. }
  assert (Hiw : items_weight (map selection_of_item its) = items_weight its).
  { induction its as [|a its IHits]; [reflexivity|].
    unfold items_weight in *. simpl. by rewrite IHits. }
  assert (Hcnt : count_selected_descendants
            (Folder (selection_of_item b) (selection_of_members d)
               (map selection_of fs) (map selection_of_item its)) =
          count_selected_descendants (Folder b d fs its)).
  { rewrite !count_selected_unfold. by rewrite Hfw, Hiw. }
  split; [exact Hcnt|].
  change (counts_accurate (Folder ?b ?d ?fs ?its)) with
    ((mNumDescendantsSelected d =? count_selected_descendants (Folder b d fs its))
     && forallb counts_accurate fs).
  unfold selection_of in Hcnt. rewrite Hcnt. simpl. f_equal. clear Hfw Hcnt.
  induction IH as [|c fs [_ Hc] _ IHfs]; [reflexivity|].
  simpl. unfold selection_of in Hc. rewrite Hc. f_equal. apply IHfs.
Qed.

Lemma same_selection_accurate t t' :
  selection_of t' = selection_of t -> counts_accurate t' = counts_accurate t.
Proof.
  intros H. rewrite <- (proj2 (selection_of_counts t')), H.
  apply selection_of_counts.
Qed.

Lemma alter_folder_snoc h i : forall q t,
  alter_folder h (q ++ [i]) t =
  alter_folder (fun f => set_mFolders (alter h i (mFolders f)) f) q t.
Proof.
  induction q as [|k q IH]; intros [b d fs its]; [reflexivity|].
  rewrite <- app_comm_cons, !alter_folder_step. f_equal.
  apply list_alter_ext; auto.
Qed.

Lemma get_folder_snoc i : forall q t,
  get_folder t (q ++ [i]) =
  match get_folder t q with Some f => mFolders f !! i | None => None end.
Proof.
  induction q as [|k q IH]; intros [b d fs its].
  - simpl. by destruct (fs !! i).
  - rewrite <- app_comm_cons, !get_folder_step. destruct (fs !! k); [apply IH | done].
Qed.

Lemma getParentFolder_snoc q i : getParentFolder (RFolder (q ++ [i])) = Some q.
Proof.
  unfold getParentFolder. rewrite removelast_last. by destruct q.
Qed.

Lemma counts_accurate_set_self b t :
  counts_accurate (set_self b t) = counts_accurate t.
Proof. by destruct t. Qed.

Lemma count_selected_set_self b t :
  count_selected_descendants (set_self b t) = count_selected_descendants t.
Proof. by destruct t. Qed.

(** Setting the flag of a node whose flag differs, and moving the counters
    of its ancestors by one in the same direction, keeps the counters
    accurate. *)
Lemma set_selected_and_count_accurate (v : bool) r t it :
  node_at t r = Some it ->
  mIsSelected it = negb v ->
  counts_accurate t = true ->
  counts_accurate (set_selected_and_count v (if v then 1 else -1) r t) = true.
Proof.
  intros Hr Hflag Hacc. unfold set_selected_and_count.
  assert (Hw : forall x, mIsSelected x = negb v ->
            selected_weight (set_mIsSelected v x) = selected_weight x + (if v then 1 else -1)).
  { intros x Hx. unfold selected_weight. simpl. rewrite Hx. by destruct v. }
  destruct r as [p|p j].
  - destruct p as [|i q _] using rev_ind.
    + simpl. by rewrite counts_accurate_set_self.
    + rewrite getParentFolder_snoc. unfold alter_node. rewrite alter_folder_snoc.
      simpl in Hr. rewrite get_folder_snoc in Hr.
      destruct (get_folder t q) as [f|] eqn:Hq; [|discriminate].
      destruct (mFolders f !! i) as [c|] eqn:Hi; [|discriminate].
      simpl in Hr. injection Hr as <-.
      destruct (counted_change (if v then 1 else -1)
                  (fun f0 => set_mFolders
                     (alter (fun c0 => set_self (set_mIsSelected v (self c0)) c0)
                            i (mFolders f0)) f0) q t f Hq) as (_ & _ & HC);
        [ | | | | exact (HC Hacc)].
      * by destruct f.
      * destruct f as [b d fs its]. unfold set_mFolders. simpl in *.
        rewrite !count_selected_unfold.
        rewrite (folders_weight_alter _ _ _ _ Hi). unfold folder_weight.
        rewrite count_selected_set_self. destruct c as [bc dc fsc itsc]. simpl in *.
        rewrite (Hw _ Hflag). lia.
      * by destruct f.
      * destruct f as [b d fs its]. simpl. intros Hall.
        apply Forall_alter; [exact Hall|]. intros x _ Hx.
        by rewrite counts_accurate_set_self.
  - simpl. unfold node_at, get_item in Hr.
    destruct (get_folder t p) as [f|] eqn:Hp; [|discriminate].
    destruct (counted_change (if v then 1 else -1)
                (fun f0 => set_mItems (alter (set_mIsSelected v) j (mItems f0)) f0)
                p t f Hp) as (_ & _ & HC); [ | | | | exact (HC Hacc)].
    + by destruct f.
    + destruct f as [b d fs its]. unfold set_mItems. simpl in *.
      rewrite !count_selected_unfold.
      rewrite (items_weight_alter _ _ _ _ Hr). rewrite (Hw _ Hflag). lia.
    + by destruct f.
    + by destruct f.
Qed.

Lemma selectItem_accurate r t :
  isSelected t r = false ->
  counts_accurate t = true -> counts_accurate (selectItem r t) = true.
Proof.
  unfold isSelected, selectItem. destruct (node_at t r) as [it|] eqn:Hr; [|auto].
  intros Hf Ha. by apply (set_selected_and_count_accurate true r t it).
Qed.

Lemma deselectItem_accurate r t :
  isSelected t r = true ->
  counts_accurate t = true -> counts_accurate (deselectItem r t) = true.
Proof.
  unfold isSelected, deselectItem. destruct (node_at t r) as [it|] eqn:Hr; [|auto].
  intros Hf Ha. by apply (set_selected_and_count_accurate false r t it).
Qed.

Lemma for_each_item_inv {S : Type} (P : S -> Prop) body n s :
  (forall j s, P s -> P (body j s)) -> P s -> P (for_each_item body n s).
Proof.
  intros Hbody. unfold for_each_item. generalize (seq 0 n). intros l. revert s.
  induction l as [|j l IH]; intros s Hs; simpl; auto.
Qed.

Lemma for_each_folder_inv {S : Type} (P : S -> Prop) body cs :
  Forall (fun c => forall i s, P s -> P (body i c s)) cs ->
  forall i s, P s -> P (for_each_folder body i cs s).
Proof.
  induction 1 as [|c cs Hc _ IH]; intros i s Hs; simpl; auto.
Qed.

Lemma recursiveDeselect_unfold shape this deselect_self t :
  recursiveDeselect shape this deselect_self t =
  let t1 := if isSelected t (RFolder this) && deselect_self
            then deselectItem (RFolder this) t else t in
  if numDescendantsSelected_at t1 this =? 0 then t1
  else
    let t2 := for_each_item
                (fun j t => if isSelected t (RItem this j)
                            then deselectItem (RItem this j) t else t)
                (length (mItems shape)) t1 in
    for_each_folder (fun i c t => recursiveDeselect c (this ++ [i]) true t)
                    0%nat (mFolders shape) t2.
Proof. by destruct shape. Qed.

Lemma recursiveDeselect_accurate shape : forall this deselect_self t,
  counts_accurate t = true ->
  counts_accurate (recursiveDeselect shape this deselect_self t) = true.
Proof.
  induction shape as [b d fs its IH] using Folder_ind'.
  intros this ds t Ht. rewrite recursiveDeselect_unfold. cbv zeta.
  set (t1 := if isSelected t (RFolder this) && ds then _ else t).
  assert (Ht1 : counts_accurate t1 = true).
  { subst t1. destruct (isSelected t (RFolder this)) eqn:Hs; simpl; [|done].
    destruct ds; [|done]. by apply deselectItem_accurate. }
  destruct (_ =? 0); [done|].
  apply (for_each_folder_inv (fun t => counts_accurate t = true)).
  - simpl. eapply Forall_impl; [exact IH|]. intros c Hc i s. apply Hc.
  - apply (for_each_item_inv (fun t => counts_accurate t = true)); [|done].
    intros j s Hs. destruct (isSelected s (RItem this j)) eqn:E; [|done].
    by apply deselectItem_accurate.
Qed.

Lemma Item_changeSelection_accurate this selection selected t :
  counts_accurate t = true ->
  counts_accurate (Item_changeSelection this selection selected t).1 = true.
Proof.
  intros Ht. unfold Item_changeSelection.
  destruct (bool_decide _ && _) eqn:E; [|done]. simpl.
  destruct (isSelected t this) eqn:Hs.
  - by apply deselectItem_accurate.
  - by apply selectItem_accurate.
Qed.

Lemma Folder_changeSelection_unfold shape this selection selected t :
  Folder_changeSelection shape this selection selected t =
  let '(t1, rv1) :=
    if bool_decide (selection = RFolder this) then
      if negb (eqb (isSelected t (RFolder this)) selected) then
        ((if selected then selectItem (RFolder this) t
          else deselectItem (RFolder this) t), true)
      else (t, false)
    else (t, false) in
  let '(t2, rv2) :=
    for_each_folder
      (fun i c '(t, rv) =>
         let '(t', r) := Folder_changeSelection c (this ++ [i]) selection selected t in
         (t', if r then true else rv))
      0%nat (mFolders shape) (t1, rv1) in
  for_each_item
    (fun j '(t, rv) =>
       let '(t', r) := Item_changeSelection (RItem this j) selection selected t in
       (t', if r then true else rv))
    (length (mItems shape)) (t2, rv2).
Proof. by destruct shape. Qed.

Lemma Folder_changeSelection_accurate shape : forall this selection selected t,
  counts_accurate t = true ->
  counts_accurate (Folder_changeSelection shape this selection selected t).1 = true.
Proof.
  induction shape as [b d fs its IH] using Folder_ind'.
  intros this selection selected t Ht. rewrite Folder_changeSelection_unfold.
  set (s1 := if bool_decide (selection = RFolder this) then _ else (t, false)).
  assert (Hs1 : counts_accurate s1.1 = true).
  { subst s1. destruct (bool_decide _); [|done].
    destruct (isSelected t (RFolder this)) eqn:Hs, selected; simpl; try done.
    - by apply deselectItem_accurate.
    - by apply selectItem_accurate. }
  destruct s1 as [t1 rv1]. simpl in Hs1.
  set (s2 := for_each_folder _ 0%nat (mFolders (Folder b d fs its)) (t1, rv1)).
  assert (Hs2 : counts_accurate s2.1 = true).
  { subst s2. apply (for_each_folder_inv (fun s => counts_accurate s.1 = true)); [|done].
    simpl. eapply Forall_impl; [exact IH|]. intros c Hc i [t0 rv0] H0. simpl in H0.
    specialize (Hc (this ++ [i]) selection selected t0 H0).
    by destruct (Folder_changeSelection c (this ++ [i]) selection selected t0). }
  destruct s2 as [t2 rv2]. simpl in Hs2.
  apply (for_each_item_inv (fun s => counts_accurate s.1 = true)); [|done].
  intros j [t0 rv0] H0. simpl in H0.
  pose proof (Item_changeSelection_accurate (RItem this j) selection selected t0 H0).
  by destruct (Item_changeSelection (RItem this j) selection selected t0).
Qed.

Lemma selection_of_item_frame (h : LLFolderViewItem -> LLFolderViewItem) :
  (forall it, mIsSelected (h it) = mIsSelected it) ->
  forall it, selection_of_item (h it) = selection_of_item it.
Proof. intros H it. unfold selection_of_item. by rewrite H. Qed.

Lemma selection_of_members_frame (h : FolderMembers -> FolderMembers) :
  (forall d, mNumDescendantsSelected (h d) = mNumDescendantsSelected d) ->
  forall d, selection_of_members (h d) = selection_of_members d.
Proof. intros H d. unfold selection_of_members. by rewrite H. Qed.

Lemma setOpenArrangeRecursively_at_accurate p v t :
  counts_accurate (setOpenArrangeRecursively_at p v t) = counts_accurate t.
Proof.
  apply same_selection_accurate, tmap_setOpenArrangeRecursively_at;
    by apply selection_of_members_frame.
Qed.

Lemma Item_setSelection_accurate this selection t :
  counts_accurate t = true ->
  counts_accurate (Item_setSelection this selection t).1 = true.
Proof.
  intros Ht. unfold Item_setSelection. simpl.
  destruct (isSelected t this) eqn:Hs.
  - rewrite andb_false_r. by apply deselectItem_accurate.
  - rewrite andb_true_r. destruct (bool_decide _); [|done].
    by apply selectItem_accurate.
Qed.

Lemma Folder_setSelection_unfold shape this selection openitem t :
  Folder_setSelection shape this selection openitem t =
  let '(t1, rv1) :=
    if bool_decide (selection = Some (RFolder this)) then
      ((if isSelected t (RFolder this) then t else selectItem (RFolder this) t), true)
    else
      ((if isSelected t (RFolder this) then deselectItem (RFolder this) t else t), false) in
  let '(t2, rv2, child_selected2) :=
    for_each_folder
      (fun i c '(t, rv, child_selected) =>
         let '(t', r) := Folder_setSelection c (this ++ [i]) selection openitem t in
         if r then (t', true, true) else (t', rv, child_selected))
      0%nat (mFolders shape) (t1, rv1, false) in
  let '(t3, rv3, child_selected3) :=
    for_each_item
      (fun j '(t, rv, child_selected) =>
         let '(t', r) := Item_setSelection (RItem this j) selection t in
         if r then (t', true, true) else (t', rv, child_selected))
      (length (mItems shape)) (t2, rv2, child_selected2) in
  ((if openitem && child_selected3 then setOpenArrangeRecursively_at this true t3 else t3),
   rv3).
Proof. by destruct shape. Qed.

Lemma Folder_setSelection_accurate shape : forall this selection openitem t,
  counts_accurate t = true ->
  counts_accurate (Folder_setSelection shape this selection openitem t).1 = true.
Proof.
  induction shape as [b d fs its IH] using Folder_ind'.
  intros this selection openitem t Ht. rewrite Folder_setSelection_unfold.
  set (s1 := if bool_decide (selection = Some (RFolder this)) then _ else _).
  assert (Hs1 : counts_accurate s1.1 = true).
  { subst s1. destruct (bool_decide _), (isSelected t (RFolder this)) eqn:Hs;
      simpl; try done.
    - by apply selectItem_accurate.
    - by apply deselectItem_accurate. }
  destruct s1 as [t1 rv1]. simpl in Hs1.
  set (s2 := for_each_folder _ 0%nat (mFolders (Folder b d fs its)) (t1, rv1, false)).
  assert (Hs2 : counts_accurate s2.1.1 = true).
  { subst s2. apply (for_each_folder_inv (fun s => counts_accurate s.1.1 = true)); [|done].
    simpl. eapply Forall_impl; [exact IH|]. intros c Hc i [[t0 rv0] cs0] H0. simpl in H0.
    specialize (Hc (this ++ [i]) selection openitem t0 H0).
    destruct (Folder_setSelection c (this ++ [i]) selection openitem t0) as [t' []];
      exact Hc. }
  destruct s2 as [[t2 rv2] cs2]. simpl in Hs2.
  set (s3 := for_each_item _ _ (t2, rv2, cs2)).
  assert (Hs3 : counts_accurate s3.1.1 = true).
  { subst s3. apply (for_each_item_inv (fun s => counts_accurate s.1.1 = true)); [|done].
    intros j [[t0 rv0] cs0] H0. simpl in H0.
    pose proof (Item_setSelection_accurate (RItem this j) selection t0 H0) as H.
    destruct (Item_setSelection (RItem this j) selection t0) as [t' []]; exact H. }
  destruct s3 as [[t3 rv3] cs3]. simpl in Hs3. simpl.
  destruct (openitem && cs3); [|done].
  by rewrite setOpenArrangeRecursively_at_accurate.
Qed.

Lemma add_to_count_zero d : add_to_count 0 d = d.
Proof. destruct d. unfold add_to_count, set_mNumDescendantsSelected. simpl. f_equal. lia. Qed.

Lemma recursiveIncrement_zero : forall p t,
  recursiveIncrementNumDescendantsSelected 0 p t = t.
Proof.
  induction p as [|i p IH]; intros [b d fs its].
  - rewrite recursiveIncrement_here. simpl. by rewrite add_to_count_zero.
  - rewrite recursiveIncrement_step, add_to_count_zero. f_equal.
    by apply list_alter_id.
Qed.

(** A change inside the folder at [p] that keeps its fresh count keeps all
    counters accurate. *)
Lemma uncounted_change g p t f :
  get_folder t p = Some f ->
  self (g f) = self f ->
  count_selected_descendants (g f) = count_selected_descendants f ->
  mNumDescendantsSelected (members (g f)) = mNumDescendantsSelected (members f) ->
  (Forall (fun c => counts_accurate c = true) (mFolders f) ->
   Forall (fun c => counts_accurate c = true) (mFolders (g f))) ->
  counts_accurate t = true -> counts_accurate (alter_folder g p t) = true.
Proof.
  intros Hf Hs Hc Hn Ha Ht.
  destruct (counted_change 0 g p t f Hf Hs) as (_ & _ & H); auto; [lia|].
  rewrite recursiveIncrement_zero in H. auto.
Qed.

(** The walk up the counters and a change of the children of the folder it
    starts from can be done in either order. *)
Lemma alter_folder_recursiveIncrement increment g :
  (forall f d, g (set_members d f) = set_members d (g f)) ->
  (forall f, members (g f) = members f) ->
  forall p t,
  alter_folder g p (recursiveIncrementNumDescendantsSelected increment p t) =
  recursiveIncrementNumDescendantsSelected increment p (alter_folder g p t).
Proof.
  intros Hg Hm. induction p as [|i p IH]; intros t.
  - simpl. rewrite !recursiveIncrement_here, Hg, Hm. reflexivity.
  - destruct t as [b d fs its].
    rewrite recursiveIncrement_step, !alter_folder_step, recursiveIncrement_step.
    f_equal. rewrite !list_alter_alter_eq. apply list_alter_ext; auto.
    intros x _. apply IH.
Qed.

Lemma counts_accurate_subtree : forall p t f,
  get_folder t p = Some f -> counts_accurate t = true -> counts_accurate f = true.
Proof.
  induction p as [|i p IH]; intros t f Hf Ht.
  - simpl in Hf. congruence.
  - destruct t as [b d fs its]. rewrite get_folder_step in Hf.
    destruct (fs !! i) as [c|] eqn:Hi; [|discriminate].
    apply counts_accurate_unfold in Ht as [_ Hall].
    eapply IH; [exact Hf|].
    exact (proj1 (Forall_lookup _ _) Hall _ _ Hi).
Qed.

Lemma dirty_and_rearrange_accurate p t :
  counts_accurate (requestArrange_at p (Folder_dirtyFilter p t)) = counts_accurate t.
Proof.
  apply same_selection_accurate. unfold selection_of.
  rewrite tmap_requestArrange_at by (by apply selection_of_members_frame).
  apply tmap_Folder_dirtyFilter;
    [by apply selection_of_item_frame | by apply selection_of_members_frame].
Qed.

Lemma child_index_Some this q i : child_index this q = Some i -> q = this ++ [i].
Proof.
  unfold child_index. destruct (rev q) as [|k rq] eqn:E; [discriminate|].
  case_bool_decide; [|discriminate]. intros [= ->]. subst this.
  rewrite <- (rev_involutive q), E. reflexivity.
Qed.

Lemma numSelected_weight c :
  counts_accurate c = true -> numSelected c = folder_weight c.
Proof.
  destruct c as [b d fs its]. intros H. apply counts_accurate_unfold in H as [Hn _].
  unfold numSelected, folder_weight, selected_weight. simpl.
  rewrite count_selected_unfold. lia.
Qed.

Lemma Forall_delete_list {A} (P : A -> Prop) (l : list A) i :
  Forall P l -> Forall P (delete i l).
Proof.
  intros H. revert i. induction H as [|x l Hx Hl IH]; intros [|i]; simpl; auto.
Qed.

Lemma extractItem_accurate this item t :
  counts_accurate t = true -> counts_accurate (extractItem this item t).1 = true.
Proof.
  intros Ht. unfold extractItem.
  match goal with |- context [let '(_, _) := ?x in _] => destruct x as [t1 taken] eqn:E end.
  simpl. rewrite dirty_and_rearrange_accurate.
  destruct item as [q|p j].
  - destruct (child_index this q) as [i|] eqn:Hci; [|by injection E as <- <-].
    apply child_index_Some in Hci as ->.
    destruct (get_folder t (this ++ [i])) as [c|] eqn:Hq; [|by injection E as <- <-].
    injection E as <- <-.
    rewrite get_folder_snoc in Hq.
    destruct (get_folder t this) as [f|] eqn:Hthis; [|discriminate].
    pose proof (counts_accurate_subtree _ _ _ Hthis Ht) as Hf.
    destruct f as [b d fs its]. simpl in Hq.
    apply counts_accurate_unfold in Hf as [Hn Hall].
    pose proof (proj1 (Forall_lookup _ _) Hall _ _ Hq) as Hc.
    pose proof (numSelected_weight c Hc) as Hnum.
    set (g := fun f0 : LLFolderViewFolder => set_mFolders (delete i (mFolders f0)) f0).
    assert (Hcount : count_selected_descendants (g (Folder b d fs its)) =
                     count_selected_descendants (Folder b d fs its) + - numSelected c).
    { subst g. unfold set_mFolders. simpl. rewrite !count_selected_unfold.
      rewrite (folders_weight_delete _ _ _ Hq). lia. }
    destruct (numSelected c =? 0) eqn:Hz.
    + apply Z.eqb_eq in Hz.
      apply (uncounted_change g this t (Folder b d fs its)); auto.
      * rewrite Hcount. lia.
      * simpl. apply Forall_delete_list.
    + rewrite alter_folder_recursiveIncrement;
        [|by intros [] ? | by intros []].
      destruct (counted_change (- numSelected c) g this t (Folder b d fs its) Hthis)
        as (_ & _ & H); auto.
      simpl. apply Forall_delete_list.
  - case_bool_decide; [subst p|by injection E as <- <-].
    destruct (get_item t this j) as [it|] eqn:Hj; [|by injection E as <- <-].
    injection E as <- <-.
    unfold get_item in Hj.
    destruct (get_folder t this) as [f|] eqn:Hthis; [|discriminate].
    destruct f as [b d fs its]. simpl in Hj.
    set (g := fun f0 : LLFolderViewFolder => set_mItems (delete j (mItems f0)) f0).
    assert (Hcount : count_selected_descendants (g (Folder b d fs its)) =
                     count_selected_descendants (Folder b d fs its) - selected_weight it).
    { subst g. unfold set_mItems. simpl. rewrite !count_selected_unfold.
      rewrite (items_weight_delete _ _ _ Hj). lia. }
    unfold selected_weight in Hcount.
    destruct (mIsSelected it).
    + rewrite alter_folder_recursiveIncrement;
        [|by intros [] ? | by intros []].
      destruct (counted_change (-1) g this t (Folder b d fs its) Hthis)
        as (_ & _ & H); auto.
    + apply (uncounted_change g this t (Folder b d fs its)); auto.
      rewrite Hcount. lia.
Qed.

Lemma Forall_insert_at {A} (P : A -> Prop) k x (l : list A) :
  P x -> Forall P l -> Forall P (insert_at k x l).
Proof.
  intros Hx Hl. unfold insert_at. apply Forall_app. split.
  - by apply Forall_take.
  - constructor; [done|]. by apply Forall_drop.
Qed.

Lemma addItem_accurate this k item t :
  counts_accurate t = true -> counts_accurate (addItem this k item t) = true.
Proof.
  intros Ht. unfold addItem.
  destruct (get_folder t this) as [f|] eqn:Hthis; [|done].
  set (k' := Nat.min k (length (mItems f))).
  erewrite same_selection_accurate;
    [|by apply tmap_requestArrange_at, selection_of_members_frame].
  erewrite same_selection_accurate;
    [|apply tmap_Item_dirtyFilter;
      [by apply selection_of_item_frame | by apply selection_of_members_frame]].
  erewrite same_selection_accurate;
    [|by apply tmap_alter_node, selection_of_item_frame].
  set (g := fun f0 : LLFolderViewFolder => set_mItems (insert_at k' item (mItems f0)) f0).
  assert (Hcount : count_selected_descendants (g f) =
                   count_selected_descendants f + selected_weight item).
  { subst g. destruct f as [b d fs its]. unfold set_mItems. simpl.
    rewrite !count_selected_unfold, items_weight_insert_at. lia. }
  unfold selected_weight in Hcount.
  destruct (mIsSelected item).
  - destruct (counted_change 1 g this t f Hthis) as (_ & _ & H); auto;
      by destruct f.
  - apply (uncounted_change g this t f); auto; try by destruct f.
    rewrite Hcount. lia.
Qed.

Lemma addFolder_accurate this k folder t :
  counts_accurate folder = true ->
  counts_accurate t = true -> counts_accurate (addFolder this k folder t) = true.
Proof.
  intros Hfolder Ht. unfold addFolder.
  destruct (get_folder t this) as [f|] eqn:Hthis; [|done].
  set (k' := Nat.min k (length (mFolders f))).
  erewrite same_selection_accurate;
    [|by apply tmap_requestArrange_at, selection_of_members_frame].
  erewrite same_selection_accurate;
    [|apply tmap_alter_folder; intros f0;
      by apply tmap_requestArrange_descendants, selection_of_members_frame].
  erewrite same_selection_accurate;
    [|apply tmap_Folder_dirtyFilter;
      [by apply selection_of_item_frame | by apply selection_of_members_frame]].
  erewrite same_selection_accurate;
    [|by apply tmap_alter_node, selection_of_item_frame].
  set (g := fun f0 : LLFolderViewFolder =>
              set_mFolders (insert_at k' folder (mFolders f0)) f0).
  pose proof (numSelected_weight folder Hfolder) as Hnum.
  assert (Hcount : count_selected_descendants (g f) =
                   count_selected_descendants f + numSelected folder).
  { subst g. destruct f as [b d fs its]. unfold set_mFolders. simpl.
    rewrite !count_selected_unfold, folders_weight_insert_at. lia. }
  assert (Hall : Forall (fun c => counts_accurate c = true) (mFolders f) ->
                 Forall (fun c => counts_accurate c = true) (mFolders (g f))).
  { subst g. destruct f as [b d fs its]. simpl. by apply Forall_insert_at. }
  destruct (numSelected folder =? 0) eqn:Hz.
  - apply Z.eqb_eq in Hz.
    apply (uncounted_change g this t f); auto; try by destruct f.
    rewrite Hcount. lia.
  - destruct (counted_change (numSelected folder) g this t f Hthis) as (_ & _ & H);
      auto; by destruct f.
Qed.

Lemma apply_mutation_accurate m t :
  mutation_allowed t m ->
  counts_accurate t = true -> counts_accurate (apply_mutation m t) = true.
Proof.
  intros Hm Ht. destruct m; simpl in *.
  - by apply selectItem_accurate.
  - by apply deselectItem_accurate.
  - by apply Folder_changeSelection_accurate.
  - by apply Folder_setSelection_accurate.
  - destruct (get_folder t this); [by apply recursiveDeselect_accurate | done].
  - by apply extractItem_accurate.
  - by apply addItem_accurate.
  - by apply addFolder_accurate.
Qed.

Lemma counts_accurate_everywhere t :
  counts_accurate t = true <->
  forall p f, get_folder t p = Some f ->
    mNumDescendantsSelected (members f) = count_selected_descendants f.
Proof.
  split.
  - intros Ht p f Hf. pose proof (counts_accurate_subtree _ _ _ Hf Ht) as H.
    destruct f as [b d fs its]. by apply counts_accurate_unfold in H as [H _].
  - induction t as [b d fs its IH] using Folder_ind'. intros H.
    apply counts_accurate_unfold. split.
    + by apply (H [] (Folder b d fs its)).
    + apply Forall_lookup. intros i c Hi.
      apply (proj1 (Forall_lookup _ _) IH _ _ Hi).
      intros p f Hf. apply (H (i :: p)). rewrite get_folder_step, Hi. exact Hf.
Qed.

(** C6.  After any sequence of selection mutations (select, deselect, the
    changeSelection and setSelection traversals, recursiveDeselect, taking a
    node out of a folder, putting an item or a folder in), each applied
    under the condition its code asserts, every folder's
    mNumDescendantsSelected equals the fresh recursive count of the selected
    nodes below it. *)
Theorem numDescendantsSelected_stays_accurate ms : forall t,
  counts_accurate t = true ->
  mutations_allowed ms t ->
  forall p f, get_folder (apply_mutations ms t) p = Some f ->
    mNumDescendantsSelected (members f) = count_selected_descendants f.
Proof.
  intros t Ht Hms. apply counts_accurate_everywhere. revert t Ht Hms.
  induction ms as [|m ms IH]; intros t Ht Hms; [exact Ht|].
  destruct Hms as [Hm Hms]. simpl. apply IH; [|exact Hms].
  by apply apply_mutation_accurate.
Qed.

End SelectionFacts.

(** ** Navigation *)

Section NavigationFacts.

#[local] Arguments getParentFolder : simpl never.
#[local] Arguments scan_forward : simpl never.
#[local] Arguments find_child : simpl never.

Lemma first_visible_from_Some {A} (vis : A -> bool) s (l : list A) k :
  first_visible_from vis s l = Some k <->
  (s <= k)%nat /\ (exists x, l !! k = Some x /\ vis x = true) /\
  forall j y, (s <= j)%nat -> (j < k)%nat -> l !! j = Some y -> vis y = false.
Proof.
  unfold first_visible_from.
  destruct (list_find (fun x => vis x = true) (drop s l)) as [[i x]|] eqn:E.
  - apply list_find_Some in E as (Hi & Hx & Hmin). rewrite lookup_drop in Hi.
    split.
    + intros [= <-]. split; [lia|]. split; [eauto|].
      intros j y Hsj Hjk Hj. specialize (Hmin (j - s)%nat y).
      rewrite lookup_drop in Hmin. replace (s + (j - s))%nat with j in Hmin by lia.
      destruct (vis y) eqn:Hy; [|done]. exfalso. apply Hmin; auto. lia.
    + intros (Hsk & (x' & Hk & Hx') & Hbefore). f_equal.
      destruct (decide (s + i < k)%nat) as [Hlt|Hge].
      { rewrite (Hbefore (s + i)%nat x) in Hx; auto; [done|lia]. }
      destruct (decide (k < s + i)%nat) as [Hlt|Hge'];  [|lia].
      exfalso. apply (Hmin (k - s)%nat x'); [|lia|done].
      rewrite lookup_drop. by replace (s + (k - s))%nat with k by lia.
  - apply list_find_None in E. split; [done|].
    intros (Hsk & (x & Hk & Hx) & _). exfalso.
    assert (Hd : drop s l !! (k - s)%nat = Some x).
    { rewrite lookup_drop. by replace (s + (k - s))%nat with k by lia. }
    apply (proj1 (Forall_lookup _ _) E _ _ Hd). done.
Qed.

Lemma first_visible_from_None {A} (vis : A -> bool) s (l : list A) :
  first_visible_from vis s l = None <->
  forall j y, (s <= j)%nat -> l !! j = Some y -> vis y = false.
Proof.
  split.
  - intros HN j y Hsj Hj. destruct (vis y) eqn:Hy; [|done]. exfalso.
    assert (Hex : exists k, first_visible_from vis s l = Some k).
    { unfold first_visible_from.
      destruct (list_find (fun x => vis x = true) (drop s l)) as [[i x]|] eqn:E; [eauto|].
      apply list_find_None in E. exfalso.
      assert (Hd : drop s l !! (j - s)%nat = Some y).
      { rewrite lookup_drop. by replace (s + (j - s))%nat with j by lia. }
      by apply (proj1 (Forall_lookup _ _) E _ _ Hd). }
    destruct Hex as [k Hk]. congruence.
  - intros H. destruct (first_visible_from vis s l) as [k|] eqn:E; [|done].
    apply first_visible_from_Some in E as (Hsk & (x & Hk & Hx) & _).
    rewrite (H k x Hsk Hk) in Hx. done.
Qed.

Lemma last_visible_before_Some {A} (vis : A -> bool) (l : list A) : forall b k,
  last_visible_before vis b l = Some k <->
  (k < b)%nat /\ (exists x, l !! k = Some x /\ vis x = true) /\
  forall j y, (k < j)%nat -> (j < b)%nat -> l !! j = Some y -> vis y = false.
Proof.
  induction b as [|b IH]; intros k; simpl.
  - split; [done|]. intros (H & _). lia.
  - destruct (l !! b) as [x|] eqn:Hb; [destruct (vis x) eqn:Hx|].
    + split.
      * intros [= <-]. split; [lia|]. split; [eauto|]. intros j y ? ?. lia.
      * intros (Hk & (x' & Hk' & Hx') & Hafter). f_equal.
        destruct (decide (k = b)) as [->|Hne]; [done|].
        rewrite (Hafter b x) in Hx; auto; [done|lia].
    + rewrite IH. split.
      * intros (Hk & Hex & Hafter). split; [lia|]. split; [done|].
        intros j y Hkj Hjb Hj. destruct (decide (j = b)) as [->|Hne].
        -- congruence.
        -- apply (Hafter j y); auto. lia.
      * intros (Hk & (x' & Hk' & Hx') & Hafter).
        assert (k <> b) by (intros ->; congruence).
        split; [lia|]. split; [eauto|]. intros j y ? ? ?. apply (Hafter j y); auto.
    + rewrite IH. split.
      * intros (Hk & Hex & Hafter). split; [lia|]. split; [done|].
        intros j y Hkj Hjb Hj. destruct (decide (j = b)) as [->|Hne].
        -- congruence.
        -- apply (Hafter j y); auto. lia.
      * intros (Hk & (x' & Hk' & Hx') & Hafter).
        assert (k <> b) by (intros ->; congruence).
        split; [lia|]. split; [eauto|]. intros j y ? ? ?. apply (Hafter j y); auto.
Qed.

Lemma last_visible_before_None {A} (vis : A -> bool) (l : list A) b :
  last_visible_before vis b l = None <->
  forall j y, (j < b)%nat -> l !! j = Some y -> vis y = false.
Proof.
  split.
  - intros HN. induction b as [|b IH]; intros j y Hj Hl; [lia|].
    simpl in HN. destruct (l !! b) as [x|] eqn:Hb; [destruct (vis x) eqn:Hx|];
      try discriminate.
    + destruct (decide (j = b)) as [->|Hne]; [congruence|].
      apply (IH HN j y); auto. lia.
    + destruct (decide (j = b)) as [->|Hne]; [congruence|].
      apply (IH HN j y); auto. lia.
  - intros H. destruct (last_visible_before vis b l) as [k|] eqn:E; [|done].
    apply last_visible_before_Some in E as (Hk & (x & Hx & Hv) & _).
    rewrite (H k x Hk Hx) in Hv. done.
Qed.

Lemma rscan_folders_spec {R} (found : nat -> LLFolderViewFolder -> R) bound cs :
  forall i,
  match rscan_folders found bound i cs with
  | Some w =>
    exists k c, (i + k < bound)%nat /\ cs !! k = Some c /\ mVisible (self c) = true /\
      (forall j y, (k < j)%nat -> (i + j < bound)%nat -> cs !! j = Some y ->
                   mVisible (self y) = false) /\
      w = found (i + k)%nat c
  | None =>
    forall j y, (i + j < bound)%nat -> cs !! j = Some y -> mVisible (self y) = false
  end.
Proof.
  induction cs as [|c rest IH]; intros i; simpl.
  - intros j y _ Hj. by rewrite lookup_nil in Hj.
  - specialize (IH (S i)). destruct (rscan_folders found bound (S i) rest) as [w|].
    + destruct IH as (k & c' & Hk & Hc' & Hv & Hafter & ->).
      exists (S k), c'. split; [lia|]. split; [done|]. split; [done|]. split.
      * intros [|j] y Hkj Hjb Hj; [lia|]. simpl in Hj. apply (Hafter j y); auto; lia.
      * f_equal. lia.
    + destruct ((i <? bound)%nat && mVisible (self c)) eqn:E.
      * apply andb_true_iff in E as [Hi Hv]. apply Nat.ltb_lt in Hi.
        exists 0%nat, c. split; [lia|]. split; [done|]. split; [done|]. split.
        -- intros [|j] y Hkj Hjb Hj; [lia|]. simpl in Hj. apply (IH j y); auto. lia.
        -- f_equal. lia.
      * intros [|j] y Hjb Hj; simpl in Hj.
        -- injection Hj as <-. apply andb_false_iff in E as [E|E]; [|done].
           apply Nat.ltb_ge in E. lia.
        -- apply (IH j y); auto. lia.
Qed.

Lemma getPreviousFromChild_unfold b d fs its this item :
  getPreviousFromChild (Folder b d fs its) this item =
  match (match item with
         | None => Some (length its, length fs)
         | Some x =>
           match find_child (Folder b d fs its) this x with
           | FoundItem j => Some (j, length fs)
           | FoundFolder k => Some (0%nat, k)
           | NotFound => None
           end
         end) with
  | None => Null
  | Some (iit, fit) =>
    scan_backward (fun k c => descend_last c (this ++ [k])) this fs its iit fit
  end.
Proof. reflexivity. Qed.

Lemma child_index_snoc this k : child_index this (this ++ [k]) = Some k.
Proof.
  unfold child_index. rewrite rev_app_distr. simpl.
  rewrite rev_involutive. by rewrite bool_decide_eq_true_2.
Qed.

Lemma find_child_folder f this k :
  (k < length (mFolders f))%nat ->
  find_child f this (RFolder (this ++ [k])) = FoundFolder k.
Proof.
  intros H. unfold find_child. rewrite child_index_snoc.
  by rewrite bool_decide_eq_true_2.
Qed.

Lemma find_child_item f this j :
  (j < length (mItems f))%nat -> find_child f this (RItem this j) = FoundItem j.
Proof.
  intros H. unfold find_child. by rewrite !bool_decide_eq_true_2.
Qed.

Lemma first_visible_from_end {A} (vis : A -> bool) (l : list A) s :
  (length l <= s)%nat -> first_visible_from vis s l = None.
Proof.
  intros H. apply first_visible_from_None. intros j y Hj Hl.
  apply lookup_lt_Some in Hl. lia.
Qed.

(** Backward scan below [fit], stopping at the visible folder [k]. *)
Lemma rscan_folders_stops found fs fit k c :
  (k < fit)%nat -> fs !! k = Some c -> mVisible (self c) = true ->
  (forall j y, (k < j)%nat -> (j < fit)%nat -> fs !! j = Some y ->
               mVisible (self y) = false) ->
  rscan_folders found fit 0%nat fs = Some (found k c : Walk).
Proof.
  intros Hk Hc Hv Hafter. pose proof (rscan_folders_spec found fit fs 0%nat) as H.
  destruct (rscan_folders found fit 0%nat fs) as [w|].
  - destruct H as (k0 & c0 & Hk0 & Hc0 & Hv0 & Hafter0 & ->). simpl in *.
    destruct (decide (k0 = k)) as [->|Hne]; [congruence|]. exfalso.
    destruct (decide (k0 < k)%nat).
    + rewrite (Hafter0 k c) in Hv; auto; done.
    + rewrite (Hafter k0 c0) in Hv0; auto; [done|lia].
  - rewrite (H k c) in Hv; auto; done.
Qed.

Lemma rscan_folders_nothing found fs fit :
  (forall j y, (j < fit)%nat -> fs !! j = Some y -> mVisible (self y) = false) ->
  rscan_folders found fit 0%nat fs = (None : option Walk).
Proof.
  intros Hnone. pose proof (rscan_folders_spec found fit fs 0%nat) as H.
  destruct (rscan_folders found fit 0%nat fs) as [w|]; [|done].
  destruct H as (k0 & c0 & Hk0 & Hc0 & Hv0 & _). simpl in *.
  rewrite (Hnone k0 c0) in Hv0; auto; done.
Qed.

(** Forward from the visible child [x] to the next visible child [m], and
    backward from [m]: the scan stops at [x]. *)
Lemma scan_round_trip f this x m :
  child_visible f x ->
  scan_forward f this (after_child f x).1 (after_child f x).2 = Some m ->
  getPreviousFromChild f this (Some m) = child_walk f this x.
Proof.
  destruct f as [b d fs its]. intros Hx Hscan.
  rewrite getPreviousFromChild_unfold. unfold scan_forward in Hscan. simpl in Hscan.
  destruct x as [k|j|]; simpl in Hx, Hscan; [| |done].
  - destruct Hx as (c & Hc & Hv). simpl. rewrite Hc.
    destruct (first_visible_from (fun c => mVisible (self c)) (S k) fs) as [k'|] eqn:Ef.
    + injection Hscan as <-.
      apply first_visible_from_Some in Ef as (Hk' & (c' & Hc' & Hv') & Hmin).
      rewrite find_child_folder by (simpl; by eapply lookup_lt_Some).
      unfold scan_backward. simpl.
      assert (Hafter : forall j y, (k < j)%nat -> (j < k')%nat -> fs !! j = Some y ->
                                   mVisible (self y) = false).
      { intros j y Hkj Hjk' Hj. apply (Hmin j y); auto; lia. }
      assert (Hlt : (k < k')%nat) by lia.
      by rewrite (rscan_folders_stops _ fs k' k c Hlt Hc Hv Hafter).
    + destruct (first_visible_from mVisible 0 its) as [j'|] eqn:Ei; [|done].
      injection Hscan as <-.
      apply first_visible_from_Some in Ei as (_ & (it' & Hit' & Hvi') & Hmini).
      rewrite find_child_item by (simpl; by eapply lookup_lt_Some).
      unfold scan_backward.
      assert (El : last_visible_before mVisible j' its = None).
      { apply last_visible_before_None. intros j y Hj Hl. apply (Hmini j y); auto; lia. }
      rewrite El.
      assert (Hafter : forall j y, (k < j)%nat -> (j < length fs)%nat ->
                fs !! j = Some y -> mVisible (self y) = false).
      { intros j y Hkj _ Hj.
        apply (proj1 (first_visible_from_None _ _ _) Ef j y); auto; lia. }
      assert (Hlt : (k < length fs)%nat) by (by eapply lookup_lt_Some).
      by rewrite (rscan_folders_stops _ fs (length fs) k c Hlt Hc Hv Hafter).
  - destruct Hx as (it & Hit & Hv). simpl.
    rewrite first_visible_from_end in Hscan by done.
    destruct (first_visible_from mVisible (S j) its) as [j'|] eqn:Ei; [|done].
    injection Hscan as <-.
    apply first_visible_from_Some in Ei as (Hj' & (it' & Hit' & Hvi') & Hmini).
    rewrite find_child_item by (simpl; by eapply lookup_lt_Some).
    unfold scan_backward.
    assert (El : last_visible_before mVisible j' its = Some j).
    { apply last_visible_before_Some. split; [lia|]. split; [eauto|].
      intros j0 y ? ? ?. apply (Hmini j0 y); auto; lia. }
    by rewrite El.
Qed.

(** Nothing visible after the visible child [x]: the backward scan from
    the end stops at [x]. *)
Lemma scan_none_last f this x :
  child_visible f x ->
  scan_forward f this (after_child f x).1 (after_child f x).2 = None ->
  getPreviousFromChild f this None = child_walk f this x.
Proof.
  destruct f as [b d fs its]. intros Hx Hscan.
  rewrite getPreviousFromChild_unfold. unfold scan_forward in Hscan. simpl in Hscan.
  destruct x as [k|j|]; simpl in Hx, Hscan; [| |done].
  - destruct Hx as (c & Hc & Hv). simpl. rewrite Hc.
    destruct (first_visible_from (fun c => mVisible (self c)) (S k) fs) as [k'|] eqn:Ef;
      [done|].
    destruct (first_visible_from mVisible 0 its) as [j'|] eqn:Ei; [done|].
    unfold scan_backward.
    assert (El : last_visible_before mVisible (length its) its = None).
    { apply last_visible_before_None. intros j y Hj Hl.
      apply (proj1 (first_visible_from_None _ _ _) Ei j y); auto; lia. }
    rewrite El.
    assert (Hafter : forall j y, (k < j)%nat -> (j < length fs)%nat ->
              fs !! j = Some y -> mVisible (self y) = false).
    { intros j y Hkj _ Hj.
      apply (proj1 (first_visible_from_None _ _ _) Ef j y); auto; lia. }
    assert (Hlt : (k < length fs)%nat) by (by eapply lookup_lt_Some).
    by rewrite (rscan_folders_stops _ fs (length fs) k c Hlt Hc Hv Hafter).
  - destruct Hx as (it & Hit & Hv). simpl.
    rewrite first_visible_from_end in Hscan by done.
    destruct (first_visible_from mVisible (S j) its) as [j'|] eqn:Ei; [done|].
    unfold scan_backward.
    assert (El : last_visible_before mVisible (length its) its = Some j).
    { apply last_visible_before_Some. split; [by eapply lookup_lt_Some|].
      split; [eauto|]. intros j0 y ? ? ?.
      apply (proj1 (first_visible_from_None _ _ _) Ei j0 y); auto; lia. }
    by rewrite El.
Qed.

(** The first visible child [m] of a folder: the backward scan from [m]
    finds nothing and hands back the folder itself. *)
Lemma scan_first_child f this m :
  scan_forward f this 0 0 = Some m ->
  getPreviousFromChild f this (Some m) = At (RFolder this).
Proof.
  destruct f as [b d fs its]. intros Hscan.
  rewrite getPreviousFromChild_unfold. unfold scan_forward in Hscan. simpl in Hscan.
  destruct (first_visible_from (fun c => mVisible (self c)) 0 fs) as [k'|] eqn:Ef.
  - injection Hscan as <-.
    apply first_visible_from_Some in Ef as (_ & (c' & Hc' & Hv') & Hmin).
    rewrite find_child_folder by (simpl; by eapply lookup_lt_Some).
    unfold scan_backward. simpl.
    rewrite rscan_folders_nothing; [done|].
    intros j y Hj Hl. apply (Hmin j y); auto; lia.
  - destruct (first_visible_from mVisible 0 its) as [j'|] eqn:Ei; [|done].
    injection Hscan as <-.
    apply first_visible_from_Some in Ei as (_ & (it' & Hit' & Hvi') & Hmini).
    rewrite find_child_item by (simpl; by eapply lookup_lt_Some).
    unfold scan_backward.
    assert (El : last_visible_before mVisible j' its = None).
    { apply last_visible_before_None. intros j y Hj Hl. apply (Hmini j y); auto; lia. }
    rewrite El. rewrite rscan_folders_nothing; [done|].
    intros j y _ Hl. apply (proj1 (first_visible_from_None _ _ _) Ef j y); auto; lia.
Qed.

(** No visible child at all: the backward scan from the end hands back
    the folder itself. *)
Lemma scan_no_child f this :
  scan_forward f this 0 0 = None ->
  getPreviousFromChild f this None = At (RFolder this).
Proof.
  destruct f as [b d fs its]. intros Hscan.
  rewrite getPreviousFromChild_unfold. unfold scan_forward in Hscan. simpl in Hscan.
  destruct (first_visible_from (fun c => mVisible (self c)) 0 fs) as [k'|] eqn:Ef;
    [done|].
  destruct (first_visible_from mVisible 0 its) as [j'|] eqn:Ei; [done|].
  unfold scan_backward.
  assert (El : last_visible_before mVisible (length its) its = None).
  { apply last_visible_before_None. intros j y Hj Hl.
    apply (proj1 (first_visible_from_None _ _ _) Ei j y); auto; lia. }
  rewrite El. rewrite rscan_folders_nothing; [done|].
  intros j y _ Hl. apply (proj1 (first_visible_from_None _ _ _) Ef j y); auto; lia.
Qed.

Lemma ancestors_shown_parent t Q k : ancestors_shown t (Q ++ [k]) -> ancestors_shown t Q.
Proof.
  intros H q Hq Hpre. apply H; [done|]. by apply prefix_app_r.
Qed.

Lemma node_at_folder_child t Q f k c :
  get_folder t Q = Some f -> mFolders f !! k = Some c ->
  node_at t (RFolder (Q ++ [k])) = Some (self c).
Proof. intros HQ Hk. simpl. by rewrite get_folder_snoc, HQ, Hk. Qed.

Lemma node_at_item_child t Q f j it :
  get_folder t Q = Some f -> mItems f !! j = Some it ->
  node_at t (RItem Q j) = Some it.
Proof. intros HQ Hj. unfold node_at, get_item. by rewrite HQ. Qed.

Lemma scan_forward_visible t Q f fit iit r :
  get_folder t Q = Some f ->
  scan_forward f Q fit iit = Some r ->
  getVisible_at t r = Some true /\ getParentFolder r = Some Q.
Proof.
  intros HQ. unfold scan_forward.
  destruct (first_visible_from (fun c => mVisible (self c)) fit (mFolders f)) as [k|] eqn:Ef.
  - intros [= <-]. apply first_visible_from_Some in Ef as (_ & (c & Hc & Hv) & _).
    unfold getVisible_at. rewrite (node_at_folder_child _ _ _ _ _ HQ Hc). simpl.
    rewrite Hv. split; [done|]. apply getParentFolder_snoc.
  - destruct (first_visible_from mVisible iit (mItems f)) as [j|] eqn:Ei; [|done].
    intros [= <-]. apply first_visible_from_Some in Ei as (_ & (it & Hit & Hv) & _).
    unfold getVisible_at. rewrite (node_at_item_child _ _ _ _ _ HQ Hit). simpl.
    by rewrite Hv.
Qed.

(** getNextFromChild only hands back visible nodes. *)
Lemma getNextFromChild_visible t : forall fuel this item include_children r,
  getNextFromChild fuel t this item include_children = At r ->
  getVisible_at t r = Some true.
Proof.
  induction fuel as [|fuel IH]; intros this item inc r; simpl; [done|].
  destruct (get_folder t this) as [f|] eqn:Hthis; [|done].
  set (located := match item with None => _ | Some x => _ end).
  assert (Hloc : (exists w, located = inl w /\ forall r, w = At r -> getVisible_at t r = Some true)
                 \/ (exists o, located = inr o)).
  { subst located. destruct item as [x|]; [|right; eauto].
    destruct (find_child f this x); [|right; eauto|right; eauto].
    destruct (mFolders f !! k); [|right; eauto].
    destruct (inc && isOpen l); [|right; eauto].
    left. eexists. split; [reflexivity|]. intros r0. apply IH. }
  destruct Hloc as [(w & -> & Hw)|(o & ->)]; [apply Hw|].
  destruct o as [[fit iit]|]; [|done].
  destruct (scan_forward f this fit iit) as [r0|] eqn:Es.
  - intros [= <-]. by eapply scan_forward_visible.
  - destruct (getParentFolder (RFolder this)); [apply IH | done].
Qed.

Lemma skip_invisible_visible fuel t this step r :
  getVisible_at t r = Some true ->
  skip_invisible fuel t this step (At r) = At r.
Proof. intros H. destruct fuel; simpl; by rewrite H. Qed.

Lemma getPreviousOpenNode_child t Q f m N :
  get_folder t Q = Some f ->
  getParentFolder m = Some Q ->
  getPreviousFromChild f Q (Some m) = At N ->
  getVisible_at t N = Some true ->
  getPreviousOpenNode t m = At N.
Proof.
  intros HQ Hm Hprev HN. unfold getPreviousOpenNode, previous_from_parent.
  rewrite Hm, HQ, Hprev. by apply skip_invisible_visible.
Qed.

(** The walk forward that leaves the folder at [Q] after its child [x],
    when the walk backward that arrives at [x] ends at [N]. *)
Lemma walk_up t N :
  getVisible_at t N = Some true ->
  forall Q fuel f x M,
  get_folder t Q = Some f ->
  ancestors_shown t Q ->
  child_visible f x ->
  child_walk f Q x = At N ->
  (length Q <= fuel)%nat ->
  next_after fuel t Q f x = At M ->
  getPreviousOpenNode t M = At N.
Proof.
  intros HN. induction Q as [|k Q' IH] using rev_ind;
    intros fuel f x M HQ Hanc Hx Hwalk Hfuel; unfold next_after.
  - destruct (scan_forward f [] _ _) as [r|] eqn:Es; [|done].
    intros [= <-]. destruct (scan_forward_visible _ _ _ _ _ _ HQ Es) as [_ Hpar].
    eapply getPreviousOpenNode_child; eauto.
    rewrite <- Hwalk. by apply scan_round_trip.
  - destruct (scan_forward f (Q' ++ [k]) _ _) as [r|] eqn:Es.
    + intros [= <-]. destruct (scan_forward_visible _ _ _ _ _ _ HQ Es) as [_ Hpar].
      eapply getPreviousOpenNode_child; eauto.
      rewrite <- Hwalk. by apply scan_round_trip.
    + rewrite getParentFolder_snoc.
      rewrite length_app in Hfuel. simpl in Hfuel.
      destruct fuel as [|fuel']; [lia|]. simpl.
      pose proof HQ as HQ0. rewrite get_folder_snoc in HQ.
      destruct (get_folder t Q') as [f'|] eqn:HQ'; [|done].
      rewrite find_child_folder by (by eapply lookup_lt_Some). rewrite HQ. simpl.
      destruct (Hanc (Q' ++ [k])) as (g & Hg & Hopen & Hvis);
        [by destruct Q' | done |].
      assert (g = f) by congruence. subst g.
      intros Hnext. apply (IH fuel' f' (FoundFolder k) M); auto.
      * by eapply ancestors_shown_parent.
      * simpl. eauto.
      * simpl. rewrite HQ. unfold descend_last. rewrite Hopen.
        rewrite <- Hwalk. by apply scan_none_last.
      * lia.
Qed.

#[local] Arguments getNextFromChild : simpl never.

Lemma getNextFromChild_S fuel t this item include_children :
  getNextFromChild (S fuel) t this item include_children =
  match get_folder t this with
  | None => Undefined
  | Some f =>
    match (match item with
           | None => inr (Some (0, 0)%nat)
           | Some x =>
             match find_child f this x with
             | FoundFolder k =>
               match mFolders f !! k with
               | Some c =>
                 if include_children && isOpen c
                 then inl (getNextFromChild fuel t (this ++ [k]) None true)
                 else inr (Some (S k, 0%nat))
               | None => inr None
               end
             | FoundItem j => inr (Some (length (mFolders f), S j))
             | NotFound => inr None
             end
           end : Walk + option (nat * nat)) with
    | inl w => w
    | inr None => Null
    | inr (Some (fit, iit)) =>
      match scan_forward f this fit iit with
      | Some r => At r
      | None =>
        match getParentFolder (RFolder this) with
        | Some parent_folder =>
          getNextFromChild fuel t parent_folder (Some (RFolder this)) false
        | None => Null
        end
      end
    end
  end.
Proof. reflexivity. Qed.

Lemma getNextOpenNode_At t N M :
  getNextOpenNode t N true = At M ->
  exists P, getParentFolder N = Some P /\
    getNextFromChild (2 * length P + 3) t P (Some N) true = At M.
Proof.
  unfold getNextOpenNode, next_from_parent.
  destruct (getParentFolder N) as [P|]; [|done]. intros H. exists P. split; [done|].
  destruct (getNextFromChild (2 * length P + 3) t P (Some N) true) as [|r| |] eqn:E;
    try (by destruct (count_nodes t)).
  rewrite skip_invisible_visible in H; [done|].
  by eapply getNextFromChild_visible.
Qed.

(** When the walk forward from a node N that is visible inside open and
    visible folders returns a node M, the walk backward from M returns N. *)
Lemma previous_of_the_next t N M :
  shown t N ->
  getNextOpenNode t N true = At M ->
  getPreviousOpenNode t M = At N.
Proof.
  intros [HN (P & HP & Hanc)] Hnext.
  apply getNextOpenNode_At in Hnext as (P' & HP' & Hnext).
  assert (P' = P) by congruence. subst P'. clear HP'.
  replace (2 * length P + 3)%nat with (S (S (S (2 * length P)))) in Hnext by lia.
  rewrite getNextFromChild_S in Hnext.
  unfold getVisible_at in HN.
  destruct (node_at t N) as [it|] eqn:Hnode; [|done]. simpl in HN. injection HN as HN.
  assert (HvisN : getVisible_at t N = Some true).
  { unfold getVisible_at. rewrite Hnode. simpl. by rewrite HN. }
  destruct N as [p|p j].
  - (* a folder *)
    destruct p as [|k p0 _] using rev_ind; [done|].
    rewrite getParentFolder_snoc in HP. injection HP as <-.
    simpl in Hnode. rewrite get_folder_snoc in Hnode.
    destruct (get_folder t p0) as [f|] eqn:Hf; [|done].
    destruct (mFolders f !! k) as [c|] eqn:Hc; [|done].
    simpl in Hnode. injection Hnode as <-.
    rewrite find_child_folder, Hc in Hnext by (by eapply lookup_lt_Some).
    assert (Hx : child_visible f (FoundFolder k)) by (simpl; eauto).
    destruct (isOpen c) eqn:Hopen; simpl in Hnext.
    + (* open: the walk goes into the folder *)
      rewrite getNextFromChild_S in Hnext.
      rewrite get_folder_snoc, Hf, Hc in Hnext.
      destruct (scan_forward c (p0 ++ [k]) 0 0) as [r|] eqn:Es.
      * injection Hnext as <-.
        assert (Hc' : get_folder t (p0 ++ [k]) = Some c)
          by (by rewrite get_folder_snoc, Hf).
        destruct (scan_forward_visible _ _ _ _ _ _ Hc' Es) as [_ Hpar].
        eapply getPreviousOpenNode_child; eauto. by apply scan_first_child.
      * rewrite getParentFolder_snoc in Hnext. rewrite getNextFromChild_S in Hnext.
        rewrite Hf, find_child_folder, Hc in Hnext by (by eapply lookup_lt_Some).
        simpl in Hnext.
        apply (walk_up t (RFolder (p0 ++ [k])) HvisN p0 (2 * length p0) f
                 (FoundFolder k) M); auto; [|lia].
        simpl. rewrite Hc. unfold descend_last. rewrite Hopen.
        by apply scan_no_child.
    + (* closed: the walk goes on after the folder *)
      apply (walk_up t (RFolder (p0 ++ [k])) HvisN p0 (S (S (2 * length p0))) f
               (FoundFolder k) M); auto; [|lia].
      simpl. rewrite Hc. unfold descend_last. by rewrite Hopen.
  - (* an item *)
    injection HP as <-. unfold node_at, get_item in Hnode.
    destruct (get_folder t p) as [f|] eqn:Hf; [|done].
    rewrite find_child_item in Hnext by (by eapply lookup_lt_Some).
    apply (walk_up t (RItem p j) HvisN p (S (S (2 * length p))) f (FoundItem j) M);
      auto; [simpl; eauto | lia].
Qed.


(** ** Walks that find nothing *)

Lemma scan_forward_None f this that fit iit :
  scan_forward f this fit iit = None -> scan_forward f that fit iit = None.
Proof.
  unfold scan_forward.
  destruct (first_visible_from _ fit (mFolders f)); [done|].
  by destruct (first_visible_from mVisible iit (mItems f)).
Qed.

Lemma next_after_ends t Q x :
  ends_at t Q x ->
  forall f fuel, get_folder t Q = Some f -> (length Q <= fuel)%nat ->
  next_after fuel t Q f x = Null.
Proof.
  induction 1 as [f0 x Hf0 Hx|Q k f0 x Hf0 Hx Hup IH]; intros f fuel Hf Hfuel.
  - assert (f0 = f) by congruence. subst f0. unfold next_after.
    by rewrite (scan_forward_None _ _ [] _ _ Hx).
  - assert (f0 = f) by congruence. subst f0. unfold next_after.
    rewrite (scan_forward_None _ _ (Q ++ [k]) _ _ Hx).
    rewrite getParentFolder_snoc. rewrite length_app in Hfuel. simpl in Hfuel.
    destruct fuel as [|fuel]; [lia|]. rewrite getNextFromChild_S.
    rewrite get_folder_snoc in Hf.
    destruct (get_folder t Q) as [g|] eqn:Hg; [|done].
    destruct (mFolders g !! k) as [c|] eqn:Hc; [|done].
    rewrite find_child_folder, Hc by (by eapply lookup_lt_Some). simpl.
    apply (IH g fuel); [done|lia].
Qed.


Lemma find_child_FoundFolder f this N k :
  find_child f this N = FoundFolder k ->
  N = RFolder (this ++ [k]) /\ (k < length (mFolders f))%nat.
Proof.
  unfold find_child. destruct N as [q|p j].
  - destruct (child_index this q) as [i|] eqn:E; [|done].
    case_bool_decide; [|done]. intros [= ->].
    by rewrite (child_index_Some _ _ _ E).
  - by destruct (_ && _).
Qed.

Lemma getPreviousFromChild_nothing f Q N :
  nothing_before f (find_child f Q N) ->
  getPreviousFromChild f Q (Some N) = At (RFolder Q).
Proof.
  destruct f as [b d fs its]. rewrite getPreviousFromChild_unfold.
  destruct (find_child (Folder b d fs its) Q N) as [k|j|] eqn:E; simpl; [| |done].
  - intros Hnone. unfold scan_backward. simpl.
    by rewrite rscan_folders_nothing.
  - intros [Hits Hfs]. unfold scan_backward.
    rewrite (proj2 (last_visible_before_None mVisible its j)) by done.
    rewrite rscan_folders_nothing; [done|]. intros i y _ Hi. by apply (Hfs i).
Qed.

Lemma getParentFolder_self Q : getParentFolder (RFolder Q) <> Some Q.
Proof.
  destruct Q as [|i Q]; [done|]. simpl. intros [= H].
  apply (f_equal length) in H. revert i H.
  induction Q as [|a Q IH]; intros i H; [done|].
  simpl in H. injection H as H. by apply (IH a).
Qed.

Lemma skip_invisible_Null fuel t this step :
  skip_invisible fuel t this step Null = Null.
Proof. by destruct fuel. Qed.

(** C8 (amended).  For a node N with parent folder P: when nothing visible
    comes after N, neither among its own children that the walk would enter
    nor after it in P nor after any folder on the way up to the root, the
    forward walk returns null; when nothing visible comes before N in P and
    P is visible, the backward walk returns the folder P.  Neither returns N.
    On the root, which has no parent, both walks return null. *)
Theorem walk_without_neighbour t N Q f include_children :
  getParentFolder N = Some Q ->
  get_folder t Q = Some f ->
  (ends_at t Q (find_child f Q N) -> first_child_of t N include_children = None ->
   getNextOpenNode t N include_children = Null) /\
  (nothing_before f (find_child f Q N) -> getVisible_at t (RFolder Q) = Some true ->
   getPreviousOpenNode t N = At (RFolder Q) /\ RFolder Q <> N) /\
  getNextOpenNode t root_ref include_children = Null /\
  getPreviousOpenNode t root_ref = Null.
Proof.
  intros HQ Hf. split; [|split; [|done]].
  - intros Hend Hfirst. unfold getNextOpenNode, next_from_parent. rewrite HQ.
    replace (2 * length Q + 3)%nat with (S (S (S (2 * length Q)))) by lia.
    rewrite getNextFromChild_S, Hf.
    destruct (find_child f Q N) as [k|j|] eqn:E; [| |apply skip_invisible_Null].
    + destruct (find_child_FoundFolder _ _ _ _ E) as [-> Hk].
      destruct (mFolders f !! k) as [c|] eqn:Hc; [|apply skip_invisible_Null].
      assert (Hc' : get_folder t (Q ++ [k]) = Some c)
        by (by rewrite get_folder_snoc, Hf).
      simpl in Hfirst. rewrite Hc' in Hfirst.
      destruct (include_children && isOpen c); cbv beta iota.
      * rewrite getNextFromChild_S, Hc', Hfirst, getParentFolder_snoc.
        rewrite getNextFromChild_S, Hf, find_child_folder, Hc by done.
        simpl andb. cbv beta iota.
        pose proof (next_after_ends t Q (FoundFolder k) Hend f (2 * length Q) Hf) as Hn.
        unfold next_after in Hn. cbn [after_child fst snd] in Hn. rewrite Hn by lia.
        apply skip_invisible_Null.
      * pose proof (next_after_ends t Q (FoundFolder k) Hend f
                      (S (S (2 * length Q))) Hf) as Hn.
        unfold next_after in Hn. cbn [after_child fst snd] in Hn. rewrite Hn by lia.
        apply skip_invisible_Null.
    + pose proof (next_after_ends t Q (FoundItem j) Hend f
                    (S (S (2 * length Q))) Hf) as Hn.
      unfold next_after in Hn. cbn [after_child fst snd] in Hn. rewrite Hn by lia.
      apply skip_invisible_Null.
  - intros Hnone Hvis. split.
    + eapply getPreviousOpenNode_child; eauto. by apply getPreviousFromChild_nothing.
    + intros <-. by apply getParentFolder_self in HQ.
Qed.

(** ** The flattened order *)

Lemma flattened_below_unfold b d fs its here :
  flattened_below (Folder b d fs its) here =
  flattened_folders flattened_below here 0%nat fs ++ flattened_items here 0%nat its.
Proof. reflexivity. Qed.

Lemma flattened_items_app here : forall l1 l2 j,
  flattened_items here j (l1 ++ l2) =
  flattened_items here j l1 ++ flattened_items here (j + length l1)%nat l2.
Proof.
  induction l1 as [|it l1 IH]; intros l2 j; simpl.
  - by rewrite Nat.add_0_r.
  - rewrite IH, <- app_assoc. do 3 f_equal. lia.
Qed.

Lemma flattened_folders_app below here : forall l1 l2 i,
  flattened_folders below here i (l1 ++ l2) =
  flattened_folders below here i l1
  ++ flattened_folders below here (i + length l1)%nat l2.
Proof.
  induction l1 as [|c l1 IH]; intros l2 i; simpl.
  - by rewrite Nat.add_0_r.
  - rewrite IH, <- app_assoc. do 3 f_equal. lia.
Qed.

Lemma flattened_items_invisible here : forall its j,
  (forall k y, its !! k = Some y -> mVisible y = false) ->
  flattened_items here j its = [].
Proof.
  induction its as [|it rest IH]; intros j H; [done|]. simpl.
  rewrite (H 0%nat it eq_refl). simpl. apply IH. intros k y Hk. by apply (H (S k) y).
Qed.

Lemma flattened_folders_invisible below here : forall cs i,
  (forall k y, cs !! k = Some y -> mVisible (self y) = false) ->
  flattened_folders below here i cs = [].
Proof.
  induction cs as [|c rest IH]; intros i H; [done|]. simpl.
  rewrite (H 0%nat c eq_refl). simpl. apply IH. intros k y Hk. by apply (H (S k) y).
Qed.

Lemma elem_of_flattened_items here x : forall its j,
  x ∈ flattened_items here j its ->
  exists k it, its !! k = Some it /\ mVisible it = true /\ x = RItem here (j + k).
Proof.
  induction its as [|it rest IH]; intros j; simpl.
  - by intros ?%elem_of_nil.
  - intros [H|H]%elem_of_app.
    + destruct (mVisible it) eqn:E; [|by apply elem_of_nil in H].
      apply list_elem_of_singleton in H as ->. exists 0%nat, it.
      by rewrite Nat.add_0_r.
    + destruct (IH _ H) as (k & y & Hk & Hv & ->). exists (S k), y.
      split; [done|]. split; [done|]. f_equal. lia.
Qed.

Lemma elem_of_flattened_folders below here x : forall cs i,
  x ∈ flattened_folders below here i cs ->
  exists k c, cs !! k = Some c /\ mVisible (self c) = true /\
    (x = RFolder (here ++ [(i + k)%nat]) \/
     isOpen c = true /\ x ∈ below c (here ++ [(i + k)%nat])).
Proof.
  induction cs as [|c rest IH]; intros i; simpl.
  - by intros ?%elem_of_nil.
  - intros [H|H]%elem_of_app.
    + destruct (mVisible (self c)) eqn:E; [|by apply elem_of_nil in H].
      exists 0%nat, c. rewrite Nat.add_0_r. split; [done|]. split; [done|].
      apply elem_of_cons in H as [->|H]; [by left|]. right.
      destruct (isOpen c); [done|by apply elem_of_nil in H].
    + destruct (IH _ H) as (k & y & Hk & Hv & Hx). exists (S k), y.
      split; [done|]. split; [done|].
      by replace (i + S k)%nat with (S i + k)%nat by lia.
Qed.

Lemma prefix_snoc_inv (q l : list nat) x :
  q `prefix_of` l ++ [x] -> q = l ++ [x] \/ q `prefix_of` l.
Proof.
  intros [k Hk]. induction k as [|y k' _] using rev_ind.
  - left. by rewrite app_nil_r in Hk.
  - right. rewrite app_assoc in Hk. apply app_inj_tail in Hk as [-> _]. by exists k'.
Qed.

Lemma ancestors_shown_root t : ancestors_shown t [].
Proof. intros q Hq Hp. by apply prefix_nil_inv in Hp. Qed.

Lemma ancestors_shown_snoc t Q k c :
  ancestors_shown t Q -> get_folder t (Q ++ [k]) = Some c ->
  isOpen c = true -> mVisible (self c) = true -> ancestors_shown t (Q ++ [k]).
Proof.
  intros Hanc Hc Ho Hv q Hq [->|Hp]%prefix_snoc_inv; [by exists c|]. by apply Hanc.
Qed.

(** The nodes of the flattened order are visible, inside open and visible
    folders. *)
Lemma flattened_below_shown t f : forall Q,
  get_folder t Q = Some f -> ancestors_shown t Q ->
  forall N, N ∈ flattened_below f Q -> shown t N.
Proof.
  induction f as [b d fs its IH] using Folder_ind'. intros Q Hf Hanc N.
  rewrite flattened_below_unfold. intros [H|H]%elem_of_app.
  - apply elem_of_flattened_folders in H as (k & c & Hk & Hv & H). simpl in H.
    assert (Hc : get_folder t (Q ++ [k]) = Some c) by (by rewrite get_folder_snoc, Hf).
    destruct H as [->|[Ho H]].
    + split.
      * unfold getVisible_at.
        rewrite (node_at_folder_child t Q _ k c Hf Hk). simpl. by rewrite Hv.
      * exists Q. split; [apply getParentFolder_snoc|done].
    + apply (proj1 (Forall_lookup _ _) IH k c Hk (Q ++ [k])); [done| |done].
      by apply (ancestors_shown_snoc t Q k c).
  - apply elem_of_flattened_items in H as (k & it & Hk & Hv & ->). simpl. split.
    + unfold getVisible_at. rewrite (node_at_item_child t Q _ k it Hf Hk).
      simpl. by rewrite Hv.
    + by exists Q.
Qed.

(** A visible child of [f] after which nothing visible comes in [f] stands
    last below [f], but for what is displayed below the child itself. *)
Lemma flattened_below_ends f Q x :
  child_visible f x -> nothing_after f x ->
  exists pre, flattened_below f Q = pre ++ child_ref Q x :: below_child f Q x.
Proof.
  destruct f as [b d fs its]. unfold nothing_after, scan_forward.
  destruct x as [k|j|];
    cbn [child_visible child_ref below_child after_child fst snd mFolders mItems];
    [| |done].
  - intros (c & Hc & Hv) Hnone.
    destruct (first_visible_from _ (S k) fs) eqn:Efs; [done|].
    destruct (first_visible_from mVisible 0 its) eqn:Eits; [done|].
    exists (flattened_folders flattened_below Q 0%nat (take k fs)).
    rewrite flattened_below_unfold, Hc.
    rewrite <- (take_drop_middle fs k c Hc) at 1.
    rewrite flattened_folders_app. simpl.
    rewrite length_take_le by (apply lookup_lt_Some in Hc; lia). rewrite Hv.
    rewrite (flattened_folders_invisible _ _ (drop (S k) fs)).
    2:{ intros i y Hi. rewrite lookup_drop in Hi.
        apply (proj1 (first_visible_from_None _ _ _) Efs (S k + i)%nat y); [lia|done]. }
    rewrite (flattened_items_invisible _ its).
    2:{ intros i y Hi.
        apply (proj1 (first_visible_from_None _ _ _) Eits i y); [lia|done]. }
    by rewrite !app_nil_r.
  - intros (it & Hit & Hv) Hnone.
    destruct (first_visible_from _ (length fs) fs) eqn:Efs; [done|].
    destruct (first_visible_from mVisible (S j) its) eqn:Eits; [done|].
    exists (flattened_folders flattened_below Q 0%nat fs
            ++ flattened_items Q 0%nat (take j its)).
    rewrite flattened_below_unfold.
    rewrite <- (take_drop_middle its j it Hit) at 1.
    rewrite flattened_items_app. simpl.
    rewrite length_take_le by (apply lookup_lt_Some in Hit; lia). rewrite Hv.
    rewrite (flattened_items_invisible _ (drop (S j) its)).
    2:{ intros i y Hi. rewrite lookup_drop in Hi.
        apply (proj1 (first_visible_from_None _ _ _) Eits (S j + i)%nat y); [lia|done]. }
    by rewrite <- app_assoc.
Qed.

(** A visible node inside open and visible folders after which nothing
    visible comes, in its folder and in every folder above, stands last in
    the flattened order, but for what is displayed below the node itself. *)
Lemma ends_at_flattened t Q x :
  ends_at t Q x ->
  forall f, get_folder t Q = Some f -> ancestors_shown t Q -> child_visible f x ->
  exists pre, flattened t = pre ++ child_ref Q x :: below_child f Q x.
Proof.
  induction 1 as [f0 x Hf0 Hx|Q k f0 x Hf0 Hx Hup IH]; intros f Hf Hanc Hvis.
  - assert (f0 = f) by congruence. subst f0.
    assert (f = t) by (simpl in Hf; congruence). subst f.
    by apply flattened_below_ends.
  - assert (f0 = f) by congruence. subst f0. clear Hf0.
    pose proof Hf as Hf'. rewrite get_folder_snoc in Hf'.
    destruct (get_folder t Q) as [f1|] eqn:Hf1; [|done].
    destruct (Hanc (Q ++ [k])) as (g & Hg & Ho & Hv); [by destruct Q|done|].
    assert (g = f) by congruence. subst g.
    destruct (IH f1 eq_refl (ancestors_shown_parent _ _ _ Hanc)) as [pre Hpre].
    { simpl. eauto. }
    simpl in Hpre. rewrite Hf', Ho in Hpre.
    destruct (flattened_below_ends f (Q ++ [k]) x Hvis Hx) as [pre' Hpre'].
    exists (pre ++ RFolder (Q ++ [k]) :: pre').
    rewrite Hpre, Hpre'. by rewrite <- app_assoc.
Qed.

Lemma scan_nothing_flattened c p :
  scan_forward c p 0 0 = None -> flattened_below c p = [].
Proof.
  destruct c as [b d fs its]. unfold scan_forward. simpl mFolders. simpl mItems.
  destruct (first_visible_from _ 0 fs) eqn:Efs; [done|].
  destruct (first_visible_from mVisible 0 its) eqn:Eits; [done|]. intros _.
  rewrite flattened_below_unfold.
  rewrite flattened_folders_invisible, flattened_items_invisible; [done| |].
  - intros i y Hi. apply (proj1 (first_visible_from_None _ _ _) Eits i y); [lia|done].
  - intros i y Hi. apply (proj1 (first_visible_from_None _ _ _) Efs i y); [lia|done].
Qed.

Lemma no_first_child_below t Q f x :
  get_folder t Q = Some f ->
  first_child_of t (child_ref Q x) true = None -> below_child f Q x = [].
Proof.
  intros Hf. destruct x as [k|j|]; [|done|done]. simpl.
  rewrite get_folder_snoc, Hf. destruct (mFolders f !! k) as [c|]; [|done].
  destruct (isOpen c); [|done]. apply scan_nothing_flattened.
Qed.

(** A visible node is a child of the folder it lies in. *)
Lemma visible_child t N Q :
  getVisible_at t N = Some true -> getParentFolder N = Some Q ->
  exists f, get_folder t Q = Some f /\
    child_visible f (find_child f Q N) /\ child_ref Q (find_child f Q N) = N.
Proof.
  unfold getVisible_at. intros HN HQ.
  destruct (node_at t N) as [it|] eqn:Hnode; [|done]. simpl in HN. injection HN as HN.
  destruct N as [p|p j].
  - destruct p as [|k p0 _] using rev_ind; [done|].
    rewrite getParentFolder_snoc in HQ. injection HQ as <-.
    simpl in Hnode. rewrite get_folder_snoc in Hnode.
    destruct (get_folder t p0) as [f|] eqn:Hf; [|done].
    destruct (mFolders f !! k) as [c|] eqn:Hc; [|done].
    simpl in Hnode. injection Hnode as <-.
    exists f. split; [done|].
    rewrite find_child_folder by (by eapply lookup_lt_Some). simpl. eauto.
  - injection HQ as <-. unfold node_at, get_item in Hnode.
    destruct (get_folder t p) as [f|] eqn:Hf; [|done].
    exists f. split; [done|].
    rewrite find_child_item by (by eapply lookup_lt_Some). simpl. eauto.
Qed.

Lemma next_after_visible fuel t Q f x M :
  get_folder t Q = Some f -> next_after fuel t Q f x = At M ->
  getVisible_at t M = Some true.
Proof.
  intros Hf. unfold next_after.
  destruct (scan_forward f Q _ _) as [r|] eqn:Es.
  - intros [= <-]. by destruct (scan_forward_visible _ _ _ _ _ _ Hf Es).
  - destruct (getParentFolder (RFolder Q)); [|done]. apply getNextFromChild_visible.
Qed.

(** The walk up from the child [x] of the folder at [Q] finds a node, or
    nothing visible comes after [x] up to the root. *)
Lemma next_after_or_end t : forall Q fuel f x,
  get_folder t Q = Some f -> (length Q <= fuel)%nat ->
  (exists M, next_after fuel t Q f x = At M) \/ ends_at t Q x.
Proof.
  induction Q as [|k Q IH] using rev_ind; intros fuel f x Hf Hfuel; unfold next_after;
    destruct (scan_forward f _ _ _) as [r|] eqn:Es; [by left; exists r| |by left; exists r|].
  - right. apply (ends_at_root t f x Hf). by apply (scan_forward_None _ [] [] _ _).
  - assert (Hx : nothing_after f x) by (by apply (scan_forward_None _ (Q ++ [k]) [] _ _)).
    rewrite getParentFolder_snoc. rewrite length_app in Hfuel. simpl in Hfuel.
    destruct fuel as [|fuel]; [lia|]. rewrite getNextFromChild_S.
    pose proof Hf as Hf'. rewrite get_folder_snoc in Hf'.
    destruct (get_folder t Q) as [f1|] eqn:Hf1; [|done].
    rewrite find_child_folder, Hf' by (by eapply lookup_lt_Some).
    simpl andb. cbv beta iota.
    destruct (IH fuel f1 (FoundFolder k) eq_refl ltac:(lia)) as [[M HM]|Hend].
    + left. exists M. unfold next_after in HM. cbn [after_child fst snd] in HM.
      exact HM.
    + right. by apply (ends_at_step t Q k f x).
Qed.

(** The walk forward from a child of a folder finds a node, or the child is
    the last node displayed. *)
Lemma next_or_end t N Q f :
  getParentFolder N = Some Q -> get_folder t Q = Some f ->
  child_visible f (find_child f Q N) ->
  (exists M, getNextOpenNode t N true = At M) \/
  (ends_at t Q (find_child f Q N) /\ first_child_of t N true = None).
Proof.
  intros HQ Hf Hvis. unfold getNextOpenNode, next_from_parent. rewrite HQ.
  replace (2 * length Q + 3)%nat with (S (S (S (2 * length Q)))) by lia.
  rewrite getNextFromChild_S, Hf.
  assert (Hfound : forall fuel x,
            (length Q <= fuel)%nat ->
            first_child_of t N true = None ->
            (exists M, skip_invisible (count_nodes t) t N
                         (fun itemp =>
                            match getParentFolder itemp with
                            | Some parent_folder =>
                              getNextFromChild (2 * length parent_folder + 3) t
                                parent_folder (Some itemp) true
                            | None => Undefined
                            end)
                         (next_after fuel t Q f x) = At M) \/
            (ends_at t Q x /\ first_child_of t N true = None)).
  { intros fuel x Hfuel Hfirst.
    destruct (next_after_or_end t Q fuel f x Hf Hfuel) as [[M HM]|Hend]; [|by right].
    left. exists M. rewrite HM. apply skip_invisible_visible.
    by apply (next_after_visible fuel t Q f x). }
  destruct (find_child f Q N) as [k|j|] eqn:E; [| |done].
  - destruct (find_child_FoundFolder _ _ _ _ E) as [-> Hk].
    destruct Hvis as (c & Hc & Hv). rewrite Hc.
    assert (Hc' : get_folder t (Q ++ [k]) = Some c) by (by rewrite get_folder_snoc, Hf).
    destruct (isOpen c) eqn:Ho; simpl andb; cbv beta iota.
    + rewrite getNextFromChild_S, Hc'.
      destruct (scan_forward c (Q ++ [k]) 0 0) as [r|] eqn:Es.
      * left. exists r. apply skip_invisible_visible.
        by destruct (scan_forward_visible _ _ _ _ _ _ Hc' Es).
      * rewrite getParentFolder_snoc.
        rewrite getNextFromChild_S, Hf, find_child_folder, Hc by done.
        simpl andb. cbv beta iota.
        apply (Hfound (2 * length Q)%nat (FoundFolder k)); [lia|].
        simpl. by rewrite Hc', Ho.
    + apply (Hfound (S (S (2 * length Q))) (FoundFolder k)); [lia|].
      simpl. by rewrite Hc', Ho.
  - apply (Hfound (S (S (2 * length Q))) (FoundItem j)); [lia|].
    destruct N as [p|p j']; [|done]. unfold find_child in E.
    destruct (child_index Q p); [|done]. by destruct (bool_decide _).
Qed.

(** C7.  Let N be a node of the flattened folders-before-items ordering of
    the nodes displayed (the visible sub-folders of a folder, each followed
    by its own display when it is open, then the visible items) other than
    the last one.  The walk forward from N returns a node, and the walk
    backward from that node returns N. *)
Theorem previous_of_next_is_identity t N :
  N ∈ flattened t ->
  last (flattened t) <> Some N ->
  exists M, getNextOpenNode t N true = At M /\ getPreviousOpenNode t M = At N.
Proof.
  intros Hin Hlast.
  assert (Hshown : shown t N).
  { by apply (flattened_below_shown t t [] eq_refl (ancestors_shown_root t)). }
  pose proof Hshown as [HN (Q & HQ & Hanc)].
  destruct (visible_child t N Q HN HQ) as (f & Hf & Hvis & Hchild).
  destruct (next_or_end t N Q f HQ Hf Hvis) as [[M HM]|[Hend Hfirst]].
  - exists M. split; [exact HM|]. by apply (previous_of_the_next t N M).
  - exfalso. apply Hlast.
    destruct (ends_at_flattened t Q _ Hend f Hf Hanc Hvis) as [pre Hpre].
    assert (Hbelow : below_child f Q (find_child f Q N) = []).
    { apply (no_first_child_below t Q f _ Hf). by rewrite Hchild. }
    rewrite Hbelow in Hpre. rewrite Hpre, Hchild. apply last_snoc.
Qed.


End NavigationFacts.


(** ** The root view *)

Section ViewFacts.


(** ** What selection changes leave alone *)

Section SelectionKeeps.

(** A property of trees that selecting or deselecting one node keeps. *)
Variable P : LLFolderViewFolder -> Prop.
Hypothesis keeps_selectItem : forall r t, P t -> P (selectItem r t).
Hypothesis keeps_deselectItem : forall r t, P t -> P (deselectItem r t).

Lemma recursiveDeselect_keeps shape : forall this deselect_self t,
  P t -> P (recursiveDeselect shape this deselect_self t).
Proof.
  induction shape as [b d fs its IH] using Folder_ind'.
  intros this ds t Ht. rewrite recursiveDeselect_unfold. cbv zeta.
  set (t1 := if isSelected t (RFolder this) && ds then _ else t).
  assert (Ht1 : P t1).
  { subst t1. destruct (isSelected t (RFolder this) && ds); auto. }
  destruct (_ =? 0); [done|].
  apply (for_each_folder_inv P).
  - simpl. eapply Forall_impl; [exact IH|]. intros c Hc i s. apply Hc.
  - apply (for_each_item_inv P); [|done].
    intros j s Hs. destruct (isSelected s (RItem this j)); auto.
Qed.

Lemma Item_changeSelection_keeps this selection selected t :
  P t -> P (Item_changeSelection this selection selected t).1.
Proof.
  intros Ht. unfold Item_changeSelection.
  destruct (_ && _); [|done]. simpl. destruct (isSelected t this); auto.
Qed.

Lemma Folder_changeSelection_keeps shape : forall this selection selected t,
  P t -> P (Folder_changeSelection shape this selection selected t).1.
Proof.
  induction shape as [b d fs its IH] using Folder_ind'.
  intros this selection selected t Ht. rewrite Folder_changeSelection_unfold.
  set (s1 := if bool_decide (selection = RFolder this) then _ else (t, false)).
  assert (Hs1 : P s1.1).
  { subst s1. destruct (bool_decide _); [|done].
    destruct (negb _); [|done]. simpl. destruct selected; auto. }
  destruct s1 as [t1 rv1]. simpl in Hs1.
  set (s2 := for_each_folder _ 0%nat (mFolders (Folder b d fs its)) (t1, rv1)).
  assert (Hs2 : P s2.1).
  { subst s2. apply (for_each_folder_inv (fun s => P s.1)); [|done].
    simpl. eapply Forall_impl; [exact IH|]. intros c Hc i [t0 rv0] H0. simpl in H0.
    specialize (Hc (this ++ [i]) selection selected t0 H0).
    by destruct (Folder_changeSelection c (this ++ [i]) selection selected t0). }
  destruct s2 as [t2 rv2]. simpl in Hs2.
  apply (for_each_item_inv (fun s => P s.1)); [|done].
  intros j [t0 rv0] H0. simpl in H0.
  pose proof (Item_changeSelection_keeps (RItem this j) selection selected t0 H0).
  by destruct (Item_changeSelection (RItem this j) selection selected t0).
Qed.

Lemma Item_setSelection_keeps this selection t :
  P t -> P (Item_setSelection this selection t).1.
Proof.
  intros Ht. unfold Item_setSelection. simpl.
  destruct (_ && _); [auto|]. destruct (isSelected t this); auto.
Qed.

(** Without [openitem] no folder is opened on the way to the selection. *)
Lemma Folder_setSelection_keeps shape : forall this selection t,
  P t -> P (Folder_setSelection shape this selection false t).1.
Proof.
  induction shape as [b d fs its IH] using Folder_ind'.
  intros this selection t Ht. rewrite Folder_setSelection_unfold.
  set (s1 := if bool_decide (selection = Some (RFolder this)) then _ else _).
  assert (Hs1 : P s1.1).
  { subst s1. destruct (bool_decide _), (isSelected t (RFolder this)); simpl; auto. }
  destruct s1 as [t1 rv1]. simpl in Hs1.
  set (s2 := for_each_folder _ 0%nat (mFolders (Folder b d fs its)) (t1, rv1, false)).
  assert (Hs2 : P s2.1.1).
  { subst s2. apply (for_each_folder_inv (fun s => P s.1.1)); [|done].
    simpl. eapply Forall_impl; [exact IH|]. intros c Hc i [[t0 rv0] cs0] H0. simpl in H0.
    specialize (Hc (this ++ [i]) selection t0 H0).
    destruct (Folder_setSelection c (this ++ [i]) selection false t0) as [t' []];
      exact Hc. }
  destruct s2 as [[t2 rv2] cs2]. simpl in Hs2.
  set (s3 := for_each_item _ _ (t2, rv2, cs2)).
  assert (Hs3 : P s3.1.1).
  { subst s3. apply (for_each_item_inv (fun s => P s.1.1)); [|done].
    intros j [[t0 rv0] cs0] H0. simpl in H0.
    pose proof (Item_setSelection_keeps (RItem this j) selection t0 H0) as H.
    destruct (Item_setSelection (RItem this j) selection t0) as [t' []]; exact H. }
  destruct s3 as [[t3 rv3] cs3]. simpl in Hs3. simpl. exact Hs3.
Qed.

End SelectionKeeps.

Lemma deselected_selectItem r t : deselected (selectItem r t) = deselected t.
Proof.
  unfold selectItem, set_selected_and_count. destruct (node_at t r); [|done].
  destruct (getParentFolder r).
  - unfold recursiveIncrementNumDescendantsSelected, deselected.
    rewrite tmap_alter_members_to_root by done. by apply tmap_alter_node.
  - by apply tmap_alter_node.
Qed.

Lemma deselected_deselectItem r t : deselected (deselectItem r t) = deselected t.
Proof.
  unfold deselectItem, set_selected_and_count. destruct (node_at t r); [|done].
  destruct (getParentFolder r).
  - unfold recursiveIncrementNumDescendantsSelected, deselected.
    rewrite tmap_alter_members_to_root by done. by apply tmap_alter_node.
  - by apply tmap_alter_node.
Qed.


Lemma get_folder_tmap gi gd : forall p t,
  get_folder (tmap gi gd t) p = tmap gi gd <$> get_folder t p.
Proof.
  induction p as [|i p IH]; intros [b d fs its]; [done|]. simpl.
  rewrite list_lookup_fmap. destruct (fs !! i) as [c|]; simpl; [apply IH|done].
Qed.

Lemma get_item_tmap gi gd p j t :
  get_item (tmap gi gd t) p j = gi <$> get_item t p j.
Proof.
  unfold get_item. rewrite get_folder_tmap.
  destruct (get_folder t p) as [[b d fs its]|]; [|done]. simpl.
  by rewrite list_lookup_fmap.
Qed.

Lemma same_state_refl fv : same_state fv fv.
Proof. by repeat split. Qed.

Lemma same_state_trans fv1 fv2 fv3 :
  same_state fv1 fv2 -> same_state fv2 fv3 -> same_state fv1 fv3.
Proof.
  intros (H1 & H2 & H3 & H4) (K1 & K2 & K3 & K4).
  repeat split; congruence.
Qed.

Lemma Folder_potentiallyVisible_same fv fv' f f' :
  mFilter fv' = mFilter fv -> deselected f' = deselected f ->
  Folder_potentiallyVisible fv' f' = Folder_potentiallyVisible fv f.
Proof.
  intros Hflt Hf. destruct f as [b d fs its], f' as [b' d' fs' its'].
  unfold Folder_potentiallyVisible, Item_potentiallyVisible, LLFolderView_getFiltered,
    getFiltered, hasFilteredDescendants, getCompletedFilterGeneration,
    getLastFilterGeneration. simpl. rewrite Hflt.
  destruct b, b', d, d'. injection Hf. intros. simpl. by subst.
Qed.

Lemma Item_potentiallyVisible_same fv fv' it it' :
  mFilter fv' = mFilter fv -> deselected_item it' = deselected_item it ->
  Item_potentiallyVisible fv' it' = Item_potentiallyVisible fv it.
Proof.
  intros Hflt Hit.
  unfold Item_potentiallyVisible, LLFolderView_getFiltered, getFiltered,
    getLastFilterGeneration. rewrite Hflt.
  destruct it, it'. injection Hit. intros. simpl. by subst.
Qed.

Lemma same_state_get_folder fv fv' p :
  same_state fv fv' ->
  match get_folder (as_folder fv') p, get_folder (as_folder fv) p with
  | Some f', Some f => deselected f' = deselected f
  | None, None => True
  | _, _ => False
  end.
Proof.
  intros (Ht & _). apply (f_equal (fun t => get_folder t p)) in Ht.
  unfold deselected in Ht. rewrite !get_folder_tmap in Ht.
  destruct (get_folder (as_folder fv') p), (get_folder (as_folder fv) p);
    simpl in Ht; by simplify_eq.
Qed.

Lemma potentiallyVisible_same fv fv' r :
  same_state fv fv' -> potentiallyVisible fv' r = potentiallyVisible fv r.
Proof.
  intros Hs. destruct r as [p|p j]; simpl.
  - pose proof (same_state_get_folder fv fv' p Hs) as H.
    destruct (get_folder (as_folder fv') p), (get_folder (as_folder fv) p); try done.
    apply Folder_potentiallyVisible_same; [apply Hs|done].
  - destruct Hs as (Ht & Hflt & _).
    apply (f_equal (fun t => get_item t p j)) in Ht.
    unfold deselected in Ht. rewrite !get_item_tmap in Ht.
    destruct (get_item (as_folder fv') p j), (get_item (as_folder fv) p j);
      simpl in Ht; try done.
    apply Item_potentiallyVisible_same; [done|]. congruence.
Qed.

Lemma isOpen_at_same fv fv' p :
  same_state fv fv' -> isOpen_at fv' p = isOpen_at fv p.
Proof.
  intros Hs. unfold isOpen_at.
  pose proof (same_state_get_folder fv fv' p Hs) as H.
  destruct (get_folder (as_folder fv') p) as [[b' d' fs' its']|],
           (get_folder (as_folder fv) p) as [[b d fs its]|]; try done.
  unfold isOpen. simpl. destruct d, d'. injection H. intros. simpl. by subst.
Qed.

Lemma fold_left_ext {A B} (f g : A -> B -> A) l : forall a,
  (forall a b, f a b = g a b) -> fold_left f l a = fold_left g l a.
Proof.
  induction l as [|b l IH]; intros a H; simpl; [done|]. rewrite H. by apply IH.
Qed.

Lemma selection_visible_same fv fv' show_all r :
  same_state fv fv' -> selection_visible fv' show_all r = selection_visible fv show_all r.
Proof.
  intros Hs. unfold selection_visible. rewrite (potentiallyVisible_same fv fv' r Hs).
  destruct (getParentFolder r); [|done]. destruct show_all; [done|].
  apply fold_left_ext. intros a b.
  by rewrite (potentiallyVisible_same fv fv' _ Hs), (isOpen_at_same fv fv' _ Hs).
Qed.

Lemma fallback_selection_same fv fv' o :
  same_state fv fv' -> fallback_selection fv' o = fallback_selection fv o.
Proof.
  intros Hs. unfold fallback_selection. apply fold_left_ext. intros a b.
  by rewrite (potentiallyVisible_same fv fv' _ Hs), (isOpen_at_same fv fv' _ Hs).
Qed.

Lemma getItemByID_same fv fv' id :
  same_state fv fv' -> getItemByID fv' id = getItemByID fv id.
Proof. intros (_ & _ & Hm & _). unfold getItemByID. by rewrite Hm. Qed.


Lemma clearSelection_same fv : same_state fv (clearSelection fv).
Proof.
  unfold clearSelection. destruct (mSelectedItems fv); [apply same_state_refl|].
  repeat split. simpl.
  by apply (recursiveDeselect_keeps (fun t => deselected t = deselected (as_folder fv))
              (fun r t Ht => eq_trans (deselected_deselectItem r t) Ht)).
Qed.

Lemma clearSelection_list fv : mSelectedItems (clearSelection fv) = [].
Proof. unfold clearSelection. by destruct (mSelectedItems fv) eqn:E. Qed.

Lemma filter_not_in (s : NodeRef) l :
  s ∉ l -> List.filter (fun r => negb (bool_decide (r = s))) l = l.
Proof.
  induction l as [|a l IH]; intros Hs; [done|]. simpl.
  apply not_elem_of_cons in Hs as [Hne Hs].
  rewrite bool_decide_eq_false_2 by congruence. simpl. by rewrite IH.
Qed.

Lemma LLFolderView_changeSelection_same selection selected fv :
  same_state fv (LLFolderView_changeSelection selection selected fv).1.
Proof.
  unfold LLFolderView_changeSelection. destruct selection as [s|]; [|apply same_state_refl].
  destruct (bool_decide (s = root_ref)); [apply same_state_refl|]. cbv zeta.
  set (fv1 := if mAllowMultiSelect fv then fv else clearSelection fv).
  assert (H1 : same_state fv fv1).
  { subst fv1. destruct (mAllowMultiSelect fv);
      [apply same_state_refl|apply clearSelection_same]. }
  set (fv2 := if selected && _ then _ else fv1).
  assert (H2 : same_state fv fv2).
  { subst fv2. destruct (selected && _); [|done].
    unfold addToSelectionList. destruct (isSelected (as_folder fv1) s); exact H1. }
  set (fv3 := if negb selected && _ then _ else fv2).
  assert (H3 : same_state fv fv3).
  { subst fv3. destruct (negb selected && _); [|done]. exact H2. }
  destruct (Folder_changeSelection (as_folder fv3) [] s selected (as_folder fv3))
    as [t rv] eqn:E.
  destruct H3 as (K1 & K2 & K3 & K4). repeat split; simpl; try done.
  rewrite <- K1.
  pose proof (Folder_changeSelection_keeps
                (fun t => deselected t = deselected (as_folder fv3))) as H.
  specialize (H (fun r t Ht => eq_trans (deselected_selectItem r t) Ht)
                (fun r t Ht => eq_trans (deselected_deselectItem r t) Ht)
                (as_folder fv3) [] s selected (as_folder fv3) eq_refl).
  by rewrite E in H.
Qed.

(** Deselecting a node other than the root takes it off the list; where
    only one node may be selected the whole list is emptied first. *)
Lemma LLFolderView_changeSelection_list s fv :
  s <> root_ref ->
  mSelectedItems (LLFolderView_changeSelection (Some s) false fv).1 =
  if mAllowMultiSelect fv
  then List.filter (fun r => negb (bool_decide (r = s))) (mSelectedItems fv)
  else [].
Proof.
  intros Hs. unfold LLFolderView_changeSelection.
  rewrite bool_decide_eq_false_2 by done. cbv zeta. simpl andb.
  destruct (Folder_changeSelection _ [] s false _) as [t rv]. simpl.
  destruct (mAllowMultiSelect fv).
  - case_bool_decide; simpl; [done|]. by rewrite filter_not_in.
  - rewrite bool_decide_eq_false_2; [apply clearSelection_list|].
    rewrite clearSelection_list. apply not_elem_of_nil.
Qed.

Lemma LLFolderView_setSelection_same selection take_keyboard_focus fv :
  same_state fv (LLFolderView_setSelection selection false take_keyboard_focus fv).1.
Proof.
  unfold LLFolderView_setSelection.
  destruct (bool_decide (selection = Some root_ref)); [apply same_state_refl|]. cbv zeta.
  set (fv2 := match selection with Some s => _ | None => clearSelection fv end).
  assert (H2 : same_state fv fv2).
  { subst fv2. destruct selection as [s|]; [|apply clearSelection_same].
    unfold addToSelectionList. destruct (isSelected _ s); apply clearSelection_same. }
  destruct (Folder_setSelection (as_folder fv2) [] selection false (as_folder fv2))
    as [t rv] eqn:E.
  destruct H2 as (K1 & K2 & K3 & K4).
  assert (Ht : deselected t = deselected (as_folder fv)).
  { rewrite <- K1.
    pose proof (Folder_setSelection_keeps
                  (fun t => deselected t = deselected (as_folder fv2))) as H.
    specialize (H (fun r t Ht => eq_trans (deselected_selectItem r t) Ht)
                  (fun r t Ht => eq_trans (deselected_deselectItem r t) Ht)
                  (as_folder fv2) [] selection (as_folder fv2) eq_refl).
    by rewrite E in H. }
  repeat split; simpl; try done. by destruct selection.
Qed.

Lemma LLFolderView_setSelection_list n take_keyboard_focus fv :
  mSelectedItems fv = [] ->
  mSelectedItems (LLFolderView_setSelection (Some n) false take_keyboard_focus fv).1 =
  if bool_decide (n = root_ref) then [] else [n].
Proof.
  intros Hnil. unfold LLFolderView_setSelection.
  case_bool_decide as Hn.
  - injection Hn as ->. by rewrite bool_decide_eq_true_2.
  - rewrite bool_decide_eq_false_2 by congruence. cbv zeta.
    destruct (Folder_setSelection _ [] (Some n) false _) as [t rv]. simpl.
    unfold addToSelectionList, clearSelection. rewrite Hnil.
    destruct (isSelected (as_folder fv) n); simpl; by rewrite ?Hnil.
Qed.

Lemma deselect_all_spec removed : forall fv,
  root_ref ∉ removed ->
  same_state fv (deselect_all removed fv) /\
  mSelectedItems (deselect_all removed fv) =
    remaining (mAllowMultiSelect fv) removed (mSelectedItems fv).
Proof.
  induction removed as [|s removed IH]; intros fv Hroot.
  - split; [apply same_state_refl|]. unfold remaining. simpl.
    destruct (mAllowMultiSelect fv); [|done].
    induction (mSelectedItems fv) as [|a l IHl]; [done|]. simpl.
    by rewrite <- IHl.
  - apply not_elem_of_cons in Hroot as [Hs Hroot].
    change (deselect_all (s :: removed) fv) with
      (deselect_all removed (LLFolderView_changeSelection (Some s) false fv).1).
    set (fv1 := (LLFolderView_changeSelection (Some s) false fv).1).
    destruct (IH fv1 Hroot) as [Hsame Hlist].
    pose proof (LLFolderView_changeSelection_same (Some s) false fv) as H1.
    fold fv1 in H1. split; [by eapply same_state_trans|].
    rewrite Hlist. destruct H1 as (_ & _ & _ & ->).
    subst fv1. rewrite LLFolderView_changeSelection_list by congruence.
    unfold remaining. destruct (mAllowMultiSelect fv).
    + induction (mSelectedItems fv) as [|a l IHl]; [done|]. simpl.
      destruct (decide (a = s)) as [->|Hne].
      * rewrite bool_decide_eq_true_2 by done. simpl.
        rewrite (bool_decide_eq_true_2 (s ∈ s :: removed)) by (by left). simpl.
        apply IHl.
      * rewrite bool_decide_eq_false_2 by done. simpl.
        destruct (decide (a ∈ removed)) as [Hin|Hnin].
        -- rewrite !bool_decide_eq_true_2; [|by right|done]. simpl. apply IHl.
        -- rewrite !bool_decide_eq_false_2; [|by intros [?|?]%elem_of_cons|done].
           simpl. by rewrite IHl.
    + by destruct removed.
Qed.


(** ** sanitizeSelection *)

Lemma items_to_remove_selected fv show_all x :
  x ∈ items_to_remove fv show_all -> x ∈ mSelectedItems fv.
Proof.
  rewrite !list_elem_of_In. unfold items_to_remove. rewrite in_flat_map.
  intros (item & Hitem & Hx). rewrite !in_app_iff in Hx. destruct Hx as [Hx|[Hx|Hx]].
  - destruct (selection_visible fv show_all item); [done|].
    destruct Hx as [<-|[]]. done.
  - by apply filter_In in Hx as [Hx _].
  - destruct (bool_decide _); [|done]. destruct Hx as [<-|[]]. done.
Qed.

Lemma items_to_remove_invisible fv show_all item :
  item ∈ mSelectedItems fv -> selection_visible fv show_all item = false ->
  item ∈ items_to_remove fv show_all.
Proof.
  rewrite !list_elem_of_In. intros Hitem Hvis. unfold items_to_remove.
  apply in_flat_map. exists item. split; [done|]. rewrite Hvis.
  apply in_app_iff. left. by left.
Qed.

Lemma items_to_remove_below fv show_all item other_item :
  item ∈ mSelectedItems fv -> other_item ∈ mSelectedItems fv ->
  is_above item other_item = true ->
  other_item ∈ items_to_remove fv show_all.
Proof.
  rewrite !list_elem_of_In. intros Hitem Hother Habove. unfold items_to_remove.
  apply in_flat_map. exists item. split; [done|].
  apply in_app_iff. right. apply in_app_iff. left. by apply filter_In.
Qed.

Lemma fold_left_all_true {A} (g h : A -> bool) l : forall v,
  fold_left (fun v p => v && g p && h p) l v = true ->
  v = true /\ forall p, p ∈ l -> g p = true /\ h p = true.
Proof.
  induction l as [|a l IH]; intros v Hv; simpl in Hv.
  - split; [done|]. intros p Hp. by apply elem_of_nil in Hp.
  - apply IH in Hv as [Hv Hl].
    apply andb_prop in Hv as [Hv Hh]. apply andb_prop in Hv as [Hv Hg].
    split; [done|]. intros p [->|Hp]%elem_of_cons; auto.
Qed.

Lemma selection_visible_chain fv r :
  selection_visible fv false r = true -> chain_visible fv r.
Proof.
  unfold selection_visible, chain_visible, parent_chain.
  destruct (getParentFolder r) as [P|].
  - intros H. by apply fold_left_all_true in H.
  - intros H. split; [done|]. intros p Hp. by apply elem_of_nil in Hp.
Qed.

Lemma fallback_selection_spec fv o :
  fallback_selection fv o = highest_closed_else_nearest fv o.
Proof.
  unfold fallback_selection, highest_closed_else_nearest, potentially_visible_above.
  induction (parent_chain o) as [|a l IH] using rev_ind; [done|].
  rewrite fold_left_app. cbn [fold_left]. rewrite IH. clear IH.
  rewrite List.filter_app. cbn [List.filter].
  destruct (potentiallyVisible fv (RFolder a)); [|by rewrite !app_nil_r].
  rewrite List.filter_app. cbn [List.filter].
  set (above := List.filter _ l).
  destruct (isOpen_at fv a); cbn [negb].
  - rewrite app_nil_r. destruct (last (List.filter _ above)); [done|].
    by destruct above.
  - by rewrite last_snoc.
Qed.

(** C5 (amended).  sanitizeSelection on a selection that does not hold the
    root leaves the tree as it is but for selection flags and counters.  It
    takes off the list every node that fails its test (potentially visible
    below folders that are all open and potentially visible, or any node when
    all folders are shown) and every node below another node of the list;
    where only one node may be selected, any removal empties the list.  If
    nodes remain they are the new list: unless all folders are shown each is
    potentially visible below open, potentially visible folders, and none is
    above another.  If none remains, the new selection is chosen among the
    folders above the previous current selection: the highest closed
    potentially visible one, else the nearest potentially visible one; with
    no previous selection it is the node the id index holds for the
    inventory's root folder id.  When the choice is the root or there is
    none, the list stays empty. *)
Theorem sanitizeSelection_result root_folder_id fv :
  root_ref ∉ mSelectedItems fv ->
  let fv' := sanitizeSelection root_folder_id fv in
  let left :=
    remaining (mAllowMultiSelect fv) (items_to_remove fv (show_all_folders fv))
              (mSelectedItems fv) in
  same_state fv fv' /\
  (left <> [] ->
   mSelectedItems fv' = left /\
   forall r, r ∈ left ->
     r ∈ mSelectedItems fv /\
     (show_all_folders fv = false -> chain_visible fv' r) /\
     forall r', r' ∈ left -> is_above r r' = false) /\
  (left = [] ->
   mSelectedItems fv' =
     match (match getCurSelectedItem fv with
            | Some o => highest_closed_else_nearest fv' o
            | None => getItemByID fv' root_folder_id
            end) with
     | Some n => if bool_decide (n = root_ref) then [] else [n]
     | None => []
     end).
Proof.
  intros Hroot fv' left.
  assert (Hrem : root_ref ∉ items_to_remove fv (show_all_folders fv)).
  { intros H. by apply items_to_remove_selected in H. }
  destruct (deselect_all_spec _ fv Hrem) as [Hsame Hlist]. fold left in Hlist.
  set (fv1 := deselect_all (items_to_remove fv (show_all_folders fv)) fv) in *.
  assert (Hfv' : fv' =
    match mSelectedItems fv1 with
    | [] =>
      match (match getCurSelectedItem fv with
             | Some o => fallback_selection fv1 o
             | None => getItemByID fv1 root_folder_id
             end) with
      | Some n => (LLFolderView_setSelection (Some n) false false fv1).1
      | None => fv1
      end
    | _ :: _ => fv1
    end) by reflexivity.
  assert (Hsame' : same_state fv fv').
  { rewrite Hfv'. destruct (mSelectedItems fv1); [|done].
    destruct (match getCurSelectedItem fv with Some o => _ | None => _ end); [|done].
    eapply same_state_trans; [exact Hsame|apply LLFolderView_setSelection_same]. }
  split; [exact Hsame'|]. split.
  - intros Hleft. rewrite Hfv', Hlist.
    destruct left as [|x l] eqn:El; [done|]. split; [done|]. rewrite <- El.
    intros r Hr.
    assert (Hin : r ∈ mSelectedItems fv /\
                  (mAllowMultiSelect fv = true ->
                   r ∉ items_to_remove fv (show_all_folders fv)) /\
                  (mAllowMultiSelect fv = false ->
                   items_to_remove fv (show_all_folders fv) = [])).
    { subst left. unfold remaining in *. destruct (mAllowMultiSelect fv).
      - apply list_elem_of_In, filter_In in Hr as [Hr Hnot].
        split; [by apply list_elem_of_In|]. split; [|done]. intros _ Hc.
        by rewrite bool_decide_eq_true_2 in Hnot.
      - destruct (items_to_remove fv (show_all_folders fv)); [|done].
        split; [done|]. split; [done|]. done. }
    destruct Hin as (Hsel & Hmulti & Hsingle).
    assert (Hnot : r ∉ items_to_remove fv (show_all_folders fv)).
    { destruct (mAllowMultiSelect fv); [by apply Hmulti|].
      rewrite Hsingle by done. apply not_elem_of_nil. }
    split; [done|]. split.
    + intros Hshow. apply selection_visible_chain.
      rewrite (selection_visible_same fv fv1 _ _ Hsame). rewrite <- Hshow.
      destruct (selection_visible fv (show_all_folders fv) r) eqn:E; [done|].
      destruct Hnot. by apply items_to_remove_invisible.
    + intros r' Hr'.
      assert (Hin' : r' ∈ mSelectedItems fv /\
                     r' ∉ items_to_remove fv (show_all_folders fv)).
      { subst left. unfold remaining in *. destruct (mAllowMultiSelect fv).
        - apply list_elem_of_In, filter_In in Hr' as [Hr' Hnot'].
          split; [by apply list_elem_of_In|]. intros Hc.
          by rewrite bool_decide_eq_true_2 in Hnot'.
        - rewrite Hsingle by done. split; [|apply not_elem_of_nil].
          by rewrite Hsingle in Hr'. }
      destruct Hin' as [Hsel' Hnot'].
      destruct (is_above r r') eqn:E; [|done].
      destruct Hnot'. by apply (items_to_remove_below fv _ r r').
  - intros Hleft. rewrite Hleft in Hlist.
    assert (Hfb : forall o, highest_closed_else_nearest fv' o = fallback_selection fv1 o).
    { intros o. rewrite <- fallback_selection_spec.
      rewrite (fallback_selection_same fv fv' o Hsame').
      by rewrite (fallback_selection_same fv fv1 o Hsame). }
    assert (Hid : getItemByID fv' root_folder_id = getItemByID fv1 root_folder_id).
    { rewrite (getItemByID_same fv fv' _ Hsame').
      by rewrite (getItemByID_same fv fv1 _ Hsame). }
    replace (match getCurSelectedItem fv with
             | Some o => highest_closed_else_nearest fv' o
             | None => getItemByID fv' root_folder_id
             end)
      with (match getCurSelectedItem fv with
            | Some o => fallback_selection fv1 o
            | None => getItemByID fv1 root_folder_id
            end)
      by (destruct (getCurSelectedItem fv); [by rewrite Hfb|by rewrite Hid]).
    rewrite Hfv', Hlist.
    destruct (match getCurSelectedItem fv with Some o => _ | None => _ end) as [n|];
      [|done].
    by apply LLFolderView_setSelection_list.
Qed.

(** C10.  Looking a node up by id returns the root view itself for the null
    id; for any other id it returns what the id index holds for that id: the
    node recorded there, or null when there is none.  So a node recorded
    with addItemID is found under its id, and no more after removeItemID. *)
Theorem getItemByID_reads_the_index fv id :
  (isNull id = true -> getItemByID fv id = Some root_ref) /\
  (isNull id = false ->
   getItemByID fv id = mItemMap fv !! id /\
   (forall itemp, getItemByID (addItemID id itemp fv) id = Some itemp) /\
   getItemByID (removeItemID id fv) id = None).
Proof.
  unfold getItemByID. split; intros Hid; rewrite Hid; [done|].
  split; [by destruct (mItemMap fv !! id)|]. split.
  - intros itemp. simpl. by rewrite lookup_insert_eq.
  - simpl. by rewrite lookup_delete_eq.
Qed.


Lemma isRemovable_is_Some t r :
  is_Some (node_at t r) -> is_Some (isRemovable t r).
Proof.
  destruct r as [p|p j]; simpl.
  - destruct (get_folder t p); simpl; [eauto|by intros [? ?]].
  - destruct (get_item t p j); simpl; [eauto|by intros [? ?]].
Qed.

(** The loop of removeSelectedItems stops at the first node of the selection
    that is not removable. *)
Lemma collect_removable_blocked t : forall selected items,
  Forall (fun r => is_Some (node_at t r)) selected ->
  (exists r, r ∈ selected /\ isRemovable t r = Some false) ->
  exists before blocker after,
    selected = before ++ blocker :: after /\
    Forall (fun r => isRemovable t r = Some true) before /\
    isRemovable t blocker = Some false /\
    collect_removable t selected items = Some (inr blocker).
Proof.
  induction selected as [|item rest IH]; intros items Hvalid (r & Hr & Hrem).
  - by apply elem_of_nil in Hr.
  - apply Forall_cons in Hvalid as [Hitem Hrest]. simpl.
    destruct (isRemovable_is_Some _ _ Hitem) as [[|] Hb]; rewrite Hb.
    + destruct (IH (items ++ [item]) Hrest) as (before & blocker & after & -> & ? & ? & ?).
      { apply elem_of_cons in Hr as [->|Hr]; [congruence|eauto]. }
      exists (item :: before), blocker, after. split; [done|].
      split; [by constructor|]. done.
    + exists [], item, rest. by repeat split.
Qed.

(** C9 (amended).  On a view that is visible and enabled, whose selection
    holds a node that is not removable: removeSelectedItems stops at the
    first such node of the selection, asks no listener to remove anything,
    leaves the tree, the selection and the id index as they are, and writes
    one line to the log that names that node.  On a view that is hidden or
    disabled it does nothing at all, and reports nothing. *)
Theorem removeSelectedItems_aborts hasFocus removeItem_result fv :
  Forall (fun r => is_Some (node_at (as_folder fv) r)) (mSelectedItems fv) ->
  (exists r, r ∈ mSelectedItems fv /\ isRemovable (as_folder fv) r = Some false) ->
  (mVisible (self (as_folder fv)) && mEnabled fv = true ->
   exists before blocker after it,
     mSelectedItems fv = before ++ blocker :: after /\
     Forall (fun r => isRemovable (as_folder fv) r = Some true) before /\
     isRemovable (as_folder fv) blocker = Some false /\
     node_at (as_folder fv) blocker = Some it /\
     removeSelectedItems hasFocus removeItem_result fv =
       Some (llinfos ("Cannot delete " ++ Item_getName it) (set_mRenameItem None fv))) /\
  (mVisible (self (as_folder fv)) && mEnabled fv = false ->
   removeSelectedItems hasFocus removeItem_result fv = Some fv).
Proof.
  intros Hvalid Hblock. unfold removeSelectedItems. split; intros ->; [|done].
  destruct (collect_removable_blocked _ _ [] Hvalid Hblock)
    as (before & blocker & after & Hsel & Hbefore & Hblocker & Hloop).
  assert (Hit : is_Some (node_at (as_folder fv) blocker)).
  { rewrite Forall_forall in Hvalid. apply Hvalid. rewrite Hsel.
    apply elem_of_app. right. apply elem_of_cons. by left. }
  destruct Hit as [it Hit]. exists before, blocker, after, it.
  repeat (split; [done|]). simpl.
  destruct (mSelectedItems fv) as [|s sel] eqn:E; [by destruct before|].
  by rewrite Hloop, Hit.
Qed.

End ViewFacts.



(** ** Arranging *)

Section ArrangeFacts.

Variable getArrangeGeneration : Z.
Variable getDebugFilters : bool.
Variable show_folder_state : EFolderShow.
Variable getInterpolant : bool -> F32.
Variable LEFT_INDENTATION : Z.
Variable beyond_height : NodeRef -> Z -> bool.

#[local] Abbreviation arrange :=
  (Folder_arrange getArrangeGeneration getDebugFilters show_folder_state
                  getInterpolant LEFT_INDENTATION beyond_height).
#[local] Abbreviation folder_rule := (folder_shown getDebugFilters show_folder_state).
#[local] Abbreviation item_rule := (item_shown getDebugFilters).

Lemma Item_arrange_visible parent_indentation width it :
  mVisible (Item_arrange LEFT_INDENTATION parent_indentation width it).1.1 = mVisible it /\
  mItemHeight (Item_arrange LEFT_INDENTATION parent_indentation width it).1.1
    = mItemHeight it.
Proof. by destruct it. Qed.

Lemma arrange_folders_loop_visible rec here filter_generation :
  forall fs i width running target req fs' width' running' target' req',
  arrange_folders_loop getDebugFilters show_folder_state rec here filter_generation
    i fs width running target req = (fs', width', running', target', req') ->
  Forall2 (fun c c' => mVisible (self c') = folder_rule filter_generation c) fs fs'.
Proof.
  induction fs as [|c fs IH]; intros i width running target req fs' width' running'
    target' req' H; simpl in H.
  - injection H as <- _ _ _ _. constructor.
  - destruct (folder_rule filter_generation c) eqn:Hv.
    + destruct (rec (here ++ [i]) c width) as [[[[c2 cw] ch] ret] rq].
      destruct (arrange_folders_loop _ _ _ _ _ _ _ _ _ _ _)
        as [[[[rest' w1] r1] t1] q1] eqn:E.
      injection H as <- _ _ _ _. constructor; [by destruct c2 as [[] ? ? ?]|].
      by eapply IH.
    + destruct (arrange_folders_loop _ _ _ _ _ _ _ _ _ _ _)
        as [[[[rest' w1] r1] t1] q1] eqn:E.
      injection H as <- _ _ _ _. constructor; [by destruct c as [[] ? ? ?]|].
      by eapply IH.
Qed.

Lemma arrange_items_loop_visible parent_indentation filter_generation :
  forall its width running target its' width' running' target',
  arrange_items_loop getDebugFilters LEFT_INDENTATION parent_indentation
    filter_generation its width running target = (its', width', running', target') ->
  Forall2 (fun it it' => mVisible it' = item_rule filter_generation it) its its'.
Proof.
  induction its as [|it its IH]; intros width running target its' width' running'
    target' H; simpl in H.
  - injection H as <- _ _ _. constructor.
  - destruct (item_rule filter_generation it) eqn:Hv.
    + destruct (arrange_items_loop _ _ _ _ _ _ _ _) as [[[rest' w1] r1] t1] eqn:E.
      injection H as <- _ _ _. constructor; [by destruct it|]. by eapply IH.
    + destruct (arrange_items_loop _ _ _ _ _ _ _ _) as [[[rest' w1] r1] t1] eqn:E.
      injection H as <- _ _ _. constructor; [by destruct it|]. by eapply IH.
Qed.


(** What LLFolderViewFolder::arrange makes of the children: [fs1] and [its1]
    after the layout pass, which runs on an open folder that needs arranging,
    then the hiding while the folder animates. *)
Lemma Folder_arrange_children here parent_indentation filter_generation b d fs its
    width f' width' height returned rq :
  arrange here parent_indentation filter_generation (Folder b d fs its) width
    = (f', width', height, returned, rq) ->
  exists fs1 its1,
    (if needsArrange getArrangeGeneration d && mIsOpen d
     then Forall2 (fun c c' => mVisible (self c') = folder_rule filter_generation c) fs fs1 /\
          Forall2 (fun it it' => mVisible it' = item_rule filter_generation it) its its1
     else fs1 = fs /\ its1 = its) /\
    height = llround (mCurHeight (members f')) /\
    (if absdiff_gt_one (F32_max (F32_of_S32 (mItemHeight b)) (mCurHeight d))
                       (mTargetHeight (members f'))
     then mFolders f' = hide_folders beyond_height here height fs1 /\
          mItems f' = hide_items beyond_height here height its1 /\
          rq = true /\ mLastArrangeGeneration (members f') = -1
     else mFolders f' = fs1 /\ mItems f' = its1 /\
          mCurHeight (members f') = mTargetHeight (members f')).
Proof.
  intros H. simpl in H.
  match type of H with
  | context [needsArrange ?g ?x] =>
    destruct (if needsArrange g x then _ else _)
      as [[[[fs1 its1] d2] width2] req] eqn:EX
  end.
  assert (Hpre :
    (if needsArrange getArrangeGeneration d && mIsOpen d
     then Forall2 (fun c c' => mVisible (self c') = folder_rule filter_generation c) fs fs1 /\
          Forall2 (fun it it' => mVisible it' = item_rule filter_generation it) its its1
     else fs1 = fs /\ its1 = its) /\
    mCurHeight d2 = F32_max (F32_of_S32 (mItemHeight b)) (mCurHeight d)).
  { unfold needsArrange in *. simpl in EX.
    destruct (mLastArrangeGeneration d <? getArrangeGeneration); simpl.
    - destruct (mIsOpen d).
      + destruct (arrange_folders_loop _ _ _ _ _ _ _ _ _ _ _)
          as [[[[fs0 w0] r0] t0] q0] eqn:Efs.
        destruct (arrange_items_loop _ _ _ _ _ _ _ _) as [[[its0 w1] r1] t1] eqn:Eits.
        injection EX as <- <- <- <- <-. split.
        * split; [by eapply arrange_folders_loop_visible
                 |by eapply arrange_items_loop_visible].
        * by destruct q0.
      + by injection EX as <- <- <- <- <-.
    - by injection EX as <- <- <- <- <-. }
  destruct Hpre as [Hvis Hcur]. exists fs1, its1. split; [exact Hvis|].
  rewrite <- Hcur.
  destruct (absdiff_gt_one (mCurHeight d2) (mTargetHeight d2)) eqn:Hanim;
    injection H as <- <- <- <- <-; simpl; rewrite Hanim; by destruct d2.
Qed.


(** arrange() neither reads nor writes the visible flag of the folder it
    runs on: setting the flag before the call or on its result is the same. *)
Lemma Folder_arrange_setVisible here parent_indentation filter_generation f width v :
  arrange here parent_indentation filter_generation
          (set_self (setVisible v (self f)) f) width =
  let '(f', width', height, returned, rq) :=
    arrange here parent_indentation filter_generation f width in
  (set_self (setVisible v (self f')) f', width', height, returned, rq).
Proof.
  destruct f as [b d fs its]. destruct b. simpl.
  match goal with
  | |- context [needsArrange ?g ?x] =>
    destruct (if needsArrange g x then _ else _)
      as [[[[fs1 its1] d2] width2] req]
  end.
  by destruct (absdiff_gt_one (mCurHeight d2) (mTargetHeight d2)).
Qed.

Lemma Folder_arrange_self_visible here parent_indentation filter_generation f width :
  mVisible (self (arrange here parent_indentation filter_generation f width).1.1.1.1)
  = mVisible (self f).
Proof.
  destruct f as [b d fs its]. destruct b. simpl.
  match goal with
  | |- context [needsArrange ?g ?x] =>
    destruct (if needsArrange g x then _ else _)
      as [[[[fs1 its1] d2] width2] req]
  end.
  by destruct (absdiff_gt_one (mCurHeight d2) (mTargetHeight d2)).
Qed.

Lemma root_folders_loop_visible root_indentation filter_generation :
  forall fs i min_width total running target req fs' min_width' total' running'
         target' req',
  root_folders_loop getArrangeGeneration getDebugFilters show_folder_state
    getInterpolant LEFT_INDENTATION beyond_height root_indentation filter_generation
    i fs min_width total running target req
    = (fs', min_width', total', running', target', req') ->
  Forall2 (fun c c' => mVisible (self c') = folder_rule filter_generation c) fs fs'.
Proof.
  induction fs as [|c fs IH]; intros i min_width total running target req fs' min_width'
    total' running' target' req' H.
  - injection H as <- _ _ _ _ _. constructor.
  - cbn [root_folders_loop] in H.
    set (c1 := set_self (setVisible (folder_rule filter_generation c) (self c)) c) in H.
    assert (Hc1 : mVisible (self c1) = folder_rule filter_generation c)
      by (subst c1; by destruct c as [[] ? ? ?]).
    destruct (mVisible (self c1)) eqn:Hv.
    + pose proof (Folder_arrange_self_visible [i] (Some root_indentation)
                    filter_generation c1 0) as Hself.
      destruct (arrange [i] (Some root_indentation) filter_generation c1 0)
        as [[[[c2 cw] ch] ret] rq].
      destruct (root_folders_loop _ _ _ _ _ _ _ _ _ _ _ _ _ _ _)
        as [[[[[rest' m1] w1] r1] t1] q1] eqn:E.
      injection H as <- _ _ _ _ _. constructor; [|by eapply IH].
      simpl in Hself. congruence.
    + destruct (root_folders_loop _ _ _ _ _ _ _ _ _ _ _ _ _ _ _)
        as [[[[[rest' m1] w1] r1] t1] q1] eqn:E.
      injection H as <- _ _ _ _ _. constructor; [|by eapply IH]. congruence.
Qed.

Lemma root_items_loop_visible root_indentation filter_generation :
  forall its min_width total running target its' min_width' total' running' target',
  root_items_loop LEFT_INDENTATION root_indentation filter_generation
    its min_width total running target
    = (its', min_width', total', running', target') ->
  Forall2 (fun it it' => mVisible it' = getFiltered it filter_generation) its its'.
Proof.
  induction its as [|it its IH]; intros min_width total running target its' min_width'
    total' running' target' H; simpl in H.
  - injection H as <- _ _ _ _. constructor.
  - destruct (getFiltered it filter_generation) eqn:Hv.
    + destruct (root_items_loop _ _ _ _ _ _ _ _) as [[[[rest' m1] w1] r1] t1] eqn:E.
      injection H as <- _ _ _ _. constructor; [by destruct it|]. by eapply IH.
    + destruct (root_items_loop _ _ _ _ _ _ _ _) as [[[[rest' m1] w1] r1] t1] eqn:E.
      injection H as <- _ _ _ _. constructor; [by destruct it|]. by eapply IH.
Qed.


Lemma hide_folders_lookup here rounded_height fs i c :
  fs !! i = Some c ->
  exists c', hide_folders beyond_height here rounded_height fs !! i = Some c' /\
    mVisible (self c') =
      mVisible (self c) && negb (beyond_height (RFolder (here ++ [i])) rounded_height).
Proof.
  intros Hc. unfold hide_folders. rewrite list_lookup_imap, Hc. simpl.
  eexists. split; [reflexivity|].
  destruct (beyond_height _ _); [by destruct c as [[] ? ? ?]; rewrite andb_false_r|].
  by rewrite andb_true_r.
Qed.

Lemma hide_items_lookup here rounded_height its j it :
  its !! j = Some it ->
  exists it', hide_items beyond_height here rounded_height its !! j = Some it' /\
    mVisible it' = mVisible it && negb (beyond_height (RItem here j) rounded_height).
Proof.
  intros Hit. unfold hide_items. rewrite list_lookup_imap, Hit. simpl.
  eexists. split; [reflexivity|].
  destruct (beyond_height _ _); [by destruct it; rewrite andb_false_r|].
  by rewrite andb_true_r.
Qed.


End ArrangeFacts.

(** ** What the selection traversals do to the flags *)

Section SelectionSemantics.

Lemma node_at_set_self b f r :
  r <> RFolder [] -> node_at (set_self b f) r = node_at f r.
Proof. destruct f. destruct r as [[|i p]|[|i p] j]; done. Qed.

Lemma node_at_alter_node h r : forall t r',
  node_at (alter_node h r t) r' =
  if bool_decide (r' = r) then h <$> node_at t r else node_at t r'.
Proof.
  destruct r as [p|p j].
  - induction p as [|i p IH]; intros [b d fs its] r'.
    + case_bool_decide as E; [by subst|]. simpl. by apply node_at_set_self.
    + unfold alter_node in *. rewrite alter_folder_step.
      destruct r' as [[|i' q]|[|i' q] j']; try done.
      * rewrite !node_at_child_folder.
        destruct (decide (i' = i)) as [->|Hne].
        -- rewrite list_lookup_alter_eq. destruct (fs !! i) as [c|] eqn:Hc; simpl.
           ++ pose proof (IH c (RFolder q)) as IHq. simpl in IHq. rewrite IHq.
              repeat case_bool_decide; simplify_eq; done.
           ++ by case_bool_decide.
        -- rewrite list_lookup_alter_ne by done.
           rewrite bool_decide_eq_false_2 by congruence. done.
      * rewrite !node_at_child_item.
        destruct (decide (i' = i)) as [->|Hne].
        -- rewrite list_lookup_alter_eq. destruct (fs !! i) as [c|] eqn:Hc; simpl; [|done].
           pose proof (IH c (RItem q j')) as IHq. simpl in IHq. by rewrite IHq.
        -- by rewrite list_lookup_alter_ne.
  - induction p as [|i p IH]; intros [b d fs its] r'.
    + unfold alter_node. simpl. destruct r' as [[|i' q]|[|i' q] j']; try done.
      rewrite !node_at_own_item.
      destruct (decide (j' = j)) as [->|Hne].
      * rewrite bool_decide_eq_true_2 by done. apply list_lookup_alter_eq.
      * rewrite bool_decide_eq_false_2 by congruence. by apply list_lookup_alter_ne.
    + unfold alter_node in *. rewrite alter_folder_step.
      destruct r' as [[|i' q]|[|i' q] j']; try done.
      * rewrite !node_at_child_folder.
        destruct (decide (i' = i)) as [->|Hne].
        -- rewrite list_lookup_alter_eq. destruct (fs !! i) as [c|] eqn:Hc; simpl; [|done].
           pose proof (IH c (RFolder q)) as IHq. simpl in IHq. by rewrite IHq.
        -- by rewrite list_lookup_alter_ne.
      * rewrite !node_at_child_item.
        destruct (decide (i' = i)) as [->|Hne].
        -- rewrite list_lookup_alter_eq. destruct (fs !! i) as [c|] eqn:Hc; simpl.
           ++ pose proof (IH c (RItem q j')) as IHq. simpl in IHq. rewrite IHq.
              repeat case_bool_decide; simplify_eq; done.
           ++ by case_bool_decide.
        -- rewrite list_lookup_alter_ne by done.
           rewrite bool_decide_eq_false_2 by congruence. done.
Qed.

Lemma node_at_tmap gi gd t r :
  node_at (tmap gi gd t) r = gi <$> node_at t r.
Proof.
  destruct r as [p|p j]; simpl.
  - rewrite get_folder_tmap. by destruct (get_folder t p) as [[? ? ? ?]|].
  - apply get_item_tmap.
Qed.

Lemma is_node_skeleton t t' r :
  skeleton t' = skeleton t -> is_node t' r = is_node t r.
Proof.
  intros H. apply (f_equal (fun x => node_at x r)) in H.
  unfold skeleton in H. rewrite !node_at_tmap in H. unfold is_node.
  by destruct (node_at t' r), (node_at t r).
Qed.

(** Operations that write members only leave the item part of every node. *)
Lemma node_at_members_only t t' r :
  tmap id blank_members t' = tmap id blank_members t -> node_at t' r = node_at t r.
Proof.
  intros H. apply (f_equal (fun x => node_at x r)) in H.
  rewrite !node_at_tmap in H.
  by destruct (node_at t' r), (node_at t r); simplify_eq.
Qed.

Lemma isSelected_not_node t r : is_node t r = false -> isSelected t r = false.
Proof. unfold is_node, isSelected. by destruct (node_at t r). Qed.

Lemma isSelected_is_node t r : isSelected t r = true -> is_node t r = true.
Proof. unfold is_node, isSelected. by destruct (node_at t r). Qed.

Lemma isSelected_set_selected_and_count v increment r t r' :
  isSelected (set_selected_and_count v increment r t) r' =
  if bool_decide (r' = r) then v && is_node t r else isSelected t r'.
Proof.
  unfold set_selected_and_count, isSelected, is_node.
  assert (H : node_at (match getParentFolder r with
                       | Some parent_folder =>
                         recursiveIncrementNumDescendantsSelected increment parent_folder
                           (alter_node (set_mIsSelected v) r t)
                       | None => alter_node (set_mIsSelected v) r t
                       end) r'
              = node_at (alter_node (set_mIsSelected v) r t) r').
  { destruct (getParentFolder r); [|done]. apply node_at_members_only.
    by apply tmap_alter_members_to_root. }
  rewrite H, node_at_alter_node. case_bool_decide; [|done].
  destruct (node_at t r) as [it|]; simpl; [by destruct v|by rewrite andb_false_r].
Qed.

Lemma isSelected_selectItem r t r' :
  isSelected (selectItem r t) r' =
  if bool_decide (r' = r) then is_node t r else isSelected t r'.
Proof.
  unfold selectItem. destruct (node_at t r) eqn:E.
  - rewrite isSelected_set_selected_and_count. by unfold is_node; rewrite E.
  - case_bool_decide as Hr; [|done]. subst. unfold is_node, isSelected. by rewrite E.
Qed.

Lemma isSelected_deselectItem r t r' :
  isSelected (deselectItem r t) r' =
  if bool_decide (r' = r) then false else isSelected t r'.
Proof.
  unfold deselectItem. destruct (node_at t r) eqn:E.
  - by rewrite isSelected_set_selected_and_count.
  - case_bool_decide as Hr; [|done]. subst. unfold isSelected. by rewrite E.
Qed.

Lemma skeleton_selectItem r t : skeleton (selectItem r t) = skeleton t.
Proof.
  unfold selectItem, set_selected_and_count, skeleton. destruct (node_at t r); [|done].
  destruct (getParentFolder r);
    [unfold recursiveIncrementNumDescendantsSelected;
     rewrite tmap_alter_members_to_root by done|]; by apply tmap_alter_node.
Qed.

Lemma skeleton_deselectItem r t : skeleton (deselectItem r t) = skeleton t.
Proof.
  unfold deselectItem, set_selected_and_count, skeleton. destruct (node_at t r); [|done].
  destruct (getParentFolder r);
    [unfold recursiveIncrementNumDescendantsSelected;
     rewrite tmap_alter_members_to_root by done|]; by apply tmap_alter_node.
Qed.

Lemma isSelected_setOpenArrangeRecursively_at p v t r :
  isSelected (setOpenArrangeRecursively_at p v t) r = isSelected t r.
Proof.
  unfold isSelected.
  rewrite (node_at_members_only t (setOpenArrangeRecursively_at p v t) r); [done|].
  by apply tmap_setOpenArrangeRecursively_at.
Qed.

Lemma skeleton_setOpenArrangeRecursively_at p v t :
  skeleton (setOpenArrangeRecursively_at p v t) = skeleton t.
Proof. by apply tmap_setOpenArrangeRecursively_at. Qed.

(** The loops as the regions of the tree they reach.  The step with index
    [k] rewrites the flag of every position in its region [A k] by [u] and
    leaves the other flags; the regions of different steps are apart; [Inv]
    is what every step keeps. *)
Lemma fold_regions {X} (step : X -> LLFolderViewFolder -> LLFolderViewFolder)
    (A : X -> NodeRef -> bool) (u : NodeRef -> bool -> bool)
    (Inv : LLFolderViewFolder -> Prop) (ok : X -> Prop) l :
  NoDup l -> (forall x, x ∈ l -> ok x) ->
  (forall x x' r, x <> x' -> A x r = true -> A x' r = false) ->
  (forall x t, ok x -> Inv t ->
     Inv (step x t) /\
     forall r, isSelected (step x t) r =
       if A x r then u r (isSelected t r) else isSelected t r) ->
  forall t, Inv t ->
    Inv (fold_left (fun s x => step x s) l t) /\
    forall r, isSelected (fold_left (fun s x => step x s) l t) r =
      if existsb (fun x => A x r) l then u r (isSelected t r) else isSelected t r.
Proof.
  intros Hnd Hok Hapart Hstep. induction l as [|x l IH]; intros t Ht; [done|]. simpl.
  apply NoDup_cons in Hnd as [Hx Hnd].
  destruct (Hstep x t (Hok x ltac:(by left)) Ht) as [Hinv Hflags].
  destruct (IH Hnd (fun k Hk => Hok k ltac:(by right)) _ Hinv) as [Hinv' Hflags'].
  split; [done|]. intros r. rewrite Hflags', Hflags.
  destruct (A x r) eqn:HA; simpl; [|done].
  assert (Hrest : existsb (fun x0 => A x0 r) l = false).
  { apply not_true_is_false. intros Hex. apply existsb_exists in Hex as (x' & Hx' & HA').
    apply list_elem_of_In in Hx'.
    rewrite (Hapart x x' r) in HA'; [done| |done]. intros ->. done. }
  by rewrite Hrest.
Qed.

Lemma for_each_item_regions (step : nat -> LLFolderViewFolder -> LLFolderViewFolder)
    (A : nat -> NodeRef -> bool) (u : NodeRef -> bool -> bool)
    (Inv : LLFolderViewFolder -> Prop) n :
  (forall j j' r, j <> j' -> A j r = true -> A j' r = false) ->
  (forall j t, (j < n)%nat -> Inv t ->
     Inv (step j t) /\
     forall r, isSelected (step j t) r =
       if A j r then u r (isSelected t r) else isSelected t r) ->
  forall t, Inv t ->
    Inv (for_each_item step n t) /\
    forall r, isSelected (for_each_item step n t) r =
      if existsb (fun j => A j r) (seq 0 n) then u r (isSelected t r) else isSelected t r.
Proof.
  intros Hapart Hstep. unfold for_each_item.
  apply (fold_regions step A u Inv (fun j => (j < n)%nat)); auto.
  - apply NoDup_seq.
  - intros j Hj. apply elem_of_seq in Hj. lia.
Qed.

Lemma for_each_folder_regions
    (step : nat -> LLFolderViewFolder -> LLFolderViewFolder -> LLFolderViewFolder)
    (A : nat -> NodeRef -> bool) (u : NodeRef -> bool -> bool)
    (Inv : LLFolderViewFolder -> Prop) cs :
  (forall k k' r, k <> k' -> A k r = true -> A k' r = false) ->
  forall i0,
  (forall k c t, cs !! k = Some c -> Inv t ->
     Inv (step (i0 + k)%nat c t) /\
     forall r, isSelected (step (i0 + k)%nat c t) r =
       if A (i0 + k)%nat r then u r (isSelected t r) else isSelected t r) ->
  forall t, Inv t ->
    Inv (for_each_folder step i0 cs t) /\
    forall r, isSelected (for_each_folder step i0 cs t) r =
      if existsb (fun k => A k r) (seq i0 (length cs))
      then u r (isSelected t r) else isSelected t r.
Proof.
  intros Hapart. induction cs as [|c cs IH]; intros i0 Hstep t Ht; [done|]. simpl.
  destruct (Hstep 0%nat c t eq_refl Ht) as [Hinv Hflags].
  rewrite Nat.add_0_r in Hinv, Hflags.
  destruct (IH (S i0)) with (t := step i0 c t) as [Hinv' Hflags']; [|done|].
  { intros k c' t' Hk Ht'. replace (S i0 + k)%nat with (i0 + S k)%nat by lia.
    by apply Hstep. }
  split; [done|]. intros r. rewrite Hflags', Hflags.
  destruct (A i0 r) eqn:HA; simpl; [|done].
  assert (Hrest : existsb (fun k => A k r) (seq (S i0) (length cs)) = false).
  { apply not_true_is_false. intros Hex. apply existsb_exists in Hex as (k & Hk & HA').
    apply in_seq in Hk. rewrite (Hapart i0 k r) in HA'; [done|lia|done]. }
  by rewrite Hrest.
Qed.

(** A loop whose state carries the tree first: the tree it ends with is
    that of the loop on trees alone. *)
Lemma for_each_item_proj {S} (proj : S -> LLFolderViewFolder) body step n :
  (forall j s, proj (body j s) = step j (proj s)) ->
  forall s : S, proj (for_each_item body n s) = for_each_item step n (proj s).
Proof.
  intros H. unfold for_each_item. generalize (seq 0 n). intros l.
  induction l as [|j l IH]; intros s; [done|]. simpl. by rewrite IH, H.
Qed.

Lemma for_each_folder_proj {S} (proj : S -> LLFolderViewFolder) body step cs :
  (forall i c s, proj (body i c s) = step i c (proj s)) ->
  forall i (s : S),
    proj (for_each_folder body i cs s) = for_each_folder step i cs (proj s).
Proof.
  intros H. induction cs as [|c cs IH]; intros i s; [done|]. simpl. by rewrite IH, H.
Qed.

Lemma get_folder_app : forall p q t,
  get_folder t (p ++ q) =
  match get_folder t p with Some f => get_folder f q | None => None end.
Proof.
  induction p as [|i p IH]; intros q [b d fs its]; [done|].
  rewrite <- app_comm_cons, !get_folder_step. destruct (fs !! i); [apply IH|done].
Qed.

Lemma is_node_folder_path t r :
  is_node t r = true -> is_Some (get_folder t (folder_path r)).
Proof.
  unfold is_node. destruct r as [p|p j]; simpl.
  - destruct (get_folder t p); [eauto|done].
  - unfold get_item. destruct (get_folder t p); [eauto|done].
Qed.

Lemma within_child this k r : within (this ++ [k]) r = true -> within this r = true.
Proof.
  unfold within. intros H. apply bool_decide_eq_true in H.
  apply bool_decide_eq_true. etrans; [|exact H]. by apply prefix_app_r.
Qed.

Lemma within_cases this r :
  within this r = true ->
  r = RFolder this \/ (exists j, r = RItem this j) \/
  exists k, within (this ++ [k]) r = true.
Proof.
  unfold within. intros H. apply bool_decide_eq_true in H. destruct H as [q Hq].
  destruct q as [|k q].
  - rewrite app_nil_r in Hq. destruct r as [p|p j]; simpl in Hq; subst; eauto.
  - right. right. exists k. apply bool_decide_eq_true. exists q.
    by rewrite Hq, <- app_assoc.
Qed.

Lemma within_child_not_here this k r :
  within (this ++ [k]) r = true -> folder_path r <> this.
Proof.
  unfold within. intros H Heq. apply bool_decide_eq_true in H. destruct H as [q Hq].
  rewrite Heq, <- app_assoc in Hq. apply (f_equal length) in Hq.
  rewrite length_app in Hq. simpl in Hq. lia.
Qed.

Lemma within_child_bound t this g k r :
  get_folder t this = Some g -> is_node t r = true ->
  within (this ++ [k]) r = true -> (k < length (mFolders g))%nat.
Proof.
  intros Hg Hr Hw. apply is_node_folder_path in Hr as [f Hf].
  apply bool_decide_eq_true in Hw. destruct Hw as [q Hq].
  rewrite Hq, get_folder_app, get_folder_snoc, Hg in Hf.
  destruct (mFolders g !! k) eqn:E; [|done]. by eapply lookup_lt_Some.
Qed.

Lemma is_node_item_bound t this g j :
  get_folder t this = Some g -> is_node t (RItem this j) = true ->
  (j < length (mItems g))%nat.
Proof.
  unfold is_node. simpl. unfold get_item. intros ->.
  destruct (mItems g !! j) eqn:E; [|done]. intros _. by eapply lookup_lt_Some.
Qed.

Lemma existsb_seq_true (A : nat -> bool) n k :
  (k < n)%nat -> A k = true -> existsb A (seq 0 n) = true.
Proof.
  intros Hk HA. apply existsb_exists. exists k. split; [|done].
  apply in_seq. lia.
Qed.

Lemma reach_within this nf ni r : reach this nf ni r = true -> within this r = true.
Proof.
  unfold reach. rewrite !orb_true_iff, !existsb_exists.
  intros [[H|(k & _ & H)]|(j & _ & H)].
  - apply bool_decide_eq_true in H as ->. by apply bool_decide_eq_true.
  - by eapply within_child.
  - apply bool_decide_eq_true in H as ->. by apply bool_decide_eq_true.
Qed.

(** On the nodes of the tree the traversal reaches exactly the sub-tree. *)
Lemma reach_is_within t this g r :
  get_folder t this = Some g -> is_node t r = true ->
  reach this (length (mFolders g)) (length (mItems g)) r = within this r.
Proof.
  intros Hg Hr. destruct (within this r) eqn:Hw.
  - unfold reach. destruct (within_cases _ _ Hw) as [->|[[j ->]|[k Hk]]].
    + by rewrite bool_decide_eq_true_2.
    + rewrite orb_true_iff. right.
      apply (existsb_seq_true _ _ j); [by eapply is_node_item_bound|].
      by apply bool_decide_eq_true.
    + rewrite !orb_true_iff. left. right.
      apply (existsb_seq_true _ _ k); [by eapply within_child_bound|done].
  - destruct (reach _ _ _ r) eqn:E; [|done].
    apply reach_within in E. congruence.
Qed.

Lemma shape_at_get_folder t this shape :
  shape_at t this shape ->
  exists g, get_folder t this = Some g /\
    length (mFolders g) = length (mFolders shape) /\
    length (mItems g) = length (mItems shape).
Proof.
  unfold shape_at, skeleton. rewrite get_folder_tmap.
  destruct (get_folder t this) as [g|]; [|done]. simpl. intros [= H].
  exists g. split; [done|]. destruct g, shape. simpl in *.
  injection H as Hfs Hits.
  apply (f_equal length) in Hfs, Hits. rewrite !length_map in Hfs, Hits. done.
Qed.

Lemma shape_at_child t this shape k c :
  shape_at t this shape -> mFolders shape !! k = Some c ->
  shape_at t (this ++ [k]) c.
Proof.
  unfold shape_at. intros H Hc. rewrite get_folder_snoc, H.
  destruct shape as [b d fs its]. simpl in *. by rewrite list_lookup_fmap, Hc.
Qed.

Lemma shape_at_skeleton t t' this shape :
  skeleton t' = skeleton t -> shape_at t this shape -> shape_at t' this shape.
Proof. unfold shape_at. by intros ->. Qed.

Lemma shape_at_root t : shape_at t [] t.
Proof. reflexivity. Qed.

Lemma within_child_apart this k k' r :
  k <> k' -> within (this ++ [k]) r = true -> within (this ++ [k']) r = false.
Proof.
  intros Hne H. apply bool_decide_eq_true in H. destruct H as [q Hq].
  apply bool_decide_eq_false. intros [q' Hq']. rewrite Hq, <- !app_assoc in Hq'.
  apply app_inv_head in Hq'. simpl in Hq'. congruence.
Qed.

Lemma item_region_apart this j j' (r : NodeRef) :
  j <> j' -> bool_decide (r = RItem this j) = true ->
  bool_decide (r = RItem this j') = false.
Proof.
  intros Hne H. apply bool_decide_eq_true in H as ->.
  apply bool_decide_eq_false. congruence.
Qed.

(** The three stages of a traversal, put together. *)
Lemma traversal_flags this nf ni (u : NodeRef -> bool -> bool)
    (f0 f1 f2 f3 : NodeRef -> bool) :
  (forall r, f1 r = if bool_decide (r = RFolder this) then u r (f0 r) else f0 r) ->
  (forall r, f2 r = if existsb (fun k => within (this ++ [k]) r) (seq 0 nf)
                    then u r (f1 r) else f1 r) ->
  (forall r, f3 r = if existsb (fun j => bool_decide (r = RItem this j)) (seq 0 ni)
                    then u r (f2 r) else f2 r) ->
  forall r, f3 r = if reach this nf ni r then u r (f0 r) else f0 r.
Proof.
  intros H1 H2 H3 r. rewrite H3, H2, H1. unfold reach.
  destruct (existsb (fun j => bool_decide (r = RItem this j)) (seq 0 ni)) eqn:Ei.
  - apply existsb_exists in Ei as (j & _ & Hj). apply bool_decide_eq_true in Hj as ->.
    rewrite orb_true_r. rewrite bool_decide_eq_false_2 by done.
    destruct (existsb _ (seq 0 nf)) eqn:Ef; [|done].
    apply existsb_exists in Ef as (k & _ & Hk).
    by apply within_child_not_here in Hk.
  - rewrite orb_false_r.
    destruct (existsb _ (seq 0 nf)) eqn:Ef.
    + rewrite orb_true_r. rewrite bool_decide_eq_false_2; [done|].
      intros ->. apply existsb_exists in Ef as (k & _ & Hk).
      by apply within_child_not_here in Hk.
    + rewrite orb_false_r. done.
Qed.

(** From the positions a traversal reaches to the sub-tree: the positions
    that name no node carry no flag. *)
Lemma reach_to_within t0 t t' this shape (u : NodeRef -> bool -> bool) :
  skeleton t = skeleton t0 -> skeleton t' = skeleton t0 -> shape_at t this shape ->
  (forall r, is_node t0 r = false -> u r false = false) ->
  (forall r, isSelected t' r =
     if reach this (length (mFolders shape)) (length (mItems shape)) r
     then u r (isSelected t r) else isSelected t r) ->
  forall r, isSelected t' r = if within this r then u r (isSelected t r) else isSelected t r.
Proof.
  intros Ht Ht' Hshape Hu Hflags r.
  destruct (shape_at_get_folder _ _ _ Hshape) as (g & Hg & Hnf & Hni).
  destruct (is_node t0 r) eqn:Hr.
  - rewrite Hflags, <- Hnf, <- Hni. rewrite (reach_is_within t this g r); auto.
    by rewrite (is_node_skeleton t0 t r).
  - rewrite (isSelected_not_node t' r), (isSelected_not_node t r)
      by (by rewrite (is_node_skeleton t0)).
    rewrite Hu by done. by destruct (within this r).
Qed.

Lemma Item_setSelection_flags t0 p j selection t :
  skeleton t = skeleton t0 ->
  skeleton (Item_setSelection (RItem p j) selection t).1 = skeleton t0 /\
  forall r, isSelected (Item_setSelection (RItem p j) selection t).1 r =
    if bool_decide (r = RItem p j)
    then setSelection_flag t0 selection r (isSelected t r) else isSelected t r.
Proof.
  intros Ht. unfold Item_setSelection. simpl.
  destruct (isSelected t (RItem p j)) eqn:Hs.
  - rewrite andb_false_r. split; [by rewrite skeleton_deselectItem|]. intros r.
    rewrite isSelected_deselectItem.
    destruct (decide (r = RItem p j)) as [->|E];
      [rewrite !bool_decide_eq_true_2 by done|by rewrite !bool_decide_eq_false_2].
    unfold setSelection_flag. rewrite Hs. simpl. by rewrite andb_false_r.
  - rewrite andb_true_r. destruct (decide (selection = Some (RItem p j))) as [Hsel|Hsel].
    + rewrite bool_decide_eq_true_2 by done.
      split; [by rewrite skeleton_selectItem|]. intros r.
      rewrite isSelected_selectItem.
      destruct (decide (r = RItem p j)) as [->|E];
        [rewrite !bool_decide_eq_true_2 by done|by rewrite !bool_decide_eq_false_2].
      unfold setSelection_flag. rewrite bool_decide_eq_true_2, Hs by done. simpl.
      rewrite andb_true_r. by rewrite (is_node_skeleton t0 t).
    + rewrite bool_decide_eq_false_2 by done.
      split; [done|]. intros r.
      destruct (decide (r = RItem p j)) as [->|E];
        [rewrite !bool_decide_eq_true_2 by done|by rewrite !bool_decide_eq_false_2].
      unfold setSelection_flag. by rewrite bool_decide_eq_false_2, Hs.
Qed.

Lemma Folder_setSelection_flags t0 selection shape : forall this openitem t,
  skeleton t = skeleton t0 -> shape_at t this shape ->
  skeleton (Folder_setSelection shape this selection openitem t).1 = skeleton t0 /\
  forall r, isSelected (Folder_setSelection shape this selection openitem t).1 r =
    if within this r
    then setSelection_flag t0 selection r (isSelected t r) else isSelected t r.
Proof.
  induction shape as [b d fs its IH] using Folder_ind'.
  intros this openitem t Ht Hshape. rewrite Folder_setSelection_unfold.
  set (s1 := if bool_decide (selection = Some (RFolder this)) then _ else _).
  assert (H1 : skeleton s1.1 = skeleton t0 /\
    forall r, isSelected s1.1 r =
      if bool_decide (r = RFolder this)
      then setSelection_flag t0 selection r (isSelected t r) else isSelected t r).
  { subst s1. destruct (decide (selection = Some (RFolder this))) as [Hsel|Hsel];
      [rewrite bool_decide_eq_true_2 by done|rewrite bool_decide_eq_false_2 by done];
      destruct (isSelected t (RFolder this)) eqn:Hs; simpl.
    - split; [done|]. intros r.
      destruct (decide (r = RFolder this)) as [->|E];
        [rewrite !bool_decide_eq_true_2 by done|by rewrite !bool_decide_eq_false_2].
      unfold setSelection_flag. rewrite bool_decide_eq_true_2 by done. simpl.
      rewrite andb_true_r, Hs.
      symmetry. rewrite (is_node_skeleton t t0) by done.
      by apply isSelected_is_node.
    - split; [by rewrite skeleton_selectItem|]. intros r.
      rewrite isSelected_selectItem.
      destruct (decide (r = RFolder this)) as [->|E];
        [rewrite !bool_decide_eq_true_2 by done|by rewrite !bool_decide_eq_false_2].
      unfold setSelection_flag. rewrite bool_decide_eq_true_2 by done. simpl.
      rewrite andb_true_r. by rewrite (is_node_skeleton t0 t).
    - split; [by rewrite skeleton_deselectItem|]. intros r.
      rewrite isSelected_deselectItem.
      destruct (decide (r = RFolder this)) as [->|E];
        [rewrite !bool_decide_eq_true_2 by done|by rewrite !bool_decide_eq_false_2].
      unfold setSelection_flag. by rewrite bool_decide_eq_false_2.
    - split; [done|]. intros r.
      destruct (decide (r = RFolder this)) as [->|E];
        [rewrite !bool_decide_eq_true_2 by done|by rewrite !bool_decide_eq_false_2].
      unfold setSelection_flag. by rewrite bool_decide_eq_false_2, Hs. }
  destruct s1 as [t1 rv1]. simpl in H1. destruct H1 as [Hsk1 Hf1].
  set (s2 := for_each_folder _ 0%nat (mFolders (Folder b d fs its)) (t1, rv1, false)).
  assert (H2 : skeleton s2.1.1 = skeleton t0 /\
    forall r, isSelected s2.1.1 r =
      if existsb (fun k => within (this ++ [k]) r) (seq 0 (length fs))
      then setSelection_flag t0 selection r (isSelected t1 r) else isSelected t1 r).
  { subst s2.
    rewrite (for_each_folder_proj (fun s => s.1.1) _
               (fun i c t => (Folder_setSelection c (this ++ [i]) selection openitem t).1)).
    2:{ intros i c [[t' rv'] cs']. simpl.
        by destruct (Folder_setSelection c (this ++ [i]) selection openitem t')
          as [t'' []]. }
    simpl.
    apply (for_each_folder_regions _ (fun k => within (this ++ [k]))
             (setSelection_flag t0 selection) (fun t => skeleton t = skeleton t0));
      [apply within_child_apart| |done].
    intros k c t' Hk Ht'. simpl.
    apply (proj1 (Forall_lookup _ _) IH k c Hk); [done|].
    apply (shape_at_child _ _ (Folder b d fs its)); [|done].
    apply (shape_at_skeleton t); [congruence|done]. }
  destruct s2 as [[t2 rv2] cs2]. simpl in H2. destruct H2 as [Hsk2 Hf2].
  set (s3 := for_each_item _ _ (t2, rv2, cs2)).
  assert (H3 : skeleton s3.1.1 = skeleton t0 /\
    forall r, isSelected s3.1.1 r =
      if existsb (fun j => bool_decide (r = RItem this j)) (seq 0 (length its))
      then setSelection_flag t0 selection r (isSelected t2 r) else isSelected t2 r).
  { subst s3.
    rewrite (for_each_item_proj (fun s => s.1.1) _
               (fun j t => (Item_setSelection (RItem this j) selection t).1)).
    2:{ intros j [[t' rv'] cs']. cbv beta iota. cbn [fst].
        by destruct (Item_setSelection (RItem this j) selection t') as [t'' []]. }
    simpl.
    apply (for_each_item_regions _ (fun j r => bool_decide (r = RItem this j))
             (setSelection_flag t0 selection) (fun t => skeleton t = skeleton t0));
      [intros; by eapply item_region_apart| |done].
    intros j t' _ Ht'. by apply Item_setSelection_flags. }
  destruct s3 as [[t3 rv3] cs3]. simpl in H3. destruct H3 as [Hsk3 Hf3]. simpl.
  assert (Hsk4 : skeleton (if openitem && cs3
                           then setOpenArrangeRecursively_at this true t3 else t3)
                 = skeleton t0).
  { destruct (openitem && cs3); [|done].
    by rewrite skeleton_setOpenArrangeRecursively_at. }
  split; [exact Hsk4|].
  apply (reach_to_within t0 t _ this (Folder b d fs its)); auto.
  - intros r Hr. unfold setSelection_flag. rewrite Hr. by rewrite andb_false_r.
  - simpl. apply (traversal_flags this _ _ _ (isSelected t) (isSelected t1)
                    (isSelected t2)); auto.
    intros r. destruct (openitem && cs3); [|apply Hf3].
    rewrite isSelected_setOpenArrangeRecursively_at. apply Hf3.
Qed.

Lemma Item_changeSelection_flags t0 this selection selected t :
  skeleton t = skeleton t0 ->
  skeleton (Item_changeSelection this selection selected t).1 = skeleton t0 /\
  forall r, isSelected (Item_changeSelection this selection selected t).1 r =
    if bool_decide (r = this)
    then changeSelection_flag t0 selection selected r (isSelected t r)
    else isSelected t r.
Proof.
  intros Ht. unfold Item_changeSelection, changeSelection_flag.
  destruct (decide (selection = this)) as [->|Hsel].
  - rewrite bool_decide_eq_true_2 by done. simpl.
    destruct (isSelected t this) eqn:Hs, selected; simpl.
    + split; [done|]. intros r. destruct (decide (r = this)) as [->|E];
        [rewrite !bool_decide_eq_true_2 by done|by rewrite !bool_decide_eq_false_2].
      rewrite Hs. symmetry. rewrite (is_node_skeleton t t0) by done.
      by apply isSelected_is_node.
    + split; [by rewrite skeleton_deselectItem|]. intros r.
      rewrite isSelected_deselectItem. destruct (decide (r = this)) as [->|E];
        [by rewrite !bool_decide_eq_true_2|by rewrite !bool_decide_eq_false_2].
    + split; [by rewrite skeleton_selectItem|]. intros r.
      rewrite isSelected_selectItem. destruct (decide (r = this)) as [->|E];
        [rewrite !bool_decide_eq_true_2 by done|by rewrite !bool_decide_eq_false_2].
      by rewrite (is_node_skeleton t0 t).
    + split; [done|]. intros r. destruct (decide (r = this)) as [->|E];
        [by rewrite !bool_decide_eq_true_2|by rewrite !bool_decide_eq_false_2].
  - rewrite bool_decide_eq_false_2 by done. simpl. split; [done|]. intros r.
    destruct (decide (r = this)) as [->|E];
      [rewrite bool_decide_eq_true_2 by done|by rewrite bool_decide_eq_false_2].
    by rewrite bool_decide_eq_false_2.
Qed.

Lemma Folder_changeSelection_flags t0 selection selected shape : forall this t,
  skeleton t = skeleton t0 -> shape_at t this shape ->
  skeleton (Folder_changeSelection shape this selection selected t).1 = skeleton t0 /\
  forall r, isSelected (Folder_changeSelection shape this selection selected t).1 r =
    if within this r
    then changeSelection_flag t0 selection selected r (isSelected t r)
    else isSelected t r.
Proof.
  induction shape as [b d fs its IH] using Folder_ind'.
  intros this t Ht Hshape. rewrite Folder_changeSelection_unfold.
  set (s1 := if bool_decide (selection = RFolder this) then _ else (t, false)).
  assert (H1 : skeleton s1.1 = skeleton t0 /\
    forall r, isSelected s1.1 r =
      if bool_decide (r = RFolder this)
      then changeSelection_flag t0 selection selected r (isSelected t r)
      else isSelected t r).
  { pose proof (Item_changeSelection_flags t0 (RFolder this) selection selected t Ht)
      as Hitem.
    assert (Hsame : s1.1 = (Item_changeSelection (RFolder this) selection selected t).1).
    { subst s1. unfold Item_changeSelection.
      destruct (bool_decide (selection = RFolder this)); [|done]. simpl.
      destruct (isSelected t (RFolder this)), selected; done. }
    by rewrite Hsame. }
  destruct s1 as [t1 rv1]. simpl in H1. destruct H1 as [Hsk1 Hf1].
  set (s2 := for_each_folder _ 0%nat (mFolders (Folder b d fs its)) (t1, rv1)).
  assert (H2 : skeleton s2.1 = skeleton t0 /\
    forall r, isSelected s2.1 r =
      if existsb (fun k => within (this ++ [k]) r) (seq 0 (length fs))
      then changeSelection_flag t0 selection selected r (isSelected t1 r)
      else isSelected t1 r).
  { subst s2.
    rewrite (for_each_folder_proj (fun s => s.1) _
               (fun i c t => (Folder_changeSelection c (this ++ [i]) selection selected t).1)).
    2:{ intros i c [t' rv']. cbv beta iota. cbn [fst].
        by destruct (Folder_changeSelection c (this ++ [i]) selection selected t'). }
    simpl.
    apply (for_each_folder_regions _ (fun k => within (this ++ [k]))
             (changeSelection_flag t0 selection selected)
             (fun t => skeleton t = skeleton t0));
      [apply within_child_apart| |done].
    intros k c t' Hk Ht'. simpl.
    apply (proj1 (Forall_lookup _ _) IH k c Hk); [done|].
    apply (shape_at_child _ _ (Folder b d fs its)); [|done].
    apply (shape_at_skeleton t); [congruence|done]. }
  destruct s2 as [t2 rv2]. simpl in H2. destruct H2 as [Hsk2 Hf2].
  set (s3 := for_each_item _ _ (t2, rv2)).
  assert (H3 : skeleton s3.1 = skeleton t0 /\
    forall r, isSelected s3.1 r =
      if existsb (fun j => bool_decide (r = RItem this j)) (seq 0 (length its))
      then changeSelection_flag t0 selection selected r (isSelected t2 r)
      else isSelected t2 r).
  { subst s3.
    rewrite (for_each_item_proj (fun s => s.1) _
               (fun j t => (Item_changeSelection (RItem this j) selection selected t).1)).
    2:{ intros j [t' rv']. cbv beta iota. cbn [fst].
        by destruct (Item_changeSelection (RItem this j) selection selected t'). }
    simpl.
    apply (for_each_item_regions _ (fun j r => bool_decide (r = RItem this j))
             (changeSelection_flag t0 selection selected)
             (fun t => skeleton t = skeleton t0));
      [intros; by eapply item_region_apart| |done].
    intros j t' _ Ht'. by apply Item_changeSelection_flags. }
  destruct H3 as [Hsk3 Hf3]. split; [exact Hsk3|].
  apply (reach_to_within t0 t _ this (Folder b d fs its)); auto.
  - intros r Hr. unfold changeSelection_flag. rewrite Hr.
    rewrite andb_false_r. by destruct (bool_decide _).
  - simpl. by apply (traversal_flags this _ _ _ (isSelected t) (isSelected t1)
                       (isSelected t2)).
Qed.

(** *** Deselecting a subtree *)

Lemma items_weight_nonneg its : 0 <= items_weight its.
Proof.
  induction its as [|it its IH]; simpl; [done|].
  unfold selected_weight. destruct (mIsSelected it); lia.
Qed.

Lemma count_selected_nonneg f : 0 <= count_selected_descendants f.
Proof.
  induction f as [b d fs its IH] using Folder_ind'.
  rewrite count_selected_unfold. pose proof (items_weight_nonneg its).
  enough (0 <= folders_weight fs) by lia.
  induction IH as [|c fs Hc _ IHfs]; simpl; [done|].
  unfold folder_weight, selected_weight. destruct (mIsSelected (self c)); lia.
Qed.

Lemma folders_weight_nonneg fs : 0 <= folders_weight fs.
Proof.
  induction fs as [|c fs IH]; simpl; [done|].
  unfold folder_weight, selected_weight. pose proof (count_selected_nonneg c).
  destruct (mIsSelected (self c)); lia.
Qed.

Lemma items_weight_zero its j it :
  items_weight its = 0 -> its !! j = Some it -> mIsSelected it = false.
Proof.
  revert j. induction its as [|x its IH]; intros j Hz Hj; [done|].
  simpl in Hz. pose proof (items_weight_nonneg its).
  unfold selected_weight in Hz.
  destruct j as [|j]; simpl in Hj.
  - injection Hj as ->. destruct (mIsSelected it); [lia|done].
  - apply (IH j); [|done]. destruct (mIsSelected x); lia.
Qed.

Lemma folders_weight_zero fs k c :
  folders_weight fs = 0 -> fs !! k = Some c ->
  mIsSelected (self c) = false /\ count_selected_descendants c = 0.
Proof.
  revert k. induction fs as [|x fs IH]; intros k Hz Hk; [done|].
  simpl in Hz. pose proof (folders_weight_nonneg fs).
  pose proof (count_selected_nonneg x).
  unfold folder_weight, selected_weight in Hz.
  destruct k as [|k]; simpl in Hk.
  - injection Hk as ->. destruct (mIsSelected (self c)); [lia|split; [done|lia]].
  - apply (IH k); [|done]. destruct (mIsSelected (self x)); lia.
Qed.

(** A folder whose descendants count for nothing has no selected node below
    it. *)
Lemma count_zero_none_selected f :
  count_selected_descendants f = 0 ->
  forall r, r <> RFolder [] -> isSelected f r = false.
Proof.
  induction f as [b d fs its IH] using Folder_ind'.
  rewrite count_selected_unfold. intros Hz r Hr.
  pose proof (items_weight_nonneg its). pose proof (folders_weight_nonneg fs).
  assert (Hfs : folders_weight fs = 0) by lia.
  assert (Hits : items_weight its = 0) by lia.
  unfold isSelected. destruct r as [[|i p]|[|i p] j]; [done| | |].
  - rewrite node_at_child_folder. destruct (fs !! i) as [c|] eqn:Hc; [|done].
    destruct (folders_weight_zero fs i c Hfs Hc) as [Hself Hcount].
    destruct p as [|i' p'].
    + destruct c. simpl in *. by rewrite Hself.
    + by apply (proj1 (Forall_lookup _ _) IH i c Hc Hcount (RFolder (i' :: p'))).
  - rewrite node_at_own_item. destruct (its !! j) as [it|] eqn:Hj; [|done].
    by apply (items_weight_zero its j it).
  - rewrite node_at_child_item. destruct (fs !! i) as [c|] eqn:Hc; [|done].
    destruct (folders_weight_zero fs i c Hfs Hc) as [Hself Hcount].
    by apply (proj1 (Forall_lookup _ _) IH i c Hc Hcount (RItem p j)).
Qed.

Lemma node_at_ref_under this t g r :
  get_folder t this = Some g -> node_at t (ref_under this r) = node_at g r.
Proof.
  intros Hg. destruct r as [p|p j]; simpl.
  - by rewrite get_folder_app, Hg.
  - unfold get_item. by rewrite get_folder_app, Hg.
Qed.

Lemma within_ref_under this r :
  within this r = true -> exists r', r = ref_under this r'.
Proof.
  unfold within. intros [q Hq]%bool_decide_eq_true.
  destruct r as [p|p j]; simpl in Hq; subst p.
  - by exists (RFolder q).
  - by exists (RItem q j).
Qed.

(** With accurate counters, a folder whose counter is zero has no selected
    node below it: what the early return of recursiveDeselect relies on. *)
Lemma accurate_zero_none_below t this g r :
  counts_accurate t = true -> get_folder t this = Some g ->
  mNumDescendantsSelected (members g) = 0 ->
  within this r = true -> r <> RFolder this -> isSelected t r = false.
Proof.
  intros Hacc Hg Hz Hin Hr.
  destruct (within_ref_under this r Hin) as [r' ->].
  unfold isSelected. rewrite (node_at_ref_under this t g r' Hg).
  apply (count_zero_none_selected g).
  - rewrite <- Hz. symmetry.
    by apply (proj1 (counts_accurate_everywhere t) Hacc this g).
  - intros ->. apply Hr. simpl. by rewrite app_nil_r.
Qed.

Lemma traversal_flags_items_first this nf ni (u : NodeRef -> bool -> bool)
    (f0 f1 f2 f3 : NodeRef -> bool) :
  (forall r, f1 r = if bool_decide (r = RFolder this) then u r (f0 r) else f0 r) ->
  (forall r, f2 r = if existsb (fun j => bool_decide (r = RItem this j)) (seq 0 ni)
                    then u r (f1 r) else f1 r) ->
  (forall r, f3 r = if existsb (fun k => within (this ++ [k]) r) (seq 0 nf)
                    then u r (f2 r) else f2 r) ->
  forall r, f3 r = if reach this nf ni r then u r (f0 r) else f0 r.
Proof.
  intros H1 H2 H3 r. rewrite H3, H2, H1. unfold reach.
  destruct (existsb (fun j => bool_decide (r = RItem this j)) (seq 0 ni)) eqn:Ei.
  - apply existsb_exists in Ei as (j & _ & Hj). apply bool_decide_eq_true in Hj as ->.
    rewrite orb_true_r. rewrite bool_decide_eq_false_2 by done.
    destruct (existsb _ (seq 0 nf)) eqn:Ef; [|done].
    apply existsb_exists in Ef as (k & _ & Hk).
    by apply within_child_not_here in Hk.
  - rewrite orb_false_r.
    destruct (existsb _ (seq 0 nf)) eqn:Ef.
    + rewrite orb_true_r. rewrite bool_decide_eq_false_2; [done|].
      intros ->. apply existsb_exists in Ef as (k & _ & Hk).
      by apply within_child_not_here in Hk.
    + rewrite orb_false_r. done.
Qed.

Lemma recursiveDeselect_flags t0 shape : forall this deselect_self t,
  skeleton t = skeleton t0 -> counts_accurate t = true -> shape_at t this shape ->
  (skeleton (recursiveDeselect shape this deselect_self t) = skeleton t0 /\
   counts_accurate (recursiveDeselect shape this deselect_self t) = true) /\
  forall r, isSelected (recursiveDeselect shape this deselect_self t) r =
    if within this r
    then deselect_flag this deselect_self r (isSelected t r)
    else isSelected t r.
Proof.
  induction shape as [b d fs its IH] using Folder_ind'.
  intros this ds t Ht Hacc Hshape. rewrite recursiveDeselect_unfold. cbv zeta.
  set (t1 := if isSelected t (RFolder this) && ds then _ else t).
  assert (H1 : (skeleton t1 = skeleton t0 /\ counts_accurate t1 = true) /\
    forall r, isSelected t1 r =
      if bool_decide (r = RFolder this)
      then deselect_flag this ds r (isSelected t r)
      else isSelected t r).
  { subst t1. unfold deselect_flag.
    destruct (isSelected t (RFolder this)) eqn:Hs, ds; simpl.
    - split; [split; [by rewrite skeleton_deselectItem|by apply deselectItem_accurate]|].
      intros r. rewrite isSelected_deselectItem.
      destruct (decide (r = RFolder this)) as [->|E];
        [by rewrite !bool_decide_eq_true_2|by rewrite !bool_decide_eq_false_2].
    - split; [done|]. intros r.
      destruct (decide (r = RFolder this)) as [->|E];
        [by rewrite !bool_decide_eq_true_2|by rewrite !bool_decide_eq_false_2].
    - split; [done|]. intros r.
      destruct (decide (r = RFolder this)) as [->|E];
        [by rewrite !bool_decide_eq_true_2|by rewrite !bool_decide_eq_false_2].
    - split; [done|]. intros r.
      destruct (decide (r = RFolder this)) as [->|E];
        [by rewrite !bool_decide_eq_true_2|by rewrite !bool_decide_eq_false_2]. }
  clearbody t1. destruct H1 as [[Hsk1 Hacc1] Hf1].
  assert (Hshape1 : shape_at t1 this (Folder b d fs its)).
  { apply (shape_at_skeleton t); [congruence|done]. }
  destruct (numDescendantsSelected_at t1 this =? 0) eqn:Hzero.
  - split; [done|]. intros r. rewrite Hf1.
    destruct (decide (r = RFolder this)) as [->|E].
    + rewrite bool_decide_eq_true_2 by done.
      unfold within. simpl. by rewrite bool_decide_eq_true_2.
    + rewrite bool_decide_eq_false_2 by done.
      destruct (within this r) eqn:Hin; [|done].
      unfold deselect_flag. rewrite bool_decide_eq_false_2 by done. simpl.
      destruct (shape_at_get_folder t1 this _ Hshape1) as (g & Hg & _).
      assert (isSelected t1 r = false) as Hr.
      { apply (accurate_zero_none_below t1 this g); try done.
        apply Z.eqb_eq in Hzero. unfold numDescendantsSelected_at in Hzero.
        by rewrite Hg in Hzero. }
      rewrite Hf1 in Hr. by rewrite bool_decide_eq_false_2 in Hr by done.
  - set (step_item := fun (j : nat) (t : LLFolderViewFolder) =>
           if isSelected t (RItem this j) then deselectItem (RItem this j) t else t).
    pose (Inv := fun t : LLFolderViewFolder =>
           skeleton t = skeleton t0 /\ counts_accurate t = true).
    assert (H2 : Inv (for_each_item step_item (length (mItems (Folder b d fs its))) t1) /\
      forall r, isSelected
                  (for_each_item step_item (length (mItems (Folder b d fs its))) t1) r =
        if existsb (fun j => bool_decide (r = RItem this j)) (seq 0 (length its))
        then deselect_flag this ds r (isSelected t1 r)
        else isSelected t1 r).
    { simpl.
      apply (for_each_item_regions step_item (fun j r => bool_decide (r = RItem this j))
               (deselect_flag this ds) Inv);
        [intros; by eapply item_region_apart| |done].
      intros j t' _ [Hsk' Hacc']. subst step_item. cbv beta.
      unfold deselect_flag.
      destruct (isSelected t' (RItem this j)) eqn:Hs.
      - split; [split; [by rewrite skeleton_deselectItem|by apply deselectItem_accurate]|].
        intros r. rewrite isSelected_deselectItem.
        destruct (decide (r = RItem this j)) as [->|E];
          [rewrite !bool_decide_eq_true_2 by done|by rewrite !bool_decide_eq_false_2].
        by rewrite bool_decide_eq_false_2.
      - split; [done|]. intros r.
        destruct (decide (r = RItem this j)) as [->|E];
          [rewrite !bool_decide_eq_true_2 by done|by rewrite !bool_decide_eq_false_2].
        by rewrite bool_decide_eq_false_2. }
    set (t2 := for_each_item _ _ t1) in *. clearbody t2.
    destruct H2 as [[Hsk2 Hacc2] Hf2].
    set (t3 := for_each_folder _ _ _ t2).
    assert (H3 : Inv t3 /\
      forall r, isSelected t3 r =
        if existsb (fun k => within (this ++ [k]) r) (seq 0 (length fs))
        then deselect_flag this ds r (isSelected t2 r)
        else isSelected t2 r).
    { subst t3. simpl.
      apply (for_each_folder_regions _ (fun k => within (this ++ [k]))
               (deselect_flag this ds) Inv);
        [apply within_child_apart| |done].
      intros k c t' Hk [Hsk' Hacc']. simpl.
      destruct (proj1 (Forall_lookup _ _) IH k c Hk (this ++ [k]) true t' Hsk' Hacc')
        as [HI HF].
      { apply (shape_at_child _ _ (Folder b d fs its)); [|done].
        apply (shape_at_skeleton t); [congruence|done]. }
      split; [done|]. intros r. rewrite HF.
      destruct (within (this ++ [k]) r) eqn:Hin; [|done].
      unfold deselect_flag. rewrite andb_false_r.
      rewrite (bool_decide_eq_false_2 (r = RFolder this)); [done|].
      intros ->. by apply within_child_not_here in Hin. }
    destruct H3 as [[Hsk3 Hacc3] Hf3]. split; [done|].
    apply (reach_to_within t0 t _ this (Folder b d fs its)); auto.
    + intros r _. unfold deselect_flag. by destruct (_ && _).
    + simpl. by apply (traversal_flags_items_first this _ _ _ (isSelected t)
                         (isSelected t1) (isSelected t2)).
Qed.

(** *** The selection list of the view and the flags of the tree *)

Lemma all_refs_unfold b d fs its :
  all_refs (Folder b d fs its) =
  RFolder [] :: map (RItem []) (seq 0 (length its)) ++ refs_below 0 fs.
Proof.
  reflexivity.
Qed.

Lemma refs_below_lookup cs : forall i k c r,
  cs !! k = Some c -> r ∈ all_refs c ->
  ref_under [(i + k)%nat] r ∈ refs_below i cs.
Proof.
  induction cs as [|x cs IH]; intros i k c r Hk Hr; [done|]. simpl.
  apply elem_of_app. destruct k as [|k]; simpl in Hk.
  - injection Hk as ->. left. rewrite Nat.add_0_r.
    apply list_elem_of_fmap. by exists r.
  - right. replace (i + S k)%nat with (S i + k)%nat by lia. by apply (IH _ _ c).
Qed.

Lemma is_node_all_refs t : forall r, is_node t r = true -> r ∈ all_refs t.
Proof.
  induction t as [b d fs its IH] using Folder_ind'. intros r Hr.
  rewrite all_refs_unfold. unfold is_node in Hr.
  destruct r as [[|i p]|[|i p] j].
  - apply list_elem_of_here.
  - right. apply elem_of_app. right.
    rewrite node_at_child_folder in Hr. destruct (fs !! i) as [c|] eqn:Hc; [|done].
    apply (refs_below_lookup fs 0 i c (RFolder p) Hc).
    apply (proj1 (Forall_lookup _ _) IH i c Hc). unfold is_node.
    by destruct (node_at c (RFolder p)).
  - right. apply elem_of_app. left.
    rewrite node_at_own_item in Hr. destruct (its !! j) as [it|] eqn:Hj; [|done].
    apply list_elem_of_fmap. exists j. split; [done|].
    apply elem_of_seq. apply lookup_lt_Some in Hj. lia.
  - right. apply elem_of_app. right.
    rewrite node_at_child_item in Hr. destruct (fs !! i) as [c|] eqn:Hc; [|done].
    apply (refs_below_lookup fs 0 i c (RItem p j) Hc).
    apply (proj1 (Forall_lookup _ _) IH i c Hc). unfold is_node.
    by destruct (node_at c (RItem p j)).
Qed.

Lemma selection_consistentb_sound fv :
  selection_consistentb fv = true -> selection_consistent fv.
Proof.
  unfold selection_consistentb, selection_consistent.
  rewrite !andb_true_iff. intros [[[[Hacc Hnd] Hroot] Hlist] Hall].
  apply bool_decide_eq_true in Hnd. apply negb_true_iff in Hroot.
  repeat split; try done.
  - intros Hr. rewrite forallb_forall in Hlist. apply Hlist.
    by apply list_elem_of_In.
  - intros Hr. rewrite forallb_forall in Hall.
    specialize (Hall r). rewrite Hr in Hall. simpl in Hall.
    eapply bool_decide_eq_true_1, Hall, list_elem_of_In, is_node_all_refs.
    by apply isSelected_is_node.
Qed.

Lemma isSelected_requestArrange_at p t r :
  isSelected (requestArrange_at p t) r = isSelected t r.
Proof.
  unfold isSelected.
  rewrite (node_at_members_only t (requestArrange_at p t) r); [done|].
  by apply tmap_requestArrange_at.
Qed.

Lemma requestArrange_at_accurate p t :
  counts_accurate (requestArrange_at p t) = counts_accurate t.
Proof.
  apply same_selection_accurate, tmap_requestArrange_at.
  by apply selection_of_members_frame.
Qed.

Lemma within_root r : within [] r = true.
Proof. unfold within. apply bool_decide_eq_true_2, prefix_nil. Qed.

Lemma clearSelection_clears fv :
  selection_consistent fv ->
  mSelectedItems (clearSelection fv) = [] /\
  counts_accurate (as_folder (clearSelection fv)) = true /\
  skeleton (as_folder (clearSelection fv)) = skeleton (as_folder fv) /\
  forall r, isSelected (as_folder (clearSelection fv)) r = false.
Proof.
  intros (Hacc & Hnd & Hroot & Hlist). unfold clearSelection.
  destruct (mSelectedItems fv) as [|x l] eqn:Hl.
  - repeat split; try done. intros r. apply not_true_is_false.
    intros Hr. apply Hlist in Hr. by apply elem_of_nil in Hr.
  - simpl.
    destruct (recursiveDeselect_flags (as_folder fv) (as_folder fv) [] false
                (as_folder fv) eq_refl Hacc (shape_at_root _)) as [[Hsk Hacc'] Hf].
    repeat split; try done. intros r. rewrite Hf, within_root.
    unfold deselect_flag. destruct (decide (r = RFolder [])) as [->|E].
    + rewrite bool_decide_eq_true_2 by done. exact Hroot.
    + by rewrite bool_decide_eq_false_2.
Qed.

Lemma clearSelection_consistent fv :
  selection_consistent fv -> selection_consistent (clearSelection fv).
Proof.
  intros H. destruct (clearSelection_clears fv H) as (Hl & Hacc & _ & Hf).
  unfold selection_consistent. rewrite Hl. repeat split; try done.
  - apply NoDup_nil_2.
  - by intros ?%elem_of_nil.
  - intros Hr. by rewrite Hf in Hr.
Qed.

Lemma LLFolderView_setSelection_selects selection openitem take_keyboard_focus fv :
  selection_consistent fv ->
  (forall s, selection = Some s -> s <> root_ref /\ is_node (as_folder fv) s = true) ->
  let fv' := (LLFolderView_setSelection selection openitem take_keyboard_focus fv).1 in
  mSelectedItems fv' = option_list selection /\
  counts_accurate (as_folder fv') = true /\
  forall r, isSelected (as_folder fv') r = bool_decide (selection = Some r).
Proof.
  intros Hc Hsel. unfold LLFolderView_setSelection.
  rewrite bool_decide_eq_false_2; [|intros E; by destruct (Hsel _ E)].
  destruct (clearSelection_clears fv Hc) as (Hl & Hacc & Hsk & Hf).
  set (fv1 := clearSelection fv) in *.
  set (fv2 := match selection with Some s => addToSelectionList s fv1 | None => fv1 end).
  assert (H2 : as_folder fv2 = as_folder fv1 /\ mSelectedItems fv2 = option_list selection).
  { subst fv2. destruct selection as [s|]; [|done].
    unfold addToSelectionList. rewrite Hf. simpl. by rewrite Hl. }
  destruct H2 as [Ht2 Hl2]. clearbody fv2.
  destruct (Folder_setSelection_flags (as_folder fv2) selection (as_folder fv2) []
              openitem (as_folder fv2) eq_refl (shape_at_root _)) as [_ Hflags].
  assert (Hacc2 : counts_accurate (as_folder fv2) = true) by (by rewrite Ht2).
  apply (Folder_setSelection_accurate (as_folder fv2) [] selection openitem) in Hacc2.
  destruct (Folder_setSelection _ _ _ _ _) as [t rv]. cbn [fst] in Hflags, Hacc2.
  assert (Hfinal : forall r, isSelected t r = bool_decide (selection = Some r)).
  { intros r. rewrite Hflags, within_root. unfold setSelection_flag.
    rewrite Ht2, Hf. simpl. rewrite orb_true_r, andb_true_r.
    destruct (decide (selection = Some r)) as [E|E];
      [|by rewrite bool_decide_eq_false_2].
    rewrite bool_decide_eq_true_2 by done. simpl.
    destruct (Hsel r E) as [_ Hn]. by rewrite (is_node_skeleton _ _ _ Hsk). }
  simpl. split; [exact Hl2|].
  destruct selection as [s|]; [|done].
  destruct openitem; [|done].
  destruct (getParentFolder s); [|done].
  split; [by rewrite requestArrange_at_accurate|].
  intros r. by rewrite isSelected_requestArrange_at.
Qed.

Lemma single_selection_consistent selection fv :
  mSelectedItems fv = option_list selection ->
  counts_accurate (as_folder fv) = true ->
  (forall r, isSelected (as_folder fv) r = bool_decide (selection = Some r)) ->
  selection <> Some root_ref ->
  selection_consistent fv.
Proof.
  intros Hl Hacc Hf Hroot.
  unfold selection_consistent. rewrite Hl. split; [done|]. split; [|split].
  - destruct selection; [apply NoDup_singleton|apply NoDup_nil_2].
  - rewrite Hf. by apply bool_decide_eq_false_2.
  - intros r. rewrite Hf, bool_decide_eq_true. destruct selection as [s|]; simpl.
    + rewrite list_elem_of_singleton. split; [by intros ->|by intros [= ->]].
    + split; [by intros ?%elem_of_nil|done].
Qed.

Lemma is_node_deselected t t' r :
  deselected t' = deselected t -> is_node t' r = is_node t r.
Proof.
  intros H. apply (f_equal (fun x => node_at x r)) in H.
  unfold deselected in H. rewrite !node_at_tmap in H. unfold is_node.
  by destruct (node_at t' r), (node_at t r).
Qed.

Lemma is_node_prefix t p q :
  is_Some (get_folder t (p ++ q)) -> is_node t (RFolder p) = true.
Proof.
  rewrite get_folder_app. unfold is_node. simpl.
  destruct (get_folder t p); [done|]. by intros [? ?].
Qed.

Lemma up_from_rev_prefix rp q : q ∈ up_from_rev rp -> q `prefix_of` rev rp.
Proof.
  induction rp as [|i rp IH]; simpl.
  - by intros ->%list_elem_of_singleton.
  - intros [->|Hq]%elem_of_cons; [done|].
    etrans; [by apply IH|]. by apply prefix_app_r.
Qed.

Lemma parent_chain_is_node t r q :
  is_node t r = true -> q ∈ parent_chain r -> is_node t (RFolder q) = true.
Proof.
  intros Hr Hq. apply is_node_folder_path in Hr. unfold parent_chain in Hq.
  destruct (getParentFolder r) as [p|] eqn:Hp; [|by apply elem_of_nil in Hq].
  apply up_from_rev_prefix in Hq. rewrite rev_involutive in Hq.
  assert (Hpre : p `prefix_of` folder_path r).
  { destruct r as [[|i r']|r' j]; simpl in *; simplify_eq; [|done].
    exists [List.last (i :: r') 0%nat]. apply app_removelast_last. done. }
  destruct Hq as [k1 ->]. destruct Hpre as [k2 Hk2].
  rewrite Hk2, <- app_assoc in Hr. by apply is_node_prefix in Hr.
Qed.

Lemma fallback_selection_in_chain fv o n :
  fallback_selection fv o = Some n ->
  exists q, n = RFolder q /\ q ∈ parent_chain o.
Proof.
  unfold fallback_selection.
  assert (Hgen : forall l init,
    (forall n, init = Some n -> exists q, n = RFolder q /\ q ∈ parent_chain o) ->
    (forall q, q ∈ l -> q ∈ parent_chain o) ->
    fold_left
      (fun new_selection parent_folder =>
         if potentiallyVisible fv (RFolder parent_folder) then
           let new_selection1 :=
             match new_selection with
             | None => Some (RFolder parent_folder)
             | Some _ => new_selection
             end in
           if negb (isOpen_at fv parent_folder) then Some (RFolder parent_folder)
           else new_selection1
         else new_selection) l init = Some n ->
    exists q, n = RFolder q /\ q ∈ parent_chain o).
  { induction l as [|x l IH]; intros init Hinit Hl; [by apply Hinit|].
    cbn [fold_left]. apply IH; [|intros q Hq; apply Hl; by right].
    assert (Hx : x ∈ parent_chain o) by (apply Hl; by left).
    intros n'. destruct (potentiallyVisible fv (RFolder x)); [|by apply Hinit].
    cbv zeta. destruct (negb (isOpen_at fv x)).
    - intros [= <-]. by exists x.
    - destruct init; [by apply Hinit|]. intros [= <-]. by exists x. }
  apply Hgen; [done|done].
Qed.


Lemma shape_at_folder t this g : get_folder t this = Some g -> shape_at t this g.
Proof. intros H. unfold shape_at, skeleton. by rewrite get_folder_tmap, H. Qed.

Lemma LLFolderView_changeSelection_flags s selected fv :
  selection_consistent fv -> s <> root_ref -> is_node (as_folder fv) s = true ->
  selection_consistent (LLFolderView_changeSelection (Some s) selected fv).1 /\
  forall r, isSelected (as_folder (LLFolderView_changeSelection (Some s) selected fv).1) r =
    if bool_decide (r = s) then selected
    else if mAllowMultiSelect fv then isSelected (as_folder fv) r else false.
Proof.
  intros Hc Hs Hnode. unfold LLFolderView_changeSelection.
  rewrite bool_decide_eq_false_2 by done. cbv zeta.
  set (fv1 := if mAllowMultiSelect fv then fv else clearSelection fv).
  assert (H1 : selection_consistent fv1 /\
               skeleton (as_folder fv1) = skeleton (as_folder fv) /\
               forall r, isSelected (as_folder fv1) r =
                 if mAllowMultiSelect fv then isSelected (as_folder fv) r else false).
  { subst fv1. destruct (mAllowMultiSelect fv); [done|].
    destruct (clearSelection_clears fv Hc) as (_ & _ & Hsk & Hf).
    split; [by apply clearSelection_consistent|done]. }
  clearbody fv1. destruct H1 as ((Hacc1 & Hnd1 & Hroot1 & Hlist1) & Hsk1 & Hf1).
  set (on_list := bool_decide (s ∈ mSelectedItems fv1)).
  set (fv2 := if selected && negb on_list then addToSelectionList s fv1 else fv1).
  set (fv3 := if negb selected && on_list then removeFromSelectionList s fv2 else fv2).
  assert (H3 : as_folder fv3 = as_folder fv1 /\ NoDup (mSelectedItems fv3) /\
               forall r, r ∈ mSelectedItems fv3 <->
                 if bool_decide (r = s) then selected = true
                 else r ∈ mSelectedItems fv1).
  { subst fv3 fv2 on_list.
    destruct (decide (s ∈ mSelectedItems fv1)) as [Hin|Hin];
      [rewrite (bool_decide_eq_true_2 _ Hin)|rewrite (bool_decide_eq_false_2 _ Hin)];
      destruct selected; simpl.
    - split; [done|]. split; [done|]. intros r.
      destruct (decide (r = s)) as [->|E];
        [by rewrite bool_decide_eq_true_2|by rewrite bool_decide_eq_false_2].
    - unfold removeFromSelectionList. simpl.
      split; [done|]. split.
      { clear -Hnd1. induction Hnd1 as [|x l Hx _ IH]; simpl; [constructor|].
        destruct (negb (bool_decide (x = s))); [|done].
        constructor; [|done]. intros Hx'. apply Hx.
        apply list_elem_of_In in Hx'. apply filter_In in Hx' as [Hx' _].
        by apply list_elem_of_In. }
      intros r. rewrite list_elem_of_In, filter_In, <- list_elem_of_In.
      destruct (decide (r = s)) as [->|E].
      + rewrite !bool_decide_eq_true_2 by done. simpl. split; [by intros [_ ?]|done].
      + rewrite !bool_decide_eq_false_2 by done. simpl. tauto.
    - unfold addToSelectionList.
      assert (Hns : isSelected (as_folder fv1) s = false).
      { apply not_true_is_false. intros Hsel. by apply Hlist1 in Hsel. }
      rewrite Hns. simpl. split; [done|]. split.
      { apply NoDup_app. split; [done|]. split; [|apply NoDup_singleton].
        intros x Hx ->%list_elem_of_singleton. done. }
      intros r. rewrite elem_of_app, list_elem_of_singleton.
      destruct (decide (r = s)) as [->|E].
      + rewrite bool_decide_eq_true_2 by done. tauto.
      + rewrite bool_decide_eq_false_2 by done. tauto.
    - split; [done|]. split; [done|]. intros r.
      destruct (decide (r = s)) as [->|E];
        [by rewrite bool_decide_eq_true_2|by rewrite bool_decide_eq_false_2]. }
  clearbody fv3. clear fv2 on_list. destruct H3 as (Ht3 & Hnd3 & Hlist3).
  destruct (Folder_changeSelection_flags (as_folder fv3) s selected (as_folder fv3) []
              (as_folder fv3) eq_refl (shape_at_root _)) as [_ Hflags].
  assert (Hacc3 : counts_accurate (as_folder fv3) = true) by (by rewrite Ht3).
  apply (Folder_changeSelection_accurate (as_folder fv3) [] s selected) in Hacc3.
  destruct (Folder_changeSelection _ _ _ _ _) as [t rv]. cbn [fst] in *.
  assert (Hfinal : forall r, isSelected t r =
            if bool_decide (r = s) then selected else isSelected (as_folder fv1) r).
  { intros r. rewrite Hflags, within_root. unfold changeSelection_flag. rewrite Ht3.
    destruct (bool_decide (r = s)) eqn:E; [|done].
    apply bool_decide_eq_true in E as ->.
    by rewrite (is_node_skeleton _ _ _ Hsk1), Hnode, andb_true_r. }
  simpl. split.
  - unfold selection_consistent. simpl. split; [done|]. split; [done|]. split.
    + rewrite Hfinal. unfold root_ref in *. by rewrite bool_decide_eq_false_2.
    + intros r. rewrite Hlist3, Hfinal.
      destruct (bool_decide (r = s)); [done|apply Hlist1].
  - intros r. rewrite Hfinal, Hf1. done.
Qed.

Lemma fold_changeSelection_consistent l : forall fv,
  selection_consistent fv ->
  (forall x, x ∈ l -> is_node (as_folder fv) x = true) ->
  selection_consistent
    (fold_left (fun fv item => (LLFolderView_changeSelection (Some item) false fv).1) l fv)
  /\ same_state fv
    (fold_left (fun fv item => (LLFolderView_changeSelection (Some item) false fv).1) l fv).
Proof.
  induction l as [|x l IH]; intros fv Hc Hl; [split; [done|apply same_state_refl]|].
  cbn [fold_left].
  pose proof (LLFolderView_changeSelection_same (Some x) false fv) as Hsame.
  assert (Hc' : selection_consistent (LLFolderView_changeSelection (Some x) false fv).1).
  { destruct (decide (x = root_ref)) as [->|Hx].
    - unfold LLFolderView_changeSelection. by rewrite bool_decide_eq_true_2.
    - apply LLFolderView_changeSelection_flags; [done|done|]. apply Hl. by left. }
  destruct (IH _ Hc') as [Hc'' Hsame''].
  { intros y Hy. rewrite (is_node_deselected (as_folder fv)); [|apply Hsame].
    apply Hl. by right. }
  split; [done|]. by eapply same_state_trans.
Qed.

(** *** What the selection operations do to the flags *)

(** X1.  LLFolderViewFolder::setSelection, run on a folder of the tree, leaves
    the flags outside the subtree of that folder alone.  Inside it, a folder
    ends selected exactly when it is the selection, and a leaf exactly when
    it is the selection and was not selected before: a leaf that is the
    selection and is selected already gets deselected. *)
Theorem setSelection_marks_the_selection t this g selection openitem r :
  get_folder t this = Some g ->
  isSelected (Folder_setSelection g this selection openitem t).1 r =
    if within this r
    then bool_decide (selection = Some r) && is_node t r &&
         (is_folder r || negb (isSelected t r))
    else isSelected t r.
Proof.
  intros Hg.
  by destruct (Folder_setSelection_flags t selection g this openitem t eq_refl
                 (shape_at_folder t this g Hg)) as [_ ->].
Qed.

(** X2.  LLFolderViewFolder::changeSelection, run on a folder of the tree,
    changes the flag of no node but the selection: the selection, when it is
    a node of the subtree, ends with the flag asked for, and every other
    flag of the tree stays as it was. *)
Theorem changeSelection_changes_one_flag t this g selection selected r :
  get_folder t this = Some g ->
  isSelected (Folder_changeSelection g this selection selected t).1 r =
    if within this r && bool_decide (r = selection)
    then selected && is_node t r
    else isSelected t r.
Proof.
  intros Hg.
  destruct (Folder_changeSelection_flags t selection selected g this t eq_refl
              (shape_at_folder t this g Hg)) as [_ ->].
  unfold changeSelection_flag. by destruct (within this r), (bool_decide _).
Qed.

(** X3.  On a tree whose counters of selected descendants are accurate,
    LLFolderViewFolder::recursiveDeselect leaves no node selected below the
    folder it runs on, deselects the folder itself when asked to, and
    changes no flag outside the subtree; the early return on a counter of
    zero loses nothing. *)
Theorem recursiveDeselect_clears_the_subtree t this g deselect_self r :
  counts_accurate t = true ->
  get_folder t this = Some g ->
  isSelected (recursiveDeselect g this deselect_self t) r =
    if within this r && (deselect_self || negb (bool_decide (r = RFolder this)))
    then false
    else isSelected t r.
Proof.
  intros Hacc Hg.
  destruct (recursiveDeselect_flags t g this deselect_self t eq_refl Hacc
              (shape_at_folder t this g Hg)) as [_ ->].
  unfold deselect_flag.
  by destruct (within this r), (bool_decide (r = RFolder this)), deselect_self.
Qed.

(** X4.  LLFolderView::clearSelection on a view whose selection list and
    flags agree empties the list and leaves no node of the tree selected,
    with the counters still accurate. *)
Theorem clearSelection_deselects_everything fv :
  selection_consistent fv ->
  mSelectedItems (clearSelection fv) = [] /\
  counts_accurate (as_folder (clearSelection fv)) = true /\
  forall r, isSelected (as_folder (clearSelection fv)) r = false.
Proof.
  intros Hc. destruct (clearSelection_clears fv Hc) as (Hl & Hacc & _ & Hf). done.
Qed.

(** X5.  LLFolderView::setSelection on a view whose selection list and
    flags agree, with a node other than the root (or no node) as the
    selection: afterwards the list holds the selection and nothing else,
    exactly the selection is flagged, and list and flags agree again. *)
Theorem view_setSelection_selects_exactly selection openitem take_keyboard_focus fv :
  selection_consistent fv ->
  (forall s, selection = Some s -> s <> root_ref /\ is_node (as_folder fv) s = true) ->
  let fv' := (LLFolderView_setSelection selection openitem take_keyboard_focus fv).1 in
  mSelectedItems fv' = option_list selection /\
  (forall r, isSelected (as_folder fv') r = bool_decide (selection = Some r)) /\
  selection_consistent fv'.
Proof.
  intros Hc Hsel fv'.
  destruct (LLFolderView_setSelection_selects selection openitem take_keyboard_focus
              fv Hc Hsel) as (Hl & Hacc & Hf).
  fold fv' in Hl, Hacc, Hf. split; [done|]. split; [done|].
  apply (single_selection_consistent selection); try done.
  intros E. by destruct (Hsel _ E).
Qed.

(** X6.  LLFolderView::changeSelection on a view whose selection list and
    flags agree, with a node other than the root: the node ends with the
    flag asked for; the other flags stay as they were when the view allows
    multiple selection and are cleared when it does not; and list and flags
    agree again. *)
Theorem view_changeSelection_keeps_list_and_flags s selected fv :
  selection_consistent fv -> s <> root_ref -> is_node (as_folder fv) s = true ->
  let fv' := (LLFolderView_changeSelection (Some s) selected fv).1 in
  selection_consistent fv' /\
  forall r, isSelected (as_folder fv') r =
    if bool_decide (r = s) then selected
    else if mAllowMultiSelect fv then isSelected (as_folder fv) r else false.
Proof.
  intros Hc Hs Hnode. by apply LLFolderView_changeSelection_flags.
Qed.

(** X7.  LLFolderView::sanitizeSelection keeps the selection list and the
    flags in agreement: on a view where they agree, and whose id index
    holds a node of the tree for the inventory root folder id, they agree
    again afterwards, whichever nodes were deselected and whichever
    fallback was selected. *)
Theorem sanitizeSelection_keeps_list_and_flags root_folder_id fv :
  selection_consistent fv ->
  (forall n, getItemByID fv root_folder_id = Some n ->
             is_node (as_folder fv) n = true) ->
  selection_consistent (sanitizeSelection root_folder_id fv).
Proof.
  intros Hc Hid. unfold sanitizeSelection. cbv zeta.
  destruct (fold_changeSelection_consistent
              (items_to_remove fv (show_all_folders fv)) fv Hc) as [Hc1 Hsame].
  { intros x Hx. apply items_to_remove_selected in Hx.
    apply isSelected_is_node. by apply Hc. }
  set (fv1 := fold_left _ _ fv) in *.
  destruct (mSelectedItems fv1) eqn:Hl1; [|done].
  set (new_selection := match getCurSelectedItem fv with
                        | Some o => fallback_selection fv1 o
                        | None => getItemByID fv1 root_folder_id
                        end).
  assert (Hnew : forall n, new_selection = Some n -> is_node (as_folder fv1) n = true).
  { intros n. subst new_selection.
    rewrite (is_node_deselected (as_folder fv)) by apply Hsame.
    destruct (getCurSelectedItem fv) as [o|] eqn:Ho.
    - intros (q & -> & Hq)%fallback_selection_in_chain.
      apply (parent_chain_is_node _ o); [|done].
      apply isSelected_is_node, Hc. unfold getCurSelectedItem in Ho.
      apply last_Some in Ho as [l' ->]. apply elem_of_app. right.
      by apply list_elem_of_singleton.
    - rewrite (getItemByID_same fv fv1) by done. apply Hid. }
  destruct new_selection as [n|]; [|done].
  destruct (decide (n = root_ref)) as [->|Hn].
  - unfold LLFolderView_setSelection. by rewrite bool_decide_eq_true_2.
  - destruct (LLFolderView_setSelection_selects (Some n) false false fv1 Hc1)
      as (Hl & Hacc & Hf).
    { intros s [= <-]. split; [done|]. by apply Hnew. }
    apply (single_selection_consistent (Some n)); try done. by intros [= ->].
Qed.

End SelectionSemantics.

(** ** Opening and closing folders *)

Section OpenFacts.

Variable virtual_call : bool.

(** The members of the folders after a write at one position, and after a
    walk up to the root. *)
Lemma members_alter_members h : forall p q t,
  members <$> get_folder (alter_members h p t) q =
  (fun d => if bool_decide (q = p) then h d else d) <$> (members <$> get_folder t q).
Proof.
  unfold alter_members.
  induction p as [|i p IH]; intros q [b d fs its].
  - destruct q as [|k q]; [done|]. simpl.
    destruct (fs !! k) as [c|]; [|done]. simpl. by destruct (get_folder c q).
  - rewrite alter_folder_step. destruct q as [|k q]; [done|].
    rewrite !get_folder_step. destruct (decide (k = i)) as [->|Hk].
    + rewrite list_lookup_alter_eq. destruct (fs !! i) as [c|]; [|done]. simpl.
      rewrite IH. destruct (get_folder c q) as [g|]; [|done]. simpl.
      destruct (decide (q = p)) as [->|E].
      * by rewrite !bool_decide_eq_true_2.
      * rewrite !bool_decide_eq_false_2; [done| |done]. by intros [= ?].
    + rewrite list_lookup_alter_ne by done.
      destruct (fs !! k) as [c|]; [|done]. destruct (get_folder c q) as [g|]; [|done].
      simpl. rewrite bool_decide_eq_false_2; [done|]. by intros [= ? ?].
Qed.

Lemma members_alter_members_to_root h : forall p q t,
  members <$> get_folder (alter_members_to_root h p t) q =
  (fun d => if bool_decide (q `prefix_of` p) then h d else d)
    <$> (members <$> get_folder t q).
Proof.
  induction p as [|i p IH]; intros q [b d fs its].
  - destruct q as [|k q]; [done|]. simpl.
    destruct (fs !! k) as [c|]; [|done]. simpl. by destruct (get_folder c q).
  - destruct q as [|k q].
    + done.
    + change (alter_members_to_root h (i :: p) (Folder b d fs its))
        with (Folder b (h d) (alter (alter_members_to_root h p) i fs) its).
      rewrite !get_folder_step. destruct (decide (k = i)) as [->|Hk].
      * rewrite list_lookup_alter_eq. destruct (fs !! i) as [c|]; [|done]. simpl.
        rewrite IH. destruct (get_folder c q) as [g|]; [|done]. simpl.
        destruct (decide (q `prefix_of` p)) as [E|E].
        -- rewrite !bool_decide_eq_true_2; [done| |done]. by apply prefix_cons.
        -- rewrite !bool_decide_eq_false_2; [done| |done].
           by intros ?%prefix_cons_inv_2.
      * rewrite list_lookup_alter_ne by done.
        destruct (fs !! k) as [c|]; [|done]. destruct (get_folder c q) as [g|]; [|done].
        simpl. rewrite bool_decide_eq_false_2; [done|].
        by intros ?%prefix_cons_inv_1.
Qed.

Lemma node_isOpen_members t r :
  node_isOpen t r =
  match r with
  | RFolder q => default false (mIsOpen <$> (members <$> get_folder t q))
  | RItem _ _ => false
  end.
Proof. destruct r as [q|q j]; [|done]. simpl. by destruct (get_folder t q). Qed.

Lemma node_isOpen_not_node t r : is_node t r = false -> node_isOpen t r = false.
Proof.
  unfold is_node. destruct r as [q|q j]; [|done]. simpl.
  by destruct (get_folder t q).
Qed.

Lemma node_isOpen_set_mIsOpen v p t r :
  node_isOpen (alter_members (set_mIsOpen v) p t) r =
  if bool_decide (r = RFolder p) && is_node t r then v else node_isOpen t r.
Proof.
  rewrite !node_isOpen_members. destruct r as [q|q j].
  - rewrite members_alter_members. unfold is_node. simpl.
    destruct (get_folder t q) as [g|]; simpl; [|by rewrite andb_false_r].
    rewrite andb_true_r. destruct (decide (q = p)) as [->|E].
    + by rewrite !bool_decide_eq_true_2.
    + rewrite !bool_decide_eq_false_2; [done| |done]. by intros [= ?].
  - done.
Qed.

Lemma node_isOpen_requestArrange_at p t r :
  node_isOpen (requestArrange_at p t) r = node_isOpen t r.
Proof.
  rewrite !node_isOpen_members. destruct r as [q|q j]; [|done].
  unfold requestArrange_at. rewrite members_alter_members_to_root.
  destruct (get_folder t q) as [g|]; [|done]. simpl. by destruct (bool_decide _).
Qed.

Lemma skeleton_requestArrange_at p t : skeleton (requestArrange_at p t) = skeleton t.
Proof. by apply tmap_requestArrange_at. Qed.

Lemma skeleton_set_mIsOpen v p t :
  skeleton (alter_members (set_mIsOpen v) p t) = skeleton t.
Proof. by apply tmap_alter_members. Qed.

(** The loops over the sub-folders, for any reading [obs] of the tree at its
    positions that reads [false] where there is no node. *)
Section Observed.

Variable obs : LLFolderViewFolder -> NodeRef -> bool.
Hypothesis obs_not_node : forall t r, is_node t r = false -> obs t r = false.

Lemma observed_folder_regions
    (step : nat -> LLFolderViewFolder -> LLFolderViewFolder -> LLFolderViewFolder)
    (A : nat -> NodeRef -> bool) (u : NodeRef -> bool -> bool)
    (Inv : LLFolderViewFolder -> Prop) cs :
  (forall k k' r, k <> k' -> A k r = true -> A k' r = false) ->
  forall i0,
  (forall k c t, cs !! k = Some c -> Inv t ->
     Inv (step (i0 + k)%nat c t) /\
     forall r, obs (step (i0 + k)%nat c t) r =
       if A (i0 + k)%nat r then u r (obs t r) else obs t r) ->
  forall t, Inv t ->
    Inv (for_each_folder step i0 cs t) /\
    forall r, obs (for_each_folder step i0 cs t) r =
      if existsb (fun k => A k r) (seq i0 (length cs))
      then u r (obs t r) else obs t r.
Proof.
  intros Hapart. induction cs as [|c cs IH]; intros i0 Hstep t Ht; [done|]. simpl.
  destruct (Hstep 0%nat c t eq_refl Ht) as [Hinv Hflags].
  rewrite Nat.add_0_r in Hinv, Hflags.
  destruct (IH (S i0)) with (t := step i0 c t) as [Hinv' Hflags']; [|done|].
  { intros k c' t' Hk Ht'. replace (S i0 + k)%nat with (i0 + S k)%nat by lia.
    by apply Hstep. }
  split; [done|]. intros r. rewrite Hflags', Hflags.
  destruct (A i0 r) eqn:HA; simpl; [|done].
  assert (Hrest : existsb (fun k => A k r) (seq (S i0) (length cs)) = false).
  { apply not_true_is_false. intros Hex. apply existsb_exists in Hex as (k & Hk & HA').
    apply in_seq in Hk. rewrite (Hapart i0 k r) in HA'; [done|lia|done]. }
  by rewrite Hrest.
Qed.

Lemma observed_reach_to_within t0 t t' this shape (u : NodeRef -> bool -> bool) :
  skeleton t = skeleton t0 -> skeleton t' = skeleton t0 -> shape_at t this shape ->
  (forall r, is_node t0 r = false -> u r false = false) ->
  (forall r, obs t' r =
     if reach this (length (mFolders shape)) (length (mItems shape)) r
     then u r (obs t r) else obs t r) ->
  forall r, obs t' r = if within this r then u r (obs t r) else obs t r.
Proof.
  intros Ht Ht' Hshape Hu Hflags r.
  destruct (shape_at_get_folder _ _ _ Hshape) as (g & Hg & Hnf & Hni).
  destruct (is_node t0 r) eqn:Hr.
  - rewrite Hflags, <- Hnf, <- Hni. rewrite (reach_is_within t this g r); auto.
    by rewrite (is_node_skeleton t0 t r).
  - rewrite (obs_not_node t' r), (obs_not_node t r)
      by (by rewrite (is_node_skeleton t0)).
    rewrite Hu by done. by destruct (within this r).
Qed.

End Observed.

Lemma Folder_setOpenArrangeRecursively_down_unfold shape this openitem t :
  Folder_setOpenArrangeRecursively_down shape this openitem t =
  let was_open := node_isOpen t (RFolder this) in
  let t1 := alter_members (set_mIsOpen openitem) this t in
  let t2 := for_each_folder
              (fun i c t => Folder_setOpenArrangeRecursively_down c (this ++ [i]) openitem t)
              0%nat (mFolders shape) t1 in
  if eqb was_open (node_isOpen t2 (RFolder this)) then t2 else requestArrange_at this t2.
Proof. by destruct shape. Qed.

Lemma open_flag_not_node t0 v r : is_node t0 r = false -> open_flag t0 v r false = false.
Proof. unfold open_flag. intros ->. by rewrite andb_false_r. Qed.

Lemma set_mIsOpen_flags t0 v this t :
  skeleton t = skeleton t0 ->
  forall r, node_isOpen (alter_members (set_mIsOpen v) this t) r =
    if bool_decide (r = RFolder this) then open_flag t0 v r (node_isOpen t r)
    else node_isOpen t r.
Proof.
  intros Ht r. rewrite node_isOpen_set_mIsOpen. unfold open_flag.
  rewrite (is_node_skeleton t0 t) by done.
  destruct (decide (r = RFolder this)) as [->|E].
  - rewrite bool_decide_eq_true_2 by done. simpl.
    by destruct (is_node t0 (RFolder this)).
  - by rewrite bool_decide_eq_false_2.
Qed.

Lemma Folder_setOpenArrangeRecursively_down_flags t0 v shape : forall this t,
  skeleton t = skeleton t0 -> shape_at t this shape ->
  skeleton (Folder_setOpenArrangeRecursively_down shape this v t) = skeleton t0 /\
  forall r, node_isOpen (Folder_setOpenArrangeRecursively_down shape this v t) r =
    if within this r then open_flag t0 v r (node_isOpen t r) else node_isOpen t r.
Proof.
  induction shape as [b d fs its IH] using Folder_ind'.
  intros this t Ht Hshape. rewrite Folder_setOpenArrangeRecursively_down_unfold. cbv zeta.
  set (t1 := alter_members (set_mIsOpen v) this t).
  assert (Hsk1 : skeleton t1 = skeleton t0) by (subst t1; by rewrite skeleton_set_mIsOpen).
  pose proof (set_mIsOpen_flags t0 v this t Ht) as Hf1. fold t1 in Hf1.
  set (t2 := for_each_folder _ _ _ t1).
  assert (H2 : skeleton t2 = skeleton t0 /\
    forall r, node_isOpen t2 r =
      if existsb (fun k => within (this ++ [k]) r) (seq 0 (length fs))
      then open_flag t0 v r (node_isOpen t1 r) else node_isOpen t1 r).
  { subst t2. simpl.
    apply (observed_folder_regions node_isOpen _ (fun k => within (this ++ [k]))
             (open_flag t0 v) (fun t => skeleton t = skeleton t0));
      [apply within_child_apart| |done].
    intros k c t' Hk Ht'. simpl.
    apply (proj1 (Forall_lookup _ _) IH k c Hk); [done|].
    apply (shape_at_child _ _ (Folder b d fs its)); [|done].
    apply (shape_at_skeleton t); [congruence|done]. }
  destruct H2 as [Hsk2 Hf2].
  assert (Hres : forall t', skeleton t' = skeleton t0 ->
            (forall r, node_isOpen t' r = node_isOpen t2 r) ->
            skeleton t' = skeleton t0 /\
            forall r, node_isOpen t' r =
              if within this r then open_flag t0 v r (node_isOpen t r)
              else node_isOpen t r).
  { intros t' Hsk' Hf'. split; [done|].
    apply (observed_reach_to_within node_isOpen node_isOpen_not_node t0 t t' this
             (Folder b d fs its)); auto using open_flag_not_node.
    simpl. apply (traversal_flags this _ _ _ (node_isOpen t) (node_isOpen t1)
                    (node_isOpen t2)); [done|done|].
    intros r. rewrite Hf'. destruct (existsb _ _) eqn:E; [|done].
    apply existsb_exists in E as (j & _ & ->%bool_decide_eq_true). done. }
  destruct (eqb _ _).
  - by apply Hres.
  - apply Hres; [by rewrite skeleton_requestArrange_at|].
    intros r. apply node_isOpen_requestArrange_at.
Qed.

Lemma prefix_snoc_cases (q l : list nat) x :
  q `prefix_of` l ++ [x] <-> q = l ++ [x] \/ q `prefix_of` l.
Proof.
  split.
  - intros [k Hk]. induction k as [|y k' _] using rev_ind.
    + left. by rewrite app_nil_r in Hk.
    + right. rewrite app_assoc in Hk. apply app_inj_tail in Hk as [-> _].
      by exists k'.
  - intros [->|Hq]; [done|]. by apply prefix_app_r.
Qed.

Lemma make_root_open_alter t : make_root_open t = alter_members (set_mIsOpen true) [] t.
Proof. done. Qed.

Lemma node_isOpen_make_root_open t q :
  node_isOpen (make_root_open t) (RFolder q) =
  bool_decide (q = []) || node_isOpen t (RFolder q).
Proof.
  rewrite make_root_open_alter, node_isOpen_set_mIsOpen.
  destruct (decide (q = [])) as [->|E].
  - by rewrite !bool_decide_eq_true_2.
  - rewrite !bool_decide_eq_false_2; [done|done|by intros [= ?]].
Qed.

Lemma skeleton_make_root_open t : skeleton (make_root_open t) = skeleton t.
Proof. rewrite make_root_open_alter. apply skeleton_set_mIsOpen. Qed.

Lemma Folder_setOpenArrangeRecursively_up_flags t0 v : forall rp t,
  skeleton t = skeleton t0 ->
  skeleton (Folder_setOpenArrangeRecursively_up virtual_call rp v t) = skeleton t0 /\
  forall q, node_isOpen (Folder_setOpenArrangeRecursively_up virtual_call rp v t)
              (RFolder q) =
    if bool_decide (q `prefix_of` rev rp) && is_node t0 (RFolder q)
    then v || virtual_call && bool_decide (q = [])
    else node_isOpen t (RFolder q).
Proof.
  induction rp as [|i rp IH]; intros t Ht.
  - cbn [Folder_setOpenArrangeRecursively_up rev].
    assert (Hres : forall t', skeleton t' = skeleton t0 ->
              (forall r, node_isOpen t' r =
                         node_isOpen (alter_members (set_mIsOpen v) [] t) r) ->
              skeleton (if virtual_call then make_root_open t' else t') = skeleton t0 /\
              forall q, node_isOpen (if virtual_call then make_root_open t' else t')
                          (RFolder q) =
                if bool_decide (q `prefix_of` []) && is_node t0 (RFolder q)
                then v || virtual_call && bool_decide (q = [])
                else node_isOpen t (RFolder q)).
    { intros t' Hsk' Hf'. split.
      { destruct virtual_call; [by rewrite skeleton_make_root_open|done]. }
      intros q.
      assert (Hq : node_isOpen t' (RFolder q) =
                if bool_decide (q = []) then v else node_isOpen t (RFolder q)).
      { rewrite Hf', node_isOpen_set_mIsOpen, (is_node_skeleton t0 t) by done.
        destruct (decide (q = [])) as [->|E].
        - by rewrite !bool_decide_eq_true_2.
        - rewrite !bool_decide_eq_false_2; [done|done|by intros [= ?]]. }
      assert (Hroot : is_node t0 (RFolder []) = true) by done.
      destruct (decide (q = [])) as [->|E].
      - rewrite !bool_decide_eq_true_2 in * by done. rewrite Hroot. cbn [andb].
        destruct virtual_call.
        + rewrite node_isOpen_make_root_open. by rewrite orb_true_r.
        + rewrite Hq. by rewrite orb_false_r.
      - rewrite (bool_decide_eq_false_2 (q `prefix_of` []))
          by (by intros ?%prefix_nil_inv).
        rewrite (bool_decide_eq_false_2 _ E) in Hq. cbn [andb].
        destruct virtual_call; [|done].
        by rewrite node_isOpen_make_root_open, (bool_decide_eq_false_2 _ E). }
    destruct (eqb _ _).
    + apply Hres; [by rewrite skeleton_set_mIsOpen|done].
    + apply Hres; [by rewrite skeleton_requestArrange_at, skeleton_set_mIsOpen|].
      intros r. apply node_isOpen_requestArrange_at.
  - cbn [Folder_setOpenArrangeRecursively_up]. cbn [rev].
    set (this := rev rp ++ [i]).
    set (t1 := alter_members (set_mIsOpen v) this t).
    assert (Hsk1 : skeleton t1 = skeleton t0) by (subst t1; by rewrite skeleton_set_mIsOpen).
    destruct (IH t1 Hsk1) as [Hsk2 Hf2].
    set (t2 := Folder_setOpenArrangeRecursively_up virtual_call rp v t1) in *.
    assert (Hthis : this <> []) by (subst this; by destruct (rev rp)).
    assert (Hres : forall t', skeleton t' = skeleton t0 ->
              (forall r, node_isOpen t' r = node_isOpen t2 r) ->
              skeleton t' = skeleton t0 /\
              forall q, node_isOpen t' (RFolder q) =
                if bool_decide (q `prefix_of` this) && is_node t0 (RFolder q)
                then v || virtual_call && bool_decide (q = [])
                else node_isOpen t (RFolder q)).
    { intros t' Hsk' Hf'. split; [done|]. intros q.
      rewrite Hf', Hf2. subst t1.
      rewrite node_isOpen_set_mIsOpen, (is_node_skeleton t0 t) by done.
      destruct (is_node t0 (RFolder q)); [|by rewrite !andb_false_r].
      rewrite !andb_true_r.
      destruct (decide (q `prefix_of` rev rp)) as [E|E].
      - rewrite (bool_decide_eq_true_2 _ E).
        rewrite (bool_decide_eq_true_2 (q `prefix_of` this)); [done|].
        apply prefix_snoc_cases. by right.
      - rewrite (bool_decide_eq_false_2 _ E).
        destruct (decide (q = this)) as [->|E'].
        + rewrite (bool_decide_eq_true_2 (RFolder this = RFolder this)) by done.
          rewrite (bool_decide_eq_true_2 (this `prefix_of` this)) by done.
          by rewrite (bool_decide_eq_false_2 _ Hthis), andb_false_r, orb_false_r.
        + rewrite (bool_decide_eq_false_2 (RFolder q = RFolder this))
            by (by intros [= ?]).
          rewrite (bool_decide_eq_false_2 (q `prefix_of` this)); [done|].
          intros [?|?]%prefix_snoc_cases; done. }
    destruct (eqb _ _).
    + by apply Hres.
    + apply Hres; [by rewrite skeleton_requestArrange_at|].
      intros r. apply node_isOpen_requestArrange_at.
Qed.

Lemma Folder_setOpenArrangeRecursively_flags t this g openitem recurse q :
  get_folder t this = Some g ->
  node_isOpen (Folder_setOpenArrangeRecursively virtual_call g this openitem recurse t)
    (RFolder q) =
    if is_node t (RFolder q) && reached_by recurse this q
    then openitem || ends_in_the_view virtual_call recurse this q
    else node_isOpen t (RFolder q).
Proof.
  intros Hg. pose proof (shape_at_folder t this g Hg) as Hshape.
  unfold Folder_setOpenArrangeRecursively. cbv zeta.
  set (t1 := alter_members (set_mIsOpen openitem) this t).
  assert (Hsk1 : skeleton t1 = skeleton t) by (subst t1; by rewrite skeleton_set_mIsOpen).
  set (t2 := match recurse with
             | RECURSE_DOWN | RECURSE_UP_DOWN => for_each_folder _ _ _ t1
             | _ => t1
             end).
  assert (H2 : skeleton t2 = skeleton t /\
    forall r, node_isOpen t2 r =
      if bool_decide (r = RFolder this) || recurses_down recurse && within this r
      then open_flag t openitem r (node_isOpen t r) else node_isOpen t r).
  { assert (Hno : skeleton t1 = skeleton t /\
      forall r, node_isOpen t1 r =
        if bool_decide (r = RFolder this) || false && within this r
        then open_flag t openitem r (node_isOpen t r) else node_isOpen t r).
    { split; [done|]. intros r. rewrite orb_false_r.
      by apply set_mIsOpen_flags. }
    assert (Hdown : let t2 := for_each_folder
                (fun i c t => Folder_setOpenArrangeRecursively_down c (this ++ [i])
                                openitem t) 0%nat (mFolders g) t1 in
      skeleton t2 = skeleton t /\
      forall r, node_isOpen t2 r =
        if bool_decide (r = RFolder this) || true && within this r
        then open_flag t openitem r (node_isOpen t r) else node_isOpen t r).
    { intros t2'.
      assert (H2 : skeleton t2' = skeleton t /\
        forall r, node_isOpen t2' r =
          if existsb (fun k => within (this ++ [k]) r) (seq 0 (length (mFolders g)))
          then open_flag t openitem r (node_isOpen t1 r) else node_isOpen t1 r).
      { subst t2'.
        apply (observed_folder_regions node_isOpen _ (fun k => within (this ++ [k]))
                 (open_flag t openitem) (fun t' => skeleton t' = skeleton t));
          [apply within_child_apart| |done].
        intros k c t' Hk Ht'. simpl.
        apply Folder_setOpenArrangeRecursively_down_flags; [done|].
        apply (shape_at_child _ _ g); [|done].
        by apply (shape_at_skeleton t). }
      destruct H2 as [Hsk2 Hf2]. split; [done|]. intros r.
      assert (Hw : bool_decide (r = RFolder this) || true && within this r
                   = within this r).
      { simpl. destruct (decide (r = RFolder this)) as [->|E].
        - rewrite bool_decide_eq_true_2 by done. symmetry.
          by apply bool_decide_eq_true_2.
        - by rewrite bool_decide_eq_false_2. }
      rewrite Hw. clear Hw. revert r.
      apply (observed_reach_to_within node_isOpen node_isOpen_not_node t t t2' this g);
        auto using open_flag_not_node.
      apply (traversal_flags this _ _ _ (node_isOpen t) (node_isOpen t1)
               (node_isOpen t2')); [by apply set_mIsOpen_flags|done|].
      intros r. destruct (existsb _ _) eqn:E; [|done].
      apply existsb_exists in E as (j & _ & ->%bool_decide_eq_true). done. }
    subst t2. destruct recurse; [exact Hno|exact Hno|exact Hdown|exact Hdown]. }
  clearbody t2. destruct H2 as [Hsk2 Hf2].
  set (t3 := match recurse, rev this with
             | RECURSE_UP, _ :: rp' | RECURSE_UP_DOWN, _ :: rp' =>
               Folder_setOpenArrangeRecursively_up virtual_call rp' openitem t2
             | _, _ => t2
             end).
  assert (H3 : skeleton t3 = skeleton t /\
    forall q', node_isOpen t3 (RFolder q') =
      if is_node t (RFolder q') && reached_by recurse this q'
      then openitem || ends_in_the_view virtual_call recurse this q'
      else node_isOpen t (RFolder q')).
  { assert (Hflag : forall q', node_isOpen t2 (RFolder q') =
        if is_node t (RFolder q') &&
           (bool_decide (q' = this)
            || recurses_down recurse && bool_decide (this `prefix_of` q'))
        then openitem else node_isOpen t (RFolder q')).
    { intros q'. rewrite Hf2. unfold open_flag, within. simpl.
      assert (Heq : bool_decide (RFolder q' = RFolder this) = bool_decide (q' = this)).
      { apply bool_decide_ext. split; [by intros [= ?]|by intros ->]. }
      rewrite Heq.
      destruct (is_node t (RFolder q')); simpl; [done|].
      by destruct (_ || _). }
    assert (Hno : skeleton t2 = skeleton t /\
      forall q', node_isOpen t2 (RFolder q') =
        if is_node t (RFolder q') &&
           (bool_decide (q' = this)
            || recurses_down recurse && bool_decide (this `prefix_of` q')
            || false && bool_decide (q' `prefix_of` this))
        then openitem || virtual_call && false && bool_decide (q' = [])
                         && negb (bool_decide (this = []))
        else node_isOpen t (RFolder q')).
    { split; [done|]. intros q'. rewrite Hflag.
      by rewrite andb_false_r, !orb_false_r. }
    assert (Hup : forall i rp', rev this = i :: rp' ->
      skeleton (Folder_setOpenArrangeRecursively_up virtual_call rp' openitem t2) = skeleton t /\
      forall q', node_isOpen (Folder_setOpenArrangeRecursively_up virtual_call rp' openitem t2)
                   (RFolder q') =
        if is_node t (RFolder q') &&
           (bool_decide (q' = this)
            || recurses_down recurse && bool_decide (this `prefix_of` q')
            || true && bool_decide (q' `prefix_of` this))
        then openitem || virtual_call && true && bool_decide (q' = [])
                         && negb (bool_decide (this = []))
        else node_isOpen t (RFolder q')).
    { intros i rp' Hrev.
      assert (Hthis : this = rev rp' ++ [i]).
      { rewrite <- (rev_involutive this), Hrev. done. }
      assert (Hne : this <> []) by (rewrite Hthis; by destruct (rev rp')).
      rewrite (bool_decide_eq_false_2 _ Hne). cbn [negb].
      destruct (Folder_setOpenArrangeRecursively_up_flags t openitem rp' t2 Hsk2)
        as [Hsk3 Hf3].
      split; [done|]. intros q'. rewrite Hf3, Hflag.
      destruct (is_node t (RFolder q')); [|by rewrite !andb_false_r].
      rewrite !andb_true_r, !andb_true_l.
      destruct (decide (q' `prefix_of` rev rp')) as [E|E].
      - rewrite (bool_decide_eq_true_2 _ E).
        rewrite (bool_decide_eq_true_2 (q' `prefix_of` this));
          [by rewrite orb_true_r|].
        rewrite Hthis. apply prefix_snoc_cases. by right.
      - rewrite (bool_decide_eq_false_2 _ E).
        assert (Hq' : q' <> []) by (intros ->; apply E, prefix_nil).
        rewrite (bool_decide_eq_false_2 _ Hq'), !andb_false_r, orb_false_r.
        destruct (decide (q' = this)) as [->|E'].
        + by rewrite !bool_decide_eq_true_2.
        + rewrite (bool_decide_eq_false_2 (q' `prefix_of` this));
            [by rewrite orb_false_r|].
          rewrite Hthis. intros [?|?]%prefix_snoc_cases; [|done].
          apply E'. by rewrite Hthis. }
    assert (Hroot : rev this = [] ->
      skeleton t2 = skeleton t /\
      forall q', node_isOpen t2 (RFolder q') =
        if is_node t (RFolder q') &&
           (bool_decide (q' = this)
            || recurses_down recurse && bool_decide (this `prefix_of` q')
            || true && bool_decide (q' `prefix_of` this))
        then openitem || virtual_call && true && bool_decide (q' = [])
                         && negb (bool_decide (this = []))
        else node_isOpen t (RFolder q')).
    { intros Hrev. split; [done|]. intros q'. rewrite Hflag.
      assert (Hthis : this = []).
      { apply (f_equal length) in Hrev. rewrite length_rev in Hrev.
        by destruct this. }
      rewrite Hthis. rewrite (bool_decide_eq_true_2 ([] = [])) by done.
      cbn [negb]. rewrite andb_false_r, orb_false_r.
      destruct (is_node t (RFolder q')); [|done].
      rewrite !andb_true_l. destruct (decide (q' = [])) as [->|E].
      - by rewrite !bool_decide_eq_true_2.
      - rewrite (bool_decide_eq_false_2 (q' `prefix_of` []));
          [by rewrite orb_false_r|].
        by intros ?%prefix_nil_inv. }
    subst t3. unfold reached_by, ends_in_the_view.
    destruct recurse; simpl recurses_up; try exact Hno;
      (destruct (rev this) as [|i rp'] eqn:Hrev;
       [by apply Hroot|by apply (Hup i rp')]). }
  clearbody t3. destruct H3 as [Hsk3 Hf3].
  destruct (eqb _ _); [apply Hf3|].
  rewrite node_isOpen_requestArrange_at. apply Hf3.
Qed.

(** *** What opening and closing leaves alone *)

Lemma Folder_setOpenArrangeRecursively_down_frame gi gd v shape :
  (forall d, gd (set_mLastArrangeGeneration (-1) d) = gd d) ->
  (forall d, gd (set_mIsOpen v d) = gd d) ->
  forall this t,
    tmap gi gd (Folder_setOpenArrangeRecursively_down shape this v t) = tmap gi gd t.
Proof.
  intros H1 H2. induction shape as [b d fs its IH] using Folder_ind'.
  intros this t. rewrite Folder_setOpenArrangeRecursively_down_unfold. cbv zeta.
  set (t1 := alter_members (set_mIsOpen v) this t).
  assert (Ht1 : tmap gi gd t1 = tmap gi gd t) by (by apply tmap_alter_members).
  set (t2 := for_each_folder _ _ _ t1).
  assert (Ht2 : tmap gi gd t2 = tmap gi gd t).
  { subst t2. apply (for_each_folder_inv (fun t' => tmap gi gd t' = tmap gi gd t));
      [|done].
    simpl. eapply Forall_impl; [exact IH|]. intros c Hc i s Hs. by rewrite Hc. }
  destruct (eqb _ _); [done|]. by rewrite tmap_requestArrange_at.
Qed.

Lemma tmap_make_root_open gi gd t :
  (forall d, gd (set_mIsOpen true d) = gd d) ->
  tmap gi gd (make_root_open t) = tmap gi gd t.
Proof. intros H. rewrite make_root_open_alter. by apply tmap_alter_members. Qed.

Lemma Folder_setOpenArrangeRecursively_up_frame gi gd v :
  (forall d, gd (set_mLastArrangeGeneration (-1) d) = gd d) ->
  (forall d, gd (set_mIsOpen v d) = gd d) ->
  (forall d, gd (set_mIsOpen true d) = gd d) ->
  forall rp t,
    tmap gi gd (Folder_setOpenArrangeRecursively_up virtual_call rp v t) = tmap gi gd t.
Proof.
  intros H1 H2 H3. induction rp as [|i rp IH]; intros t;
    cbn [Folder_setOpenArrangeRecursively_up].
  - destruct virtual_call; rewrite ?tmap_make_root_open by done;
      destruct (eqb _ _); rewrite ?tmap_requestArrange_at by done;
      by apply tmap_alter_members.
  - destruct (eqb _ _); rewrite ?tmap_requestArrange_at, ?IH by done;
      by apply tmap_alter_members.
Qed.

Lemma Folder_setOpenArrangeRecursively_frame gi gd v shape this recurse t :
  (forall d, gd (set_mLastArrangeGeneration (-1) d) = gd d) ->
  (forall d, gd (set_mIsOpen v d) = gd d) ->
  (forall d, gd (set_mIsOpen true d) = gd d) ->
  tmap gi gd (Folder_setOpenArrangeRecursively virtual_call shape this v recurse t)
  = tmap gi gd t.
Proof.
  intros H1 H2 H3. unfold Folder_setOpenArrangeRecursively. cbv zeta.
  set (t1 := alter_members (set_mIsOpen v) this t).
  assert (Ht1 : tmap gi gd t1 = tmap gi gd t) by (by apply tmap_alter_members).
  set (t2 := match recurse with
             | RECURSE_DOWN | RECURSE_UP_DOWN => for_each_folder _ _ _ t1
             | _ => t1
             end).
  assert (Ht2 : tmap gi gd t2 = tmap gi gd t).
  { assert (Hdown : tmap gi gd
              (for_each_folder
                 (fun i c t => Folder_setOpenArrangeRecursively_down c (this ++ [i]) v t)
                 0%nat (mFolders shape) t1) = tmap gi gd t).
    { apply (for_each_folder_inv (fun t' => tmap gi gd t' = tmap gi gd t)); [|done].
      apply Forall_forall. intros c _ i s Hs.
      by rewrite Folder_setOpenArrangeRecursively_down_frame. }
    subst t2. by destruct recurse. }
  clearbody t2.
  set (t3 := match recurse, rev this with
             | RECURSE_UP, _ :: rp' | RECURSE_UP_DOWN, _ :: rp' =>
               Folder_setOpenArrangeRecursively_up virtual_call rp' v t2
             | _, _ => t2
             end).
  assert (Ht3 : tmap gi gd t3 = tmap gi gd t).
  { subst t3. destruct recurse, (rev this);
      rewrite ?Folder_setOpenArrangeRecursively_up_frame; done. }
  clearbody t3. destruct (eqb _ _); [done|]. by rewrite tmap_requestArrange_at.
Qed.

(** X9.  LLFolderViewFolder::setOpenArrangeRecursively writes nothing but
    open flags and arrange requests: the shape of the tree, its items, the
    selection, the filter state and the heights are as before, with any
    recursion type. *)
Theorem setOpenArrangeRecursively_touches_open_state_only
    shape this openitem recurse t :
  without_open_state
    (Folder_setOpenArrangeRecursively virtual_call shape this openitem recurse t)
  = without_open_state t.
Proof.
  unfold without_open_state.
  set (gi := @id LLFolderViewItem). set (gd := without_open_members).
  set (v := openitem).
  assert (H1 : forall d, gd (set_mLastArrangeGeneration (-1) d) = gd d) by done.
  assert (H2 : forall d, gd (set_mIsOpen v d) = gd d) by done.
  assert (H3 : forall d, gd (set_mIsOpen true d) = gd d) by done.
  unfold Folder_setOpenArrangeRecursively. cbv zeta.
  set (t1 := alter_members (set_mIsOpen v) this t).
  assert (Ht1 : tmap gi gd t1 = tmap gi gd t) by (by apply tmap_alter_members).
  set (t2 := match recurse with
             | RECURSE_DOWN | RECURSE_UP_DOWN => for_each_folder _ _ _ t1
             | _ => t1
             end).
  assert (Ht2 : tmap gi gd t2 = tmap gi gd t).
  { assert (Hdown : tmap gi gd
              (for_each_folder
                 (fun i c t => Folder_setOpenArrangeRecursively_down c (this ++ [i]) v t)
                 0%nat (mFolders shape) t1) = tmap gi gd t).
    { apply (for_each_folder_inv (fun t' => tmap gi gd t' = tmap gi gd t)); [|done].
      apply Forall_forall. intros c _ i s Hs.
      by rewrite Folder_setOpenArrangeRecursively_down_frame. }
    subst t2. by destruct recurse. }
  clearbody t2.
  set (t3 := match recurse, rev this with
             | RECURSE_UP, _ :: rp' | RECURSE_UP_DOWN, _ :: rp' =>
               Folder_setOpenArrangeRecursively_up virtual_call rp' v t2
             | _, _ => t2
             end).
  assert (Ht3 : tmap gi gd t3 = tmap gi gd t).
  { subst t3. destruct recurse, (rev this);
      rewrite ?Folder_setOpenArrangeRecursively_up_frame; done. }
  clearbody t3. destruct (eqb _ _); [done|]. by rewrite tmap_requestArrange_at.
Qed.

Lemma skeleton_Folder_setOpenArrangeRecursively shape this v recurse t :
  skeleton (Folder_setOpenArrangeRecursively virtual_call shape this v recurse t)
  = skeleton t.
Proof. by apply Folder_setOpenArrangeRecursively_frame. Qed.

Lemma reached_by_itself recurse this : reached_by recurse this this = true.
Proof. unfold reached_by. by rewrite bool_decide_eq_true_2. Qed.

Lemma reached_by_no recurse this q :
  recurse = RECURSE_NO -> reached_by recurse this q = bool_decide (q = this).
Proof. intros ->. unfold reached_by. simpl. by rewrite !orb_false_r. Qed.

Lemma ends_in_the_view_no recurse this q :
  recurses_up recurse = false -> ends_in_the_view virtual_call recurse this q = false.
Proof. unfold ends_in_the_view. intros ->. by rewrite andb_false_r. Qed.

(** X8.  LLFolderViewFolder::setOpenArrangeRecursively, run on a folder of
    the tree, gives the open flag asked for to that folder, to every folder
    below it when it recurses down (RECURSE_DOWN, RECURSE_UP_DOWN), and to
    every folder above it when it recurses up (RECURSE_UP, RECURSE_UP_DOWN).
    The walk up ends on the root: the root gets the flag asked for as well,
    or is left open where the call on it runs the function of LLFolderView.
    The open flag of every other folder stays as it was. *)
Theorem setOpenArrangeRecursively_reaches t this g openitem recurse :
  get_folder t this = Some g ->
  let t' := Folder_setOpenArrangeRecursively virtual_call g this openitem recurse t in
  forall q, is_node t (RFolder q) = true ->
    (q = this -> node_isOpen t' (RFolder q) = openitem) /\
    (this `prefix_of` q -> recurses_down recurse = true ->
       node_isOpen t' (RFolder q) = openitem) /\
    (q `prefix_of` this -> recurses_up recurse = true -> q <> [] ->
       node_isOpen t' (RFolder q) = openitem) /\
    (q = [] -> this <> [] -> recurses_up recurse = true ->
       node_isOpen t' (RFolder q) = openitem || virtual_call) /\
    (reached_by recurse this q = false ->
       node_isOpen t' (RFolder q) = node_isOpen t (RFolder q)).
Proof.
  intros Hg t' q Hq. subst t'.
  rewrite (Folder_setOpenArrangeRecursively_flags t this g openitem recurse q Hg), Hq.
  rewrite andb_true_l. unfold reached_by, ends_in_the_view.
  split; [|split; [|split; [|split]]].
  - intros ->. rewrite (bool_decide_eq_true_2 (this = this)) by done. cbn [orb negb].
    destruct (decide (this = [])) as [E|E].
    + by rewrite (bool_decide_eq_true_2 _ E), !andb_false_r, orb_false_r.
    + by rewrite (bool_decide_eq_false_2 _ E), !andb_false_r, orb_false_r.
  - intros Hp ->. rewrite (bool_decide_eq_true_2 _ Hp), orb_true_r. cbn [orb andb].
    destruct (decide (q = [])) as [E|E].
    + assert (Hthis : this = []).
      { subst q. destruct Hp as [k Hk]. by destruct this. }
      by rewrite (bool_decide_eq_true_2 _ Hthis), !andb_false_r, orb_false_r.
    + by rewrite (bool_decide_eq_false_2 _ E), !andb_false_r, orb_false_r.
  - intros Hp -> E. rewrite (bool_decide_eq_true_2 _ Hp), !orb_true_r.
    by rewrite (bool_decide_eq_false_2 _ E), !andb_false_r, orb_false_r.
  - intros -> E ->.
    rewrite (bool_decide_eq_true_2 ([] `prefix_of` this)) by apply prefix_nil.
    rewrite !orb_true_r, (bool_decide_eq_true_2 ([] = [])) by done.
    by rewrite (bool_decide_eq_false_2 _ E), !andb_true_r.
  - by intros ->.
Qed.

(** X10.  LLFolderView::closeAllFolders leaves the root folder open and every
    other folder of the tree closed, and touches nothing but open flags and
    arrange requests. *)
Theorem closeAllFolders_closes_all_but_the_root fv :
  (forall q, node_isOpen (as_folder (closeAllFolders virtual_call fv)) (RFolder q)
             = bool_decide (q = [])) /\
  without_open_state (as_folder (closeAllFolders virtual_call fv))
  = without_open_state (as_folder fv).
Proof.
  unfold closeAllFolders, LLFolderView_setOpenArrangeRecursively. cbv zeta.
  set (t := as_folder fv).
  set (t' := Folder_setOpenArrangeRecursively virtual_call t [] false RECURSE_DOWN t).
  change (as_folder (set_as_folder ?x fv)) with x.
  rewrite make_root_open_alter. split.
  - intros q. rewrite node_isOpen_set_mIsOpen.
    destruct (decide (q = [])) as [->|E].
    + by rewrite !bool_decide_eq_true_2.
    + rewrite !bool_decide_eq_false_2; [|done|by intros [= ?]]. cbn [andb].
      subst t'. rewrite (Folder_setOpenArrangeRecursively_flags t [] t) by done.
      unfold reached_by. cbn [recurses_down recurses_up andb].
      rewrite (bool_decide_eq_true_2 ([] `prefix_of` q)) by apply prefix_nil.
      rewrite orb_true_r, andb_true_r, ends_in_the_view_no by done.
      destruct (is_node t (RFolder q)) eqn:Hn; [done|].
      by apply node_isOpen_not_node.
  - unfold without_open_state. rewrite tmap_alter_members by done.
    subst t'. by apply Folder_setOpenArrangeRecursively_frame.
Qed.

(** Two trees with the same open flags that differ in open flags and arrange
    requests only differ in arrange requests only. *)
Lemma same_open_state t' : forall t,
  (forall r, node_isOpen t' r = node_isOpen t r) ->
  without_open_state t' = without_open_state t ->
  tmap id (set_mLastArrangeGeneration 0) t' = tmap id (set_mLastArrangeGeneration 0) t.
Proof.
  induction t' as [b' d' fs' its' IH] using Folder_ind'. intros [b d fs its] Hf Hw.
  unfold without_open_state in Hw.
  pose proof (f_equal self Hw) as Hb. pose proof (f_equal members Hw) as Hd.
  pose proof (f_equal mFolders Hw) as Hfs. pose proof (f_equal mItems Hw) as Hits.
  cbn [tmap self members mFolders mItems] in Hb, Hd, Hfs, Hits. clear Hw.
  cbn [tmap]. f_equal.
  - exact Hb.
  - pose proof (Hf (RFolder [])) as Hopen. simpl in Hopen. unfold isOpen in Hopen.
    simpl in Hopen. destruct d, d'. unfold without_open_members in Hd.
    simpl in *. by simplify_eq.
  - apply list_eq. intros k. rewrite !list_lookup_fmap.
    apply (f_equal (fun l => l !! k)) in Hfs. rewrite !list_lookup_fmap in Hfs.
    destruct (fs' !! k) as [c'|] eqn:Hc', (fs !! k) as [c|] eqn:Hc; try done.
    simpl. f_equal. apply (proj1 (Forall_lookup _ _) IH k c' Hc').
    + intros [q|q j]; [|done]. pose proof (Hf (RFolder (k :: q))) as Hq.
      simpl in Hq. by rewrite Hc', Hc in Hq.
    + simpl in Hfs. by injection Hfs.
  - exact Hits.
Qed.

(** X11.  LLFolderViewFolder::toggleOpen run twice on the same folder brings
    the open flag of every folder back to what it was, and what it leaves
    behind differs from the tree it started from in arrange requests only;
    the folder is any but the root, or the root is open as the view keeps
    it. *)
Theorem toggleOpen_twice this t :
  this <> [] \/ node_isOpen t (RFolder []) = true ->
  (forall r, node_isOpen (toggleOpen virtual_call this (toggleOpen virtual_call this t)) r
             = node_isOpen t r) /\
  tmap id (set_mLastArrangeGeneration 0)
    (toggleOpen virtual_call this (toggleOpen virtual_call this t))
  = tmap id (set_mLastArrangeGeneration 0) t.
Proof.
  intros Hthis.
  assert (Hone : forall v t,
    skeleton (setOpen virtual_call this v t) = skeleton t /\
    without_open_state (setOpen virtual_call this v t) = without_open_state t /\
    forall q, node_isOpen (setOpen virtual_call this v t) (RFolder q) =
      if is_node t (RFolder q) && bool_decide (q = this)
      then v || virtual_call && bool_decide (this = [])
      else node_isOpen t (RFolder q)).
  { intros v t1. unfold setOpen. destruct (get_folder t1 this) as [g|] eqn:Hg.
    - cbv zeta.
      pose proof (skeleton_Folder_setOpenArrangeRecursively g this v RECURSE_NO t1)
        as Hsk.
      assert (Hw : without_open_state
                (Folder_setOpenArrangeRecursively virtual_call g this v RECURSE_NO t1)
              = without_open_state t1)
        by (by apply Folder_setOpenArrangeRecursively_frame).
      assert (Hf : forall q,
        node_isOpen (Folder_setOpenArrangeRecursively virtual_call g this v RECURSE_NO t1)
          (RFolder q) =
        if is_node t1 (RFolder q) && bool_decide (q = this) then v
        else node_isOpen t1 (RFolder q)).
      { intros q. rewrite (Folder_setOpenArrangeRecursively_flags t1 this g) by done.
        by rewrite reached_by_no, ends_in_the_view_no, orb_false_r. }
      set (t2 := Folder_setOpenArrangeRecursively virtual_call g this v RECURSE_NO t1)
        in *.
      destruct this as [|i this'].
      + destruct virtual_call.
        * split; [by rewrite skeleton_make_root_open|].
          split; [unfold without_open_state; by rewrite tmap_make_root_open|].
          intros q. rewrite node_isOpen_make_root_open, Hf.
          rewrite (bool_decide_eq_true_2 ([] = [])) by done.
          destruct (decide (q = [])) as [->|E].
          -- rewrite (bool_decide_eq_true_2 ([] = [])) by done.
             by rewrite orb_true_r.
          -- by rewrite !(bool_decide_eq_false_2 _ E), andb_false_r.
        * split; [done|]. split; [done|]. intros q. rewrite Hf.
          by rewrite orb_false_r.
      + split; [done|]. split; [done|]. intros q. rewrite Hf.
        rewrite (bool_decide_eq_false_2 (i :: this' = [])) by done.
        by rewrite andb_false_r, orb_false_r.
    - split; [done|]. split; [done|]. intros q.
      destruct (decide (q = this)) as [->|E].
      + unfold is_node. simpl. by rewrite Hg.
      + by rewrite bool_decide_eq_false_2, andb_false_r. }
  assert (Hflags : forall r,
    node_isOpen (toggleOpen virtual_call this (toggleOpen virtual_call this t)) r
    = node_isOpen t r).
  { intros [q|q j]; [|done]. unfold toggleOpen.
    destruct (Hone (negb (node_isOpen t (RFolder this))) t) as (Hsk1 & _ & Hf1).
    set (t1 := setOpen virtual_call this (negb (node_isOpen t (RFolder this))) t) in *.
    destruct (Hone (negb (node_isOpen t1 (RFolder this))) t1) as (_ & _ & Hf2).
    rewrite Hf2, !Hf1, (is_node_skeleton t t1) by done.
    rewrite (bool_decide_eq_true_2 (this = this)) by done.
    destruct (decide (q = this)) as [->|E].
    - rewrite bool_decide_eq_true_2 by done. rewrite !andb_true_r.
      destruct (is_node t (RFolder this)) eqn:Hn; [|done].
      destruct Hthis as [Hne|Hopen].
      + rewrite (bool_decide_eq_false_2 _ Hne), !andb_false_r, !orb_false_r.
        by rewrite negb_involutive.
      + destruct (decide (this = [])) as [->|Hne].
        * rewrite Hopen, (bool_decide_eq_true_2 ([] = [])) by done.
          by destruct virtual_call.
        * rewrite (bool_decide_eq_false_2 _ Hne), !andb_false_r, !orb_false_r.
          by rewrite negb_involutive.
    - by rewrite bool_decide_eq_false_2, !andb_false_r. }
  split; [exact Hflags|].
  assert (Hwo : without_open_state
                  (toggleOpen virtual_call this (toggleOpen virtual_call this t))
                = without_open_state t).
  { unfold toggleOpen.
    destruct (Hone (negb (node_isOpen t (RFolder this))) t) as (_ & Hw1 & _).
    set (t1 := setOpen virtual_call this (negb (node_isOpen t (RFolder this))) t) in *.
    destruct (Hone (negb (node_isOpen t1 (RFolder this))) t1) as (_ & Hw2 & _).
    congruence. }
  by apply same_open_state.
Qed.

(** *** Arrange requests follow the open flags *)

Lemma arrange_requested_members t q :
  arrange_requested t q =
  default false ((fun d => mLastArrangeGeneration d =? -1)
                   <$> (members <$> get_folder t q)).
Proof. unfold arrange_requested. by destruct (get_folder t q). Qed.

Lemma arrange_requested_set_mIsOpen v p t q :
  arrange_requested (alter_members (set_mIsOpen v) p t) q = arrange_requested t q.
Proof.
  rewrite !arrange_requested_members, members_alter_members.
  destruct (get_folder t q) as [g|]; [|done]. simpl. by destruct (bool_decide _).
Qed.

Lemma arrange_requested_requestArrange_at p t q :
  arrange_requested (requestArrange_at p t) q =
  is_node t (RFolder q) && bool_decide (q `prefix_of` p) || arrange_requested t q.
Proof.
  rewrite !arrange_requested_members. unfold requestArrange_at, is_node.
  rewrite members_alter_members_to_root. simpl.
  destruct (get_folder t q) as [g|]; [|done]. simpl. by destruct (bool_decide _).
Qed.

Lemma requests_follow_refl t : requests_follow t t.
Proof. by split; [|split]. Qed.

Lemma requests_follow_trans t1 t2 t3 :
  requests_follow t1 t2 -> requests_follow t2 t3 -> requests_follow t1 t3.
Proof.
  intros (Hs1 & Hm1 & Hc1) (Hs2 & Hm2 & Hc2). split; [congruence|]. split; [auto|].
  intros q q' Hne Hq'.
  destruct (decide (node_isOpen t2 (RFolder q) = node_isOpen t1 (RFolder q)))
    as [E|E].
  - apply (Hc2 q); [congruence|done].
  - apply Hm2. by apply (Hc1 q).
Qed.

(** The shared frame of the three functions: the flag is written, [t2] comes
    out of the recursive calls, and requestArrange() runs when the flag of
    the folder has changed. *)
Lemma requests_follow_wrap v this t t2 :
  requests_follow (alter_members (set_mIsOpen v) this t) t2 ->
  requests_follow t
    (if eqb (node_isOpen t (RFolder this)) (node_isOpen t2 (RFolder this))
     then t2 else requestArrange_at this t2).
Proof.
  intros (Hs & Hm & Hc). rewrite skeleton_set_mIsOpen in Hs.
  assert (Hm' : forall q, arrange_requested t q = true -> arrange_requested t2 q = true).
  { intros q Hq. apply Hm. by rewrite arrange_requested_set_mIsOpen. }
  assert (Hc' : forall q q', q <> this ->
            node_isOpen t2 (RFolder q) <> node_isOpen t (RFolder q) ->
            q' `prefix_of` q -> arrange_requested t2 q' = true).
  { intros q q' Hq Hne Hq'. apply (Hc q); [|done].
    rewrite node_isOpen_set_mIsOpen, bool_decide_eq_false_2; [done|].
    by intros [= ?]. }
  destruct (eqb _ _) eqn:Hsame.
  - split; [done|]. split; [done|]. intros q q' Hne Hq'.
    destruct (decide (q = this)) as [->|E]; [|by apply (Hc' q)].
    apply eqb_prop in Hsame. congruence.
  - split; [by rewrite skeleton_requestArrange_at|]. split.
    + intros q Hq. rewrite arrange_requested_requestArrange_at, (Hm' q Hq).
      by rewrite orb_true_r.
    + intros q q' Hne Hq'. rewrite node_isOpen_requestArrange_at in Hne.
      rewrite arrange_requested_requestArrange_at.
      destruct (decide (q = this)) as [->|E];
        [|by rewrite (Hc' q q' E Hne Hq'), orb_true_r].
      rewrite (bool_decide_eq_true_2 _ Hq'), andb_true_r.
      assert (Hn : is_node t2 (RFolder this) = true).
      { destruct (is_node t2 (RFolder this)) eqn:Hn; [done|]. exfalso. apply Hne.
        rewrite (node_isOpen_not_node t2) by done.
        rewrite (node_isOpen_not_node t); [done|].
        by rewrite <- (is_node_skeleton t t2). }
      destruct Hq' as [k ->].
      rewrite (is_node_prefix t2 q' k); [done|].
      by apply is_node_folder_path in Hn.
Qed.

Lemma Folder_setOpenArrangeRecursively_down_requests v shape : forall this t,
  requests_follow t (Folder_setOpenArrangeRecursively_down shape this v t).
Proof.
  induction shape as [b d fs its IH] using Folder_ind'. intros this t.
  rewrite Folder_setOpenArrangeRecursively_down_unfold. cbv zeta.
  apply (requests_follow_wrap v).
  apply (for_each_folder_inv
           (requests_follow (alter_members (set_mIsOpen v) this t)));
    [|apply requests_follow_refl].
  simpl. eapply Forall_impl; [exact IH|]. intros c Hc i s Hs.
  eapply requests_follow_trans; [exact Hs|apply Hc].
Qed.

Lemma Folder_setOpenArrangeRecursively_down_root v shape : forall this t,
  this <> [] ->
  node_isOpen (Folder_setOpenArrangeRecursively_down shape this v t) (RFolder [])
  = node_isOpen t (RFolder []).
Proof.
  induction shape as [b d fs its IH] using Folder_ind'. intros this t Hthis.
  rewrite Folder_setOpenArrangeRecursively_down_unfold. cbv zeta.
  set (t1 := alter_members (set_mIsOpen v) this t).
  assert (H1 : node_isOpen t1 (RFolder []) = node_isOpen t (RFolder [])).
  { subst t1. rewrite node_isOpen_set_mIsOpen, bool_decide_eq_false_2; [done|].
    by intros [= ?]. }
  set (t2 := for_each_folder _ _ _ t1).
  assert (H2 : node_isOpen t2 (RFolder []) = node_isOpen t (RFolder [])).
  { subst t2.
    apply (for_each_folder_inv
             (fun t' => node_isOpen t' (RFolder []) = node_isOpen t (RFolder [])));
      [|done].
    cbv beta. eapply Forall_impl; [exact IH|]. intros c Hc i s Hs. cbv beta in Hc.
    rewrite Hc; [done|]. by destruct this. }
  destruct (eqb _ _); [done|]. by rewrite node_isOpen_requestArrange_at.
Qed.

Lemma requests_follow_make_root_open t t' :
  node_isOpen t (RFolder []) = true ->
  requests_follow t t' -> requests_follow t (make_root_open t').
Proof.
  intros Hopen (Hs & Hm & Hc). split; [by rewrite skeleton_make_root_open|]. split.
  - intros q Hq. rewrite make_root_open_alter, arrange_requested_set_mIsOpen. auto.
  - intros q q' Hne Hq'.
    rewrite make_root_open_alter, arrange_requested_set_mIsOpen.
    rewrite node_isOpen_make_root_open in Hne.
    destruct (decide (q = [])) as [->|E].
    + rewrite bool_decide_eq_true_2 in Hne by done. by rewrite Hopen in Hne.
    + rewrite (bool_decide_eq_false_2 _ E) in Hne. by apply (Hc q).
Qed.

Lemma Folder_setOpenArrangeRecursively_up_requests v : forall rp t,
  node_isOpen t (RFolder []) = true ->
  requests_follow t (Folder_setOpenArrangeRecursively_up virtual_call rp v t).
Proof.
  induction rp as [|i rp IH]; intros t Hopen; cbn [Folder_setOpenArrangeRecursively_up].
  - assert (H : requests_follow t
        (if eqb (node_isOpen t (RFolder (rev [])))
              (node_isOpen (alter_members (set_mIsOpen v) (rev []) t) (RFolder (rev [])))
         then alter_members (set_mIsOpen v) (rev []) t
         else requestArrange_at (rev []) (alter_members (set_mIsOpen v) (rev []) t)))
      by apply (requests_follow_wrap v), requests_follow_refl.
    destruct virtual_call; [by apply requests_follow_make_root_open|done].
  - apply (requests_follow_wrap v), IH.
    rewrite node_isOpen_set_mIsOpen, bool_decide_eq_false_2; [done|].
    intros [= E]. cbn [rev] in E. by destruct (rev rp).
Qed.

(** X12.  Whatever LLFolderViewFolder::setOpenArrangeRecursively changes in
    a tree whose root is open, it asks for the arrangement to be redone:
    every folder whose open flag is different afterwards has an arrange
    request (mLastArrangeGeneration is -1), as has each folder above it up
    to the root; and no arrange request that was pending is lost. *)
Theorem setOpenArrangeRecursively_requests_arrange shape this openitem recurse t :
  node_isOpen t (RFolder []) = true ->
  let t' := Folder_setOpenArrangeRecursively virtual_call shape this openitem recurse t in
  (forall q, arrange_requested t q = true -> arrange_requested t' q = true) /\
  (forall q q', node_isOpen t' (RFolder q) <> node_isOpen t (RFolder q) ->
                q' `prefix_of` q -> arrange_requested t' q' = true).
Proof.
  intros Hopen t'.
  enough (H : requests_follow t t') by (destruct H as (_ & Hm & Hc); by split).
  subst t'. unfold Folder_setOpenArrangeRecursively. cbv zeta.
  apply (requests_follow_wrap openitem).
  set (t1 := alter_members (set_mIsOpen openitem) this t).
  set (t2 := match recurse with
             | RECURSE_DOWN | RECURSE_UP_DOWN => for_each_folder _ _ _ t1
             | _ => t1
             end).
  assert (H2 : requests_follow t1 t2 /\
               (this <> [] -> node_isOpen t2 (RFolder []) = true)).
  { assert (H1 : this <> [] -> node_isOpen t1 (RFolder []) = true).
    { intros Hthis. subst t1.
      rewrite node_isOpen_set_mIsOpen, bool_decide_eq_false_2; [done|].
      by intros [= ?]. }
    assert (Hdown : let t2 := for_each_folder
                 (fun i c t => Folder_setOpenArrangeRecursively_down c (this ++ [i])
                                 openitem t)
                 0%nat (mFolders shape) t1 in
              requests_follow t1 t2 /\
              (this <> [] -> node_isOpen t2 (RFolder []) = true)).
    { apply (for_each_folder_inv
               (fun t2 => requests_follow t1 t2 /\
                          (this <> [] -> node_isOpen t2 (RFolder []) = true)));
        [|split; [apply requests_follow_refl|exact H1]].
      apply Forall_forall. intros c _ i s [Hs Hroot]. split.
      - eapply requests_follow_trans; [exact Hs|].
        apply Folder_setOpenArrangeRecursively_down_requests.
      - intros Hthis. rewrite Folder_setOpenArrangeRecursively_down_root; [auto|].
        by destruct this. }
    subst t2. destruct recurse;
      first [exact Hdown|split; [apply requests_follow_refl|exact H1]]. }
  clearbody t2. destruct H2 as [H2 Hroot].
  destruct recurse, (rev this) as [|i rp'] eqn:Hrev; try exact H2;
    (eapply requests_follow_trans;
     [exact H2|apply Folder_setOpenArrangeRecursively_up_requests, Hroot;
               intros ->; discriminate Hrev]).
Qed.

End OpenFacts.


(** ** The budget and the reach of a filter pass *)

Section FilterBudget.
Variable check : NodeRef -> LLFolderViewItem -> bool.
Variable needsAutoSelect : bool.

Variable gi : LLFolderViewItem -> LLFolderViewItem.
Variable gd : FolderMembers -> FolderMembers.
Hypothesis gi_passed : forall v it, gi (set_mPassedFilter v it) = gi it.
Hypothesis gi_generation : forall g it, gi (set_mLastFilterGeneration g it) = gi it.
Hypothesis gd_height : forall d, gd (set_mCurHeight (F32_of_S32 0) d) = gd d.
Hypothesis gd_arrange : forall d, gd (set_mLastArrangeGeneration (-1) d) = gd d.
Hypothesis gd_most : forall g d, gd (set_mMostFilteredDescendantGeneration g d) = gd d.
Hypothesis gd_completed : forall g d, gd (set_mCompletedFilterGeneration g d) = gd d.
Hypothesis gd_open :
  needsAutoSelect = true -> forall d, gd (set_mIsOpen true d) = gd d.

Lemma paid_checks_refl flt : paid_checks flt flt.
Proof. exists []. split; [done|]. simpl. lia. Qed.

Lemma paid_checks_trans flt1 flt2 flt3 :
  paid_checks flt1 flt2 -> paid_checks flt2 flt3 -> paid_checks flt1 flt3.
Proof.
  intros (n1 & E1 & H1) (n2 & E2 & H2). exists (n2 ++ n1). split.
  - by rewrite E2, E1, app_assoc.
  - rewrite length_app. lia.
Qed.

Lemma run_check_paid r it flt v flt1 :
  run_check check r it flt = (v, flt1) ->
  paid_checks flt (decrementFilterCount flt1) /\
  getFilterCount (decrementFilterCount flt1) = getFilterCount flt - 1.
Proof.
  unfold run_check. destruct (mListener it); intros [= <- <-].
  - split; [|done]. exists [r]. split; [done|]. simpl. lia.
  - split; [|done]. exists []. split; [done|]. simpl. lia.
Qed.

Lemma Item_filter_budget r hp it flt it' flt' rq :
  Item_filter check r hp it flt = (it', flt', rq) ->
  gi it' = gi it /\ paid_checks flt flt' /\
  getFilterCount flt' = getFilterCount flt - 1.
Proof.
  unfold Item_filter. destruct (run_check check r it flt) as [v flt1] eqn:E.
  intros [= <- <- <-]. destruct (run_check_paid _ _ _ _ _ E) as [Hp Hc].
  split; [|done]. unfold Item_setFiltered. by rewrite gi_generation, gi_passed.
Qed.

Lemma filter_folder_itself_budget here hp b d flt b1 d1 flt1 req1 :
  filter_folder_itself check here hp b d flt = (b1, d1, flt1, req1) ->
  gi b1 = gi b /\ gd d1 = gd d /\ paid_checks flt flt1 /\
  getFilterCount flt - 1 <= getFilterCount flt1.
Proof.
  unfold filter_folder_itself.
  destruct (_ <? _); [|intros [= <- <- <- <-]; repeat split;
                        [apply paid_checks_refl|lia]].
  destruct (_ && _).
  { intros [= <- <- <- <-]. rewrite gi_generation.
    repeat split; [apply paid_checks_refl|lia]. }
  unfold Folder_filter_as_item, Folder_setFiltered.
  destruct (run_check check (RFolder here) b flt) as [v flt0] eqn:E.
  intros [= <- <- <- <-]. destruct (run_check_paid _ _ _ _ _ E) as [Hp Hc].
  unfold Item_setFiltered. rewrite gi_generation, gi_passed.
  split; [done|]. split; [by destruct (_ && _)|]. split; [done|lia].
Qed.

Lemma track_passing_folder_frame g folder d req folder1 d1 req1 :
  track_passing_folder needsAutoSelect g folder d req = (folder1, d1, req1) ->
  tmap gi gd folder1 = tmap gi gd folder /\ gd d1 = gd d.
Proof.
  unfold track_passing_folder, setOpenArrangeRecursively, requestArrange_here.
  destruct needsAutoSelect eqn:Hauto.
  - destruct folder as [b dm fs its]. simpl.
    destruct (eqb (mIsOpen dm) true); intros [= <- <- <-]; simpl;
      rewrite ?gd_arrange, ?gd_most, ?gd_open by done; done.
  - intros [= <- <- <-]. by rewrite gd_most.
Qed.

Lemma filter_items_loop_budget here its : forall j d flt req its' d' flt' req',
  filter_items_loop check here j its d flt req = (its', d', flt', req') ->
  map gi its' = map gi its /\ gd d' = gd d /\ paid_checks flt flt' /\
  (-1 <= getFilterCount flt -> -1 <= getFilterCount flt').
Proof.
  induction its as [|item rest IH]; intros j d flt req its' d' flt' req'; simpl.
  { intros [= <- <- <- <-]. repeat split; [apply paid_checks_refl|done]. }
  destruct (getFilterCount flt <? 0) eqn:Hcount.
  { intros [= <- <- <- <-]. repeat split; [apply paid_checks_refl|done]. }
  apply Z.ltb_ge in Hcount.
  destruct (_ <=? getLastFilterGeneration item).
  { destruct (filter_items_loop check here (S j) rest _ flt req)
      as [[[rest' d2] flt2] req2] eqn:E.
    intros [= <- <- <- <-]. destruct (IH _ _ _ _ _ _ _ _ E) as (Hi & Hd & Hp & Hc).
    simpl. rewrite Hi, Hd. split; [done|]. split; [|done].
    destruct (getFiltered item _); by rewrite ?gd_most. }
  destruct (_ && _).
  { destruct (filter_items_loop check here (S j) rest d flt req)
      as [[[rest' d2] flt2] req2] eqn:E.
    intros [= <- <- <- <-]. destruct (IH _ _ _ _ _ _ _ _ E) as (Hi & Hd & Hp & Hc).
    simpl. unfold Item_setFiltered. by rewrite Hi, gi_generation, gi_passed. }
  destruct (Item_filter check (RItem here j) true item flt) as [[item1 flt1] rq] eqn:EI.
  destruct (filter_items_loop check here (S j) rest _ flt1 (req || rq))
    as [[[rest' d3] flt3] req3] eqn:E.
  intros [= <- <- <- <-].
  destruct (Item_filter_budget _ _ _ _ _ _ _ EI) as (Hi1 & Hp1 & Hc1).
  destruct (IH _ _ _ _ _ _ _ _ E) as (Hi & Hd & Hp & Hc).
  simpl. rewrite Hi, Hi1, Hd. split; [done|]. split; [|split].
  - unfold requestArrange_here.
    destruct (getFiltered item1 _), rq; by rewrite ?gd_most, ?gd_arrange.
  - by eapply paid_checks_trans.
  - intros _. apply Hc. lia.
Qed.

Lemma filter_folders_loop_budget rec here fs :
  Forall (fun c => forall h flt c' flt' rq,
            rec h c flt = (c', flt', rq) ->
            tmap gi gd c' = tmap gi gd c /\ paid_checks flt flt' /\
            (0 <= getFilterCount flt -> -1 <= getFilterCount flt')) fs ->
  forall i d flt req fs' d' flt' req',
  filter_folders_loop needsAutoSelect rec here i fs d flt req = (fs', d', flt', req') ->
  map (tmap gi gd) fs' = map (tmap gi gd) fs /\ gd d' = gd d /\ paid_checks flt flt' /\
  (-1 <= getFilterCount flt -> -1 <= getFilterCount flt').
Proof.
  induction 1 as [|folder rest Hrec _ IH]; intros i d flt req fs' d' flt' req'; simpl.
  { intros [= <- <- <- <-]. repeat split; [apply paid_checks_refl|done]. }
  destruct (getFilterCount flt <? 0) eqn:Hcount.
  { intros [= <- <- <- <-]. repeat split; [apply paid_checks_refl|done]. }
  apply Z.ltb_ge in Hcount.
  destruct (_ <=? getCompletedFilterGeneration folder).
  { destruct (if getFiltered (self folder) (getMinRequiredGeneration flt)
                 || hasFilteredDescendants folder (getMinRequiredGeneration flt)
              then track_passing_folder needsAutoSelect (getCurrentGeneration flt) folder d req
              else (folder, d, req)) as [[folder1 d1] req1] eqn:ET.
    destruct (filter_folders_loop needsAutoSelect rec here (S i) rest d1 flt req1)
      as [[[rest' d2] flt2] req2] eqn:E.
    intros [= <- <- <- <-]. destruct (IH _ _ _ _ _ _ _ _ E) as (Hf & Hd & Hp & Hc).
    assert (H1 : tmap gi gd folder1 = tmap gi gd folder /\ gd d1 = gd d).
    { destruct (_ || _) in ET; [by eapply track_passing_folder_frame|].
      by injection ET as <- <- <-. }
    destruct H1 as [Hf1 Hd1]. simpl. rewrite Hf, Hf1, Hd, Hd1. done. }
  destruct (rec (here ++ [i]) folder flt) as [[folder1 flt1] rq] eqn:ER.
  destruct (if getFiltered (self folder1) (getMinRequiredGeneration flt1)
               || hasFilteredDescendants folder1 (getCurrentGeneration flt)
            then track_passing_folder needsAutoSelect (getCurrentGeneration flt) folder1
                   (if rq then requestArrange_here d else d) (req || rq)
            else (folder1, if rq then requestArrange_here d else d, req || rq))
    as [[folder2 d2] req2] eqn:ET.
  destruct (filter_folders_loop needsAutoSelect rec here (S i) rest d2 flt1 req2)
    as [[[rest' d3] flt3] req3] eqn:E.
  intros [= <- <- <- <-].
  destruct (Hrec _ _ _ _ _ ER) as (Hf1 & Hp1 & Hc1).
  destruct (IH _ _ _ _ _ _ _ _ E) as (Hf & Hd & Hp & Hc).
  assert (H2 : tmap gi gd folder2 = tmap gi gd folder1 /\ gd d2 = gd d).
  { unfold requestArrange_here in ET.
    destruct (_ || _) in ET.
    - apply track_passing_folder_frame in ET as [-> ->].
      split; [done|]. destruct rq; by rewrite ?gd_arrange.
    - injection ET as <- <- <-. split; [done|]. destruct rq; by rewrite ?gd_arrange. }
  destruct H2 as [Hf2 Hd2]. simpl. rewrite Hf, Hf2, Hf1, Hd, Hd2.
  split; [done|]. split; [done|]. split; [by eapply paid_checks_trans|].
  intros _. apply Hc, Hc1. lia.
Qed.

Lemma Folder_filter_budget f : forall here hp flt f' flt' rq,
  Folder_filter check needsAutoSelect here hp f flt = (f', flt', rq) ->
  tmap gi gd f' = tmap gi gd f /\ paid_checks flt flt' /\
  (0 <= getFilterCount flt -> -1 <= getFilterCount flt').
Proof.
  induction f as [b d fs its IH] using Folder_ind'.
  intros here hp flt f' flt' rq. simpl.
  destruct (_ <=? mCompletedFilterGeneration d).
  { intros [= <- <- <-]. repeat split; [apply paid_checks_refl|lia]. }
  destruct (filter_folder_itself check here hp b d flt) as [[[b1 d1] flt1] req1] eqn:ES.
  destruct (filter_folder_itself_budget _ _ _ _ _ _ _ _ _ ES) as (Hb & Hd & Hp0 & Hc0).
  assert (Hearly : tmap gi gd (Folder b1 d1 fs its) = tmap gi gd (Folder b d fs its) /\
                   paid_checks flt flt1 /\
                   (0 <= getFilterCount flt -> -1 <= getFilterCount flt1)).
  { simpl. rewrite Hb, Hd. split; [done|]. split; [done|lia]. }
  destruct (_ && _); [by intros [= <- <- <-]|].
  destruct (getFilterCount flt1 <? 0) eqn:Hcount; [by intros [= <- <- <-]|].
  apply Z.ltb_ge in Hcount.
  destruct (filter_folders_loop needsAutoSelect
              (fun h c fl => Folder_filter check needsAutoSelect h true c fl)
              here 0%nat fs d1 flt1 false) as [[[fs' d2] flt2] req2] eqn:EF.
  destruct (filter_items_loop check here 0%nat its d2 flt2 req2)
    as [[[its' d3] flt3] req3] eqn:EI.
  intros [= <- <- <-].
  assert (Hrec : Forall (fun c => forall h flt c' flt' rq,
            Folder_filter check needsAutoSelect h true c flt = (c', flt', rq) ->
            tmap gi gd c' = tmap gi gd c /\ paid_checks flt flt' /\
            (0 <= getFilterCount flt -> -1 <= getFilterCount flt')) fs).
  { eapply Forall_impl; [exact IH|]. intros c Hc h fl0 c' fl' rq0. apply Hc. }
  destruct (filter_folders_loop_budget _ here fs Hrec _ _ _ _ _ _ _ _ EF)
    as (Hf1 & Hd1 & Hp1 & Hc1).
  destruct (filter_items_loop_budget _ _ _ _ _ _ _ _ _ _ EI) as (Hi2 & Hd2 & Hp2 & Hc2).
  simpl. rewrite Hb, Hf1, Hi2. split; [|split].
  - f_equal. unfold setCompletedFilterGeneration.
    destruct (0 <? getFilterCount flt3); rewrite ?gd_completed, ?gd_most; congruence.
  - eapply paid_checks_trans; [|exact Hp2]. by eapply paid_checks_trans.
  - intros _. apply Hc2, Hc1. lia.
Qed.

End FilterBudget.

(** X13.  A call of LLFolderView::filter runs the check of the filter on at
    most one node more than the budget of the frame, llclamp of the setting
    FilterItemsPerFrame to 1..5000, so on at most 5001 nodes; the count is
    charged for every check, and it is left at -1 or above. *)
Theorem filter_checks_within_budget check needsAutoSelect FilterItemsPerFrame root flt :
  let flt' := (LLFolderView_filter check needsAutoSelect FilterItemsPerFrame root flt).2 in
  exists new, checked flt' = new ++ checked flt /\
    Z.of_nat (length new) <= llclamp FilterItemsPerFrame 1 5000 - getFilterCount flt' /\
    -1 <= getFilterCount flt' /\
    Z.of_nat (length new) <= llclamp FilterItemsPerFrame 1 5000 + 1 <= 5001.
Proof.
  intros flt'. subst flt'. unfold LLFolderView_filter. cbv zeta.
  set (budget := llclamp FilterItemsPerFrame 1 5000).
  assert (Hb : 1 <= budget <= 5000).
  { subst budget. unfold llclamp.
    destruct (FilterItemsPerFrame <? 1) eqn:H1; [lia|].
    destruct (5000 <? FilterItemsPerFrame) eqn:H2; lia. }
  set (flt0 := setFilterCount budget flt).
  destruct (_ <? _).
  - destruct (Folder_filter check needsAutoSelect [] false _ flt0)
      as [[root2 flt1] rq] eqn:E. simpl.
    destruct (Folder_filter_budget check needsAutoSelect blank_item blank_members
                ltac:(done) ltac:(done) ltac:(done) ltac:(done) ltac:(done)
                ltac:(done) ltac:(done) _ _ _ _ _ _ _ E)
      as (_ & (new & Hnew & Hlen) & Hcount).
    exists new. simpl in Hlen, Hcount. split; [exact Hnew|].
    split; [exact Hlen|]. split; [apply Hcount; lia|].
    specialize (Hcount ltac:(lia)). lia.
  - exists []. simpl. split; [done|]. lia.
Qed.

(** X14.  LLFolderViewFolder::filter and LLFolderView::filter write the
    filter state only: the verdict and generation of the nodes, the two
    filter generations of the folders, the height a newly passing folder
    starts from, arrange requests and, only when the root asks for
    auto-selection, open flags.  The shape of the tree, labels, listeners,
    selection flags and counters, visible flags and the layout are as
    before: a filter pass shows and hides nothing itself. *)
Theorem filter_writes_filter_state_only check needsAutoSelect :
  (forall here has_parent f flt,
     outside_filter needsAutoSelect
       (Folder_filter check needsAutoSelect here has_parent f flt).1.1
     = outside_filter needsAutoSelect f) /\
  (forall FilterItemsPerFrame root flt,
     outside_filter needsAutoSelect
       (LLFolderView_filter check needsAutoSelect FilterItemsPerFrame root flt).1
     = outside_filter needsAutoSelect root).
Proof.
  assert (Hframe : forall here hp f flt f' flt' rq,
    Folder_filter check needsAutoSelect here hp f flt = (f', flt', rq) ->
    outside_filter needsAutoSelect f' = outside_filter needsAutoSelect f).
  { intros here hp f flt f' flt' rq E.
    apply (Folder_filter_budget check needsAutoSelect outside_filter_item
             (outside_filter_members needsAutoSelect)) in E; [by destruct E| | | | | | |];
      try done;
      try (intros; unfold outside_filter_members; by destruct needsAutoSelect). }
  split.
  - intros here hp f flt.
    destruct (Folder_filter check needsAutoSelect here hp f flt) as [[f' flt'] rq] eqn:E.
    simpl. by eapply Hframe.
  - intros n root flt. unfold LLFolderView_filter. cbv zeta.
    destruct (_ <? _).
    + destruct (Folder_filter check needsAutoSelect [] false _ _)
        as [[root2 flt1] rq] eqn:E. simpl.
      rewrite (Hframe _ _ _ _ _ _ _ E). by destruct root.
    + by destruct root.
Qed.

(** ** What arrange() leaves alone, and when it asks to be run again *)

Section ArrangeFrame.

Variable getArrangeGeneration : Z.
Variable getDebugFilters : bool.
Variable show_folder_state : EFolderShow.
Variable getInterpolant : bool -> F32.
Variable LEFT_INDENTATION : Z.
Variable beyond_height : NodeRef -> Z -> bool.

#[local] Abbreviation arrange' :=
  (Folder_arrange getArrangeGeneration getDebugFilters show_folder_state
                  getInterpolant LEFT_INDENTATION beyond_height).

Section Frame.

Variable gi : LLFolderViewItem -> LLFolderViewItem.
Variable gd : FolderMembers -> FolderMembers.
Hypothesis gi_visible : forall v it, gi (setVisible v it) = gi it.
Hypothesis gi_children : forall v it, gi (set_mHasVisibleChildren v it) = gi it.
Hypothesis gi_indentation : forall v it, gi (set_mIndentation v it) = gi it.
Hypothesis gd_cur : forall v d, gd (set_mCurHeight v d) = gd d.
Hypothesis gd_target : forall v d, gd (set_mTargetHeight v d) = gd d.
Hypothesis gd_arrange : forall v d, gd (set_mLastArrangeGeneration v d) = gd d.
Hypothesis gd_width : forall v d, gd (set_mLastCalculatedWidth v d) = gd d.

Lemma Item_arrange_frame parent_indentation width it :
  gi (Item_arrange LEFT_INDENTATION parent_indentation width it).1.1 = gi it.
Proof. unfold Item_arrange. simpl. apply gi_indentation. Qed.

Lemma tmap_set_self_visible v c :
  tmap gi gd (set_self (setVisible v (self c)) c) = tmap gi gd c.
Proof. destruct c as [b d fs its]. simpl. by rewrite gi_visible. Qed.

Lemma arrange_items_loop_frame parent_indentation filter_generation :
  forall its width running target its' width' running' target',
  arrange_items_loop getDebugFilters LEFT_INDENTATION parent_indentation filter_generation
    its width running target = (its', width', running', target') ->
  map gi its' = map gi its.
Proof.
  induction its as [|it its IH]; intros width running target its' width' running'
    target' H; simpl in H.
  - by injection H as <- _ _ _.
  - destruct (item_shown getDebugFilters filter_generation it).
    + destruct (arrange_items_loop _ _ _ _ _ _ _ _) as [[[rest' w1] r1] t1] eqn:E.
      injection H as <- _ _ _. simpl. rewrite (IH _ _ _ _ _ _ _ E).
      change (gi (set_mIndentation (parent_indentation + LEFT_INDENTATION)
                   (setVisible true it)) :: map gi its = gi it :: map gi its).
      by rewrite gi_indentation, gi_visible.
    + destruct (arrange_items_loop _ _ _ _ _ _ _ _) as [[[rest' w1] r1] t1] eqn:E.
      injection H as <- _ _ _. simpl. rewrite (IH _ _ _ _ _ _ _ E).
      by rewrite gi_visible.
Qed.

Lemma arrange_folders_loop_frame rec here filter_generation fs :
  Forall (fun c => forall h w, tmap gi gd (rec h c w).1.1.1.1 = tmap gi gd c) fs ->
  forall i width running target req fs' width' running' target' req',
  arrange_folders_loop getDebugFilters show_folder_state rec here filter_generation
    i fs width running target req = (fs', width', running', target', req') ->
  map (tmap gi gd) fs' = map (tmap gi gd) fs.
Proof.
  induction 1 as [|c fs Hc _ IH]; intros i width running target req fs' width' running'
    target' req' H; simpl in H.
  - by injection H as <- _ _ _ _.
  - destruct (folder_shown _ _ _ c).
    + pose proof (Hc (here ++ [i]) width) as Hrec.
      destruct (rec (here ++ [i]) c width) as [[[[c2 cw] ch] ret] rq].
      destruct (arrange_folders_loop _ _ _ _ _ _ _ _ _ _ _)
        as [[[[rest' w1] r1] t1] q1] eqn:E.
      injection H as <- _ _ _ _. cbn [map]. rewrite (IH _ _ _ _ _ _ _ _ _ _ E).
      rewrite tmap_set_self_visible. by rewrite <- Hrec.
    + destruct (arrange_folders_loop _ _ _ _ _ _ _ _ _ _ _)
        as [[[[rest' w1] r1] t1] q1] eqn:E.
      injection H as <- _ _ _ _. cbn [map]. rewrite (IH _ _ _ _ _ _ _ _ _ _ E).
      by rewrite tmap_set_self_visible.
Qed.

Lemma hide_folders_frame here rounded_height fs :
  map (tmap gi gd) (hide_folders beyond_height here rounded_height fs)
  = map (tmap gi gd) fs.
Proof.
  unfold hide_folders. apply list_eq. intros k.
  rewrite !list_lookup_fmap, list_lookup_imap.
  destruct (fs !! k) as [c|]; [|done]. simpl.
  destruct (beyond_height _ _); [|done]. by rewrite tmap_set_self_visible.
Qed.

Lemma hide_items_frame here rounded_height its :
  map gi (hide_items beyond_height here rounded_height its) = map gi its.
Proof.
  unfold hide_items. apply list_eq. intros k.
  rewrite !list_lookup_fmap, list_lookup_imap.
  destruct (its !! k) as [it|]; [|done]. simpl.
  destruct (beyond_height _ _); [|done]. by rewrite gi_visible.
Qed.

Lemma Folder_arrange_result_frame f :
  forall here parent_indentation filter_generation width f' width' height returned rq,
  arrange' here parent_indentation filter_generation f width
    = (f', width', height, returned, rq) ->
  tmap gi gd f' = tmap gi gd f.
Proof.
  induction f as [b d fs its IH] using Folder_ind'.
  intros here parent_indentation filter_generation width f' width' height returned rq H.
  simpl in H.
  match type of H with
  | context [needsArrange ?g ?x] =>
    destruct (if needsArrange g x then _ else _)
      as [[[[fs1 its1] d2] width2] req] eqn:EX
  end.
  assert (Hlay : map (tmap gi gd) fs1 = map (tmap gi gd) fs /\
                 map gi its1 = map gi its /\ gd d2 = gd d).
  { unfold needsArrange in *. simpl in EX.
    destruct (mLastArrangeGeneration d <? getArrangeGeneration); simpl.
    - destruct (mIsOpen d).
      + destruct (arrange_folders_loop _ _ _ _ _ _ _ _ _ _ _)
          as [[[[fs0 w0] r0] t0] q0] eqn:Efs.
        destruct (arrange_items_loop _ _ _ _ _ _ _ _) as [[[its0 w1] r1] t1] eqn:Eits.
        injection EX as <- <- <- <- <-. split; [|split].
        * eapply arrange_folders_loop_frame; [|exact Efs].
          eapply Forall_impl; [exact IH|]. intros c Hc h w.
          destruct (Folder_arrange _ _ _ _ _ _ h _ _ c w)
            as [[[[c' ?] ?] ?] ?] eqn:Ec.
          simpl. by eapply Hc.
        * by eapply arrange_items_loop_frame.
        * rewrite gd_width, gd_target. unfold requestArrange_here.
          destruct q0; by rewrite ?gd_arrange, ?gd_cur.
      + injection EX as <- <- <- <- <-.
        by rewrite gd_width, gd_target, gd_arrange, gd_cur.
    - injection EX as <- <- <- <- <-. by rewrite gd_cur. }
  destruct Hlay as (Hf & Hi & Hd).
  destruct (absdiff_gt_one (mCurHeight d2) (mTargetHeight d2));
    injection H as <- <- <- <- <-; simpl.
  - rewrite hide_folders_frame, hide_items_frame, Hf, Hi.
    unfold requestArrange_here.
    by rewrite gi_indentation, gi_children, gd_arrange, gd_cur, Hd.
  - by rewrite Hf, Hi, gi_indentation, gi_children, gd_cur, Hd.
Qed.

Lemma Folder_arrange_frame f here parent_indentation filter_generation width :
  tmap gi gd (arrange' here parent_indentation filter_generation f width).1.1.1.1
  = tmap gi gd f.
Proof.
  destruct (arrange' here parent_indentation filter_generation f width)
    as [[[[f' ?] ?] ?] ?] eqn:E.
  simpl. by eapply Folder_arrange_result_frame.
Qed.

Lemma root_items_loop_frame root_indentation filter_generation :
  forall its min_width total running target its' min_width' total' running' target',
  root_items_loop LEFT_INDENTATION root_indentation filter_generation
    its min_width total running target = (its', min_width', total', running', target') ->
  map gi its' = map gi its.
Proof.
  induction its as [|it its IH]; intros mw tw running target its' mw' tw' running'
    target' H; simpl in H.
  - by injection H as <- _ _ _ _.
  - destruct (getFiltered it filter_generation).
    + destruct (root_items_loop _ _ _ _ _ _ _ _) as [[[[rest' w1] w2] r1] t1] eqn:E.
      injection H as <- _ _ _ _. simpl. rewrite (IH _ _ _ _ _ _ _ _ _ E).
      change (gi (set_mIndentation (root_indentation + LEFT_INDENTATION)
                   (setVisible true it)) :: map gi its = gi it :: map gi its).
      by rewrite gi_indentation, gi_visible.
    + destruct (root_items_loop _ _ _ _ _ _ _ _) as [[[[rest' w1] w2] r1] t1] eqn:E.
      injection H as <- _ _ _ _. simpl. rewrite (IH _ _ _ _ _ _ _ _ _ E).
      by rewrite gi_visible.
Qed.

Lemma root_folders_loop_frame root_indentation filter_generation :
  forall fs i min_width total running target req fs' min_width' total' running' target'
         req',
  root_folders_loop getArrangeGeneration getDebugFilters show_folder_state
    getInterpolant LEFT_INDENTATION beyond_height root_indentation filter_generation
    i fs min_width total running target req
    = (fs', min_width', total', running', target', req') ->
  map (tmap gi gd) fs' = map (tmap gi gd) fs.
Proof.
  induction fs as [|c fs IH]; intros i mw tw running target req fs' mw' tw' running'
    target' req' H.
  - by injection H as <- _ _ _ _ _.
  - cbn [root_folders_loop] in H.
    set (c1 := set_self (setVisible (folder_shown getDebugFilters show_folder_state
                                       filter_generation c) (self c)) c) in H.
    assert (Hc1 : tmap gi gd c1 = tmap gi gd c) by apply tmap_set_self_visible.
    destruct (mVisible (self c1)).
    + pose proof (Folder_arrange_frame c1 [i] (Some root_indentation)
                    filter_generation 0) as Hrec.
      destruct (Folder_arrange _ _ _ _ _ _ _ _ _ _ _) as [[[[c2 cw] ch] ret] rq].
      destruct (root_folders_loop _ _ _ _ _ _ _ _ _ _ _ _ _ _ _)
        as [[[[[rest' w1] w2] r1] t1] q1] eqn:E.
      injection H as <- _ _ _ _ _. cbn [map]. rewrite (IH _ _ _ _ _ _ _ _ _ _ _ _ E).
      cbn [fst] in Hrec. by rewrite Hrec, Hc1.
    + destruct (root_folders_loop _ _ _ _ _ _ _ _ _ _ _ _ _ _ _)
        as [[[[[rest' w1] w2] r1] t1] q1] eqn:E.
      injection H as <- _ _ _ _ _. cbn [map]. rewrite (IH _ _ _ _ _ _ _ _ _ _ _ _ E).
      by rewrite Hc1.
Qed.

Lemma LLFolderView_arrange_frame LEFT_PAD debug_line_height flt root :
  tmap gi gd
    (LLFolderView_arrange getArrangeGeneration getDebugFilters show_folder_state
       getInterpolant LEFT_INDENTATION beyond_height LEFT_PAD debug_line_height flt
       root).1.1.1.1
  = tmap gi gd root.
Proof.
  destruct root as [b d fs its]. unfold LLFolderView_arrange.
  destruct (root_folders_loop _ _ _ _ _ _ _ _ _ _ _ _ _ _ _)
    as [[[[[fs' w1] w2] r1] t1] q1] eqn:EF.
  destruct (root_items_loop _ _ _ _ _ _ _ _) as [[[[its' w1'] w2'] r1'] t1'] eqn:EI.
  simpl. rewrite (root_folders_loop_frame _ _ _ _ _ _ _ _ _ _ _ _ _ _ _ EF).
  rewrite (root_items_loop_frame _ _ _ _ _ _ _ _ _ _ _ _ EI).
  rewrite gi_children, gd_target. unfold requestArrange_here.
  destruct q1; by rewrite ?gd_arrange.
Qed.

End Frame.

(** X15.  LLFolderViewFolder::arrange and LLFolderView::arrange write the
    layout only: visible flags, mHasVisibleChildren and indentations of the
    nodes; heights, last arrange generation and last calculated width of the
    folders.  The shape of the tree, labels, listeners, selection flags and
    counters, open flags and the whole filter state are as before. *)
Theorem arrange_writes_layout_only :
  (forall here parent_indentation filter_generation f width,
     outside_arrange (arrange' here parent_indentation filter_generation f width).1.1.1.1
     = outside_arrange f) /\
  (forall LEFT_PAD debug_line_height flt root,
     outside_arrange
       (LLFolderView_arrange getArrangeGeneration getDebugFilters show_folder_state
          getInterpolant LEFT_INDENTATION beyond_height LEFT_PAD debug_line_height flt
          root).1.1.1.1
     = outside_arrange root).
Proof.
  split.
  - intros here parent_indentation filter_generation f width.
    by apply Folder_arrange_frame.
  - intros LEFT_PAD debug_line_height flt root.
    by apply LLFolderView_arrange_frame.
Qed.

(** X16.  LLFolderViewFolder::arrange leaves a folder either settled or
    asking to be arranged again, never in between.  When it has called
    requestArrange() on the folder, the last arrange generation of the folder
    is -1; when it has not, the current height is the target height, the
    height handed back is the height returned, and, the arrange generation of
    the root not being negative, the folder does not need arranging. *)
Theorem arrange_settles_or_asks_again
    here parent_indentation filter_generation f width f' width' height returned rq :
  arrange' here parent_indentation filter_generation f width
    = (f', width', height, returned, rq) ->
  (rq = true -> mLastArrangeGeneration (members f') = -1) /\
  (rq = false ->
     mCurHeight (members f') = mTargetHeight (members f') /\ height = returned /\
     (0 <= getArrangeGeneration ->
      needsArrange getArrangeGeneration (members f') = false)).
Proof.
  destruct f as [b d fs its]. intros H. simpl in H.
  match type of H with
  | context [needsArrange ?g ?x] =>
    destruct (if needsArrange g x then _ else _)
      as [[[[fs1 its1] d2] width2] req] eqn:EX
  end.
  assert (Hreq : (req = true -> mLastArrangeGeneration d2 = -1) /\
                 (req = false -> 0 <= getArrangeGeneration ->
                  (mLastArrangeGeneration d2 <? getArrangeGeneration) = false)).
  { unfold needsArrange in *. simpl in EX.
    destruct (mLastArrangeGeneration d <? getArrangeGeneration) eqn:Hneeds; simpl.
    - destruct (mIsOpen d).
      + destruct (arrange_folders_loop _ _ _ _ _ _ _ _ _ _ _)
          as [[[[fs0 w0] r0] t0] q0] eqn:Efs.
        destruct (arrange_items_loop _ _ _ _ _ _ _ _) as [[[its0 w1] r1] t1] eqn:Eits.
        injection EX as <- <- <- <- <-. destruct q0; simpl; split; try done.
        intros _ _. apply Z.ltb_irrefl.
      + injection EX as <- <- <- <- <-. simpl. split; [done|].
        intros _ _. apply Z.ltb_irrefl.
    - injection EX as <- <- <- <- <-. simpl. by split. }
  destruct Hreq as [Hyes Hno].
  destruct (absdiff_gt_one (mCurHeight d2) (mTargetHeight d2));
    injection H as <- <- <- <- <-; simpl.
  - by split.
  - split; [exact Hyes|]. intros Hrq. split; [done|]. split; [done|].
    unfold needsArrange. simpl. by apply Hno.
Qed.

End ArrangeFrame.

(** ** The heights arrange() computes *)

Section ArrangeHeights.

Variable getArrangeGeneration : Z.
Variable getDebugFilters : bool.
Variable show_folder_state : EFolderShow.
Variable getInterpolant : bool -> F32.
Variable LEFT_INDENTATION : Z.
Variable beyond_height : NodeRef -> Z -> bool.
Variable filter_generation : Z.

#[local] Abbreviation arrange_at :=
  (Folder_arrange getArrangeGeneration getDebugFilters show_folder_state
                  getInterpolant LEFT_INDENTATION beyond_height).
#[local] Abbreviation hof :=
  (heights_of getDebugFilters show_folder_state filter_generation).
#[local] Abbreviation folder_is_shown :=
  (folder_shown getDebugFilters show_folder_state filter_generation).
#[local] Abbreviation item_is_shown := (item_shown getDebugFilters filter_generation).

Lemma heights_of_unfold b d fs its :
  hof (Folder b d fs its) =
  HeightsOf (mItemHeight b) (mCurHeight d) (mTargetHeight d)
    (mLastArrangeGeneration d) (mIsOpen d)
    (heights_of_shown hof folder_is_shown fs)
    (mItemHeight <$> List.filter item_is_shown its).
Proof. reflexivity. Qed.

Lemma Folder_arrange_outside f here parent_indentation width f' width' height returned rq :
  arrange_at here parent_indentation filter_generation f width
    = (f', width', height, returned, rq) ->
  outside_arrange f' = outside_arrange f.
Proof.
  intros H. unfold outside_arrange.
  by eapply (Folder_arrange_result_frame getArrangeGeneration getDebugFilters
               show_folder_state getInterpolant LEFT_INDENTATION beyond_height
               outside_arrange_item outside_arrange_members).
Qed.

Lemma folder_shown_outside c c' :
  outside_arrange c' = outside_arrange c -> folder_is_shown c' = folder_is_shown c.
Proof.
  destruct c as [b d fs its], c' as [b' d' fs' its']. unfold outside_arrange.
  intros H.
  pose proof (f_equal self H) as Hb. pose proof (f_equal members H) as Hd.
  cbn [tmap self members] in Hb, Hd.
  unfold folder_shown, getFiltered, hasFilteredDescendants. cbn [self members].
  pose proof (f_equal mPassedFilter Hb) as H1.
  pose proof (f_equal mLastFilterGeneration Hb) as H2.
  pose proof (f_equal mMostFilteredDescendantGeneration Hd) as H3.
  simpl in H1, H2, H3. by rewrite H1, H2, H3.
Qed.

Lemma folder_shown_set_visible v c :
  folder_is_shown (set_self (setVisible v (self c)) c) = folder_is_shown c.
Proof. by destruct c. Qed.

Lemma heights_of_set_visible v c : hof (set_self (setVisible v (self c)) c) = hof c.
Proof. by destruct c. Qed.

Lemma arrange_items_loop_heights parent_indentation :
  forall its width running target its' width' running' target',
  arrange_items_loop getDebugFilters LEFT_INDENTATION parent_indentation filter_generation
    its width running target = (its', width', running', target') ->
  target' = arrange_heights_items (mItemHeight <$> List.filter item_is_shown its) target /\
  mItemHeight <$> List.filter item_is_shown its'
  = mItemHeight <$> List.filter item_is_shown its.
Proof.
  induction its as [|it its IH]; intros width running target its' width' running'
    target' H; simpl in H.
  - by injection H as <- _ _ <-.
  - cbn [List.filter]. destruct (item_shown getDebugFilters filter_generation it) eqn:Es.
    + destruct (arrange_items_loop _ _ _ _ _ _ _ _) as [[[rest' w1] r1] t1] eqn:E.
      injection H as <- _ _ <-.
      destruct (IH _ _ _ _ _ _ _ E) as [Ht Hl]. split; [exact Ht|].
      cbn [List.filter].
      change (item_shown getDebugFilters filter_generation
                (set_mIndentation (parent_indentation + LEFT_INDENTATION)
                   (setVisible true it)))
        with (item_shown getDebugFilters filter_generation it).
      rewrite Es. cbn [fmap list_fmap]. by rewrite <- Hl.
    + destruct (arrange_items_loop _ _ _ _ _ _ _ _) as [[[rest' w1] r1] t1] eqn:E.
      injection H as <- _ _ <-.
      destruct (IH _ _ _ _ _ _ _ E) as [Ht Hl]. split; [exact Ht|].
      cbn [List.filter].
      change (item_shown getDebugFilters filter_generation (setVisible false it))
        with (item_shown getDebugFilters filter_generation it).
      by rewrite Es.
Qed.

Lemma arrange_folders_loop_heights rec here fs :
  Forall (fun c => forall h w c' cw ch ret rq,
            rec h c w = (c', cw, ch, ret, rq) ->
            arrange_heights getArrangeGeneration getInterpolant (hof c) = (hof c', ret, rq)
            /\ folder_is_shown c' = folder_is_shown c) fs ->
  forall i width running target req fs' width' running' target' req',
  arrange_folders_loop getDebugFilters show_folder_state rec here filter_generation
    i fs width running target req = (fs', width', running', target', req') ->
  arrange_heights_folders (arrange_heights getArrangeGeneration getInterpolant)
    (heights_of_shown hof folder_is_shown fs) target req
  = (heights_of_shown hof folder_is_shown fs', target', req').
Proof.
  induction 1 as [|c fs Hc _ IH]; intros i width running target req fs' width' running'
    target' req' H; simpl in H.
  - by injection H as <- _ _ <- <-.
  - cbn [heights_of_shown].
    destruct (folder_shown getDebugFilters show_folder_state filter_generation c) eqn:Es.
    + destruct (rec (here ++ [i]) c width) as [[[[c2 cw] ch] ret] rq] eqn:Er.
      destruct (Hc _ _ _ _ _ _ _ Er) as [Hstep Hshown].
      destruct (arrange_folders_loop _ _ _ _ _ _ _ _ _ _ _)
        as [[[[rest' w1] r1] t1] q1] eqn:E.
      injection H as <- _ _ <- <-.
      cbn [arrange_heights_folders heights_of_shown].
      rewrite Hstep, (IH _ _ _ _ _ _ _ _ _ _ E).
      by rewrite folder_shown_set_visible, Hshown, heights_of_set_visible.
    + destruct (arrange_folders_loop _ _ _ _ _ _ _ _ _ _ _)
        as [[[[rest' w1] r1] t1] q1] eqn:E.
      injection H as <- _ _ <- <-.
      cbn [heights_of_shown].
      rewrite folder_shown_set_visible, Es. by apply (IH _ _ _ _ _ _ _ _ _ _ E).
Qed.

Lemma heights_of_shown_imap (g : nat -> LLFolderViewFolder -> LLFolderViewFolder) :
  (forall i c, hof (g i c) = hof c /\ folder_is_shown (g i c) = folder_is_shown c) ->
  forall fs, heights_of_shown hof folder_is_shown (imap g fs)
             = heights_of_shown hof folder_is_shown fs.
Proof.
  intros Hg fs. revert g Hg. induction fs as [|c fs IH]; intros g Hg; [done|].
  cbn [imap heights_of_shown]. destruct (Hg 0%nat c) as [-> ->].
  rewrite IH; [done|]. intros i c'. apply Hg.
Qed.

Lemma shown_items_imap (g : nat -> LLFolderViewItem -> LLFolderViewItem) :
  (forall j it, mItemHeight (g j it) = mItemHeight it /\
                item_is_shown (g j it) = item_is_shown it) ->
  forall its, mItemHeight <$> List.filter item_is_shown (imap g its)
              = mItemHeight <$> List.filter item_is_shown its.
Proof.
  intros Hg its. revert g Hg. induction its as [|it its IH]; intros g Hg; [done|].
  cbn [imap List.filter]. destruct (Hg 0%nat it) as [Hh ->].
  destruct (item_shown getDebugFilters filter_generation it);
    cbn [fmap list_fmap]; rewrite ?Hh, IH; try done; intros j y; apply Hg.
Qed.

Lemma heights_of_hidden here rounded_height fs :
  heights_of_shown hof folder_is_shown (hide_folders beyond_height here rounded_height fs)
  = heights_of_shown hof folder_is_shown fs.
Proof.
  apply heights_of_shown_imap. intros i c.
  destruct (beyond_height _ _); [|done].
  by rewrite heights_of_set_visible, folder_shown_set_visible.
Qed.

Lemma shown_items_hidden here rounded_height its :
  mItemHeight <$> List.filter item_is_shown (hide_items beyond_height here rounded_height its)
  = mItemHeight <$> List.filter item_is_shown its.
Proof.
  apply shown_items_imap. intros j it. by destruct (beyond_height _ _).
Qed.

(** arrange() computes on the heights of a folder what [arrange_heights]
    computes. *)
Lemma Folder_arrange_heights f :
  forall here parent_indentation width f' width' height returned rq,
  arrange_at here parent_indentation filter_generation f width
    = (f', width', height, returned, rq) ->
  arrange_heights getArrangeGeneration getInterpolant (hof f) = (hof f', returned, rq).
Proof.
  induction f as [b d fs its IH] using Folder_ind'.
  intros here parent_indentation width f' width' height returned rq H.
  simpl in H.
  match type of H with
  | context [needsArrange ?g ?x] =>
    destruct (if needsArrange g x then _ else _)
      as [[[[fs1 its1] d2] width2] req] eqn:EX
  end.
  rewrite heights_of_unfold. cbn [arrange_heights].
  unfold needsArrange in EX. simpl in EX.
  match goal with
  | |- context [if mLastArrangeGeneration d <? getArrangeGeneration then ?A else ?B] =>
    set (X := if mLastArrangeGeneration d <? getArrangeGeneration then A else B)
  end.
  assert (Hlay :
    X = (heights_of_shown hof folder_is_shown fs1, mTargetHeight d2,
         mLastArrangeGeneration d2, req) /\
    mCurHeight d2 = F32_max (F32_of_S32 (mItemHeight b)) (mCurHeight d) /\
    mIsOpen d2 = mIsOpen d /\
    mItemHeight <$> List.filter item_is_shown its1
    = mItemHeight <$> List.filter item_is_shown its).
  { subst X. destruct (mLastArrangeGeneration d <? getArrangeGeneration).
    - destruct (mIsOpen d) eqn:Hopen.
      + destruct (arrange_folders_loop _ _ _ _ _ _ _ _ _ _ _)
          as [[[[fs0 w0] r0] t0] q0] eqn:Efs.
        destruct (arrange_items_loop _ _ _ _ _ _ _ _) as [[[its0 w1] r1] t1] eqn:Eits.
        injection EX as <- <- <- <- <-.
        assert (Hrec : Forall (fun c => forall h w c' cw ch ret rq,
                  arrange_at h
                    (Some match parent_indentation with
                          | Some indentation => indentation + LEFT_INDENTATION
                          | None => 0
                          end) filter_generation c w = (c', cw, ch, ret, rq) ->
                  arrange_heights getArrangeGeneration getInterpolant (hof c)
                  = (hof c', ret, rq)
                  /\ folder_is_shown c' = folder_is_shown c) fs).
        { eapply Forall_impl; [exact IH|]. intros c Hc h w c' cw ch ret rq0 Hr. split.
          - by eapply Hc.
          - apply folder_shown_outside. by eapply Folder_arrange_outside. }
        pose proof (arrange_folders_loop_heights _ here fs Hrec _ _ _ _ _ _ _ _ _ _ Efs)
          as Hfs.
        change (fun k : Heights => arrange_heights getArrangeGeneration getInterpolant k)
          with (arrange_heights getArrangeGeneration getInterpolant).
        rewrite Hfs.
        destruct (arrange_items_loop_heights _ _ _ _ _ _ _ _ _ Eits) as [-> Hl].
        split; [|split; [|split]]; [|by destruct q0|by destruct q0|exact Hl].
        by destruct q0.
      + injection EX as <- <- <- <- <-. simpl. by repeat split.
    - injection EX as <- <- <- <- <-. simpl. by repeat split. }
  destruct Hlay as (HX & Hcur & Hopen & Hitems). clearbody X. subst X.
  rewrite Hcur, Hopen in H.
  destruct (absdiff_gt_one _ (mTargetHeight d2));
    injection H as <- <- <- <- <-; rewrite heights_of_unfold.
  - rewrite heights_of_hidden, shown_items_hidden, Hitems. cbn. by rewrite Hopen.
  - rewrite Hitems. cbn. by rewrite Hopen.
Qed.

Lemma arrange_calls_heights here parent_indentation : forall ws f,
  hof (arrange_calls getArrangeGeneration getDebugFilters show_folder_state
         getInterpolant LEFT_INDENTATION beyond_height here parent_indentation
         filter_generation ws f)
  = arrange_heights_n getArrangeGeneration getInterpolant (length ws) (hof f).
Proof.
  induction ws as [|w ws IH]; intros f; [done|].
  unfold arrange_calls in *. cbn [fold_left length arrange_heights_n]. rewrite IH.
  destruct (arrange_at here parent_indentation filter_generation f w)
    as [[[[f' ?] ?] ?] ?] eqn:E.
  by rewrite (Folder_arrange_heights _ _ _ _ _ _ _ _ _ E).
Qed.

End ArrangeHeights.

(** ** Where the walks over the open nodes land *)

Section WalkFacts.

Lemma skip_invisible_lands t this step : forall fuel itemp r,
  skip_invisible fuel t this step itemp = At r ->
  getVisible_at t r = Some true \/ r = this.
Proof.
  induction fuel as [|fuel IH]; intros itemp r H.
  - destruct itemp as [|x| |]; try done. simpl in H.
    destruct (getVisible_at t x) as [[|]|] eqn:Hv; try done.
    left. by injection H as <-.
  - destruct itemp as [|x| |]; try done. simpl in H.
    destruct (getVisible_at t x) as [[|]|] eqn:Hv; try done.
    + left. by injection H as <-.
    + destruct (step x) as [|x'| |] eqn:Hs; try done.
      destruct (bool_decide (x = x')).
      * right. by injection H as <-.
      * by apply (IH (At x')).
Qed.

(** X17.  LLFolderViewItem::getNextOpenNode and getPreviousOpenNode never
    land on a hidden node: the node they hand back is visible, or it is the
    node the walk started from. *)
Theorem open_node_walks_land_on_visible_nodes t this include_children r :
  getNextOpenNode t this include_children = At r \/ getPreviousOpenNode t this = At r ->
  getVisible_at t r = Some true \/ r = this.
Proof.
  unfold getNextOpenNode, getPreviousOpenNode.
  destruct (getParentFolder this); [|by intros [?|?]].
  intros [H|H]; by eapply skip_invisible_lands.
Qed.

End WalkFacts.

(** ** What removeSelectedItems asks of the listeners *)

Section RemovalFacts.

Lemma tmap_tmap gi gd hi hd t :
  tmap gi gd (tmap hi hd t) = tmap (fun it => gi (hi it)) (fun d => gd (hd d)) t.
Proof.
  induction t as [b d fs its IH] using Folder_ind'. simpl. f_equal.
  - rewrite map_map. apply map_ext_Forall. exact IH.
  - by rewrite map_map.
Qed.

Lemma skeleton_deselected t t' :
  deselected t' = deselected t -> skeleton t' = skeleton t.
Proof.
  intros H. apply (f_equal skeleton) in H. unfold skeleton, deselected in H.
  by rewrite !tmap_tmap in H.
Qed.

Lemma clearSelection_shape fv :
  skeleton (as_folder (clearSelection fv)) = skeleton (as_folder fv) /\
  listener_calls (clearSelection fv) = listener_calls fv.
Proof.
  split; [apply skeleton_deselected, clearSelection_same|].
  unfold clearSelection. by destruct (mSelectedItems fv).
Qed.

Lemma LLFolderView_setSelection_shape selection openitem take_keyboard_focus fv :
  skeleton (as_folder (LLFolderView_setSelection selection openitem
                         take_keyboard_focus fv).1) = skeleton (as_folder fv) /\
  listener_calls (LLFolderView_setSelection selection openitem take_keyboard_focus fv).1
  = listener_calls fv.
Proof.
  unfold LLFolderView_setSelection.
  destruct (bool_decide (selection = Some root_ref)); [done|]. cbv zeta.
  destruct (clearSelection_shape fv) as [Hsk1 Hl1].
  set (fv1 := clearSelection fv) in *.
  set (fv2 := match selection with Some s => addToSelectionList s fv1 | None => fv1 end).
  assert (H2 : as_folder fv2 = as_folder fv1 /\ listener_calls fv2 = listener_calls fv1).
  { subst fv2. destruct selection as [s|]; [|done].
    unfold addToSelectionList. by destruct (isSelected _ s). }
  destruct H2 as [Ht2 Hl2]. clearbody fv2.
  destruct (Folder_setSelection_flags (as_folder fv2) selection (as_folder fv2) []
              openitem (as_folder fv2) eq_refl (shape_at_root _)) as [Hsk _].
  destruct (Folder_setSelection _ _ _ _ _) as [t rv]. cbn [fst] in *.
  split; [|simpl; congruence]. simpl. rewrite <- Hsk1, <- Ht2, <- Hsk.
  destruct selection as [s|]; [|done]. destruct openitem; [|done].
  destruct (getParentFolder s); [|done]. apply skeleton_requestArrange_at.
Qed.

Lemma select_after_removal_shape hasFocus new_selection fv :
  skeleton (as_folder (select_after_removal hasFocus new_selection fv))
  = skeleton (as_folder fv) /\
  listener_calls (select_after_removal hasFocus new_selection fv) = listener_calls fv.
Proof.
  unfold select_after_removal.
  destruct new_selection; apply LLFolderView_setSelection_shape.
Qed.

Lemma scroll_and_arrange_shape fv :
  as_folder (scrollToShowSelection (arrangeAll fv)) = as_folder fv /\
  listener_calls (scrollToShowSelection (arrangeAll fv)) = listener_calls fv.
Proof.
  unfold scrollToShowSelection, arrangeAll. simpl. by destruct (mSelectedItems fv).
Qed.

Lemma collect_removable_all t : forall selected items0 items,
  collect_removable t selected items0 = Some (inl items) ->
  items = items0 ++ selected /\
  Forall (fun r => isRemovable t r = Some true) selected.
Proof.
  induction selected as [|item rest IH]; intros items0 items H; simpl in H.
  - injection H as <-. by rewrite app_nil_r.
  - destruct (isRemovable t item) as [[|]|] eqn:Hr; try done.
    destruct (IH _ _ H) as [-> Hall]. split; [by rewrite <- app_assoc|].
    by constructor.
Qed.

Lemma batch_listeners_among t items :
  forall r, r ∈ batch_listeners t items -> r ∈ items /\ has_listener t r = true.
Proof.
  unfold batch_listeners.
  assert (Hgen : forall l acc,
    (forall r, r ∈ acc -> r ∈ items /\ has_listener t r = true) ->
    (forall r, r ∈ l -> r ∈ items) ->
    forall r, r ∈ fold_left
                    (fun listeners item =>
                       if has_listener t item && negb (bool_decide (item ∈ listeners))
                       then listeners ++ [item] else listeners) l acc ->
              r ∈ items /\ has_listener t r = true).
  { induction l as [|x l IH]; intros acc Hacc Hl; [exact Hacc|]. cbn [fold_left].
    apply IH; [|intros r Hr; apply Hl; by right].
    destruct (has_listener t x) eqn:Hx; [|exact Hacc]. cbn [andb].
    destruct (negb _); [|exact Hacc].
    intros r [Hr| ->%list_elem_of_singleton]%elem_of_app; [by apply Hacc|].
    split; [apply Hl; by left|done]. }
  apply Hgen; [by intros r ?%elem_of_nil|done].
Qed.

(** X18.  LLFolderView::removeSelectedItems removes no node from the tree
    itself and asks the listeners at most once.  What it asks them to remove
    are nodes of the selection list that have a listener, and it asks only
    when every node of the list is removable. *)
Theorem removeSelectedItems_asks_for_selected_nodes hasFocus removeItem_result fv fv' :
  removeSelectedItems hasFocus removeItem_result fv = Some fv' ->
  skeleton (as_folder fv') = skeleton (as_folder fv) /\
  exists new, listener_calls fv' = listener_calls fv ++ new /\
    (length new <= 1)%nat /\
    forall c r, c ∈ new -> r ∈ call_nodes c ->
      r ∈ mSelectedItems fv /\ has_listener (as_folder fv) r = true /\
      Forall (fun s => isRemovable (as_folder fv) s = Some true) (mSelectedItems fv).
Proof.
  assert (Hnone : forall fv1 : LLFolderView,
    skeleton (as_folder fv1) = skeleton (as_folder fv) ->
    listener_calls fv1 = listener_calls fv ->
    skeleton (as_folder fv1) = skeleton (as_folder fv) /\
    exists new, listener_calls fv1 = listener_calls fv ++ new /\
      (length new <= 1)%nat /\
      forall c r, c ∈ new -> r ∈ call_nodes c ->
        r ∈ mSelectedItems fv /\ has_listener (as_folder fv) r = true /\
        Forall (fun s => isRemovable (as_folder fv) s = Some true) (mSelectedItems fv)).
  { intros fv1 Hsk Hl. split; [done|]. exists []. rewrite app_nil_r.
    split; [done|]. split; [simpl; lia|]. by intros c r ?%elem_of_nil. }
  assert (Hone : forall (fv1 : LLFolderView) c,
    skeleton (as_folder fv1) = skeleton (as_folder fv) ->
    listener_calls fv1 = listener_calls fv ++ [c] ->
    (forall r, r ∈ call_nodes c ->
       r ∈ mSelectedItems fv /\ has_listener (as_folder fv) r = true) ->
    Forall (fun s => isRemovable (as_folder fv) s = Some true) (mSelectedItems fv) ->
    skeleton (as_folder fv1) = skeleton (as_folder fv) /\
    exists new, listener_calls fv1 = listener_calls fv ++ new /\
      (length new <= 1)%nat /\
      forall c r, c ∈ new -> r ∈ call_nodes c ->
        r ∈ mSelectedItems fv /\ has_listener (as_folder fv) r = true /\
        Forall (fun s => isRemovable (as_folder fv) s = Some true) (mSelectedItems fv)).
  { intros fv1 c Hsk Hl Hc Hall. split; [done|]. exists [c].
    split; [done|]. split; [simpl; lia|].
    intros c' r ->%list_elem_of_singleton Hr. destruct (Hc r Hr). done. }
  unfold removeSelectedItems.
  destruct (mVisible (self (as_folder fv)) && mEnabled fv);
    [|intros [= <-]; by apply Hnone].
  cbv zeta. change (mSelectedItems (set_mRenameItem None fv)) with (mSelectedItems fv).
  change (as_folder (set_mRenameItem None fv)) with (as_folder fv).
  set (fv0 := set_mRenameItem None fv).
  destruct (mSelectedItems fv) as [|s0 sel] eqn:Hsel; [intros [= <-]; by apply Hnone|].
  rewrite <- Hsel in *.
  destruct (collect_removable (as_folder fv) (mSelectedItems fv) [])
    as [[items|blocker]|] eqn:Hcollect; [| |done].
  2:{ destruct (node_at (as_folder fv) blocker); [|done].
      intros [= <-]. by apply Hnone. }
  destruct (collect_removable_all _ _ _ _ Hcollect) as [Hitems Hall].
  simpl in Hitems. subst items. rewrite Hsel. rewrite Hsel in Hall, Hnone, Hone.
  destruct sel as [|s1 sel].
  - (* one node *)
    destruct (walk_pointer (getNextOpenNode (as_folder fv) s0 false)) as [next|]; [|done].
    destruct (match next with
              | Some _ => Some next
              | None => walk_pointer (getPreviousOpenNode (as_folder fv) s0)
              end) as [new_selection|]; [|done].
    intros [= <-].
    destruct (scroll_and_arrange_shape (arrangeAll
                match getParentFolder s0 with
                | Some _ =>
                  if has_listener (as_folder fv) s0
                  then
                    if removeItem_result s0
                    then select_after_removal hasFocus new_selection
                           (call_listener (call_removeItem s0) fv0)
                    else call_listener (call_removeItem s0) fv0
                  else select_after_removal hasFocus new_selection fv0
                | None => fv0
                end)) as [-> ->].
    change (as_folder (arrangeAll ?x)) with (as_folder x).
    change (listener_calls (arrangeAll ?x)) with (listener_calls x).
    destruct (getParentFolder s0); [|by apply Hnone].
    destruct (has_listener (as_folder fv) s0) eqn:Hlis.
    + assert (Hc : forall r, r ∈ call_nodes (call_removeItem s0) ->
                r ∈ s0 :: [] /\ has_listener (as_folder fv) r = true).
      { intros r ->%list_elem_of_singleton. split; [by left|done]. }
      destruct (removeItem_result s0).
      * destruct (select_after_removal_shape hasFocus new_selection
                    (call_listener (call_removeItem s0) fv0)) as [Hsk Hl].
        by apply (Hone _ (call_removeItem s0)).
      * by apply (Hone _ (call_removeItem s0)).
    + destruct (select_after_removal_shape hasFocus new_selection fv0) as [Hsk Hl].
      by apply Hnone.
  - (* several nodes *)
    set (items := s0 :: s1 :: sel) in *.
    destruct (last items) as [last_item|]; [|done].
    match goal with
    | |- match ?X with Some _ => _ | None => _ end = _ -> _ =>
      destruct X as [new_selection|]; [|done]
    end.
    intros [= <-].
    set (fv1 := select_after_removal hasFocus new_selection fv0).
    destruct (select_after_removal_shape hasFocus new_selection fv0) as [Hsk1 Hl1].
    fold fv1 in Hsk1, Hl1.
    destruct (batch_listeners (as_folder fv) items) as [|l0 ls] eqn:Hbatch.
    + destruct (scroll_and_arrange_shape fv1) as [-> ->]. by apply Hnone.
    + destruct (scroll_and_arrange_shape
                  (call_listener (call_removeBatch (l0 :: ls)) fv1)) as [-> ->].
      apply (Hone _ (call_removeBatch (l0 :: ls))); [done|simpl; by rewrite Hl1| |done].
      intros r Hr. simpl in Hr. rewrite <- Hbatch in Hr.
      by apply batch_listeners_among in Hr.
Qed.

Lemma refused_is_not_removable t r it l :
  node_at t r = Some it -> mListener it = Some l -> isItemRemovable l = false ->
  isRemovable t r = Some false.
Proof.
  intros Hit Hl Hno. destruct r as [p|p j]; simpl in *.
  - destruct (get_folder t p) as [[b d fs its]|]; [|done]. simpl in *.
    injection Hit as ->. by rewrite Hl, Hno.
  - rewrite Hit. simpl. unfold Item_isRemovable. by rewrite Hl, Hno.
Qed.

Lemma listeners_refuse t : forall selected items,
  listeners_allow_removal t selected = Some false ->
  forall collected, collect_removable t selected items <> Some (inl collected).
Proof.
  induction selected as [|item rest IH]; intros items H collected; [done|].
  simpl in H |- *.
  destruct (node_at t item) as [it|] eqn:Hit; [|done].
  destruct (mListener it) as [l|] eqn:Hl; [|done].
  destruct (isItemRemovable l) eqn:Hrem.
  - destruct (isRemovable t item) as [[|]|]; [|done|done]. by apply IH.
  - by rewrite (refused_is_not_removable t item it l).
Qed.

(** X19.  When LLFolderView::canDoDelete answers FALSE, LLFolderView::doDelete
    asks no listener to remove anything and leaves the tree and the selection
    list as they are. *)
Theorem doDelete_respects_canDoDelete hasFocus removeItem_result fv fv' :
  canDoDelete fv = Some false ->
  doDelete hasFocus removeItem_result fv = Some fv' ->
  listener_calls fv' = listener_calls fv /\
  as_folder fv' = as_folder fv /\
  mSelectedItems fv' = mSelectedItems fv.
Proof.
  unfold canDoDelete, doDelete.
  destruct (mSelectedItems fv) as [|s0 sel] eqn:Hsel; [by intros _ [= <-]|].
  rewrite <- Hsel. intros Hno. unfold removeSelectedItems.
  destruct (_ && _); [|by intros [= <-]]. cbv zeta.
  change (mSelectedItems (set_mRenameItem None fv)) with (mSelectedItems fv).
  change (as_folder (set_mRenameItem None fv)) with (as_folder fv).
  rewrite Hsel at 1.
  pose proof (listeners_refuse _ _ [] Hno) as Hrefuse.
  destruct (collect_removable (as_folder fv) (mSelectedItems fv) [])
    as [[items|blocker]|]; [by destruct (Hrefuse items)| |done].
  destruct (node_at (as_folder fv) blocker); [|done]. by intros [= <-].
Qed.

End RemovalFacts.

(** ** Taking an item out and putting it back *)

Section RoundTrip.

Lemma tmap_alter_folder_comm gi gd g g' :
  (forall f, tmap gi gd (g f) = g' (tmap gi gd f)) ->
  forall p t, tmap gi gd (alter_folder g p t) = alter_folder g' p (tmap gi gd t).
Proof.
  intros H. induction p as [|i p IH]; intros [b d fs its]; [apply H|].
  rewrite alter_folder_step. cbn [tmap]. rewrite alter_folder_step. f_equal.
  apply list_fmap_alter, Forall_forall. intros c _. apply IH.
Qed.

Lemma tmap_alter_members_to_root_comm gi gd h h' :
  (forall d, gd (h d) = h' (gd d)) ->
  forall p t,
    tmap gi gd (alter_members_to_root h p t) = alter_members_to_root h' p (tmap gi gd t).
Proof.
  intros H. induction p as [|i p IH]; intros [b d fs its].
  - simpl. by rewrite H.
  - change (alter_members_to_root h (i :: p) (Folder b d fs its))
      with (Folder b (h d) (alter (alter_members_to_root h p) i fs) its).
    cbn [tmap].
    change (alter_members_to_root h' (i :: p)
              (Folder (gi b) (gd d) (map (tmap gi gd) fs) (map gi its)))
      with (Folder (gi b) (h' (gd d))
              (alter (alter_members_to_root h' p) i (map (tmap gi gd) fs))
              (map gi its)).
    rewrite H. f_equal. apply list_fmap_alter, Forall_forall. intros c _. apply IH.
Qed.

Lemma alter_folder_compose g h : forall p t,
  alter_folder g p (alter_folder h p t) = alter_folder (fun f => g (h f)) p t.
Proof.
  induction p as [|i p IH]; intros [b d fs its]; [done|].
  rewrite !alter_folder_step, list_alter_alter_eq. f_equal.
  apply list_alter_ext; [|done]. intros c _. apply IH.
Qed.

Lemma alter_folder_fixed g : forall p t f,
  get_folder t p = Some f -> g f = f -> alter_folder g p t = t.
Proof.
  induction p as [|i p IH]; intros [b d fs its] f Hf Hg.
  - simpl in Hf. by injection Hf as ->.
  - rewrite get_folder_step in Hf. destruct (fs !! i) as [c|] eqn:Hc; [|done].
    rewrite alter_folder_step. f_equal. apply list_eq. intros k.
    rewrite list_lookup_alter. destruct (decide (i = k)) as [<-|]; [|done].
    rewrite Hc. simpl. f_equal. by apply (IH c f).
Qed.

Lemma get_folder_alter_folder g : forall p t,
  get_folder (alter_folder g p t) p = g <$> get_folder t p.
Proof.
  induction p as [|i p IH]; intros [b d fs its]; [done|].
  rewrite alter_folder_step, !get_folder_step, list_lookup_alter_eq.
  destruct (fs !! i) as [c|]; [|done]. simpl. apply IH.
Qed.

Lemma recursiveIncrement_add a b : forall p t,
  recursiveIncrementNumDescendantsSelected a p
    (recursiveIncrementNumDescendantsSelected b p t)
  = recursiveIncrementNumDescendantsSelected (b + a) p t.
Proof.
  assert (Hd : forall d, add_to_count a (add_to_count b d) = add_to_count (b + a) d).
  { intros []. unfold add_to_count, set_mNumDescendantsSelected. simpl. f_equal. lia. }
  induction p as [|i p IH]; intros [b0 d fs its].
  - rewrite !recursiveIncrement_here. simpl. by rewrite Hd.
  - rewrite !recursiveIncrement_step, Hd, list_alter_alter_eq. f_equal.
    apply list_alter_ext; [|done]. intros c _. apply IH.
Qed.

Lemma insert_at_delete {A} (l : list A) j x :
  l !! j = Some x -> insert_at j x (delete j l) = l.
Proof.
  unfold insert_at. revert j. induction l as [|a l IH]; intros [|j] H; try done.
  - simpl in H. injection H as ->. by rewrite drop_0.
  - simpl in H |- *. f_equal. by apply IH.
Qed.

(** X20.  LLFolderViewFolder::extractItem hands back the item it takes out
    of a folder, and LLFolderViewFolder::addItem of that item, when
    std::lower_bound puts it at the index it came from, gives back the tree:
    the same nodes in the same order with the same selection flags, counters
    and open flags.  What differs is what the two calls invalidate: visible
    flags, filter generations and arrange requests. *)
Theorem extractItem_addItem_round_trip this j it t :
  get_item t this j = Some it ->
  (extractItem this (RItem this j) t).2 = Some (NItem it) /\
  invalidated (addItem this j it (extractItem this (RItem this j) t).1) = invalidated t.
Proof.
  intros Hit. unfold extractItem.
  rewrite bool_decide_eq_true_2 by done. rewrite Hit. cbn [fst snd].
  split; [done|].
  set (t' := if mIsSelected it
             then recursiveIncrementNumDescendantsSelected (-1) this t else t).
  set (del := fun f : LLFolderViewFolder => set_mItems (delete j (mItems f)) f).
  set (tX := requestArrange_at this (Folder_dirtyFilter this (alter_folder del this t'))).
  assert (Hdel : forall f, invalidated (del f) = del (invalidated f)).
  { intros [b d fs its]. unfold invalidated, del, set_mItems. simpl. f_equal.
    apply list_fmap_delete. }
  assert (Hcount : forall k d, invalidated_members (add_to_count k d)
                               = add_to_count k (invalidated_members d)) by done.
  assert (Ht' : invalidated t'
                = if mIsSelected it
                  then recursiveIncrementNumDescendantsSelected (-1) this (invalidated t)
                  else invalidated t).
  { subst t'. destruct (mIsSelected it); [|done].
    by apply tmap_alter_members_to_root_comm. }
  assert (HX : invalidated tX = alter_folder del this (invalidated t')).
  { subst tX. unfold invalidated.
    rewrite tmap_requestArrange_at, tmap_Folder_dirtyFilter by done.
    by apply tmap_alter_folder_comm. }
  assert (Hg : exists g, get_folder t this = Some g /\ mItems g !! j = Some it).
  { unfold get_item in Hit. destruct (get_folder t this) as [g|]; [|done]. by exists g. }
  destruct Hg as (g & Hg & Hj).
  assert (Hg' : exists g', get_folder (invalidated t') this = Some g' /\
                           mItems g' = map invalidated_item (mItems g)).
  { rewrite Ht'. unfold invalidated.
    assert (Hi : get_folder (tmap invalidated_item invalidated_members t) this
                 = Some (tmap invalidated_item invalidated_members g))
      by (by rewrite get_folder_tmap, Hg).
    destruct (mIsSelected it).
    - unfold recursiveIncrementNumDescendantsSelected.
      assert (Hsame : tmap id blank_members
                (alter_members_to_root
                   (fun d => set_mNumDescendantsSelected
                               (mNumDescendantsSelected d + -1) d) this
                   (tmap invalidated_item invalidated_members t))
              = tmap id blank_members (tmap invalidated_item invalidated_members t))
        by (by apply tmap_alter_members_to_root).
      apply (f_equal (fun x => get_folder x this)) in Hsame.
      rewrite !get_folder_tmap, Hg in Hsame.
      destruct (get_folder (alter_members_to_root _ this _) this) as [g'|]; [|done].
      exists g'. split; [done|].
      simpl in Hsame. injection Hsame as Hsame.
      apply (f_equal mItems) in Hsame. destruct g', g. simpl in *.
      by rewrite !map_id in Hsame.
    - eexists. split; [exact Hi|]. by destruct g. }
  destruct Hg' as (g' & Hg' & Hits').
  assert (HgX : exists gX, get_folder tX this = Some gX /\
                           length (mItems gX) = (length (mItems g) - 1)%nat).
  { pose proof (f_equal (fun x => get_folder x this) HX) as H. simpl in H.
    rewrite get_folder_alter_folder, Hg' in H. unfold invalidated in H.
    rewrite get_folder_tmap in H. destruct (get_folder tX this) as [gX|]; [|done].
    exists gX. split; [done|]. simpl in H. injection H as H.
    apply (f_equal (fun f => length (mItems f))) in H.
    destruct gX, g'. unfold del in H. simpl in *. subst.
    rewrite !length_map in H. rewrite H, length_delete, length_map; [done|].
    by rewrite list_lookup_fmap, Hj. }
  destruct HgX as (gX & HgX & Hlen).
  unfold addItem. rewrite HgX. cbv zeta.
  assert (Hk : Nat.min j (length (mItems gX)) = j).
  { apply lookup_lt_Some in Hj. lia. }
  rewrite Hk.
  set (ins := fun f : LLFolderViewFolder => set_mItems (insert_at j it (mItems f)) f).
  set (ins' := fun f : LLFolderViewFolder =>
                 set_mItems (insert_at j (invalidated_item it) (mItems f)) f).
  assert (Hins : forall f, invalidated (ins f) = ins' (invalidated f)).
  { intros [b d fs its]. unfold invalidated, ins, ins', insert_at, set_mItems.
    simpl. f_equal.
    change (invalidated_item <$> take j its ++ it :: drop j its
            = take j (invalidated_item <$> its)
              ++ invalidated_item it :: drop j (invalidated_item <$> its)).
    by rewrite fmap_app, fmap_cons, fmap_take, fmap_drop. }
  unfold invalidated at 1.
  rewrite tmap_requestArrange_at, tmap_Item_dirtyFilter, tmap_alter_node by done.
  fold invalidated.
  assert (H1 : invalidated (alter_folder ins this tX) = invalidated t').
  { unfold invalidated at 1. rewrite (tmap_alter_folder_comm _ _ ins ins' Hins).
    fold invalidated. rewrite HX, alter_folder_compose.
    apply (alter_folder_fixed _ _ _ g' Hg'). unfold ins', del.
    destruct g' as [b' d' fs' its']. simpl in *. subst its'.
    unfold set_mItems. simpl. f_equal.
    apply insert_at_delete. by rewrite list_lookup_fmap, Hj. }
  destruct (mIsSelected it) eqn:Hsel.
  - unfold invalidated at 1.
    unfold recursiveIncrementNumDescendantsSelected at 1.
    rewrite (tmap_alter_members_to_root_comm _ _ _
               (fun d => set_mNumDescendantsSelected (mNumDescendantsSelected d + 1) d))
      by done.
    fold invalidated. rewrite H1, Ht'.
    change (alter_members_to_root
              (fun d => set_mNumDescendantsSelected (mNumDescendantsSelected d + 1) d)
              this ?x)
      with (recursiveIncrementNumDescendantsSelected 1 this x).
    by rewrite recursiveIncrement_add, recursiveIncrement_zero.
  - by rewrite H1, Ht'.
Qed.

End RoundTrip.

End Properties.

(** * Repeated arrangement on exact rational heights *)

#[local] Existing Instance QFloat32.

(** ** The exact arithmetic of the animation *)

Lemma Q_absdiff_false a b : Q_absdiff_gt_one a b = false <-> (Qabs (a - b) <= 1)%Q.
Proof.
  unfold Q_absdiff_gt_one. rewrite negb_false_iff. apply Qle_bool_iff.
Qed.

Lemma Q_absdiff_true a b : Q_absdiff_gt_one a b = true -> (1 < Qabs (a - b))%Q.
Proof.
  unfold Q_absdiff_gt_one. rewrite negb_true_iff. intros H.
  apply Qnot_le_lt. intros Hle. apply Qle_bool_iff in Hle. congruence.
Qed.

Lemma Q_max_r a b : (a <= b)%Q -> Q_max a b = b.
Proof. unfold Q_max. intros H. apply Qle_bool_iff in H. by rewrite H. Qed.

Lemma Q_max_ge a b : (a <= Q_max a b)%Q.
Proof.
  unfold Q_max. destruct (Qle_bool a b) eqn:E; [by apply Qle_bool_iff|apply Qle_refl].
Qed.

Lemma Q_max_cases a b : (Q_max a b = b /\ (a <= b)%Q) \/ (Q_max a b = a /\ (b < a)%Q).
Proof.
  unfold Q_max. destruct (Qle_bool a b) eqn:E.
  - left. split; [done|]. by apply Qle_bool_iff.
  - right. split; [done|]. apply Qnot_le_lt. intros H. apply Qle_bool_iff in H. congruence.
Qed.

Lemma Q_llround_nonneg a : (0 <= a)%Q -> 0 <= Q_llround a.
Proof.
  intros H. unfold Q_llround.
  change 0 with (Qfloor 0). apply Qfloor_resp_le. lra.
Qed.

Lemma Q_lerp_closer a T u :
  (0 < u)%Q -> (u <= 1)%Q -> (1 < Qabs (a - T))%Q ->
  (Qabs (Q_lerp a T u - T) <= Qabs (a - T) - u)%Q.
Proof.
  intros Hu0 Hu1 HD. unfold Q_lerp.
  revert HD. apply Qabs_case; intros Hs HD; apply Qabs_case; intros Hs'; nra.
Qed.

Lemma Q_lerp_ge h a T u :
  (0 < u)%Q -> (u <= 1)%Q -> (h <= a)%Q -> (h <= T)%Q -> (h <= Q_lerp a T u)%Q.
Proof. intros. unfold Q_lerp. nra. Qed.

Lemma Q_archimedean D u : (0 < u)%Q -> exists M : nat, (D <= inject_Z (Z.of_nat M) * u)%Q.
Proof.
  intros Hu. exists (Z.to_nat (Qceiling (D / u))).
  assert (H1 : (D / u <= inject_Z (Qceiling (D / u)))%Q) by apply Qle_ceiling.
  assert (H2 : (inject_Z (Qceiling (D / u))
                <= inject_Z (Z.of_nat (Z.to_nat (Qceiling (D / u)))))%Q).
  { rewrite <- Zle_Qle. lia. }
  assert (H3 : (D == D / u * u)%Q) by (field; lra).
  rewrite H3 at 1. apply Qmult_le_compat_r; lra.
Qed.

(** Induction on the heights, with the hypothesis for every sub-folder. *)
Lemma Heights_ind' (P : Heights -> Prop) :
  (forall h cur tgt la is_open kids items,
     Forall P kids -> P (HeightsOf h cur tgt la is_open kids items)) ->
  forall t, P t.
Proof.
  intros step. fix IH 1. intros [h cur tgt la is_open kids items]. apply step.
  induction kids as [|k kids IHkids]; constructor; [apply IH | exact IHkids].
Qed.

(** ** The heights settle *)

Section Convergence.

Variable getArrangeGeneration : Z.
Variable getInterpolant : bool -> @F32 QFloat32.
Hypothesis generation_nonneg : 0 <= getArrangeGeneration.
Hypothesis interpolant_fraction : interpolant_ok getInterpolant.

#[local] Abbreviation step := (arrange_heights getArrangeGeneration getInterpolant).
#[local] Abbreviation after := (arrange_heights_n getArrangeGeneration getInterpolant).
#[local] Abbreviation settled := (heights_settled getArrangeGeneration getInterpolant).

Lemma arrange_heights_unfold h cur tgt la is_open kids items :
  step (HeightsOf h cur tgt la is_open kids items) =
  let cur1 := F32_max (F32_of_S32 h) cur in
  let '(kids1, tgt1, la1, req) :=
    if la <? getArrangeGeneration then
      if is_open then
        let '(kids', target', req') :=
          arrange_heights_folders step kids (F32_of_S32 h) false in
        (kids', arrange_heights_items items target',
         if req' then -1 else getArrangeGeneration, req')
      else (kids, F32_of_S32 h, getArrangeGeneration, false)
    else (kids, tgt, la, false) in
  if absdiff_gt_one cur1 tgt1 then
    (HeightsOf h (lerp cur1 tgt1 (getInterpolant is_open)) tgt1 (-1) is_open kids1 items,
     llround tgt1, true)
  else (HeightsOf h tgt1 tgt1 la1 is_open kids1 items, llround tgt1, req).
Proof. reflexivity. Qed.

Lemma after_add n : forall m t, after (n + m) t = after m (after n t).
Proof. induction n as [|n IH]; intros m t; [done|]. simpl. apply IH. Qed.

Lemma settled_after t n : settled t -> after n t = t.
Proof.
  intros H. induction n as [|n IH]; [done|]. simpl. unfold heights_settled in H.
  by rewrite H.
Qed.

Lemma settled_later t N n : (N <= n)%nat -> settled (after N t) -> settled (after n t).
Proof.
  intros Hn H. replace n with (N + (n - N))%nat by lia.
  by rewrite after_add, settled_after.
Qed.

(** The call on a folder that does not need arranging. *)
Lemma step_not_needed h cur tgt la is_open kids items :
  (la <? getArrangeGeneration) = false ->
  step (HeightsOf h cur tgt la is_open kids items) =
  if Q_absdiff_gt_one (Q_max (inject_Z h) cur) tgt
  then (HeightsOf h (Q_lerp (Q_max (inject_Z h) cur) tgt (getInterpolant is_open)) tgt (-1) is_open
          kids items, Q_llround tgt, true)
  else (HeightsOf h tgt tgt la is_open kids items, Q_llround tgt, false).
Proof. intros Hla. rewrite arrange_heights_unfold, Hla. reflexivity. Qed.

(** The call on a closed folder that needs arranging. *)
Lemma step_closed h cur tgt la kids items :
  (la <? getArrangeGeneration) = true ->
  step (HeightsOf h cur tgt la false kids items) =
  if Q_absdiff_gt_one (Q_max (inject_Z h) cur) (inject_Z h)
  then (HeightsOf h (Q_lerp (Q_max (inject_Z h) cur) (inject_Z h) (getInterpolant false))
          (inject_Z h)
          (-1) false kids items, Q_llround (inject_Z h), true)
  else (HeightsOf h (inject_Z h) (inject_Z h) getArrangeGeneration false kids items,
        Q_llround (inject_Z h), false).
Proof. intros Hla. rewrite arrange_heights_unfold, Hla. reflexivity. Qed.

Lemma folders_settled kids :
  Forall settled kids ->
  forall target req,
  arrange_heights_folders step kids target req =
  (kids,
   fold_left (fun acc k => (acc + inject_Z (Q_llround (target_of k)))%Q) kids target,
   req).
Proof.
  induction 1 as [|k kids Hk _ IH]; intros target req; [done|].
  cbn [arrange_heights_folders fold_left]. unfold heights_settled in Hk. rewrite Hk.
  rewrite IH. by rewrite orb_false_r.
Qed.

Lemma folders_next kids : forall target req,
  (arrange_heights_folders step kids target req).1.1 = map (fun k => (step k).1.1) kids.
Proof.
  induction kids as [|k kids IH]; intros target req; [done|].
  cbn [arrange_heights_folders map].
  destruct (step k) as [[k' ret] rq].
  specialize (IH (F32_add target (F32_of_S32 ret)) (req || rq)).
  destruct (arrange_heights_folders step kids _ _) as [[rest' t'] q'].
  simpl in *. by rewrite IH.
Qed.

(** The call on an open folder that needs arranging and whose sub-folders
    are settled. *)
Lemma step_open_settled h cur tgt la kids items :
  (la <? getArrangeGeneration) = true -> Forall settled kids ->
  let T0 := arrange_heights_items items
              (fold_left (fun acc k => (acc + inject_Z (Q_llround (target_of k)))%Q)
                         kids (inject_Z h)) in
  step (HeightsOf h cur tgt la true kids items) =
  if Q_absdiff_gt_one (Q_max (inject_Z h) cur) T0
  then (HeightsOf h (Q_lerp (Q_max (inject_Z h) cur) T0 (getInterpolant true)) T0 (-1) true
          kids items,
        Q_llround T0, true)
  else (HeightsOf h T0 T0 getArrangeGeneration true kids items, Q_llround T0, false).
Proof.
  intros Hla Hkids T0. rewrite arrange_heights_unfold, Hla.
  rewrite (folders_settled kids Hkids). reflexivity.
Qed.

(** The call on an open folder that needs arranging calls every sub-folder
    shown. *)
Lemma step_open_next h cur tgt la kids items :
  (la <? getArrangeGeneration) = true ->
  exists cur' tgt' la',
    (step (HeightsOf h cur tgt la true kids items)).1.1 =
    HeightsOf h cur' tgt' la' true (map (fun k => (step k).1.1) kids) items.
Proof.
  intros Hla. rewrite arrange_heights_unfold, Hla.
  pose proof (folders_next kids (F32_of_S32 h) false) as Hk.
  destruct (arrange_heights_folders step kids (F32_of_S32 h) false) as [[kids' t'] q'].
  simpl in Hk. subst kids'. cbv zeta.
  destruct (absdiff_gt_one _ _); simpl; eauto.
Qed.

(** A folder whose height is its target, and that needs no arranging, is
    settled. *)
Lemma settled_at_target h T la is_open kids items :
  (inject_Z h <= T)%Q -> (la <? getArrangeGeneration) = false ->
  settled (HeightsOf h T T la is_open kids items).
Proof.
  intros HT Hla. unfold heights_settled. rewrite step_not_needed by done.
  rewrite (Q_max_r _ _ HT).
  assert (E : Q_absdiff_gt_one T T = false).
  { apply Q_absdiff_false. apply Qabs_case; intros; lra. }
  by rewrite E.
Qed.

(** The height comes to a target that stays the same: the distance to it
    goes down by the interpolant at least with every call, and the call that
    finds it within one sets the height to the target. *)
Lemma settles_at_fixed_target h is_open kids items T0 :
  (forall cur tgt la, (la <? getArrangeGeneration) = true ->
     step (HeightsOf h cur tgt la is_open kids items) =
     if Q_absdiff_gt_one (Q_max (inject_Z h) cur) T0
     then (HeightsOf h (Q_lerp (Q_max (inject_Z h) cur) T0 (getInterpolant is_open)) T0 (-1) is_open
             kids items, Q_llround T0, true)
     else (HeightsOf h T0 T0 getArrangeGeneration is_open kids items, Q_llround T0, false)) ->
  (inject_Z h <= T0)%Q ->
  forall (M : nat) cur tgt la,
    (la <? getArrangeGeneration) = true ->
    (Qabs (Q_max (inject_Z h) cur - T0) <= inject_Z (Z.of_nat M) * getInterpolant is_open)%Q ->
    exists N, settled (after N (HeightsOf h cur tgt la is_open kids items)).
Proof.
  intros Hstep HT. destruct (interpolant_fraction is_open) as [Hu0 Hu1].
  induction M as [|M IH]; intros cur tgt la Hla HM.
  - exists 1%nat. cbn [arrange_heights_n]. rewrite Hstep by done.
    destruct (Q_absdiff_gt_one _ _) eqn:Ea.
    + apply Q_absdiff_true in Ea. exfalso.
      change (inject_Z (Z.of_nat 0)) with 0%Q in HM. lra.
    + simpl. apply settled_at_target; [done|]. apply Z.ltb_irrefl.
  - destruct (Q_absdiff_gt_one (Q_max (inject_Z h) cur) T0) eqn:Ea.
    + pose proof (Q_absdiff_true _ _ Ea) as Hgt.
      pose proof (Q_lerp_closer _ _ _ Hu0 Hu1 Hgt) as Hcl.
      pose proof (Q_lerp_ge (inject_Z h) _ T0 _ Hu0 Hu1 (Q_max_ge _ cur) HT) as Hge.
      destruct (IH (Q_lerp (Q_max (inject_Z h) cur) T0 (getInterpolant is_open)) T0 (-1)) as [N HN].
      * apply Z.ltb_lt. lia.
      * rewrite (Q_max_r _ _ Hge).
        rewrite Nat2Z.inj_succ in HM. unfold Z.succ in HM. rewrite inject_Z_plus in HM.
        change (inject_Z 1) with 1%Q in HM. lra.
      * exists (S N). cbn [arrange_heights_n]. rewrite Hstep by done. rewrite Ea. exact HN.
    + exists 1%nat. cbn [arrange_heights_n]. rewrite Hstep by done. rewrite Ea. simpl.
      apply settled_at_target; [done|]. apply Z.ltb_irrefl.
Qed.

Lemma settles_at_target h is_open kids items T0 :
  (forall cur tgt la, (la <? getArrangeGeneration) = true ->
     step (HeightsOf h cur tgt la is_open kids items) =
     if Q_absdiff_gt_one (Q_max (inject_Z h) cur) T0
     then (HeightsOf h (Q_lerp (Q_max (inject_Z h) cur) T0 (getInterpolant is_open)) T0 (-1) is_open
             kids items, Q_llround T0, true)
     else (HeightsOf h T0 T0 getArrangeGeneration is_open kids items, Q_llround T0, false)) ->
  (inject_Z h <= T0)%Q ->
  forall cur tgt la,
    (la <? getArrangeGeneration) = true ->
    exists N, settled (after N (HeightsOf h cur tgt la is_open kids items)).
Proof.
  intros Hstep HT cur tgt la Hla. destruct (interpolant_fraction is_open) as [Hu0 _].
  destruct (Q_archimedean (Qabs (Q_max (inject_Z h) cur - T0)) _ Hu0) as [M HM].
  exact (settles_at_fixed_target h is_open kids items T0 Hstep HT M cur tgt la Hla HM).
Qed.

Lemma items_target_ge items : forall target,
  forallb (Z.leb 0) items = true ->
  (target <= arrange_heights_items items target)%Q.
Proof.
  unfold arrange_heights_items.
  induction items as [|i items IH]; intros target Hi; [apply Qle_refl|].
  simpl in Hi. apply andb_true_iff in Hi as [H0 Hi]. apply Z.leb_le in H0.
  cbn [fold_left]. apply Qle_trans with (target + inject_Z i)%Q; [|apply IH; exact Hi].
  assert (0 <= inject_Z i)%Q by (change 0%Q with (inject_Z 0); by rewrite <- Zle_Qle).
  lra.
Qed.

Lemma heights_sane_unfold h cur tgt la is_open kids items :
  heights_sane (HeightsOf h cur tgt la is_open kids items) = true <->
  0 <= h /\ (0 <= tgt)%Q /\ Forall (fun k => heights_sane k = true) kids /\
  forallb (Z.leb 0) items = true.
Proof.
  cbn [heights_sane]. rewrite !andb_true_iff, Z.leb_le, Qle_bool_iff, forallb_forall.
  rewrite Forall_forall. setoid_rewrite list_elem_of_In. tauto.
Qed.

Lemma inject_Z_nonneg z : 0 <= z -> (0 <= inject_Z z)%Q.
Proof. intros H. change 0%Q with (inject_Z 0). by rewrite <- Zle_Qle. Qed.

(** The sub-folders' calls leave the sub-folders sane, and add heights that
    are not negative. *)
Lemma folders_sane kids :
  Forall (fun k => heights_sane k = true ->
                   heights_sane (step k).1.1 = true /\ 0 <= (step k).1.2) kids ->
  Forall (fun k => heights_sane k = true) kids ->
  forall target req,
    Forall (fun k => heights_sane k = true) (arrange_heights_folders step kids target req).1.1 /\
    (target <= (arrange_heights_folders step kids target req).1.2)%Q.
Proof.
  induction 1 as [|k kids Hk _ IH]; intros Hs target req.
  - split; [constructor|apply Qle_refl].
  - apply Forall_cons in Hs as [Hs1 Hs]. destruct (Hk Hs1) as [Hk1 Hk2].
    cbn [arrange_heights_folders].
    destruct (step k) as [[k' ret] rq]. simpl in Hk1, Hk2.
    specialize (IH Hs (F32_add target (F32_of_S32 ret)) (req || rq)).
    destruct (arrange_heights_folders step kids _ _) as [[rest' t'] q'].
    simpl in *. destruct IH as [IH1 IH2]. split; [by constructor|].
    pose proof (inject_Z_nonneg ret Hk2). lra.
Qed.

(** A call leaves sane heights sane, and returns a height that is not
    negative. *)
Lemma step_sane t :
  heights_sane t = true -> heights_sane (step t).1.1 = true /\ 0 <= (step t).1.2.
Proof.
  induction t as [h cur tgt la is_open kids items IH] using Heights_ind'.
  intros Hs. pose proof Hs as Hs'.
  apply heights_sane_unfold in Hs' as (Hh & Ht & Hk & Hi).
  pose proof (inject_Z_nonneg h Hh) as Hh'.
  assert (Hgen : forall kids1 tgt1 la1 req1,
            Forall (fun k => heights_sane k = true) kids1 -> (0 <= tgt1)%Q ->
            let r := if Q_absdiff_gt_one (Q_max (inject_Z h) cur) tgt1
                     then (HeightsOf h
                             (Q_lerp (Q_max (inject_Z h) cur) tgt1 (getInterpolant is_open))
                             tgt1 (-1) is_open kids1 items, Q_llround tgt1, true)
                     else (HeightsOf h tgt1 tgt1 la1 is_open kids1 items,
                           Q_llround tgt1, req1) in
            heights_sane r.1.1 = true /\ 0 <= r.1.2).
  { intros kids1 tgt1 la1 req1 Hk1 Ht1. cbv zeta.
    destruct (Q_absdiff_gt_one _ _); cbn [fst snd]; (split;
      [by apply heights_sane_unfold|by apply Q_llround_nonneg]). }
  rewrite arrange_heights_unfold. cbv zeta.
  destruct (la <? getArrangeGeneration); [destruct is_open|].
  - destruct (folders_sane kids IH Hk (F32_of_S32 h) false) as [H1 H2].
    destruct (arrange_heights_folders step kids (F32_of_S32 h) false) as [[kids' t'] q'].
    simpl in H1, H2. apply Hgen; [done|].
    pose proof (items_target_ge items t' Hi). change (inject_Z h <= t')%Q in H2. lra.
  - apply Hgen; done.
  - apply Hgen; done.
Qed.

(** The target of an open folder whose sub-folders are settled is not below
    the height of its own row. *)
Lemma settled_target_ge h kids items :
  Forall (fun k => heights_sane k = true) kids -> forallb (Z.leb 0) items = true ->
  (inject_Z h <=
   arrange_heights_items items
     (fold_left (fun acc k => (acc + inject_Z (Q_llround (target_of k)))%Q)
                kids (inject_Z h)))%Q.
Proof.
  intros Hk Hi. eapply Qle_trans; [|by apply items_target_ge].
  set (a := inject_Z h).
  assert (H : forall b, (a <= b)%Q ->
            (a <= fold_left (fun acc k => (acc + inject_Z (Q_llround (target_of k)))%Q)
                            kids b)%Q).
  { induction Hk as [|k kids Hk1 _ IHk]; intros b Hb; [done|].
    cbn [fold_left]. apply IHk.
    destruct k as [h' c' t' l' o' ks' is']. apply heights_sane_unfold in Hk1 as (_ & Ht' & _).
    pose proof (inject_Z_nonneg _ (Q_llround_nonneg _ Ht')). simpl. lra. }
  apply H. apply Qle_refl.
Qed.

(** The call on an open folder that needs arranging: every sub-folder shown
    has been called, and the folder either asks for another arrangement or
    has its height at a target that is not below its own row. *)
Lemma step_open_result h cur tgt la kids items :
  (la <? getArrangeGeneration) = true -> 0 <= h ->
  Forall (fun k => heights_sane k = true) kids -> forallb (Z.leb 0) items = true ->
  exists cur' tgt' la',
    (step (HeightsOf h cur tgt la true kids items)).1.1 =
    HeightsOf h cur' tgt' la' true (map (fun k => (step k).1.1) kids) items /\
    Forall (fun k => heights_sane k = true) (map (fun k => (step k).1.1) kids) /\
    (la' = -1 \/ (la' = getArrangeGeneration /\ cur' = tgt' /\ (inject_Z h <= tgt')%Q)).
Proof.
  intros Hla Hh Hk Hi. rewrite arrange_heights_unfold, Hla.
  pose proof (folders_next kids (F32_of_S32 h) false) as Hn.
  assert (Hstep : Forall (fun k => heights_sane k = true ->
                    heights_sane (step k).1.1 = true /\ 0 <= (step k).1.2) kids).
  { apply Forall_forall. intros k _. apply step_sane. }
  destruct (folders_sane kids Hstep Hk (F32_of_S32 h) false) as [H1 H2].
  destruct (arrange_heights_folders step kids (F32_of_S32 h) false) as [[kids' t'] q'].
  simpl in Hn, H1, H2. subst kids'. cbv zeta.
  pose proof (items_target_ge items t' Hi) as H3.
  assert (H4 : (inject_Z h <= arrange_heights_items items t')%Q).
  { change (inject_Z h <= t')%Q in H2. lra. }
  destruct (absdiff_gt_one _ _); cbn [fst snd].
  - eexists _, _, _. split; [reflexivity|]. split; [done|]. by left.
  - eexists _, _, _. split; [reflexivity|]. split; [done|].
    destruct q'; [by left|]. right. done.
Qed.

(** While an open folder keeps asking, its sub-folders are called; once
    they are settled its target stays the same and its height comes to
    it. *)
Lemma open_folder_settles h items :
  0 <= h -> forallb (Z.leb 0) items = true ->
  forall (B : nat) kids,
    Forall (fun k => heights_sane k = true) kids ->
    Forall (fun k => settled (after B k)) kids ->
    forall cur tgt la, (la <? getArrangeGeneration) = true ->
    exists N, settled (after N (HeightsOf h cur tgt la true kids items)).
Proof.
  intros Hh Hi. induction B as [|B IH]; intros kids Hs Hk cur tgt la Hla.
  - cbn [arrange_heights_n] in Hk.
    apply (settles_at_target h true kids items _
             (fun cur tgt la Hla => step_open_settled h cur tgt la kids items Hla Hk)
             (settled_target_ge h kids items Hs Hi) cur tgt la Hla).
  - destruct (step_open_result h cur tgt la kids items Hla Hh Hs Hi)
      as (cur' & tgt' & la' & E & Hs' & Hcase).
    destruct Hcase as [->|(-> & -> & Hge)].
    + destruct (IH (map (fun k => (step k).1.1) kids) Hs') with (cur := cur') (tgt := tgt')
        (la := -1) as [N HN].
      * apply Forall_map. exact Hk.
      * apply Z.ltb_lt. lia.
      * exists (S N). cbn [arrange_heights_n]. rewrite E. exact HN.
    + exists 1%nat. cbn [arrange_heights_n]. rewrite E.
      apply settled_at_target; [done|]. apply Z.ltb_irrefl.
Qed.

Lemma common_bound (kids : list (@Heights QFloat32)) :
  Forall (fun k => exists N, settled (after N k)) kids ->
  exists B, Forall (fun k => settled (after B k)) kids.
Proof.
  induction 1 as [|k kids [N HN] _ [B HB]]; [by exists 0%nat|].
  exists (N `max` B)%nat. constructor.
  - apply (settled_later k N); [lia|done].
  - eapply Forall_impl; [exact HB|]. intros k' Hk'. apply (settled_later k' B); [lia|done].
Qed.

(** A folder that needs arranging settles. *)
Lemma needing_settles h is_open kids items :
  0 <= h -> forallb (Z.leb 0) items = true ->
  Forall (fun k => heights_sane k = true) kids ->
  Forall (fun k => exists N, settled (after N k)) kids ->
  forall cur tgt la, (la <? getArrangeGeneration) = true ->
  exists N, settled (after N (HeightsOf h cur tgt la is_open kids items)).
Proof.
  intros Hh Hi Hs Hk cur tgt la Hla. destruct is_open.
  - destruct (common_bound kids Hk) as [B HB].
    exact (open_folder_settles h items Hh Hi B kids Hs HB cur tgt la Hla).
  - apply (settles_at_target h false kids items (inject_Z h)
             (fun cur tgt la Hla => step_closed h cur tgt la kids items Hla)
             (Qle_refl _) cur tgt la Hla).
Qed.

(** Repeated arrangement settles: after some number of calls another call
    changes nothing and asks for nothing. *)
Lemma heights_settle t :
  heights_sane t = true -> exists N, settled (after N t).
Proof.
  induction t as [h cur tgt la is_open kids items IH] using Heights_ind'.
  intros Hs. apply heights_sane_unfold in Hs as (Hh & Ht & Hk & Hi).
  assert (Hkids : Forall (fun k => exists N, settled (after N k)) kids).
  { apply Forall_forall. intros k Hin.
    apply (proj1 (Forall_forall _ _) IH k Hin), (proj1 (Forall_forall _ _) Hk k Hin). }
  pose proof (needing_settles h is_open kids items Hh Hi Hk Hkids) as Hneed.
  assert (Hfresh : (-1 <? getArrangeGeneration) = true) by (apply Z.ltb_lt; lia).
  destruct (la <? getArrangeGeneration) eqn:Hla; [by apply Hneed|].
  destruct (Q_absdiff_gt_one (Q_max (inject_Z h) cur) tgt) eqn:Ea.
  - destruct (Hneed (Q_lerp (Q_max (inject_Z h) cur) tgt (getInterpolant is_open)) tgt (-1) Hfresh)
      as [N HN].
    exists (S N). cbn [arrange_heights_n]. rewrite step_not_needed by done.
    rewrite Ea. exact HN.
  - destruct (Q_absdiff_gt_one (Q_max (inject_Z h) tgt) tgt) eqn:Eb.
    + destruct (Hneed (Q_lerp (Q_max (inject_Z h) tgt) tgt (getInterpolant is_open)) tgt (-1)
                      Hfresh)
        as [N HN].
      exists (S (S N)). cbn [arrange_heights_n]. rewrite step_not_needed by done.
      rewrite Ea. cbn [fst]. rewrite step_not_needed by done. rewrite Eb. exact HN.
    + exists 1%nat. cbn [arrange_heights_n]. rewrite step_not_needed by done.
      rewrite Ea. cbn [fst]. unfold heights_settled. rewrite step_not_needed by done.
      by rewrite Eb.
Qed.

End Convergence.

(** ** Repeated calls of arrange() *)

(** A call that asks for nothing found the height within one unit of the
    target, and left the height at the target. *)
Lemma arrange_heights_quiet getArrangeGeneration (getInterpolant : bool -> @F32 QFloat32)
    h cur tgt la is_open kids items t' returned :
  arrange_heights getArrangeGeneration getInterpolant
    (HeightsOf h cur tgt la is_open kids items) = (t', returned, false) ->
  Q_absdiff_gt_one (Q_max (inject_Z h) cur) (target_of t') = false /\
  cur_of t' = target_of t'.
Proof.
  cbn [arrange_heights].
  match goal with
  | |- context [if la <? getArrangeGeneration then ?A else ?B] =>
    destruct (if la <? getArrangeGeneration then A else B) as [[[kids1 tgt1] la1] req1]
  end.
  change (@absdiff_gt_one QFloat32) with Q_absdiff_gt_one.
  change (@F32_max QFloat32) with Q_max. change (@F32_of_S32 QFloat32) with inject_Z.
  destruct (Q_absdiff_gt_one (Q_max (inject_Z h) cur) tgt1) eqn:Ea; [discriminate|].
  intros [= <- _ _]. by split.
Qed.

Lemma heights_of_sane getDebugFilters show_folder_state filter_generation
    (f : @LLFolderViewFolder QFloat32) :
  heights_nonneg f = true ->
  heights_sane (heights_of getDebugFilters show_folder_state filter_generation f) = true.
Proof.
  induction f as [b d fs its IH] using Folder_ind'. intros H.
  cbn [heights_nonneg] in H. rewrite !andb_true_iff in H. destruct H as [[[Hh Ht] Hfs] Hits].
  rewrite heights_of_unfold. apply heights_sane_unfold.
  split; [by apply Z.leb_le|]. split; [by apply Qle_bool_iff|]. split.
  - induction IH as [|c fs Hc _ IHfs]; [constructor|].
    simpl in Hfs. apply andb_true_iff in Hfs as [Hc1 Hfs].
    cbn [heights_of_shown]. destruct (folder_shown _ _ _ c); [constructor|]; auto.
  - apply forallb_forall. intros z Hz. apply in_map_iff in Hz as (it & <- & Hit).
    apply filter_In in Hit as [Hit _].
    exact (proj1 (forallb_forall _ _) Hits it Hit).
Qed.

Lemma hide_folders_hidden {fl : Float32} beyond_height here rounded_height
    (fs : list LLFolderViewFolder) i c' :
  hide_folders beyond_height here rounded_height fs !! i = Some c' ->
  beyond_height (RFolder (here ++ [i])) rounded_height = true ->
  mVisible (self c') = false.
Proof.
  unfold hide_folders. rewrite list_lookup_imap. destruct (fs !! i) as [c|]; [|done].
  simpl. intros [= <-] ->. by destruct c as [[] ? ? ?].
Qed.

Lemma hide_items_hidden beyond_height here rounded_height
    (its : list LLFolderViewItem) j it' :
  hide_items beyond_height here rounded_height its !! j = Some it' ->
  beyond_height (RItem here j) rounded_height = true ->
  mVisible it' = false.
Proof.
  unfold hide_items. rewrite list_lookup_imap. destruct (its !! j) as [it|]; [|done].
  simpl. intros [= <-] ->. by destruct it.
Qed.


(** * The properties on the sample inventory *)

Lemma previous_of_next_is_identity_witness :
  flattened Sample.inventory =
    [Sample.Clothing; Sample.Shirt; Sample.Pants; Sample.Objects; Sample.Notecard] /\
  getNextOpenNode Sample.inventory Sample.Pants true = At Sample.Objects /\
  getPreviousOpenNode Sample.inventory Sample.Objects = At Sample.Pants.
Proof.
  assert (Hflat : flattened Sample.inventory =
            [Sample.Clothing; Sample.Shirt; Sample.Pants; Sample.Objects;
             Sample.Notecard]) by reflexivity.
  assert (Hin : Sample.Pants ∈ flattened Sample.inventory).
  { rewrite Hflat. apply list_elem_of_In. simpl. tauto. }
  assert (Hlast : last (flattened Sample.inventory) <> Some Sample.Pants).
  { rewrite Hflat. discriminate. }
  destruct (previous_of_next_is_identity Sample.inventory Sample.Pants Hin Hlast)
    as (M & HM & Hprev).
  assert (HM' : getNextOpenNode Sample.inventory Sample.Pants true = At Sample.Objects)
    by reflexivity.
  assert (M = Sample.Objects) by congruence. subst M.
  split; [exact Hflat|]. split; [exact HM|exact Hprev].
Defined.

(** The forward walk from the last visible node returns null, not the node. *)
Lemma next_at_the_end_is_null :
  getNextOpenNode Sample.inventory Sample.Notecard true = Null /\
  getNextOpenNode Sample.inventory Sample.Notecard true <> At Sample.Notecard /\
  getPreviousOpenNode Sample.inventory Sample.Clothing = At root_ref /\
  getPreviousOpenNode Sample.inventory Sample.Clothing <> At Sample.Clothing.
Proof. by vm_compute. Qed.

Lemma walk_without_neighbour_witness :
  getNextOpenNode Sample.inventory Sample.Notecard true = Null /\
  getPreviousOpenNode Sample.inventory Sample.Clothing = At (RFolder []).
Proof.
  split.
  - refine (proj1 (walk_without_neighbour Sample.inventory Sample.Notecard []
                     Sample.inventory true eq_refl eq_refl) _ eq_refl).
    by eapply ends_at_root.
  - refine (proj1 (proj1 (proj2 (walk_without_neighbour Sample.inventory Sample.Clothing []
                     Sample.inventory true eq_refl eq_refl)) _ eq_refl)).
    intros i c Hi. lia.
Defined.

Lemma getItemByID_reads_the_index_witness :
  getItemByID Sample.view 0%N = Some root_ref /\
  getItemByID Sample.view 2%N = Some Sample.Shirt /\
  getItemByID (addItemID 9%N Sample.Chair Sample.view) 9%N = Some Sample.Chair /\
  getItemByID (removeItemID 2%N Sample.view) 2%N = None.
Proof.
  split; [exact (proj1 (getItemByID_reads_the_index Sample.view 0%N) eq_refl)|].
  destruct (proj2 (getItemByID_reads_the_index Sample.view 2%N) eq_refl)
    as (Hread & _ & Hgone).
  split; [rewrite Hread; reflexivity|]. split; [|exact Hgone].
  exact (proj1 (proj2 (proj2 (getItemByID_reads_the_index Sample.view 9%N) eq_refl))
           Sample.Chair).
Defined.

(** On a disabled view a selected node that is not removable stops nothing
    and nothing is reported: the call does nothing at all. *)
Lemma disabled_view_reports_nothing :
  Sample.Landmark ∈ mSelectedItems Sample.disabled_view /\
  isRemovable (as_folder Sample.disabled_view) Sample.Landmark = Some false /\
  removeSelectedItems false (fun _ => true) Sample.disabled_view
    = Some Sample.disabled_view /\
  infos Sample.disabled_view = [].
Proof.
  split; [|by vm_compute]. apply elem_of_cons. right. apply elem_of_cons. by left.
Qed.

Lemma removeSelectedItems_aborts_witness :
  infos <$> removeSelectedItems false (fun _ => true) Sample.locked_view
    = Some ["Cannot delete Landmark"] /\
  removeSelectedItems false (fun _ => true) Sample.disabled_view
    = Some Sample.disabled_view.
Proof.
  assert (Hvalid : forall fv, as_folder fv = Sample.locked ->
            mSelectedItems fv = [Sample.Notecard; Sample.Landmark] ->
            Forall (fun r => is_Some (node_at (as_folder fv) r)) (mSelectedItems fv)).
  { intros fv -> ->. repeat constructor; by eexists. }
  assert (Hblock : forall fv, as_folder fv = Sample.locked ->
            mSelectedItems fv = [Sample.Notecard; Sample.Landmark] ->
            exists r, r ∈ mSelectedItems fv /\ isRemovable (as_folder fv) r = Some false).
  { intros fv -> ->. exists Sample.Landmark. split; [|reflexivity].
    apply elem_of_cons. right. apply elem_of_cons. by left. }
  split.
  - destruct (proj1 (removeSelectedItems_aborts false (fun _ => true) Sample.locked_view
                       (Hvalid Sample.locked_view eq_refl eq_refl)
                       (Hblock Sample.locked_view eq_refl eq_refl)) eq_refl)
      as (before & blocker & after & it & Hsel & Hbefore & Hblocker & Hit & ->).
    simpl. f_equal. f_equal.
    destruct before as [|b0 before].
    + injection Hsel as <- _. discriminate Hblocker.
    + injection Hsel as <- Hsel. destruct before as [|b1 before].
      * injection Hsel as <- _. by injection Hit as <-.
      * injection Hsel as _ Hsel. by destruct before.
  - exact (proj2 (removeSelectedItems_aborts false (fun _ => true) Sample.disabled_view
                    (Hvalid Sample.disabled_view eq_refl eq_refl)
                    (Hblock Sample.disabled_view eq_refl eq_refl)) eq_refl).
Defined.

(** The Hat lies in the open folder Outfit, which lies in the closed folder
    Wardrobe.  The Hat is deselected, and the new selection is the Wardrobe,
    not the Outfit, the nearest potentially visible folder above the Hat. *)
Lemma fallback_is_not_the_nearest :
  getCurSelectedItem Sample.hat_selected = Some Sample.Hat /\
  getParentFolder Sample.Hat = Some [0%nat; 0%nat] /\
  potentiallyVisible Sample.hat_selected Sample.Outfit = true /\
  mSelectedItems (sanitizeSelection 0%N Sample.hat_selected) = [Sample.Wardrobe] /\
  Sample.Wardrobe <> Sample.Outfit.
Proof. by vm_compute. Qed.

Lemma sanitizeSelection_result_witness :
  mSelectedItems (sanitizeSelection 0%N Sample.chair_selected) = [Sample.Objects].
Proof.
  assert (Hroot : root_ref ∉ mSelectedItems Sample.chair_selected).
  { intros [H|H]%elem_of_cons; [discriminate H|by apply elem_of_nil in H]. }
  exact (eq_trans
           (proj2 (proj2 (sanitizeSelection_result 0%N Sample.chair_selected Hroot))
                  eq_refl)
           eq_refl).
Defined.




Lemma numDescendantsSelected_stays_accurate_witness :
  let t := apply_mutations
             [MSetSelection (Some Sample.Chair) true;
              MChangeSelection Sample.Shirt true;
              MSelectItem Sample.Notecard;
              MExtractItem [0%nat] Sample.Shirt;
              MAddFolder [1%nat] 0 (selectItem Sample.Hat Sample.wardrobe);
              MDeselectItem Sample.Notecard]
             Sample.inventory in
  mNumDescendantsSelected (members t) = count_selected_descendants t.
Proof.
  intros t.
  apply (numDescendantsSelected_stays_accurate
           [MSetSelection (Some Sample.Chair) true;
            MChangeSelection Sample.Shirt true;
            MSelectItem Sample.Notecard;
            MExtractItem [0%nat] Sample.Shirt;
            MAddFolder [1%nat] 0 (selectItem Sample.Hat Sample.wardrobe);
            MDeselectItem Sample.Notecard]
           Sample.inventory eq_refl ltac:(by vm_compute) [] t eq_refl).
Defined.



Lemma setSelection_marks_the_selection_witness :
  let t := selectItem Sample.Chair Sample.inventory in
  let Objects := Folder (Sample.item 4%N "Objects" true false)
                   (set_mNumDescendantsSelected 1 Sample.closed_members) []
                   [Sample.item 5%N "Chair" true true] in
  get_folder t [1%nat] = Some Objects /\
  isSelected (Folder_setSelection Objects [1%nat] (Some Sample.Chair) false t).1
             Sample.Chair = false /\
  isSelected (Folder_setSelection Objects [1%nat] (Some Sample.Objects) false t).1
             Sample.Objects = true.
Proof.
  intros t Objects.
  assert (Hg : get_folder t [1%nat] = Some Objects) by reflexivity.
  split; [exact Hg|]. split.
  - rewrite (setSelection_marks_the_selection t [1%nat] Objects (Some Sample.Chair)
               false Sample.Chair Hg). reflexivity.
  - rewrite (setSelection_marks_the_selection t [1%nat] Objects (Some Sample.Objects)
               false Sample.Objects Hg). reflexivity.
Defined.

Lemma changeSelection_changes_one_flag_witness :
  let t := selectItem Sample.Chair Sample.inventory in
  get_folder t [] = Some t /\
  isSelected (Folder_changeSelection t [] Sample.Shirt true t).1 Sample.Shirt = true /\
  isSelected (Folder_changeSelection t [] Sample.Shirt true t).1 Sample.Chair = true.
Proof.
  intros t. split; [reflexivity|]. split.
  - rewrite (changeSelection_changes_one_flag t [] t Sample.Shirt true Sample.Shirt
               eq_refl). reflexivity.
  - rewrite (changeSelection_changes_one_flag t [] t Sample.Shirt true Sample.Chair
               eq_refl). reflexivity.
Defined.

Lemma recursiveDeselect_clears_the_subtree_witness :
  let t := selectItem Sample.Shirt (selectItem Sample.Chair Sample.inventory) in
  let Clothing := Folder (Sample.item 1%N "Clothing" true false)
                    (set_mNumDescendantsSelected 1 Sample.open_members) []
                    [Sample.item 2%N "Shirt" true true;
                     Sample.item 3%N "Pants" true false] in
  counts_accurate t = true /\
  get_folder t [0%nat] = Some Clothing /\
  isSelected (recursiveDeselect Clothing [0%nat] true t) Sample.Shirt = false /\
  isSelected (recursiveDeselect Clothing [0%nat] true t) Sample.Chair = true.
Proof.
  intros t Clothing.
  assert (Hacc : counts_accurate t = true) by reflexivity.
  assert (Hg : get_folder t [0%nat] = Some Clothing) by reflexivity.
  split; [exact Hacc|]. split; [exact Hg|]. split.
  - rewrite (recursiveDeselect_clears_the_subtree t [0%nat] Clothing true Sample.Shirt
               Hacc Hg). reflexivity.
  - rewrite (recursiveDeselect_clears_the_subtree t [0%nat] Clothing true Sample.Chair
               Hacc Hg). reflexivity.
Defined.

Lemma clearSelection_deselects_everything_witness :
  selection_consistent Sample.chair_selected /\
  mSelectedItems (clearSelection Sample.chair_selected) = [] /\
  isSelected (as_folder (clearSelection Sample.chair_selected)) Sample.Chair = false.
Proof.
  assert (Hc : selection_consistent Sample.chair_selected).
  { apply selection_consistentb_sound. vm_compute. reflexivity. }
  split; [exact Hc|].
  destruct (clearSelection_deselects_everything Sample.chair_selected Hc)
    as (Hl & _ & Hf).
  split; [exact Hl|apply Hf].
Defined.

Lemma view_setSelection_selects_exactly_witness :
  selection_consistent Sample.chair_selected /\
  let fv' := (LLFolderView_setSelection (Some Sample.Shirt) true true
                Sample.chair_selected).1 in
  mSelectedItems fv' = [Sample.Shirt] /\
  isSelected (as_folder fv') Sample.Chair = false /\
  isSelected (as_folder fv') Sample.Shirt = true.
Proof.
  assert (Hc : selection_consistent Sample.chair_selected).
  { apply selection_consistentb_sound. vm_compute. reflexivity. }
  split; [exact Hc|].
  destruct (view_setSelection_selects_exactly (Some Sample.Shirt) true true
              Sample.chair_selected Hc) as (Hl & Hf & _).
  { intros s [= <-]. split; [discriminate|reflexivity]. }
  split; [exact Hl|]. split; rewrite Hf; reflexivity.
Defined.

Lemma view_changeSelection_keeps_list_and_flags_witness :
  selection_consistent Sample.chair_selected /\
  let fv' := (LLFolderView_changeSelection (Some Sample.Shirt) true
                Sample.chair_selected).1 in
  selection_consistent fv' /\
  isSelected (as_folder fv') Sample.Shirt = true /\
  isSelected (as_folder fv') Sample.Chair = true.
Proof.
  assert (Hc : selection_consistent Sample.chair_selected).
  { apply selection_consistentb_sound. vm_compute. reflexivity. }
  split; [exact Hc|].
  destruct (view_changeSelection_keeps_list_and_flags Sample.Shirt true
              Sample.chair_selected Hc) as (Hc' & Hf).
  { discriminate. }
  { reflexivity. }
  split; [exact Hc'|]. split; rewrite Hf; reflexivity.
Defined.

Lemma sanitizeSelection_keeps_list_and_flags_witness :
  selection_consistent Sample.hat_selected /\
  selection_consistent (sanitizeSelection 0%N Sample.hat_selected) /\
  mSelectedItems (sanitizeSelection 0%N Sample.hat_selected) = [Sample.Wardrobe].
Proof.
  assert (Hc : selection_consistent Sample.hat_selected).
  { apply selection_consistentb_sound. vm_compute. reflexivity. }
  split; [exact Hc|]. split; [|reflexivity].
  apply (sanitizeSelection_keeps_list_and_flags 0%N Sample.hat_selected Hc).
  intros n Hn. vm_compute in Hn. injection Hn as <-. reflexivity.
Defined.

Lemma setOpenArrangeRecursively_reaches_witness :
  let Outfit := Folder (Sample.item 2%N "Outfit" true false) Sample.open_members []
                  [Sample.item 3%N "Hat" true false] in
  let t' := Folder_setOpenArrangeRecursively true Outfit [0%nat; 0%nat] true RECURSE_UP
              Sample.wardrobe in
  get_folder Sample.wardrobe [0%nat; 0%nat] = Some Outfit /\
  node_isOpen Sample.wardrobe Sample.Wardrobe = false /\
  node_isOpen t' Sample.Wardrobe = true.
Proof.
  intros Outfit t'.
  assert (Hg : get_folder Sample.wardrobe [0%nat; 0%nat] = Some Outfit) by reflexivity.
  split; [exact Hg|]. split; [reflexivity|].
  destruct (setOpenArrangeRecursively_reaches true Sample.wardrobe [0%nat; 0%nat] Outfit
              true RECURSE_UP Hg [0%nat] eq_refl) as (_ & _ & Hup & _).
  apply Hup; [by exists [0%nat]|reflexivity|discriminate].
Defined.

(** Outfit, an open folder below the root, is closed by the first toggle
    and open again after the second. *)
Lemma toggleOpen_twice_witness :
  node_isOpen Sample.wardrobe Sample.Outfit = true /\
  node_isOpen (toggleOpen true [0%nat; 0%nat] Sample.wardrobe) Sample.Outfit = false /\
  node_isOpen (toggleOpen true [0%nat; 0%nat]
                 (toggleOpen true [0%nat; 0%nat] Sample.wardrobe)) Sample.Outfit
  = node_isOpen Sample.wardrobe Sample.Outfit.
Proof.
  split; [reflexivity|]. split; [reflexivity|].
  assert (Hthis : [0%nat; 0%nat] <> [] \/ node_isOpen Sample.wardrobe (RFolder []) = true)
    by (left; discriminate).
  apply (proj1 (toggleOpen_twice true [0%nat; 0%nat] Sample.wardrobe Hthis)).
Defined.

Lemma setOpenArrangeRecursively_requests_arrange_witness :
  let Outfit := Folder (Sample.item 2%N "Outfit" true false) Sample.open_members []
                  [Sample.item 3%N "Hat" true false] in
  let t' := Folder_setOpenArrangeRecursively true Outfit [0%nat; 0%nat] false RECURSE_UP
              Sample.wardrobe in
  node_isOpen Sample.wardrobe (RFolder []) = true /\
  node_isOpen t' (RFolder [0%nat; 0%nat])
    <> node_isOpen Sample.wardrobe (RFolder [0%nat; 0%nat]) /\
  arrange_requested t' [0%nat] = true.
Proof.
  intros Outfit t'.
  assert (Hopen : node_isOpen Sample.wardrobe (RFolder []) = true) by reflexivity.
  assert (Hne : node_isOpen t' (RFolder [0%nat; 0%nat])
                <> node_isOpen Sample.wardrobe (RFolder [0%nat; 0%nat]))
    by (vm_compute; discriminate).
  split; [exact Hopen|]. split; [exact Hne|].
  apply (proj2 (setOpenArrangeRecursively_requests_arrange true Outfit [0%nat; 0%nat]
                  false RECURSE_UP Sample.wardrobe Hopen) [0%nat; 0%nat] [0%nat] Hne).
  by exists [0%nat].
Defined.

Lemma arrange_settles_or_asks_again_witness :
  let run := Folder_arrange 0 true SHOW_NON_EMPTY_FOLDERS Sample.half_way 8
                            Sample.rows_of_20 [0%nat] (Some 0) (-1)
                            Sample.clothing_opened 0 in
  let rest := Folder_arrange 0 true SHOW_NON_EMPTY_FOLDERS Sample.half_way 8
                             Sample.rows_of_20 [0%nat] (Some 0) (-1)
                             Sample.clothing_at_rest 0 in
  (run.2 = true /\ mLastArrangeGeneration (members run.1.1.1.1) = -1) /\
  (rest.2 = false /\
   mCurHeight (members rest.1.1.1.1) = mTargetHeight (members rest.1.1.1.1)).
Proof.
  intros run rest.
  assert (Hrun : Folder_arrange 0 true SHOW_NON_EMPTY_FOLDERS Sample.half_way 8
                   Sample.rows_of_20 [0%nat] (Some 0) (-1) Sample.clothing_opened 0
                 = (run.1.1.1.1, run.1.1.1.2, run.1.1.2, run.1.2, run.2))
    by (subst run; by destruct (Folder_arrange _ _ _ _ _ _ _ _ _ _ _)
                        as [[[[? ?] ?] ?] ?]).
  assert (Hrest : Folder_arrange 0 true SHOW_NON_EMPTY_FOLDERS Sample.half_way 8
                   Sample.rows_of_20 [0%nat] (Some 0) (-1) Sample.clothing_at_rest 0
                 = (rest.1.1.1.1, rest.1.1.1.2, rest.1.1.2, rest.1.2, rest.2))
    by (subst rest; by destruct (Folder_arrange _ _ _ _ _ _ _ _ _ _ _)
                         as [[[[? ?] ?] ?] ?]).
  assert (Hyes : run.2 = true) by (by vm_compute).
  assert (Hno : rest.2 = false) by (by vm_compute).
  split.
  - split; [exact Hyes|].
    exact (proj1 (arrange_settles_or_asks_again (fl := QFloat32) 0 true
                    SHOW_NON_EMPTY_FOLDERS Sample.half_way 8 Sample.rows_of_20
                    [0%nat] (Some 0) (-1) Sample.clothing_opened 0
                    run.1.1.1.1 run.1.1.1.2 run.1.1.2 run.1.2 run.2 Hrun) Hyes).
  - split; [exact Hno|].
    exact (proj1 (proj2 (arrange_settles_or_asks_again (fl := QFloat32) 0 true
                    SHOW_NON_EMPTY_FOLDERS Sample.half_way 8 Sample.rows_of_20
                    [0%nat] (Some 0) (-1) Sample.clothing_at_rest 0
                    rest.1.1.1.1 rest.1.1.1.2 rest.1.1.2 rest.1.2 rest.2 Hrest) Hno)).
Defined.

Lemma open_node_walks_land_on_visible_nodes_witness :
  getNextOpenNode Sample.inventory Sample.Pants true = At Sample.Objects /\
  getVisible_at Sample.inventory Sample.Objects = Some true.
Proof.
  assert (Hnext : getNextOpenNode Sample.inventory Sample.Pants true = At Sample.Objects)
    by reflexivity.
  split; [exact Hnext|].
  destruct (open_node_walks_land_on_visible_nodes Sample.inventory Sample.Pants true
              Sample.Objects (or_introl Hnext)) as [Hv|Hsame]; [exact Hv|discriminate].
Defined.

Lemma removeSelectedItems_asks_for_selected_nodes_witness :
  exists fv',
    removeSelectedItems true (fun _ => true) Sample.chair_selected = Some fv' /\
    listener_calls fv' = [call_removeItem Sample.Chair] /\
    skeleton (as_folder fv') = skeleton (as_folder Sample.chair_selected).
Proof.
  destruct (removeSelectedItems true (fun _ => true) Sample.chair_selected)
    as [fv'|] eqn:Hrun; [|by vm_compute in Hrun].
  exists fv'. split; [reflexivity|].
  destruct (removeSelectedItems_asks_for_selected_nodes true (fun _ => true)
              Sample.chair_selected fv' Hrun) as [Hshape _].
  split; [|exact Hshape].
  vm_compute in Hrun. injection Hrun as <-. reflexivity.
Defined.

Lemma doDelete_respects_canDoDelete_witness :
  canDoDelete Sample.locked_view = Some false /\
  exists fv', doDelete true (fun _ => true) Sample.locked_view = Some fv' /\
              listener_calls fv' = listener_calls Sample.locked_view.
Proof.
  assert (Hno : canDoDelete Sample.locked_view = Some false) by reflexivity.
  split; [exact Hno|].
  destruct (doDelete true (fun _ => true) Sample.locked_view) as [fv'|] eqn:Hrun;
    [|by vm_compute in Hrun].
  exists fv'. split; [reflexivity|].
  exact (proj1 (doDelete_respects_canDoDelete true (fun _ => true) Sample.locked_view
                  fv' Hno Hrun)).
Defined.

Lemma extractItem_addItem_round_trip_witness :
  let taken := extractItem [0%nat] Sample.Shirt Sample.inventory in
  get_item Sample.inventory [0%nat] 0 = Some (Sample.item 2%N "Shirt" true false) /\
  taken.2 = Some (NItem (Sample.item 2%N "Shirt" true false)) /\
  invalidated (addItem [0%nat] 0 (Sample.item 2%N "Shirt" true false) taken.1)
  = invalidated Sample.inventory.
Proof.
  intros taken.
  assert (Hit : get_item Sample.inventory [0%nat] 0
                = Some (Sample.item 2%N "Shirt" true false)) by reflexivity.
  split; [exact Hit|].
  exact (extractItem_addItem_round_trip [0%nat] 0%nat
           (Sample.item 2%N "Shirt" true false) Sample.inventory Hit).
Defined.

